(* ===== verification/_CoqProject ===== *)
-Q . S2P
Prelude.v
Go.v
Hashing.v
GoFloat.v
GoText.v
Assignment.v
RebalanceStrategy.v
UserCache.v
Notifier.v
Poison.v
Hold.v
Transition.v
Store.v
StoreMemory.v
ConnTracker.v
Hooks.v
World.v
Rebalancer.v
Drain.v
Discovery.v
BackendDiscovery.v
Backends.v
HealthChecker.v
RedisBreaker.v
Config.v
RateLimiter.v
JWT.v
Proxy.v
Session.v
Endpoints.v
Wiring.v
Replicas.v
Failover.v
System.v
RedisClient.v
Redis.v
RedisTable.v
RedisOps.v
StoreRedis.v
RedisSticky.v
Ownership.v
PgClient.v
Postgres.v
PgTable.v
StorePostgres.v
PgConcurrency.v
PgLock.v
NotifyBus.v
GoJSON.v
GoLoop.v
K8sWatch.v
Accounts.v
Lifecycle.v
SampleBackend.v
Executables.v
Login.v
Gateway.v
GoFormat.v
Metrics.v
ProxyMetrics.v
WsBuffer.v
WebSocket.v
WsOrder.v
WsLive.v
Deployment.v
DeploymentReplicas.v
DeploymentPg.v
