(* ===== verification/Prelude.v ===== *)
(** * sticky-proxy: a verification development

    sticky-proxy is a Go reverse proxy that keeps every user on one backend.
    A request carries a JWT; its routing claim is the user's key.  In "hash"
    mode the key's CRC-32 selects a backend from the sorted list of active
    ones; in "assignment" mode a table shared by all replicas (Redis or
    Postgres) says which backend a user is on, and how heavy the user is.
    Around that path run a health checker, backend and account discovery, a
    drain manager and a rebalancer that move users between backends, webhooks
    that tell backends about it, and caches, breakers and limiters on every
    replica.  This library models that program in Rocq, one file per
    component, and proves what makes each component correct; the sources are
    under src/internal/proxy unless a path is given.

    ** The files

    Foundations.
    - Prelude: scope, tactics and hints, sums over lists and maps.
    - Go: errors, time, the unspecified iteration order of maps ([MapIter]: a
      theorem that assumes nothing else about it holds for every order),
      [sort.Strings], machine widths.  GoFloat: float64 as binary64.  GoFormat:
      [FormatFloat].  GoText: [Atoi], [ParseDuration], [Split], [TrimSpace].
      GoJSON: encoding/json.  GoLoop: the shape of the background loops.
    - Hashing: hashing.go, CRC-32 bit by bit.
    - Assignment: assignment.go, with the JSON encoding of an assignment.

    State of one replica.
    - UserCache: user_cache.go.  JWT: jwt.go and jwt_cache.go.  RateLimiter:
      rate_limiter.go.  Poison: poison.go.  Hold: hold.go, with the blocked
      requests.  ConnTracker: conn_tracker.go.  Backends: backends.go, the
      failure breaker and the eviction of a backend's users.  HealthChecker:
      health_checker.go.  RedisBreaker: the circuit breaker of redis.go.
      Notifier: the debounced subscriber of cache_notifier.go.  NotifyBus: its
      two transports, cache_notifier_postgres.go and the Redis one.  Hooks:
      hooks.go.  Metrics: metrics.go.  ProxyMetrics: the calls of metrics.go
      that a request makes, in the handler.

    WebSockets.
    - WebSocket: the bridge of websocket.go with its five goroutines, as one
      step system.  WsBuffer: [readAllPooled].  WsOrder, WsLive: what the
      bridge delivers and that it ends.  Gateway: [proxyWebSocket] and
      [dialBackend], with the response writer of proxy.go, the transport of
      backends.go and the mux of src/cmd/proxy/main.go.

    The shared table.
    - Store: the interface store.go and its contract: [BackendsSpec] for the
      set of active backends, [TableSpec] and [AssignSpec] for the
      assignments, [TableLimits] for what a store can hold.  Clients are
      verified against the classes.
    - StoreMemory: store_memory.go, an instance of the first.
    - RedisClient: the commands of a Redis server as a class with laws, and an
      in-memory server that satisfies them.  Redis: the table operations of
      redis.go and the script assign.lua.  RedisTable, RedisOps: their
      specifications.  StoreRedis: store_redis.go, an instance of the classes.
      RedisSticky: the sticky keys of redis.go and sticky.lua.
    - PgClient: the statements of store_postgres.go and a PostgreSQL server as
      a class with laws, and an in-memory server that satisfies them.
      Postgres: the methods as programs of statements and transactions.
      PgTable: their effect on the tables.  StorePostgres: the instance of the
      classes.  PgConcurrency: the transactions interleaved row by row, with
      the locks the server takes.  PgLock: the advisory locker.
    - Ownership: src/pkg/ownership/checker.go, the library backends use to
      notice that they lost a user.

    Moving users.
    - RebalanceStrategy: the two [ComputeMoves] of rebalancer.go.
    - Transition: transition.go and the Redis lock, all replicas interleaved.
    - World: the parts transitions work on, with a trace of the hooks and
      events they send and the state in which each was sent.
    - Rebalancer: [rebalance] of rebalancer.go.  Drain: drain.go.  Discovery:
      discovery.go.  Accounts: the three account sources and the loop.
      BackendDiscovery: discovery_backends.go and discovery_kubernetes.go.
      K8sWatch: the informer's handler and the loop behind it.

    The whole.
    - Proxy: [ServeHTTP] of proxy.go and what it calls.  Endpoints: admin.go,
      debug.go, health.go.  Config: src/internal/config/config.go.  Wiring:
      [New] of proxy.go, from a configuration to the parts.
    - Lifecycle: the loops, [Rebalancer.Trigger], [StartDiscovery], [Stop] and
      the order of a shutdown.
    - SampleBackend: src/cmd/backend/main.go, the other end of the hooks.
      Executables: [main] of src/cmd/proxy/main.go and src/cmd/backend/main.go,
      and src/k6/generate_jwt.go.
    - Compositions.  Session: one proxy over time, the requests of all users
      interleaved with invalidations and bindings.  Replicas: any number of
      proxies over one store, requests of all of them interleaved with everything
      else.  System: schedules of all operations on one store.  Failover: the
      breaker, the table and the poison pill detector during an outage.  Login:
      the sample backend's login through the public path of the proxy, with what
      net/http does to a header on its way.
    - Deployment, DeploymentReplicas, DeploymentPg: small systems over the Redis
      and the Postgres store, on which the theorems about abstract stores are
      instantiated.

    ** How the code is modelled

    A struct is a record; a method is a function from the receiver to its
    results and the new receiver, with the same branches and early returns.
    [(T, error)] is [result T].  A slice index out of range, a nil dereference
    or another run-time panic is [None]; theorems that give a result thus show
    that there is no panic.  The clock is an argument wherever the code reads
    it.  Every [range] over a map goes through [MapIter], with its own site.
    Log lines are left out, and so are, outside ProxyMetrics, the calls of
    Metrics, which influence no decision.

    A call under a mutex, an operation on a sync.Map and a Redis command or
    script are single steps.  Where goroutines matter (Hold, Transition,
    Drain's table of drains, Notifier, NotifyBus, the concurrent probes of
    HealthChecker and others' changes between its passes, the WebSocket bridge,
    PgConcurrency, PgLock, K8sWatch with others' changes of the store, Session,
    Replicas, the histogram of Metrics, the calls of ProxyMetrics) there is a step
    relation or an arbitrary schedule;
    elsewhere a function runs from its first line to its last without
    interference.  In [ServeHTTP]
    the hold is the exception: what happens while a request waits is an
    arbitrary function of the proxy.  Goroutines the code starts and forgets
    (the eviction of a backend's users, assign hooks) are separate functions.

    Outside the repository are the Redis server (a class with the documented
    effect of each command, and failures), the PostgreSQL server and its driver
    (likewise, with transactions), the lock server (a class), the JWT
    parser (a function, with the hypothesis that a token it accepts stays
    accepted, with the same claims, until it expires) and signer, the reverse proxy, URL
    parser, resolver, Kubernetes client and HTTP probes (arguments), the informer and the
    WebSocket library (environments of a step system: an informer changes its
    copy and then calls the handler; a connection delivers what arrives, a
    write succeeds or fails, and after Close both fail).

    ** Bounds

    Table weights sum to less than [two53]: Lua numbers are doubles, and
    below 2^53 the script's arithmetic is exact; sums of weights in the
    strategies are exact integers, which is the code as long as they fit an
    [int].  Lists of backends are shorter than [two32],
    since the code takes [uint32(len(...))].  Instants written to the table
    have a year JSON can represent ([year_ok]).  Refinement theorems about
    clocks assume that time does not run backwards.  Fuel appears in
    [ParseDuration], [TrimSpace] and the batches of Ownership, bounded by the
    length of the input, which each round shortens; in the JSON parser, twice
    the length of the text and two, since every call consumes a byte or ends a
    value; in [read_loop], the calls the reader has left; in [shortest], 17
    digits, which identify every float64; in the registration of the sample
    backend, the number of retries, where the code has no bound.  In Replicas
    [latency] bounds the time between the answer of the store and the write of
    the cache entry, which the code does not; the theorems hold for every bound.

    ** What the theorems show

    The claims are numbered C1 to C40; the theorems without a number are part
    of the development in the same way.
    - Requests: C1 only authenticated users reach a backend, as themselves; C2
      a session sticks to its backend for as long as nothing ends it, whatever
      else happens on the replica; C3, C4 new users go where the table or the hash
      says; C21 a login through the proxy sticks on every replica, for the account
      id that arrives in the header; C40 the metrics account for every request, in
      every interleaving.
    - All replicas and all operations: C5 a routing decision is never older
      than a cache entry may be, C6 the replicas converge, C7 an invalidation is
      final, in each case apart from bindings the store did not take; C8 every
      schedule of operations on a store that answers runs without a panic and keeps
      the store's contract, with scans that list nothing twice.
    - The table: C9, C10 the Redis store and C11, C12 the Postgres store keep the
      contract, with the count of every backend equal to its load; C39 a bulk
      operation that fails leaves nothing behind; C22 the counts survive every
      interleaving of transactions, except for a backend that a bulk assignment
      named before it had a row of counts; C23 on-demand assignments cannot
      deadlock.
    - Transitions: C13, C14, C15 a rebalance and a drain do what they announce,
      in an order that never notifies a backend in a state that contradicts
      the hook; C24, C25 the plans of the default strategy are sound and
      overload nobody; C26, C27 accounts are placed at startup and as they are
      discovered; C28, C29 one transition at a time over all replicas; C30 no
      request is left on hold.  Without a number: the other strategy agrees
      with the hash.
    - The WebSocket bridge: C16 it keeps the order of messages and invents
      none, C17 it never wedges, C18 a pooled buffer has one owner, C19 at
      rest everything is delivered; without a number, reading into a pooled
      buffer ends and loses nothing.
    - Local state against abstract specifications: C31 cache, C32 poison pill
      detector, C33 token cache; without a number the Redis breaker, the
      connection tracker, the rate limiter, hooks and ownership.
    - The active set: C34 the Kubernetes watch misses no change, C35 the passes of
      the health checker take a backend out at its threshold and never back in;
      without a number one Kubernetes reconciliation, DNS, eviction and the
      failure breaker.
    - Texts: C36 the metrics page, line by line, and C37 the account document read
      back; C38 exactly which environments Load accepts, what it makes of them and
      why it refuses the others; without a number, hooks arrive as
      they were sent, the histogram counts what it says, the generated tokens
      authenticate.
    - Behaviour the comments do not promise, or deny: C20 the users of a failing
      backend are assigned back to it and quarantined.  Without a number:
      sequential failures never open the breaker; a request in flight brings a
      drained backend back; a rebalance asked for while another runs is lost;
      a recovered backend stays out and Kubernetes discovery does not add it
      back; an overdue unlock, or a lost connection, frees the lock of a running
      transition; a sticky binding can disagree with the table; a heavy user can
      be stranded; bulk deletes on Redis lose errors and drift on duplicates;
      bulk assignments on Postgres can deadlock, one that comes too early is never
      counted, and its users stay on a removed backend; a login with blanks around
      its id binds another account; the counter of backend errors does not count
      them; a listener misses what is published while it reconnects; a
      closing backend loses messages, and a late close disconnects a swapped
      client; the user of a WebSocket is not forwarded; a shutdown rejects
      requests in flight, of the proxy and of the sample backend.

    ** Not modelled

    What a client library does with its options (pools, time-outs, TLS), and its
    retries: a command is one step, also the DEL of the transition lock, which a
    client may repeat when the reply is lost.  Limits of PostgreSQL on texts (NUL
    bytes, invalid UTF-8, the size of an index key), which fail like any other
    statement.  The copy buffer pool of the reverse proxy; sockets, signals and logging of the
    executables, which are events or left out; the deployment files and the
    scripts of the load test. *)
From stdpp Require Export base gmap strings list sorting fin_maps.
From Stdlib Require Export ZArith Lia.

(** ** Scope, tactics and hint database of the development *)

Declare Scope go_scope.
Delimit Scope go_scope with go.

Create HintDb go discriminated.
Create Rewrite HintDb go_rw.

(** [m .[ k ]] is Go's [m[k]] on a map of integers: the zero value when the
    key is absent. *)
Definition mget (m : gmap string Z) (k : string) : Z := default 0%Z (m !! k).

Notation "m .[ k ]" := (mget m k) (at level 1, k at level 200, format "m .[ k ]") : go_scope.

(** [m[k] += d] on a map of integers. *)
Definition madd (m : gmap string Z) (k : string) (d : Z) : gmap string Z :=
  <[k := (mget m k + d)%Z]> m.

(** Split the innermost pair or boolean test the goal or a hypothesis is
    stuck on. *)
Ltac go_case :=
  repeat match goal with
  | H : (_, _) = (_, _) |- _ => injection H as H; subst
  | H : Some _ = Some _ |- _ => injection H as H; subst
  | H : Some _ = None |- _ => discriminate H
  | H : None = Some _ |- _ => discriminate H
  | H : context [if ?b then _ else _] |- _ => destruct b eqn:?
  | |- context [if ?b then _ else _] => destruct b eqn:?
  end.

(** Turn boolean comparisons into propositions. *)
Ltac bool_prop :=
  repeat match goal with
  | H : (_ && _) = true |- _ => apply andb_true_iff in H as [? ?]
  | H : (_ && _) = false |- _ => apply andb_false_iff in H
  | H : (_ || _) = true |- _ => apply orb_true_iff in H
  | H : (_ || _) = false |- _ => apply orb_false_iff in H as [? ?]
  | H : negb _ = true |- _ => apply negb_true_iff in H
  | H : negb _ = false |- _ => apply negb_false_iff in H
  | H : (_ <? _)%Z = true |- _ => apply Z.ltb_lt in H
  | H : (_ <? _)%Z = false |- _ => apply Z.ltb_ge in H
  | H : (_ <=? _)%Z = true |- _ => apply Z.leb_le in H
  | H : (_ <=? _)%Z = false |- _ => apply Z.leb_gt in H
  | H : (_ =? _)%Z = true |- _ => apply Z.eqb_eq in H
  | H : (_ =? _)%Z = false |- _ => apply Z.eqb_neq in H
  | H : bool_decide _ = true |- _ => apply bool_decide_eq_true_1 in H
  | H : bool_decide _ = false |- _ => apply bool_decide_eq_false_1 in H
  end.

(** ** Integer maps *)

Lemma mget_empty k : mget ∅ k = 0%Z.
Proof. unfold mget. by rewrite lookup_empty. Qed.

Lemma mget_insert m k k' v :
  mget (<[k := v]> m) k' = if decide (k = k') then v else mget m k'.
Proof. unfold mget. rewrite lookup_insert. by case_decide. Qed.

Lemma mget_madd m k d k' :
  mget (madd m k d) k' = (mget m k' + if decide (k = k') then d else 0)%Z.
Proof. unfold madd. rewrite mget_insert. case_decide; subst; lia. Qed.

#[export] Hint Rewrite mget_empty mget_insert mget_madd : go_rw.

(** ** Sums of integers over lists and maps *)

Definition zsum {A} (f : A → Z) (l : list A) : Z :=
  foldr (λ x acc, (f x + acc)%Z) 0%Z l.
Arguments zsum : simpl never.

Section zsum.
Context {A : Type}.
Implicit Types (f g : A → Z) (l : list A).
Local Open Scope Z_scope.

Lemma zsum_cons f x l : zsum f (x :: l) = f x + zsum f l.
Proof. done. Qed.

Lemma zsum_nil f : zsum f [] = 0.
Proof. done. Qed.

Lemma zsum_singleton f x : zsum f [x] = f x.
Proof. rewrite zsum_cons, zsum_nil. lia. Qed.

Lemma zsum_app f l k : zsum f (l ++ k) = zsum f l + zsum f k.
Proof. induction l as [|x l IH]; [done|]. simpl. rewrite !zsum_cons, IH. lia. Qed.

Global Instance zsum_perm f : Proper ((≡ₚ) ==> (=)) (zsum f).
Proof.
  induction 1; rewrite ?zsum_cons; lia.
Qed.

Lemma zsum_ext f g l : (∀ x, x ∈ l → f x = g x) → zsum f l = zsum g l.
Proof.
  induction l as [|x l IH]; intros H; [done|]. rewrite !zsum_cons.
  rewrite H by set_solver. rewrite IH; [done|]. set_solver.
Qed.

Lemma zsum_add f g l : zsum (λ x, f x + g x) l = zsum f l + zsum g l.
Proof. induction l as [|x l IH]; [done|]. rewrite !zsum_cons. lia. Qed.

Lemma zsum_nonneg f l : (∀ x, x ∈ l → 0 ≤ f x) → 0 ≤ zsum f l.
Proof.
  induction l as [|x l IH]; intros H; [done|]. rewrite zsum_cons.
  assert (0 ≤ f x) by (apply H; set_solver).
  assert (0 ≤ zsum f l) by (apply IH; set_solver). lia.
Qed.

Lemma zsum_le f g l : (∀ x, x ∈ l → f x ≤ g x) → zsum f l ≤ zsum g l.
Proof.
  induction l as [|x l IH]; intros H; [done|]. rewrite !zsum_cons.
  assert (f x ≤ g x) by (apply H; set_solver).
  assert (zsum f l ≤ zsum g l) by (apply IH; set_solver). lia.
Qed.

Lemma zsum_filter_le (P : A → Prop) `{!∀ x, Decision (P x)} f l :
  (∀ x, x ∈ l → 0 ≤ f x) → zsum f (filter P l) ≤ zsum f l.
Proof.
  induction l as [|x l IH]; intros Hf; [done|]. rewrite filter_cons, zsum_cons.
  assert (0 ≤ f x) by (apply Hf; left).
  assert (zsum f (filter P l) ≤ zsum f l) by (apply IH; intros; apply Hf; by right).
  case_decide; rewrite ?zsum_cons; lia.
Qed.

Lemma zsum_const c l : zsum (λ _, c) l = c * Z.of_nat (length l).
Proof. induction l as [|x l IH]; [unfold zsum; simpl; lia|]. rewrite zsum_cons, IH. simpl. lia. Qed.

Lemma zsum_zero f l : (∀ x, x ∈ l → f x = 0) → zsum f l = 0.
Proof. intros H. rewrite (zsum_ext f (λ _, 0)) by done. by rewrite zsum_const. Qed.
End zsum.

Lemma zsum_fmap {A B} (g : B → A) (f : A → Z) (l : list B) :
  zsum f (g <$> l) = zsum (λ x, f (g x)) l.
Proof. induction l as [|x l IH]; [done|]. cbn [fmap list_fmap]. by rewrite !zsum_cons, <- IH. Qed.

Definition msum {A} (f : string → A → Z) (m : gmap string A) : Z :=
  zsum (λ p, f p.1 p.2) (map_to_list m).

Section msum.
Context {A : Type}.
Implicit Types (f : string → A → Z) (m : gmap string A).
Local Open Scope Z_scope.

Lemma msum_empty f : msum f ∅ = 0.
Proof. unfold msum. by rewrite map_to_list_empty. Qed.

Lemma msum_insert f m k a : m !! k = None → msum f (<[k := a]> m) = f k a + msum f m.
Proof. intros H. unfold msum. by rewrite map_to_list_insert by done. Qed.

Lemma msum_delete f m k a : m !! k = Some a → msum f m = f k a + msum f (delete k m).
Proof.
  intros H. rewrite <- (insert_delete_id m k a H) at 1.
  apply msum_insert, lookup_delete_eq.
Qed.

Lemma msum_delete_none f m k : m !! k = None → msum f (delete k m) = msum f m.
Proof. intros H. by rewrite delete_id. Qed.

Lemma msum_update f m k a b :
  m !! k = Some a → msum f (<[k := b]> m) = msum f m - f k a + f k b.
Proof.
  intros H. rewrite <- insert_delete_eq, msum_insert by apply lookup_delete_eq.
  rewrite (msum_delete f m k a H). lia.
Qed.

Lemma msum_union f m1 m2 : m1 ##ₘ m2 → msum f (m1 ∪ m2) = msum f m1 + msum f m2.
Proof.
  intros Hd. induction m1 as [|k a m Hk IH] using map_ind; [by rewrite (left_id_L ∅ (∪)), msum_empty|].
  apply map_disjoint_insert_l in Hd as [Hk2 Hd].
  rewrite <- insert_union_l, !msum_insert, IH; [lia|done|done|]. by apply lookup_union_None.
Qed.

Lemma msum_nonneg f m : (∀ k a, m !! k = Some a → 0 ≤ f k a) → 0 ≤ msum f m.
Proof.
  intros H. apply zsum_nonneg. intros [k a] Hin%elem_of_map_to_list. by apply H.
Qed.

Lemma msum_ext f g m :
  (∀ k a, m !! k = Some a → f k a = g k a) → msum f m = msum g m.
Proof.
  intros H. apply zsum_ext. intros [k a] Hin%elem_of_map_to_list. by apply H.
Qed.

Lemma msum_perm f m l : l ≡ₚ map_to_list m → msum f m = zsum (λ p, f p.1 p.2) l.
Proof. intros H. unfold msum. by rewrite H. Qed.
End msum.

#[export] Hint Rewrite @msum_empty @zsum_cons @zsum_app : go_rw.

(** ** Accumulating into an integer map *)

(** [for x := range l { m[key(x)] += w(x) }] *)
Definition madd_all {A} (key : A → string) (w : A → Z) (m : gmap string Z) (l : list A)
    : gmap string Z :=
  foldl (λ m x, madd m (key x) (w x)) m l.

Section madd_all.
Context {A : Type} (key : A → string) (w : A → Z).
Local Open Scope Z_scope.

Lemma mget_madd_all m l b :
  mget (madd_all key w m l) b = mget m b + zsum (λ x, if decide (key x = b) then w x else 0) l.
Proof.
  unfold madd_all. revert m. induction l as [|x l IH]; intros m; simpl; [rewrite zsum_nil; lia|].
  rewrite IH, mget_madd, zsum_cons. lia.
Qed.

Lemma msum_madd m k d : msum (λ _ v, v) (madd m k d) = msum (λ _ v, v) m + d.
Proof.
  unfold madd, mget. destruct (m !! k) as [v|] eqn:Hk; simpl.
  - rewrite (msum_update (λ _ v, v) m k v) by done. lia.
  - rewrite (msum_insert (λ _ v, v)) by done. lia.
Qed.

Lemma msum_madd_all m l :
  msum (λ _ v, v) (madd_all key w m l) = msum (λ _ v, v) m + zsum w l.
Proof.
  unfold madd_all. revert m. induction l as [|x l IH]; intros m; simpl; [rewrite zsum_nil; lia|].
  rewrite IH, msum_madd, zsum_cons. lia.
Qed.

Lemma madd_all_dom m l k :
  is_Some (madd_all key w m l !! k) → is_Some (m !! k) ∨ ∃ x, x ∈ l ∧ key x = k.
Proof.
  unfold madd_all. revert m. induction l as [|x l IH]; intros m; simpl; [by left|].
  intros [Hm|(y & Hy & Hk)]%IH; [|right; exists y; split; [by right|done]].
  unfold madd in Hm. rewrite lookup_insert_is_Some in Hm.
  destruct Hm as [Hk|[_ Hm]]; [|by left]. right. exists x. split; [left|done].
Qed.
End madd_all.

(** Summing the entries of one key picks its value. *)
Lemma msum_pick (m : gmap string Z) b :
  msum (λ k v, if decide (k = b) then v else 0%Z) m = mget m b.
Proof.
  induction m as [|k v m Hk IH] using map_ind; [done|].
  rewrite msum_insert, mget_insert by done. rewrite IH. case_decide; [|lia]. subst.
  unfold mget. rewrite Hk. simpl. lia.
Qed.

(** Building a map from a list of distinct keys. *)
Lemma lookup_foldl_insert {A B} (key : A → string) (val : A → B) (l : list A)
    (m : gmap string B) k :
  NoDup (key <$> l) →
  foldl (λ m x, <[key x := val x]> m) m l !! k =
    match (list_to_map ((λ x, (key x, val x)) <$> l) : gmap string B) !! k with Some v => Some v | None => m !! k end.
Proof.
  revert m. induction l as [|x l IH]; intros m Hnd; [done|].
  apply NoDup_cons in Hnd as [Hx Hnd]. simpl. rewrite IH by done.
  rewrite !lookup_insert. case_decide as Hk; [|done]. subst k.
  rewrite not_elem_of_list_to_map_1; [done|]. by rewrite <- list_fmap_compose.
Qed.

Lemma foldl_insert_list_to_map {A B} (key : A → string) (val : A → B) (l : list A) :
  NoDup (key <$> l) →
  foldl (λ m x, <[key x := val x]> m) ∅ l
  = list_to_map ((λ x, (key x, val x)) <$> l) :> gmap string B.
Proof.
  intros Hnd. apply map_eq. intros k. rewrite lookup_foldl_insert by done.
  by destruct (list_to_map _ !! k).
Qed.

Lemma msum_list_to_map {A} (f : string → A → Z) (l : list (string * A)) :
  NoDup l.*1 → msum f (list_to_map l) = zsum (λ p, f p.1 p.2) l.
Proof. intros Hnd. apply msum_perm. by rewrite map_to_list_to_map. Qed.

Lemma msum_fmap {A B} (g : A → B) (f : string → B → Z) (m : gmap string A) :
  msum f (g <$> m) = msum (λ k a, f k (g a)) m.
Proof.
  unfold msum. rewrite (map_to_list_fmap g m), zsum_fmap. apply zsum_ext. by intros [k a] _.
Qed.

Lemma size_list_to_map_le {A} (l : list (string * A)) :
  (size (list_to_map l : gmap string A) ≤ length l)%nat.
Proof.
  induction l as [|[k a] l IH]; [done|]. simpl.
  destruct ((list_to_map l : gmap string A) !! k) as [a'|] eqn:Hk.
  - rewrite map_size_insert_Some by done. lia.
  - rewrite map_size_insert_None by done. lia.
Qed.

(** ** Deciding a property of every entry of a concrete map *)

Lemma map_forallb `{Countable K} {A} (P : A → bool) (m : gmap K A) :
  forallb (λ p, P p.2) (map_to_list m) = true → ∀ k a, m !! k = Some a → P a = true.
Proof.
  rewrite forallb_forall. intros HP k a Hk%elem_of_map_to_list%list_elem_of_In.
  by apply (HP (k, a)).
Qed.

Lemma mapM_app {A B} (f : A → option B) (l k : list A) :
  mapM f (l ++ k) = l' ← mapM f l; k' ← mapM f k; Some (l' ++ k').
Proof.
  induction l as [|x l IH]; cbn; [by destruct (mapM f k)|].
  destruct (f x) as [y|]; [|done]. cbn. rewrite IH.
  destruct (mapM f l) as [l'|]; [|done]. cbn. by destruct (mapM f k).
Qed.

(** ** Filtering lists *)

Lemma list_filter_keep {A} (P : A → Prop) `{!∀ x, Decision (P x)} (l : list A) :
  Forall P l → filter P l = l.
Proof.
  induction 1 as [|x l Hx Hl IH]; [done|]. rewrite filter_cons_True by done. by rewrite IH.
Qed.

Lemma list_filter_iff_elem {A} (P Q : A → Prop) `{!∀ x, Decision (P x), !∀ x, Decision (Q x)} (l : list A) :
  (∀ x, x ∈ l → P x ↔ Q x) → filter P l = filter Q l.
Proof.
  induction l as [|x l IH]; intros Heq; [done|]. rewrite !filter_cons.
  rewrite IH by (intros; apply Heq; by right). specialize (Heq x). rewrite elem_of_cons in Heq.
  repeat case_decide; naive_solver.
Qed.

Lemma Forall_list_filter {A} (P Q : A → Prop) `{!∀ x, Decision (P x)} (l : list A) :
  Forall Q l → Forall Q (filter P l).
Proof.
  induction 1 as [|x l Hx Hl IH]; [constructor|]. rewrite filter_cons. by case_decide; [constructor|].
Qed.

Lemma NoDup_fmap_filter {A B} (f : A → B) (P : A → Prop) `{!∀ x, Decision (P x)} (l : list A) :
  NoDup (f <$> l) → NoDup (f <$> filter P l).
Proof.
  induction l as [|x l IH]; [done|]. cbn [fmap list_fmap]. rewrite NoDup_cons, filter_cons.
  intros [Hx Hnd]. case_decide; [|by apply IH]. cbn [fmap list_fmap]. apply NoDup_cons.
  split; [|by apply IH]. intros (y & Hy & Hin)%list_elem_of_fmap. apply Hx.
  rewrite Hy. apply list_elem_of_fmap_2. by apply list_elem_of_filter in Hin as [_ ?].
Qed.
