(* ===== verification/Go.v ===== *)
(** * The part of Go and of its standard library the program relies on

    Errors as values, instants of time, the unspecified iteration order of
    maps, [sort.Strings], and the machine widths.  Every operation of the
    program that reads the clock takes the instant as an argument; every
    [range] over a map goes through [MapIter], so that the theorems hold for
    whichever order the runtime picks. *)
From stdpp Require Import base gmap strings list sorting fin_maps.
From Stdlib Require Import ZArith Lia.
From S2P Require Import Prelude.

(** ** Errors *)

(** The error values the program creates or distinguishes; [ErrOther] is any
    other one (a network failure, a driver error, ...). *)
Inductive error : Set :=
  | ErrCacheMiss
  | errNotSupported
  | ErrNoRows                 (* sql.ErrNoRows *)
  | RedisNil                  (* redis.Nil *)
  | ErrCtx                    (* context.Canceled, context.DeadlineExceeded *)
  | ErrOther (msg : string).

#[export] Instance error_eq_dec : EqDecision error.
Proof. solve_decision. Defined.

(** A Go function returning [(T, error)]. *)
Abbreviation result A := (A * option error)%type.

(** ** Time *)

(** Instants and durations are in nanoseconds.  The zero [time.Time] is
    before every instant the clock returns. *)
Definition Duration := Z.
Definition Second : Duration := 1000000000%Z.
Definition Minute : Duration := (60 * Second)%Z.

(** [t.After(u)] and [t.Before(u)]. *)
Definition After (t u : Z) : bool := (u <? t)%Z.
Definition Before (t u : Z) : bool := (t <? u)%Z.

(** ** Map iteration order *)

(** [for k, v := range m] visits every entry of [m] once, in an order Go
    leaves unspecified; [site] distinguishes the loops of the program, which
    may each see a different order. *)
Class MapIter : Type := {
  range : ∀ {A : Type}, nat → gmap string A → list (string * A);
  range_perm : ∀ {A : Type} (site : nat) (m : gmap string A),
    range site m ≡ₚ map_to_list m
}.

(** One order the runtime may pick. *)
#[refine] Definition map_iter_canonical : MapIter := {|
  range := λ A _ m, map_to_list m
|}.
Proof. done. Defined.

Section range.
Context `{!MapIter} {A : Type}.
Implicit Types (m : gmap string A) (k : string).

Lemma elem_of_range site m k a : (k, a) ∈ range site m ↔ m !! k = Some a.
Proof. rewrite range_perm. apply elem_of_map_to_list. Qed.

Lemma NoDup_range_keys site m : NoDup (range site m).*1.
Proof. rewrite range_perm. apply NoDup_fst_map_to_list. Qed.

Lemma elem_of_range_keys site m k : k ∈ (range site m).*1 ↔ is_Some (m !! k).
Proof.
  rewrite list_elem_of_fmap. split.
  - intros [[k' a] [-> Hin%elem_of_range]]. eauto.
  - intros [a Ha%(elem_of_range site)]. by exists (k, a).
Qed.

Lemma length_range site m : length (range site m) = size m.
Proof. rewrite range_perm. apply length_map_to_list. Qed.

Lemma msum_range (f : string → A → Z) site m :
  msum f m = zsum (λ p, f p.1 p.2) (range site m).
Proof. apply msum_perm, range_perm. Qed.

Lemma list_to_map_range site m : list_to_map (range site m) = m.
Proof.
  rewrite <- (list_to_map_to_list m) at 2. apply list_to_map_proper.
  - apply NoDup_range_keys.
  - apply range_perm.
Qed.
End range.

(** Deleting entries of a map while ranging over it. *)
Lemma range_delete_if `{!MapIter} {A} site (P : string → A → bool) (d : gmap string A) k :
  foldl (λ d '(key, a), if P key a then delete key d else d) d (range site d) !! k
  = match d !! k with Some a => if P k a then None else Some a | None => None end.
Proof.
  set (f := λ (d : gmap string A) '(key, a), if P key a then delete key d else d).
  enough (∀ l (d0 : gmap string A), NoDup l.*1 →
     foldl f d0 l !! k = match (list_to_map l : gmap string A) !! k with
                         | Some a => if P k a then None else d0 !! k | None => d0 !! k end) as Hgen.
  { rewrite Hgen by apply NoDup_range_keys. rewrite list_to_map_range.
    destruct (d !! k); by repeat case_match. }
  induction l as [|[k' e] l IH]; intros d0 Hnd; [done|].
  apply NoDup_cons in Hnd as [Hk' Hnd]. simpl in *. rewrite IH by done.
  rewrite lookup_insert. case_decide as Hk; [subst k'|].
  - rewrite not_elem_of_list_to_map_1 by done. destruct (P k e); [|done]. apply lookup_delete_eq.
  - assert ((if P k' e then delete k' d0 else d0) !! k = d0 !! k) as ->; [|done].
    destruct (P k' e); [by apply lookup_delete_ne|done].
Qed.

(** A set [map[string]struct{}] is a [gset]; ranging over it goes through the
    same order. *)
Definition range_set `{!MapIter} (site : nat) (s : gset string) : list string :=
  (range site (gset_to_gmap tt s)).*1.

Lemma elem_of_range_set `{!MapIter} site s k : k ∈ range_set site s ↔ k ∈ s.
Proof.
  unfold range_set. rewrite elem_of_range_keys. split.
  - intros [u Hu]. by apply lookup_gset_to_gmap_Some in Hu as [? _].
  - intros Hk. exists tt. by apply lookup_gset_to_gmap_Some.
Qed.

Lemma NoDup_range_set `{!MapIter} site s : NoDup (range_set site s).
Proof. apply NoDup_range_keys. Qed.

(** ** sort.Strings *)

(** Byte-wise lexicographic order, ascending. *)
Definition sort_Strings (l : list string) : list string := merge_sort String.le l.

Lemma sort_Strings_perm l : sort_Strings l ≡ₚ l.
Proof. apply merge_sort_Permutation. Qed.

Lemma sort_Strings_sorted l : StronglySorted String.le (sort_Strings l).
Proof. apply StronglySorted_merge_sort; apply _. Qed.

Lemma sort_Strings_elem l b : b ∈ sort_Strings l ↔ b ∈ l.
Proof. by rewrite sort_Strings_perm. Qed.

Lemma sort_Strings_length l : length (sort_Strings l) = length l.
Proof. by rewrite sort_Strings_perm. Qed.

(** The sorted slice depends only on the multiset of strings. *)
Lemma sort_Strings_canonical l k : l ≡ₚ k → sort_Strings l = sort_Strings k.
Proof.
  intros Hp. apply (StronglySorted_unique String.le); auto using sort_Strings_sorted.
  by rewrite !sort_Strings_perm.
Qed.

Lemma sort_Strings_nil l : sort_Strings l = [] ↔ l = [].
Proof.
  split; [|by intros ->]. intros H. apply length_zero_iff_nil.
  by rewrite <- sort_Strings_length, H.
Qed.

(** Sorting a sorted slice changes nothing. *)
Lemma sort_Strings_idem l : sort_Strings (sort_Strings l) = sort_Strings l.
Proof. apply sort_Strings_canonical, sort_Strings_perm. Qed.

#[export] Hint Resolve sort_Strings_sorted sort_Strings_perm : go.

(** ** Machine integers *)

Definition two32 : Z := 4294967296.
Definition two53 : Z := 9007199254740992.
Definition two63 : Z := 9223372036854775808.

(** [uint32] arithmetic wraps modulo 2^32. *)
Definition u32 (x : Z) : Z := (x mod two32)%Z.

(** The value fits the signed 64-bit [int] of the platforms the proxy runs on. *)
Definition is_int (x : Z) : Prop := (- two63 ≤ x < two63)%Z.

(** [xs[h % uint32(len(xs))]]: [None] stands for the run-time panic (modulo by
    zero or index out of range). *)
Definition index_mod (xs : list string) (h : Z) : option string :=
  let n := u32 (Z.of_nat (length xs)) in
  if (n =? 0)%Z then None else xs !! Z.to_nat (h mod n)%Z.

(** Indexing a non-empty slice of fewer than 2^32 elements by a hash never
    panics. *)
Lemma index_mod_some xs h :
  xs ≠ [] → (0 ≤ h)%Z → (Z.of_nat (length xs) < two32)%Z →
  ∃ b, index_mod xs h = Some b ∧ b ∈ xs.
Proof.
  intros Hne Hh Hlen. unfold index_mod, u32.
  rewrite Z.mod_small by lia.
  assert (0 < length xs)%nat by (destruct xs; simpl; [done|lia]).
  destruct (Z.eqb_spec (Z.of_nat (length xs)) 0); [lia|].
  destruct (lookup_lt_is_Some_2 xs (Z.to_nat (h mod Z.of_nat (length xs)))) as [b Hb].
  { pose proof (Z.mod_pos_bound h (Z.of_nat (length xs))). lia. }
  exists b. split; [done|]. eapply list_elem_of_lookup_2; eauto.
Qed.
