(* ===== verification/Hashing.v ===== *)
(** * hashing.go: the routing hash

    [HashUser] is the IEEE CRC-32 of the routing key.  [hash/crc32] is modelled
    by its table-driven update, with [uint32] operations. *)
From stdpp Require Import base strings list.
From Stdlib Require Import ZArith Lia.
From S2P Require Import Prelude Go.
Local Open Scope Z_scope.

(** crc32.IEEE: the reversed polynomial. *)
Definition crc32_IEEE : Z := 0xedb88320.

(** One bit of the table construction. *)
Definition crc_bit (c : Z) : Z :=
  if Z.testbit c 0 then Z.lxor (Z.shiftr c 1) crc32_IEEE else Z.shiftr c 1.

(** Entry [i] of [crc32.IEEETable]. *)
Definition crc_table (i : Z) : Z := Nat.iter 8 crc_bit i.

(** [crc = tab[byte(crc)^v] ^ (crc >> 8)]. *)
Definition crc_byte (crc v : Z) : Z :=
  Z.lxor (crc_table (Z.lxor (Z.land crc 255) v)) (Z.shiftr crc 8).

Definition not32 (x : Z) : Z := Z.lxor x (two32 - 1).

(** [crc32.ChecksumIEEE]. *)
Definition ChecksumIEEE (data : list Z) : Z := not32 (foldl crc_byte (not32 0) data).

(** [[]byte(s)]. *)
Fixpoint bytes_of (s : string) : list Z :=
  match s with
  | EmptyString => []
  | String c s => Z.of_N (Ascii.N_of_ascii c) :: bytes_of s
  end.

Definition HashUser (userID : string) : Z := ChecksumIEEE (bytes_of userID).

(** The check value of CRC-32/ISO-HDLC. *)
Example HashUser_check : HashUser "123456789" = 0xcbf43926.
Proof. vm_compute. reflexivity. Qed.

Example HashUser_empty : HashUser "" = 0.
Proof. vm_compute. reflexivity. Qed.

(** ** The hash is a uint32 *)

Definition is_u32 (x : Z) : Prop := 0 ≤ x < two32.

Lemma is_u32_bits x :
  is_u32 x ↔ (0 ≤ x ∧ ∀ n, 32 ≤ n → Z.testbit x n = false).
Proof.
  unfold is_u32, two32. change 4294967296 with (2 ^ 32). split.
  - intros [Hlo Hhi]. split; [done|]. intros n Hn.
    destruct (Z.eq_dec x 0) as [->|Hx]; [apply Z.bits_0|].
    apply Z.bits_above_log2; [done|].
    assert (Z.log2 x < 32) by (apply Z.log2_lt_pow2; lia). lia.
  - intros [Hlo Hb]. split; [done|].
    destruct (Z.eq_dec x 0) as [->|Hx]; [lia|].
    apply Z.log2_lt_pow2; [lia|].
    destruct (Z.lt_ge_cases (Z.log2 x) 32) as [|Hge]; [done|].
    specialize (Hb _ Hge). rewrite Z.bit_log2 in Hb by lia. done.
Qed.

Lemma is_u32_lxor x y : is_u32 x → is_u32 y → is_u32 (Z.lxor x y).
Proof.
  rewrite !is_u32_bits. intros [Hx Hbx] [Hy Hby]. split.
  - apply Z.lxor_nonneg. lia.
  - intros n Hn. rewrite Z.lxor_spec, Hbx, Hby by done. done.
Qed.

Lemma is_u32_shiftr x n : 0 ≤ n → is_u32 x → is_u32 (Z.shiftr x n).
Proof.
  rewrite !is_u32_bits. intros Hn [Hx Hbx]. split.
  - by apply Z.shiftr_nonneg.
  - intros i Hi. rewrite Z.shiftr_spec by lia. apply Hbx. lia.
Qed.

Lemma is_u32_land x y : is_u32 x → 0 ≤ y → is_u32 (Z.land x y).
Proof.
  rewrite !is_u32_bits. intros [Hx Hbx] Hy. split.
  - apply Z.land_nonneg. lia.
  - intros i Hi. by rewrite Z.land_spec, Hbx by done.
Qed.

#[export] Hint Resolve is_u32_lxor is_u32_shiftr is_u32_land : go.

Lemma crc_bit_u32 c : is_u32 c → is_u32 (crc_bit c).
Proof.
  intros Hc. unfold crc_bit. destruct (Z.testbit c 0); auto with go lia.
  apply is_u32_lxor; [auto with go lia|]. unfold is_u32, crc32_IEEE, two32. lia.
Qed.

Lemma crc_table_u32 i : is_u32 i → is_u32 (crc_table i).
Proof.
  intros Hi. unfold crc_table. generalize 8%nat as n.
  induction n as [|n IH]; simpl; auto using crc_bit_u32.
Qed.

Lemma crc_byte_u32 crc v : is_u32 crc → 0 ≤ v < 256 → is_u32 (crc_byte crc v).
Proof.
  intros Hc Hv. unfold crc_byte. apply is_u32_lxor; [|auto with go lia].
  apply crc_table_u32, is_u32_lxor; [auto with go lia|].
  unfold is_u32, two32. lia.
Qed.

Lemma ChecksumIEEE_u32 data :
  Forall (λ v, 0 ≤ v < 256) data → is_u32 (ChecksumIEEE data).
Proof.
  intros Hd. unfold ChecksumIEEE, not32.
  assert (Hm : is_u32 (two32 - 1)) by (unfold is_u32, two32; lia).
  apply is_u32_lxor; [|done].
  assert (Hc : is_u32 (Z.lxor 0 (two32 - 1))) by (apply is_u32_lxor; unfold is_u32, two32; lia).
  revert Hc. generalize (Z.lxor 0 (two32 - 1)) as c.
  induction Hd as [|v data Hv Hd IH]; intros c Hc; simpl; auto using crc_byte_u32.
Qed.

Lemma bytes_of_range s : Forall (λ v, 0 ≤ v < 256) (bytes_of s).
Proof.
  induction s as [|c s IH]; simpl; constructor; [|done].
  pose proof (Ascii.N_ascii_bounded c). lia.
Qed.

Lemma HashUser_u32 userID : is_u32 (HashUser userID).
Proof. apply ChecksumIEEE_u32, bytes_of_range. Qed.
