(* ===== verification/GoFloat.v ===== *)
(** * float64

    Go's [float64] is modelled by the binary64 arithmetic of [SpecFloat]: 53
    bits of precision, round to nearest even. *)
From stdpp Require Import base decidable option numbers.
From Stdlib Require Import ZArith Floats.SpecFloat.
Local Open Scope Z_scope.

Definition float64 := spec_float.

Definition prec : Z := 53.
Definition emax : Z := 1024.

Definition fadd : float64 → float64 → float64 := SFadd prec emax.
Definition fsub : float64 → float64 → float64 := SFsub prec emax.
Definition fmul : float64 → float64 → float64 := SFmul prec emax.
Definition fdiv : float64 → float64 → float64 := SFdiv prec emax.

(** [float64(z)] of an integer. *)
Definition of_int (z : Z) : float64 := binary_normalize prec emax z 0 false.

Definition fgt (x y : float64) : bool := bool_decide (SFcompare x y = Some Gt).
Definition fge (x y : float64) : bool :=
  bool_decide (SFcompare x y = Some Gt) || bool_decide (SFcompare x y = Some Eq).

(** [uint64(x)] of a float that is not negative and fits: truncation. *)
Definition trunc (x : float64) : Z :=
  match x with
  | S754_finite false m e => if 0 <=? e then Z.pos m * 2 ^ e else Z.pos m / 2 ^ (- e)
  | _ => 0
  end.
