(* ===== verification/GoText.v ===== *)
(** * Text: the parts of strconv, time and strings the configuration uses

    [strconv.Atoi], [time.ParseDuration], [strings.Split] on a comma and
    [strings.TrimSpace], on the bytes of a string, as the Go library does them;
    [None] is an error. *)
From stdpp Require Import base strings list.
From Stdlib Require Import ZArith Lia Floats.SpecFloat.
From S2P Require Import Prelude Go GoFloat Hashing.
Local Open Scope Z_scope.

(** ** strconv.Atoi *)

Definition is_digit (c : Z) : bool := (48 <=? c) && (c <=? 57).
Definition digit (c : Z) : Z := c - 48.

(** The value of a string of digits. *)
Fixpoint digits (x : Z) (s : list Z) : option Z :=
  match s with
  | [] => Some x
  | c :: s => if is_digit c then digits (x * 10 + digit c) s else None
  end.

(** The sign, and the rest. *)
Definition sign_of (s : list Z) : bool * list Z :=
  match s with
  | 45 :: s => (true, s)
  | 43 :: s => (false, s)
  | _ => (false, s)
  end.

Definition Atoi (v : string) : option Z :=
  let '(neg, s) := sign_of (bytes_of v) in
  match s with
  | [] => None
  | _ =>
      x ← digits 0 s;
      let x := if neg : bool then - x else x in
      if (- two63 <=? x) && (x <? two63) then Some x else None
  end.

(** ** time.ParseDuration *)

Definition two64 : Z := 18446744073709551616.

(** [leadingInt]: [None] is an overflow. *)
Fixpoint leadingInt (x : Z) (s : list Z) : option (Z * list Z) :=
  match s with
  | [] => Some (x, [])
  | c :: s' =>
      if is_digit c then
        if two63 / 10 <? x then None
        else let x := x * 10 + digit c in if two63 <? x then None else leadingInt x s'
      else Some (x, s)
  end.

(** [leadingFraction]: digits that do not fit are dropped. *)
Fixpoint leadingFraction (x : Z) (scale : float64) (overflow : bool) (s : list Z)
    : Z * float64 * list Z :=
  match s with
  | [] => (x, scale, [])
  | c :: s' =>
      if is_digit c then
        if overflow then leadingFraction x scale true s'
        else if (two63 - 1) / 10 <? x then leadingFraction x scale true s'
        else
          let y := x * 10 + digit c in
          if two63 <? y then leadingFraction x scale true s'
          else leadingFraction y (fmul scale (of_int 10)) false s'
      else (x, scale, s)
  end.

(** The unit: up to the next digit or point. *)
Fixpoint take_unit (s : list Z) : list Z * list Z :=
  match s with
  | [] => ([], [])
  | c :: s' =>
      if (c =? 46) || is_digit c then ([], s)
      else let '(u, rest) := take_unit s' in (c :: u, rest)
  end.

Definition unitMap (u : list Z) : option Z :=
  if bool_decide (u = bytes_of "ns") then Some 1
  else if bool_decide (u = bytes_of "us") then Some 1000
  else if bool_decide (u = [0xC2; 0xB5; 115]) then Some 1000    (* U+00B5, micro sign *)
  else if bool_decide (u = [0xCE; 0xBC; 115]) then Some 1000    (* U+03BC, Greek mu *)
  else if bool_decide (u = bytes_of "ms") then Some 1000000
  else if bool_decide (u = bytes_of "s") then Some Second
  else if bool_decide (u = bytes_of "m") then Some Minute
  else if bool_decide (u = bytes_of "h") then Some (60 * Minute)
  else None.

(** The number of one term: its integer part, its fraction with the scale, and
    the rest; [None] when it has no digit or is too large. *)
Definition parse_number (s : list Z) : option (Z * Z * float64 * list Z) :=
  '(v, s1) ← leadingInt 0 s;
  let pre := negb (length s1 =? length s)%nat in
  let '(f, scale, s2, post) :=
    match s1 with
    | 46 :: s1' =>
        let '(f, scale, s2) := leadingFraction 0 (of_int 1) false s1' in
        (f, scale, s2, negb (length s2 =? length s1')%nat)
    | _ => (0, of_int 1, s1, false)
    end in
  if negb pre && negb post then None else Some (v, f, scale, s2).

(** The value of a term with that unit. *)
Definition term_value (v f : Z) (scale : float64) (unit : Z) : option Z :=
  if two63 / unit <? v then None
  else
    let v := v * unit in
    if 0 <? f then
      let v := v + trunc (fmul (of_int f) (fdiv (of_int unit) scale)) in
      if two63 <? v then None else Some v
    else Some v.

(** The loop over the terms; every term consumes a character, so as many rounds
    as characters are enough. *)
Fixpoint parse_terms (fuel : nat) (d : Z) (s : list Z) : option Z :=
  match fuel, s with
  | _, [] => Some d
  | O, _ => None
  | S fuel, c :: _ =>
      if negb ((c =? 46) || is_digit c) then None
      else
        '(v, f, scale, s) ← parse_number s;
        let '(u, s) := take_unit s in
        match u with
        | [] => None
        | _ =>
            unit ← unitMap u;
            v ← term_value v f scale unit;
            let d := (d + v) mod two64 in
            if two63 <? d then None else parse_terms fuel d s
        end
  end.

Definition ParseDuration (v : string) : option Duration :=
  let '(neg, s) := sign_of (bytes_of v) in
  if bool_decide (s = [48]) then Some 0
  else
    match s with
    | [] => None
    | _ =>
        d ← parse_terms (length s) 0 s;
        if neg : bool then Some (- d) else if two63 - 1 <? d then None else Some d
    end.

Example durations :
  ParseDuration "24h" = Some (24 * 60 * Minute) ∧ ParseDuration "1h30m" = Some (90 * Minute) ∧
  ParseDuration "1.5s" = Some (Second + 500000000) ∧ ParseDuration "-.25ms" = Some (-250000) ∧
  ParseDuration "0" = Some 0 ∧ ParseDuration "" = None ∧ ParseDuration "10" = None ∧
  ParseDuration "9223372036854775808ns" = None ∧
  ParseDuration "-9223372036854775808ns" = Some (- two63) ∧ ParseDuration "1d" = None.
Proof. by vm_compute. Qed.

Example numbers :
  Atoi "100" = Some 100 ∧ Atoi "-7" = Some (-7) ∧ Atoi "+7" = Some 7 ∧ Atoi "" = None ∧ Atoi "-" = None ∧
  Atoi "1_000" = None ∧ Atoi "9223372036854775808" = None ∧ Atoi "-9223372036854775808" = Some (- two63).
Proof. by vm_compute. Qed.

(** ** strings.Split(s, ",") *)

Definition comma : Ascii.ascii := Ascii.ascii_of_N 44.

Fixpoint SplitComma (s : string) : list string :=
  match s with
  | EmptyString => [EmptyString]
  | String c s' =>
      if decide (c = comma) then EmptyString :: SplitComma s'
      else
        match SplitComma s' with
        | w :: ws => String c w :: ws
        | [] => [String c EmptyString]
        end
  end.

(** ** strings.TrimSpace *)

(** The UTF-8 encodings of the characters with the White_Space property. *)
Definition spaces : list (list Z) :=
  [[9]; [10]; [11]; [12]; [13]; [32]; [0xC2; 0x85]; [0xC2; 0xA0]; [0xE1; 0x9A; 0x80]] ++
  ((λ b, [0xE2; 0x80; b]) <$> [0x80; 0x81; 0x82; 0x83; 0x84; 0x85; 0x86; 0x87; 0x88; 0x89; 0x8A; 0xA8; 0xA9; 0xAF]) ++
  [[0xE2; 0x81; 0x9F]; [0xE3; 0x80; 0x80]].

(** What follows one of the prefixes. *)
Definition strip_one (ps : list (list Z)) (s : list Z) : option (list Z) :=
  head (omap (λ p, if bool_decide (take (length p) s = p) then Some (drop (length p) s) else None) ps).

Fixpoint strip (fuel : nat) (ps : list (list Z)) (s : list Z) : list Z :=
  match fuel with
  | O => s
  | S fuel => match strip_one ps s with Some s => strip fuel ps s | None => s end
  end.

Fixpoint of_bytes (s : list Z) : string :=
  match s with [] => EmptyString | c :: s => String (Ascii.ascii_of_N (Z.to_N c)) (of_bytes s) end.

Definition TrimSpace (v : string) : string :=
  let s := bytes_of v in
  let s := strip (length s) spaces s in
  let s := reverse (strip (length s) (reverse <$> spaces) (reverse s)) in
  of_bytes s.

Example texts :
  SplitComma "/login,/register, /x" = ["/login"; "/register"; " /x"] ∧ SplitComma "" = [""] ∧
  TrimSpace "  /x y " = "/x y" ∧ TrimSpace "   " = "".
Proof. by vm_compute. Qed.

(** ** Ranges *)

Lemma Atoi_int v x : Atoi v = Some x → is_int x.
Proof.
  unfold Atoi. destruct (sign_of (bytes_of v)) as [neg s]. destruct s; [done|].
  destruct (digits 0 _) as [y|]; [|done]. simpl. case_match eqn:Hr; [|done]. intros [= <-].
  apply andb_true_iff in Hr as [?%Z.leb_le ?%Z.ltb_lt]. done.
Qed.
