(* ===== verification/Assignment.v ===== *)
(** * assignment.go: assignments and their JSON form

    The record stored in the assignment table, its effective weight, the entry
    of a bulk assignment, and the [encoding/json] codec of the record.  The
    codec works on JSON documents (the tree a text spells), so that what the
    Lua script writes with [cjson] and what Go writes with [encoding/json] are
    values of one type. *)
From stdpp Require Import base gmap strings list fin_maps.
From Stdlib Require Import ZArith Lia.
From S2P Require Import Prelude Go.
Local Open Scope Z_scope.

Record Assignment := mkAssignment {
  Backend : string;
  AssignedAt : Z;
  Source : string;      (* "hash", "assignment", "discovery" *)
  Weight : Z            (* resource weight; 0 or absent means 1 *)
}.

#[export] Instance Assignment_eq_dec : EqDecision Assignment.
Proof. solve_decision. Defined.

(** EffectiveWeight returns the assignment's weight, defaulting to 1. *)
Definition effective (w : Z) : Z := if w <=? 0 then 1 else w.

Definition EffectiveWeight (a : Assignment) : Z := effective (Weight a).

(** BulkAssignEntry carries a backend and weight for bulk assignment. *)
Record BulkAssignEntry := mkEntry { e_Backend : string; e_Weight : Z }.

Lemma effective_pos w : 1 ≤ effective w.
Proof. unfold effective. destruct (Z.leb_spec w 0); lia. Qed.

Lemma effective_idem w : effective (effective w) = effective w.
Proof. unfold effective. repeat case_match; bool_prop; lia. Qed.

Lemma EffectiveWeight_pos a : 1 ≤ EffectiveWeight a.
Proof. apply effective_pos. Qed.

#[export] Hint Resolve effective_pos EffectiveWeight_pos : go.

(** ** JSON documents *)

(** [JTime t] is the string that spells the instant [t] in RFC 3339;
    [JFrac] is a number literal that is not an integer, positive or negative. *)
#[warnings="-register-all"]
Inductive json : Type :=
  | JNull
  | JBool (b : bool)
  | JNum (z : Z)
  | JFrac (positive : bool)
  | JStr (s : string)
  | JTime (t : Z)
  | JArr (l : list json)
  | JObj (fields : list (string * json)).

(** Field names match ignoring ASCII case. *)
Definition lower_ascii (c : Ascii.ascii) : Ascii.ascii :=
  let n := Ascii.nat_of_ascii c in
  if (65 <=? n)%nat && (n <=? 90)%nat then Ascii.ascii_of_nat (n + 32) else c.

Fixpoint lower (s : string) : string :=
  match s with
  | EmptyString => EmptyString
  | String c s => String (lower_ascii c) (lower s)
  end.

Definition field_is (name key : string) : bool := bool_decide (lower key = name).

Definition int_of_json (z : Z) : option Z :=
  if (- two63 <=? z) && (z <? two63) then Some z else None.

(** Decoding one member into the struct: [null] leaves the field alone, a value
    of the wrong type or out of range is an error, unknown members are
    skipped. *)
Definition decode_field (a : Assignment) (kv : string * json) : option Assignment :=
  let '(k, v) := kv in
  if field_is "backend" k then
    match v with
    | JNull => Some a
    | JStr s => Some (mkAssignment s (AssignedAt a) (Source a) (Weight a))
    | _ => None
    end
  else if field_is "assigned_at" k then
    match v with
    | JNull => Some a
    | JTime t => Some (mkAssignment (Backend a) t (Source a) (Weight a))
    | _ => None
    end
  else if field_is "source" k then
    match v with
    | JNull => Some a
    | JStr s => Some (mkAssignment (Backend a) (AssignedAt a) s (Weight a))
    | _ => None
    end
  else if field_is "weight" k then
    match v with
    | JNull => Some a
    | JNum z => w ← int_of_json z; Some (mkAssignment (Backend a) (AssignedAt a) (Source a) w)
    | _ => None
    end
  else Some a.

Fixpoint decode_fields (a : Assignment) (fs : list (string * json)) : option Assignment :=
  match fs with
  | [] => Some a
  | f :: fs => a' ← decode_field a f; decode_fields a' fs
  end.

(** The zero [time.Time]: 0001-01-01T00:00:00Z, in nanoseconds from the Unix
    epoch. *)
Definition zeroTime : Z := -62135596800 * Second.

Definition zeroAssignment : Assignment := mkAssignment "" zeroTime "" 0.

(** [unmarshalAssignment]: [None] is a non-nil error. *)
Definition unmarshalAssignment (data : json) : option Assignment :=
  match data with
  | JNull => Some zeroAssignment
  | JObj fs => decode_fields zeroAssignment fs
  | _ => None
  end.

(** A decoded weight fits [int]. *)
Lemma decode_fields_int fs a a' :
  is_int (Weight a) → decode_fields a fs = Some a' → is_int (Weight a').
Proof.
  revert a. induction fs as [|[k v] fs IH]; intros a Ha Hd; simpl in Hd; [by simplify_eq|].
  apply bind_Some in Hd as (a1 & Hf & Hd). apply (IH a1); [|done].
  unfold decode_field in Hf. repeat case_match; simplify_eq/=; try done.
  apply bind_Some in Hf as (w & Hw & Hf). simplify_eq/=. unfold int_of_json in Hw.
  case_match; simplify_eq. bool_prop. unfold is_int, two63 in *. lia.
Qed.

Lemma unmarshal_int data a : unmarshalAssignment data = Some a → is_int (Weight a).
Proof.
  destruct data; simpl; intros; simplify_eq; [done|]. by eapply decode_fields_int in H.
Qed.

(** [time.Time.MarshalJSON] refuses years outside [0, 9999]. *)
Definition year_ok (t : Z) : bool :=
  (-62167219200 * Second <=? t) && (t <? 253402300800 * Second).

(** [json.Marshal] of an [Assignment]; [weight] is [omitempty]. *)
Definition marshalAssignment (a : Assignment) : option json :=
  if year_ok (AssignedAt a) then
    Some (JObj ([("backend", JStr (Backend a));
                 ("assigned_at", JTime (AssignedAt a));
                 ("source", JStr (Source a))]
                ++ (if Weight a =? 0 then [] else [("weight", JNum (Weight a))])))
  else None.

(** Decoding what was encoded gives the record back. *)
Lemma unmarshal_marshal a j :
  is_int (Weight a) → marshalAssignment a = Some j → unmarshalAssignment j = Some a.
Proof.
  unfold marshalAssignment, is_int. intros Hw Hm.
  destruct (year_ok (AssignedAt a)); [|done]. injection Hm as <-.
  destruct a as [b t s w]; simpl in *.
  destruct (Z.eqb_spec w 0) as [->|Hne]; [done|].
  simpl. unfold int_of_json.
  by rewrite (proj2 (Z.leb_le _ _)), (proj2 (Z.ltb_lt _ _)) by lia.
Qed.

(** ** Load *)

(** The weight an assignment puts on backend [b]. *)
Definition weight_on (b : string) (a : Assignment) : Z :=
  if decide (Backend a = b) then EffectiveWeight a else 0.

(** Total effective weight of the users assigned to [b]. *)
Definition load (m : gmap string Assignment) (b : string) : Z :=
  msum (λ _ a, weight_on b a) m.

Lemma weight_on_nonneg b a : 0 ≤ weight_on b a.
Proof. unfold weight_on. case_decide; [pose proof (EffectiveWeight_pos a)|]; lia. Qed.

Lemma load_nonneg m b : 0 ≤ load m b.
Proof. apply msum_nonneg. intros. apply weight_on_nonneg. Qed.

Lemma load_empty b : load ∅ b = 0.
Proof. apply msum_empty. Qed.

Lemma load_insert m k a b :
  m !! k = None → load (<[k := a]> m) b = weight_on b a + load m b.
Proof. apply (msum_insert (λ _, weight_on b)). Qed.

Lemma load_delete m k a b :
  m !! k = Some a → load (delete k m) b = load m b - weight_on b a.
Proof. intros H. unfold load. rewrite (msum_delete _ m k a H). lia. Qed.

Lemma load_update m k a a' b :
  m !! k = Some a → load (<[k := a']> m) b = load m b - weight_on b a + weight_on b a'.
Proof. intros H. unfold load. by rewrite (msum_update _ m k a a' H). Qed.

#[export] Hint Resolve load_nonneg weight_on_nonneg : go.

(** Total effective weight of a table. *)
Definition total (m : gmap string Assignment) : Z := msum (λ _ a, EffectiveWeight a) m.

Lemma load_le_total m b : load m b ≤ total m.
Proof.
  apply zsum_le. intros [k a] _. simpl. unfold weight_on. case_decide; [lia|].
  pose proof (EffectiveWeight_pos a). lia.
Qed.

Lemma load_int m b : total m < two63 → is_int (load m b).
Proof.
  intros H. pose proof (load_nonneg m b). pose proof (load_le_total m b).
  unfold is_int, two63 in *. lia.
Qed.
