(* ===== verification/RebalanceStrategy.v ===== *)
(** * rebalancer.go: the rebalancing strategies

    [LeastLoadedStrategy.ComputeMoves] and [ConsistentHashStrategy.ComputeMoves].
    A move list is a plan; [apply_moves] is the assignment table after the
    plan.  The loops over Go maps go through [MapIter]; [None] is a run-time
    panic (nil dereference, division by zero, index out of range), which the
    theorems rule out. *)
From stdpp Require Import base gmap strings list sorting fin_maps.
From Stdlib Require Import ZArith Lia.
From S2P Require Import Prelude Go Hashing Assignment.
Local Open Scope Z_scope.
Local Open Scope go_scope.

(** Move represents a user reassignment from one backend to another. *)
Record Move := mkMove { RoutingKey : string; FromBackend : string; ToBackend : string }.

#[export] Instance Move_eq_dec : EqDecision Move.
Proof. solve_decision. Defined.

(** RebalanceStrategy: [ComputeMoves(assignments, activeBackends)]. *)
Class RebalanceStrategy : Type := {
  ComputeMoves : gmap string Assignment → list string → option (list Move)
}.

(** ** Operations *)

Module LeastLoaded.
Section least_loaded.
Context `{!MapIter}.

(** The per-backend weight sums: every active backend starts at 0. *)
Definition sum_weights (activeBackends : list string)
    (assignments : list (string * Assignment)) : gmap string Z :=
  madd_all (λ p, Backend p.2) (λ p, EffectiveWeight p.2)
    (foldl (λ ws b, <[b := 0]> ws) ∅ activeBackends) assignments.

Definition group_users (assignments : list (string * Assignment)) : gmap string (list string) :=
  foldl (λ bu '(user, a), <[Backend a := default [] (bu !! Backend a) ++ [user]]> bu)
    ∅ assignments.

(** The most underloaded active backend that can absorb weight [w] without
    exceeding [ideal+1]; the empty string when there is none. *)
Definition pick_target (planned : gmap string Z) (ideal w : Z)
    (activeBackends : list string) : string :=
  fst (foldl (λ '(target, minWeight) b,
         if (planned.[b] <? minWeight) && (planned.[b] + w <=? ideal + 1)
         then (b, planned.[b]) else (target, minWeight))
       (EmptyString, ideal) activeBackends).

(** The loop over the users of one backend that has to shed [excess]. *)
Fixpoint shed (assignments : gmap string Assignment) (activeBackends : list string)
    (ideal excess : Z) (backend : string) (users : list string) (moved : Z)
    (planned : gmap string Z) (moves : list Move) : option (gmap string Z * list Move) :=
  match users with
  | [] => Some (planned, moves)
  | user :: users =>
      if excess <=? moved then Some (planned, moves) (* break *)
      else
        a ← assignments !! user;
        let w := EffectiveWeight a in
        let target := pick_target planned ideal w activeBackends in
        if bool_decide (target = EmptyString) then (* continue *)
          shed assignments activeBackends ideal excess backend users moved planned moves
        else
          shed assignments activeBackends ideal excess backend users (moved + w)
            (madd (madd planned target w) backend (- w))
            (moves ++ [mkMove user backend target])
  end.

(** The weight [backend] has to shed; [None] is the [continue]. *)
Definition excess_of (activeBackends : list string) (weights : gmap string Z)
    (ideal : Z) (backend : string) : option Z :=
  if negb (bool_decide (backend ∈ activeBackends)) then Some (weights.[backend])
  else if ideal + 1 <? weights.[backend] then Some (weights.[backend] - ideal - 1)
  else None.

Fixpoint shed_all (assignments : gmap string Assignment) (activeBackends : list string)
    (weights : gmap string Z) (ideal : Z) (groups : list (string * list string))
    (planned : gmap string Z) (moves : list Move) : option (gmap string Z * list Move) :=
  match groups with
  | [] => Some (planned, moves)
  | (backend, users) :: groups =>
      match excess_of activeBackends weights ideal backend with
      | None => shed_all assignments activeBackends weights ideal groups planned moves
      | Some excess =>
          '(planned, moves) ← shed assignments activeBackends ideal excess backend users 0 planned moves;
          shed_all assignments activeBackends weights ideal groups planned moves
      end
  end.

Definition ideal_of (weights : gmap string Z) (activeBackends : list string) : Z :=
  let totalWeight := zsum snd (range 1 weights) in
  let ideal := totalWeight `quot` Z.of_nat (length activeBackends) in
  if ideal =? 0 then 1 else ideal.

Definition ll_ComputeMoves (assignments : gmap string Assignment) (activeBackends : list string)
    : option (list Move) :=
  match activeBackends with
  | [] => Some []
  | _ =>
      let entries := range 0 assignments in
      let weights := sum_weights activeBackends entries in
      let ideal := ideal_of weights activeBackends in
      let planned := list_to_map (range 2 weights) in
      '(_, moves) ← shed_all assignments activeBackends weights ideal
                      (range 3 (group_users entries)) planned [];
      Some moves
  end.
End least_loaded.
End LeastLoaded.

Definition LeastLoadedStrategy `{!MapIter} : RebalanceStrategy :=
  {| ComputeMoves := LeastLoaded.ll_ComputeMoves |}.

Module ConsistentHash.
Section consistent_hash.
Context `{!MapIter}.

Fixpoint rehash (sorted : list string) (entries : list (string * Assignment))
    (moves : list Move) : option (list Move) :=
  match entries with
  | [] => Some moves
  | (user, a) :: entries =>
      target ← index_mod sorted (HashUser user);
      rehash sorted entries
        (if bool_decide (target = Backend a) then moves
         else moves ++ [mkMove user (Backend a) target])
  end.

Definition ch_ComputeMoves (assignments : gmap string Assignment) (activeBackends : list string)
    : option (list Move) :=
  match activeBackends with
  | [] => Some []
  | _ => rehash (sort_Strings activeBackends) (range 0 assignments) []
  end.
End consistent_hash.
End ConsistentHash.

Definition ConsistentHashStrategy `{!MapIter} : RebalanceStrategy :=
  {| ComputeMoves := ConsistentHash.ch_ComputeMoves |}.

(** ** What a plan means *)

Definition with_backend (b : string) (a : Assignment) : Assignment :=
  mkAssignment b (AssignedAt a) (Source a) (Weight a).

(** The table after the moves: each moved user points to its new backend. *)
Definition apply_moves (moves : list Move) (m : gmap string Assignment) : gmap string Assignment :=
  foldl (λ m mv, alter (with_backend (ToBackend mv)) (RoutingKey mv) m) m moves.

(** A move takes an assigned user from the backend it is on to another one. *)
Definition move_ok (m : gmap string Assignment) (active : list string) (mv : Move) : Prop :=
  (∃ a, m !! RoutingKey mv = Some a ∧ Backend a = FromBackend mv) ∧
  ToBackend mv ∈ active ∧ ToBackend mv ≠ FromBackend mv.

(** Weight a list of moves brings to, and takes from, backend [b]. *)
Definition incoming (m : gmap string Assignment) (b : string) (moves : list Move) : Z :=
  zsum (λ mv, match m !! RoutingKey mv with
              | Some a => if decide (ToBackend mv = b) then EffectiveWeight a else 0
              | None => 0
              end) moves.

Definition outgoing (m : gmap string Assignment) (b : string) (moves : list Move) : Z :=
  zsum (λ mv, match m !! RoutingKey mv with
              | Some a => if decide (FromBackend mv = b) then EffectiveWeight a else 0
              | None => 0
              end) moves.

(** The balance threshold the strategy computes for a table. *)
Definition ideal_load (m : gmap string Assignment) (active : list string) : Z :=
  let ideal := msum (λ _ a, EffectiveWeight a) m `quot` Z.of_nat (length active) in
  if ideal =? 0 then 1 else ideal.

(** ** The effect of a plan on the loads *)

Section plan.
Implicit Types (m : gmap string Assignment) (moves : list Move) (b : string).

Lemma incoming_nonneg m b moves : 0 ≤ incoming m b moves.
Proof.
  apply zsum_nonneg. intros mv _. repeat case_match; try lia.
  pose proof (EffectiveWeight_pos a). lia.
Qed.

Lemma outgoing_none m b moves :
  Forall (λ mv, FromBackend mv ≠ b) moves → outgoing m b moves = 0.
Proof.
  rewrite Forall_forall. intros H. apply zsum_zero. intros mv Hin%H.
  case_match; [|done]. by rewrite decide_False.
Qed.

(** Moves of other users do not see the user that was moved. *)
Lemma sums_alter m k f moves b :
  k ∉ RoutingKey <$> moves →
  incoming (alter f k m) b moves = incoming m b moves ∧
  outgoing (alter f k m) b moves = outgoing m b moves.
Proof.
  intros Hk. split; apply zsum_ext; intros mv Hin;
    rewrite lookup_alter_ne; try done; intros ->; apply Hk;
    by apply list_elem_of_fmap_2.
Qed.

Lemma load_alter_backend m k a b t :
  m !! k = Some a →
  load (alter (with_backend t) k m) b =
    load m b + (if decide (t = b) then EffectiveWeight a else 0)
             - (if decide (Backend a = b) then EffectiveWeight a else 0).
Proof.
  intros Hk.
  assert (alter (with_backend t) k m = <[k := with_backend t a]> m) as ->.
  { apply map_eq. intros j. rewrite lookup_alter, lookup_insert.
    case_decide; [subst; by rewrite Hk|done]. }
  rewrite (load_update m k a) by done. unfold weight_on, EffectiveWeight.
  simpl. lia.
Qed.

Lemma load_apply_moves m active moves b :
  Forall (move_ok m active) moves → NoDup (RoutingKey <$> moves) →
  load (apply_moves moves m) b = load m b + incoming m b moves - outgoing m b moves.
Proof.
  revert m. induction moves as [|mv moves IH]; intros m Hok Hnd.
  { unfold incoming, outgoing. rewrite !zsum_nil. simpl. lia. }
  inversion_clear Hok as [|? ? ((a & Ha & Hfrom) & _) Hok'].
  apply NoDup_cons in Hnd as [Hnotin Hnd].
  change (apply_moves (mv :: moves) m)
    with (apply_moves moves (alter (with_backend (ToBackend mv)) (RoutingKey mv) m)).
  rewrite IH; [|clear IH|done].
  - rewrite (load_alter_backend _ _ a) by done.
    destruct (sums_alter m (RoutingKey mv) (with_backend (ToBackend mv)) moves b Hnotin) as [-> ->].
    unfold incoming, outgoing. rewrite !zsum_cons, Ha, Hfrom. lia.
  - rewrite Forall_forall in Hok' |- *. intros mv' Hin.
    destruct (Hok' mv' Hin) as [(a' & Ha' & Hf') Hto]. split; [|done].
    exists a'. split; [|done]. rewrite lookup_alter_ne; [done|].
    intros Heq. apply Hnotin. rewrite Heq. by apply list_elem_of_fmap_2.
Qed.

Lemma lookup_apply_moves_ne m moves k :
  k ∉ RoutingKey <$> moves → apply_moves moves m !! k = m !! k.
Proof.
  revert m. induction moves as [|mv moves IH]; intros m Hk; [done|].
  apply not_elem_of_cons in Hk as [Hne Hk].
  change (apply_moves (mv :: moves) m)
    with (apply_moves moves (alter (with_backend (ToBackend mv)) (RoutingKey mv) m)).
  rewrite IH by done. by apply lookup_alter_ne.
Qed.

Lemma lookup_apply_moves m moves mv :
  NoDup (RoutingKey <$> moves) → mv ∈ moves →
  apply_moves moves m !! RoutingKey mv = with_backend (ToBackend mv) <$> m !! RoutingKey mv.
Proof.
  revert m. induction moves as [|mv' moves IH]; intros m Hnd Hin; [by apply not_elem_of_nil in Hin|].
  apply NoDup_cons in Hnd as [Hnotin Hnd].
  change (apply_moves (mv' :: moves) m)
    with (apply_moves moves (alter (with_backend (ToBackend mv')) (RoutingKey mv') m)).
  apply elem_of_cons in Hin as [->|Hin].
  - rewrite lookup_apply_moves_ne by done. apply lookup_alter_eq.
  - rewrite IH by done. f_equal. apply lookup_alter_ne. intros Heq. apply Hnotin.
    rewrite Heq. by apply list_elem_of_fmap_2.
Qed.
End plan.

(** ** The weight tables *)

Section tables.
Implicit Types (ws : gmap string Z) (entries : list (string * Assignment)).

Lemma init_weights_zero (active : list string) ws :
  (∀ k v, ws !! k = Some v → v = 0) →
  ∀ k v, foldl (λ ws b, <[b := 0]> ws) ws active !! k = Some v → v = 0.
Proof.
  revert ws. induction active as [|b active IH]; intros ws Hws; [done|].
  apply IH. intros k v. rewrite lookup_insert. case_decide; [naive_solver|eauto].
Qed.

Lemma init_weights_sum (active : list string) :
  (∀ b, mget (foldl (λ ws b, <[b := 0]> ws) ∅ active) b = 0) ∧
  msum (λ _ v, v) (foldl (λ ws b, <[b := 0]> ws) ∅ active) = 0.
Proof.
  pose proof (init_weights_zero active ∅ (λ k v H, ltac:(by rewrite lookup_empty in H))) as Hz.
  split.
  - intros b. unfold mget. destruct (_ !! b) as [v|] eqn:Hb; [|done]. by apply Hz in Hb.
  - apply zsum_zero. intros [k v] Hin%elem_of_map_to_list. by apply Hz in Hin.
Qed.

Lemma sum_weights_get active entries b :
  mget (LeastLoaded.sum_weights active entries) b = zsum (λ p, weight_on b p.2) entries.
Proof.
  unfold LeastLoaded.sum_weights.
  rewrite mget_madd_all, (proj1 (init_weights_sum active)). done.
Qed.

Lemma sum_weights_total active entries :
  msum (λ _ v, v) (LeastLoaded.sum_weights active entries) = zsum (λ p, EffectiveWeight p.2) entries.
Proof.
  unfold LeastLoaded.sum_weights.
  rewrite msum_madd_all, (proj2 (init_weights_sum active)). done.
Qed.

(** Every group holds, without duplicates, the users of its backend. *)
Lemma group_users_spec entries b us :
  NoDup entries.*1 →
  LeastLoaded.group_users entries !! b = Some us →
  NoDup us ∧ ∀ u, u ∈ us ↔ ∃ a, (u, a) ∈ entries ∧ Backend a = b.
Proof.
  intros Hnd.
  enough (Hg : ∀ b, let us := default [] (LeastLoaded.group_users entries !! b) in
            NoDup us ∧ ∀ u, u ∈ us ↔ ∃ a, (u, a) ∈ entries ∧ Backend a = b).
  { intros Hb. specialize (Hg b). by rewrite Hb in Hg. }
  clear b us. unfold LeastLoaded.group_users.
  induction entries as [|[u a] entries IH] using rev_ind.
  { intros b. simpl. split; [constructor|]. set_solver. }
  rewrite fmap_app, NoDup_app in Hnd. destruct Hnd as (Hnd & Hdis & _).
  intros b. rewrite foldl_app. simpl.
  specialize (IH Hnd b). destruct IH as [IHnd IHel]. rewrite lookup_insert.
  case_decide as Hb; simpl.
  - subst b. split.
    + apply NoDup_app. split; [done|]. split; [|apply NoDup_singleton].
      intros v Hv ->%list_elem_of_singleton. apply IHel in Hv as (a' & Hin & _).
      apply (Hdis u); [|set_solver]. apply (list_elem_of_fmap_2 fst) in Hin. done.
    + intros v. rewrite elem_of_app, IHel, list_elem_of_singleton. set_solver.
  - split; [done|]. intros v. rewrite IHel. set_solver.
Qed.

Lemma group_users_dom entries b us :
  LeastLoaded.group_users entries !! b = Some us → ∃ u a, (u, a) ∈ entries ∧ Backend a = b.
Proof.
  unfold LeastLoaded.group_users. revert us.
  induction entries as [|[u a] entries IH] using rev_ind; intros us; [done|].
  rewrite foldl_app. simpl. rewrite lookup_insert. case_decide as Hb.
  - intros _. exists u, a. set_solver.
  - intros (u' & a' & Hin & Hb')%IH. exists u', a'. set_solver.
Qed.
End tables.

(** ** The least-loaded planner *)

Lemma pick_target_spec planned ideal w active :
  let t := LeastLoaded.pick_target planned ideal w active in
  t = EmptyString ∨ (t ∈ active ∧ planned.[t] < ideal ∧ planned.[t] + w ≤ ideal + 1).
Proof.
  unfold LeastLoaded.pick_target.
  set (f := λ '(target, minWeight) b, _).
  enough (∀ l t0 m0, m0 ≤ ideal →
    let r := foldl f (t0, m0) l in
    (r.1 = t0 ∧ r.2 = m0) ∨ (r.1 ∈ l ∧ planned.[r.1] < ideal ∧ planned.[r.1] + w ≤ ideal + 1)) as H.
  { destruct (H active EmptyString ideal) as [[? _]|?]; [lia|by left|by right]. }
  induction l as [|b l IH]; intros t0 m0 Hm; simpl; [by left|].
  destruct ((planned.[b] <? m0) && (planned.[b] + w <=? ideal + 1)) eqn:Hb.
  - bool_prop. right.
    destruct (IH b (planned.[b])) as [[Ht _]|(? & ? & ?)]; [lia|..].
    + rewrite Ht. split; [left|lia].
    + split; [by right|done].
  - destruct (IH t0 m0 Hm) as [?|(? & ? & ?)]; [by left|right]. split; [by right|done].
Qed.

(** What the planner maintains: [planned] is the load of the table after the
    moves so far, and no backend is planned above the threshold. *)
Record plan_ok (m : gmap string Assignment) (active : list string) (ideal : Z)
    (planned : gmap string Z) (moves : list Move) : Prop := {
  plan_planned : ∀ b, planned.[b] = load m b + incoming m b moves - outgoing m b moves;
  plan_moves : Forall (move_ok m active) moves;
  plan_nodup : NoDup (RoutingKey <$> moves);
  plan_bound : ∀ b pre, pre `prefix_of` moves →
    load m b + incoming m b pre - outgoing m b pre ≤ Z.max (load m b) (ideal + 1)
}.

Lemma prefix_snoc_inv {A} (pre l : list A) x :
  pre `prefix_of` l ++ [x] → pre `prefix_of` l ∨ pre = l ++ [x].
Proof.
  intros [post Hpost]. destruct post as [|y post _] using rev_ind.
  - right. by rewrite app_nil_r in Hpost.
  - left. rewrite app_assoc in Hpost. apply app_inj_tail in Hpost as [-> _]. by exists post.
Qed.

Lemma plan_ok_step m active ideal planned moves user a d t :
  plan_ok m active ideal planned moves →
  m !! user = Some a → Backend a = d → user ∉ RoutingKey <$> moves →
  t ∈ active → t ≠ d → planned.[t] + EffectiveWeight a ≤ ideal + 1 →
  plan_ok m active ideal
    (madd (madd planned t (EffectiveWeight a)) d (- EffectiveWeight a))
    (moves ++ [mkMove user d t]).
Proof.
  intros [Hp Hm Hn Hb] Ha Hd Hu Ht Hne Hw. pose proof (EffectiveWeight_pos a) as Hpos.
  assert (Hp' : ∀ b, (madd (madd planned t (EffectiveWeight a)) d (- EffectiveWeight a)).[b] =
    load m b + incoming m b (moves ++ [mkMove user d t]) - outgoing m b (moves ++ [mkMove user d t])).
  { intros b. rewrite !mget_madd, Hp. unfold incoming, outgoing. rewrite !zsum_app, !zsum_singleton.
    simpl. rewrite Ha. repeat case_decide; lia. }
  split; [exact Hp'| | |].
  - apply Forall_app. split; [done|]. repeat constructor; simpl; eauto.
  - rewrite fmap_app. apply NoDup_app. repeat split; [done| |apply NoDup_singleton].
    intros k Hk ->%list_elem_of_singleton. done.
  - intros b pre [Hpre| ->]%prefix_snoc_inv; [by apply Hb|].
    rewrite <- Hp', !mget_madd. specialize (Hb b moves ltac:(done)). rewrite <- Hp in Hb.
    repeat case_decide; subst; lia.
Qed.

Lemma shed_ok m active ideal excess d users moved planned moves :
  (∀ u, u ∈ users → ∃ a, m !! u = Some a ∧ Backend a = d) → NoDup users →
  (∀ u, u ∈ users → u ∉ RoutingKey <$> moves) →
  (d ∈ active → excess = load m d - ideal - 1) →
  plan_ok m active ideal planned moves → moved = outgoing m d moves →
  ∃ planned' ext,
    LeastLoaded.shed m active ideal excess d users moved planned moves
      = Some (planned', moves ++ ext) ∧
    plan_ok m active ideal planned' (moves ++ ext) ∧ Forall (λ mv, FromBackend mv = d) ext.
Proof.
  revert moved planned moves.
  induction users as [|u users IH]; intros moved planned moves Hus Hnd Hfresh Hex Hok Hmv; simpl.
  { exists planned, []. by rewrite app_nil_r. }
  destruct (excess <=? moved) eqn:Hbrk.
  { exists planned, []. by rewrite app_nil_r. }
  bool_prop. destruct (Hus u) as (a & Ha & Hd); [left|]. rewrite Ha. simpl.
  apply NoDup_cons in Hnd as [Hu Hnd].
  assert (∀ v, v ∈ users → ∃ a, m !! v = Some a ∧ Backend a = d) as Hus' by set_solver.
  destruct (pick_target_spec planned ideal (EffectiveWeight a) active) as [Ht|(Hact & Hlt & Hfit)].
  { rewrite Ht, bool_decide_true by done. apply IH; set_solver. }
  set (t := LeastLoaded.pick_target planned ideal (EffectiveWeight a) active) in *.
  case_bool_decide; [apply IH; set_solver|].
  assert (t ≠ d) as Hne.
  { intros Htd. rewrite Htd in *. specialize (Hex Hact).
    pose proof (incoming_nonneg m d moves). rewrite (plan_planned _ _ _ _ _ Hok) in Hlt. lia. }
  destruct (IH (moved + EffectiveWeight a)
    (madd (madd planned t (EffectiveWeight a)) d (- EffectiveWeight a))
    (moves ++ [mkMove u d t])) as (planned' & ext & Hs & Hok' & Hext); try done.
  - intros v Hv. rewrite fmap_app. simpl. set_solver.
  - apply plan_ok_step; eauto. apply Hfresh. left.
  - subst moved. unfold outgoing. rewrite zsum_app, zsum_singleton. simpl.
    rewrite Ha, decide_True by done. lia.
  - exists planned', (mkMove u d t :: ext). rewrite <- app_assoc in *. simpl in *.
    split; [done|]. split; [done|]. by constructor.
Qed.

Lemma shed_all_ok m active weights ideal groups planned moves :
  (∀ b, weights.[b] = load m b) →
  (∀ d us, (d, us) ∈ groups → NoDup us ∧ ∀ u, u ∈ us → ∃ a, m !! u = Some a ∧ Backend a = d) →
  NoDup groups.*1 →
  Forall (λ mv, FromBackend mv ∉ groups.*1) moves →
  plan_ok m active ideal planned moves →
  ∃ planned' moves',
    LeastLoaded.shed_all m active weights ideal groups planned moves = Some (planned', moves') ∧
    plan_ok m active ideal planned' moves'.
Proof.
  intros Hw. revert planned moves.
  induction groups as [|[d us] groups IH]; intros planned moves Hg Hnd Hfrom Hok; simpl; [eauto|].
  apply NoDup_cons in Hnd as [Hd Hnd]. simpl in *.
  assert (Hg' : ∀ d us, (d, us) ∈ groups → NoDup us ∧ ∀ u, u ∈ us → ∃ a, m !! u = Some a ∧ Backend a = d)
    by (intros; apply Hg; by right).
  destruct (Hg d us) as [Hndu Hus]; [left|].
  assert (Hfrom' : Forall (λ mv, FromBackend mv ∉ groups.*1) moves).
  { eapply Forall_impl; [exact Hfrom|]. simpl. set_solver. }
  destruct (LeastLoaded.excess_of active weights ideal d) as [excess|] eqn:Hex; [|by apply IH].
  destruct (shed_ok m active ideal excess d us 0 planned moves) as (p' & ext & Hs & Hok' & Hext); try done.
  - intros u Hu (mv & -> & Hin)%list_elem_of_fmap.
    rewrite Forall_forall in Hfrom. apply (Hfrom mv Hin).
    destruct (proj1 (Forall_forall _ _) (plan_moves _ _ _ _ _ Hok) mv Hin) as [(a & Ha & <-) _].
    destruct (Hus _ Hu) as (a' & Ha' & Hd'). simplify_eq. left.
  - intros Hact. unfold LeastLoaded.excess_of in Hex.
    rewrite bool_decide_true in Hex by done. simpl in Hex.
    destruct (ideal + 1 <? weights.[d]); [|done]. rewrite Hw in Hex. congruence.
  - rewrite outgoing_none; [done|]. eapply Forall_impl; [exact Hfrom|]. simpl. set_solver.
  - rewrite Hs. simpl. apply IH; try done. apply Forall_app. split; [done|].
    eapply Forall_impl; [exact Hext|]. simpl. intros mv ->. done.
Qed.

Section least_loaded_theorems.
Context `{!MapIter}.
Implicit Types (m : gmap string Assignment) (active : list string).

Lemma weights_load m active b :
  mget (LeastLoaded.sum_weights active (range 0 m)) b = load m b.
Proof. rewrite sum_weights_get. unfold load. by rewrite (msum_range _ 0). Qed.

Lemma ideal_of_load m active :
  LeastLoaded.ideal_of (LeastLoaded.sum_weights active (range 0 m)) active = ideal_load m active.
Proof.
  unfold LeastLoaded.ideal_of, ideal_load.
  change (zsum snd ?l) with (zsum (λ p, (λ (_ : string) v, v) p.1 p.2) l).
  rewrite <- (msum_range (λ _ v, v) 1), sum_weights_total, (msum_range _ 0). done.
Qed.

Lemma groups_ok m d us :
  (d, us) ∈ range 3 (LeastLoaded.group_users (range 0 m)) →
  NoDup us ∧ ∀ u, u ∈ us → ∃ a, m !! u = Some a ∧ Backend a = d.
Proof.
  intros Hin%elem_of_range%group_users_spec; [|apply NoDup_range_keys].
  destruct Hin as [Hnd Hel]. split; [done|]. intros u (a & Ha%elem_of_range & Hb)%Hel. eauto.
Qed.

Lemma compute_nonempty m active :
  active ≠ [] →
  let weights := LeastLoaded.sum_weights active (range 0 m) in
  LeastLoaded.ll_ComputeMoves m active =
    '(_, moves) ← LeastLoaded.shed_all m active weights (LeastLoaded.ideal_of weights active)
       (range 3 (LeastLoaded.group_users (range 0 m))) (list_to_map (range 2 weights)) [];
    Some moves.
Proof. by destruct active. Qed.

Lemma compute_plan m active :
  ∃ moves planned, LeastLoaded.ll_ComputeMoves m active = Some moves ∧
    (active = [] ∧ moves = [] ∨ plan_ok m active (ideal_load m active) planned moves).
Proof.
  destruct (decide (active = [])) as [->|Hne]; [exists [], ∅; auto|].
  rewrite compute_nonempty, ideal_of_load by done.
  destruct (shed_all_ok m active (LeastLoaded.sum_weights active (range 0 m))
    (ideal_load m active) (range 3 (LeastLoaded.group_users (range 0 m)))
    (list_to_map (range 2 (LeastLoaded.sum_weights active (range 0 m)))) [])
    as (p' & moves & Hs & Hok).
  - intros b. apply weights_load.
  - apply groups_ok.
  - apply NoDup_range_keys.
  - constructor.
  - rewrite list_to_map_range. split; try constructor.
    + intros b. rewrite weights_load. unfold incoming, outgoing. rewrite !zsum_nil. lia.
    + intros b pre ->%prefix_nil_inv. unfold incoming, outgoing. rewrite !zsum_nil. lia.
  - exists moves, p'. rewrite Hs. auto.
Qed.
(** C25. The least-loaded strategy never panics, and its plan is sound: each
    move takes a user from the backend it is assigned to, to a different
    backend of the active list, and no user is moved twice.  The sums of weights
    are exact integers: this is the code as long as they fit an int64. *)
Theorem least_loaded_plan_sound m active :
  ∃ moves, LeastLoaded.ll_ComputeMoves m active = Some moves ∧
    Forall (move_ok m active) moves ∧ NoDup (RoutingKey <$> moves).
Proof.
  destruct (compute_plan m active) as (moves & p & Hc & [[-> ->]|Hok]).
  - exists []. repeat constructor.
  - exists moves. split; [done|]. split; apply Hok.
Qed.

(** C24. Carrying out the plan overloads no backend at any point: after any
    number of its moves, in the order of the plan, every backend, active or
    not, has at most [ideal+1], or at most the load it had.  (Loads are exact
    integers: the sums of the code are those as long as the weights of the
    table add up to less than 2^63.) *)
Theorem least_loaded_no_overload m active moves pre b :
  LeastLoaded.ll_ComputeMoves m active = Some moves → pre `prefix_of` moves →
  load (apply_moves pre m) b ≤ Z.max (load m b) (ideal_load m active + 1).
Proof.
  intros Hm Hpre. destruct (compute_plan m active) as (moves' & p & Hc & Hok).
  rewrite Hm in Hc. injection Hc as <-.
  destruct Hok as [[-> ->]|Hok]; [apply prefix_nil_inv in Hpre as ->; simpl; lia|].
  rewrite (load_apply_moves m active).
  - by apply (plan_bound _ _ _ _ _ Hok).
  - destruct Hpre as [post ->]. by apply (plan_moves _ _ _ _ _), Forall_app in Hok as [? _].
  - destruct Hpre as [post ->]. apply plan_nodup in Hok. rewrite fmap_app in Hok.
    by apply NoDup_app in Hok as [? _].
Qed.

(** A balanced table is left alone: when every user is on an active
    backend and no active backend exceeds [ideal+1], the plan is empty. *)
Theorem least_loaded_balanced_noop m active :
  (∀ k a, m !! k = Some a → Backend a ∈ active) →
  (∀ b, b ∈ active → load m b ≤ ideal_load m active + 1) →
  LeastLoaded.ll_ComputeMoves m active = Some [].
Proof.
  intros Hact Hbal. destruct (decide (active = [])) as [->|Hne]; [done|].
  rewrite compute_nonempty, ideal_of_load by done. simpl.
  enough (∀ groups planned, Forall (λ d, d ∈ active) groups.*1 →
    LeastLoaded.shed_all m active (LeastLoaded.sum_weights active (range 0 m))
      (ideal_load m active) groups planned [] = Some (planned, [])) as Hs.
  { rewrite Hs; [done|]. apply Forall_forall. intros d Hd%elem_of_range_keys.
    destruct Hd as [us (u & a & Hin%elem_of_range & <-)%group_users_dom]. eauto. }
  induction groups as [|[d us] groups IH]; intros planned Hd; [done|].
  inversion_clear Hd as [|? ? Hd1 Hd2]. simpl in *. unfold LeastLoaded.excess_of.
  rewrite bool_decide_true by done. simpl. rewrite weights_load.
  rewrite (proj2 (Z.ltb_ge _ _)) by auto. by apply IH.
Qed.
End least_loaded_theorems.

(** ** The consistent-hash planner *)

Lemma rehash_spec sorted entries moves :
  (∀ u, is_Some (index_mod sorted (HashUser u))) → NoDup entries.*1 →
  ∃ ext, ConsistentHash.rehash sorted entries moves = Some (moves ++ ext) ∧
    NoDup (RoutingKey <$> ext) ∧
    ∀ mv, mv ∈ ext ↔ ∃ a, (RoutingKey mv, a) ∈ entries ∧ FromBackend mv = Backend a ∧
      index_mod sorted (HashUser (RoutingKey mv)) = Some (ToBackend mv) ∧ ToBackend mv ≠ Backend a.
Proof.
  intros Hidx. revert moves. induction entries as [|[u a] entries IH]; intros moves Hnd; simpl.
  { exists []. rewrite app_nil_r. split; [done|]. split; [constructor|]. set_solver. }
  apply NoDup_cons in Hnd as [Hu Hnd]. simpl in Hu.
  destruct (Hidx u) as [t Ht]. rewrite Ht. simpl. case_bool_decide as Hta.
  - destruct (IH moves Hnd) as (ext & Hr & Hn & Hel). exists ext. split; [done|]. split; [done|].
    intros mv. rewrite Hel. split.
    + intros (a' & Hin & Hrest). exists a'. split; [by right|done].
    + intros (a' & [Heq|Hin]%elem_of_cons & Hf & Hi & Hne); [|by eauto].
      injection Heq as Hk ->. rewrite Hk in Hi. congruence.
  - destruct (IH (moves ++ [mkMove u (Backend a) t]) Hnd) as (ext & Hr & Hn & Hel).
    exists (mkMove u (Backend a) t :: ext). rewrite Hr, <- app_assoc. split; [done|]. split.
    + simpl. apply NoDup_cons. split; [|done]. intros (mv & Hk & Hin)%list_elem_of_fmap.
      apply Hel in Hin as (a' & Hin & _). apply Hu. rewrite Hk.
      apply (list_elem_of_fmap_2 fst) in Hin. done.
    + intros mv. rewrite elem_of_cons, Hel. split.
      * intros [->|(a' & Hin & Hrest)]; [|exists a'; split; [by right|done]].
        exists a. simpl. split; [left|done].
      * intros (a' & [Heq|Hin]%elem_of_cons & Hf & Hi & Hne); [|right; by eauto 10].
        left. injection Heq as Hk ->. rewrite Hk, Ht in Hi. destruct mv; simpl in *. congruence.
Qed.

Section consistent_hash_theorems.
Context `{!MapIter}.
Implicit Types (m : gmap string Assignment) (active : list string).

Lemma sorted_index_total active :
  active ≠ [] → Z.of_nat (length active) < two32 →
  ∀ u, is_Some (index_mod (sort_Strings active) (HashUser u)).
Proof.
  intros Hne Hlen u.
  destruct (index_mod_some (sort_Strings active) (HashUser u)) as (b & Hb & _).
  - by rewrite sort_Strings_nil.
  - apply HashUser_u32.
  - by rewrite sort_Strings_length.
  - by exists b.
Qed.

Lemma ch_compute_spec m active :
  active ≠ [] → Z.of_nat (length active) < two32 →
  ∃ moves, ConsistentHash.ch_ComputeMoves m active = Some moves ∧ NoDup (RoutingKey <$> moves) ∧
    ∀ mv, mv ∈ moves ↔ ∃ a, m !! RoutingKey mv = Some a ∧ FromBackend mv = Backend a ∧
      index_mod (sort_Strings active) (HashUser (RoutingKey mv)) = Some (ToBackend mv) ∧
      ToBackend mv ≠ Backend a.
Proof.
  intros Hne Hlen.
  destruct (rehash_spec (sort_Strings active) (range 0 m) []) as (moves & Hr & Hn & Hel).
  { by apply sorted_index_total. }
  { apply NoDup_range_keys. }
  exists moves. split; [by destruct active|]. split; [done|].
  intros mv. rewrite Hel. by setoid_rewrite elem_of_range.
Qed.

Lemma ch_no_moves m active :
  active ≠ [] → Z.of_nat (length active) < two32 →
  (∀ k a, m !! k = Some a → index_mod (sort_Strings active) (HashUser k) = Some (Backend a)) →
  ConsistentHash.ch_ComputeMoves m active = Some [].
Proof.
  intros Hne Hlen Hm. destruct (ch_compute_spec m active Hne Hlen) as (moves & -> & _ & Hel).
  destruct moves as [|mv moves]; [done|].
  destruct (proj1 (Hel mv)) as (a & Ha & _ & Hi & Hx); [left|].
  rewrite (Hm _ _ Ha) in Hi. congruence.
Qed.

(** The consistent-hash plan puts every user where its hash says: after
    the moves each user is on [sorted[HashUser(user) % n]], so planning again
    finds nothing to move; the plan never panics. *)
Theorem consistent_hash_places m active :
  active ≠ [] → Z.of_nat (length active) < two32 →
  ∃ moves, ConsistentHash.ch_ComputeMoves m active = Some moves ∧
    (∀ k a, apply_moves moves m !! k = Some a →
       index_mod (sort_Strings active) (HashUser k) = Some (Backend a)) ∧
    ConsistentHash.ch_ComputeMoves (apply_moves moves m) active = Some [].
Proof.
  intros Hne Hlen. destruct (ch_compute_spec m active Hne Hlen) as (moves & Hc & Hnd & Hel).
  exists moves. split; [done|].
  assert (Hplace : ∀ k a, apply_moves moves m !! k = Some a →
    index_mod (sort_Strings active) (HashUser k) = Some (Backend a)).
  { intros k a Ha. destruct (decide (k ∈ RoutingKey <$> moves)) as [Hin|Hin].
    - apply list_elem_of_fmap in Hin as (mv & -> & Hin).
      rewrite lookup_apply_moves in Ha by done.
      apply Hel in Hin as (a' & Ha' & _ & Hi & _). rewrite Ha' in Ha. by injection Ha as <-.
    - rewrite lookup_apply_moves_ne in Ha by done.
      destruct (sorted_index_total active Hne Hlen k) as [t Ht].
      destruct (decide (t = Backend a)) as [->|Hx]; [done|].
      destruct Hin. apply (list_elem_of_fmap_2' _ _ (mkMove k (Backend a) t)); [|done].
      apply Hel. simpl. eauto. }
  split; [done|]. by apply ch_no_moves.
Qed.
End consistent_hash_theorems.

(** ** What the rebalancer relies on *)

(** A strategy whose plans name an active target for every move, move only
    assigned users and none twice. *)
Class SoundStrategy (strategy : RebalanceStrategy) : Prop := {
  ComputeMoves_sound m active :
    "" ∉ active → Z.of_nat (length active) < two32 →
    ∃ moves, ComputeMoves m active = Some moves ∧
      Forall (move_ok m active) moves ∧ NoDup (RoutingKey <$> moves)
}.

#[export] Instance least_loaded_is_sound `{!MapIter} : SoundStrategy LeastLoadedStrategy.
Proof.
  split. intros m active _ _. destruct (compute_plan m active) as (moves & p & Hc & Hok).
  exists moves. split; [done|]. destruct Hok as [[-> ->]|Hok]; [repeat constructor|]. split; apply Hok.
Qed.

#[export] Instance consistent_hash_is_sound `{!MapIter} : SoundStrategy ConsistentHashStrategy.
Proof.
  split. intros m active _ Hlen. destruct (decide (active = [])) as [->|Hne].
  { exists []. repeat constructor. }
  destruct (ch_compute_spec m active Hne Hlen) as (moves & Hc & Hnd & Hel).
  exists moves. split; [done|]. split; [|done]. apply Forall_forall. intros mv Hin.
  apply Hel in Hin as (a & Ha & Hf & Hi & Hx). split; [by eauto|]. split; [|congruence].
  unfold index_mod in Hi. case_match; [done|]. apply list_elem_of_lookup_2 in Hi.
  by apply sort_Strings_elem.
Qed.

(** *** Witnesses *)

Module LeastLoadedExamples.
#[local] Existing Instance map_iter_canonical.

Definition on (b : string) (w : Z) : Assignment := mkAssignment b 0 "assignment" w.

(** Two users on [a], one on [b]: balanced. *)
Definition balanced : gmap string Assignment :=
  {[ "u1" := on "a" 1; "u2" := on "a" 1; "u3" := on "b" 1 ]}.

(** Five users on [a], none on [b]. *)
Definition skewed : gmap string Assignment :=
  {[ "u1" := on "a" 1; "u2" := on "a" 1; "u3" := on "a" 1; "u4" := on "a" 1; "u5" := on "a" 1 ]}.

Lemma least_loaded_no_overload_witness :
  ∃ moves, LeastLoaded.ll_ComputeMoves skewed ["a"; "b"] = Some moves ∧ length moves = 2%nat ∧
    load (apply_moves moves skewed) "b" ≤ Z.max (load skewed "b") (ideal_load skewed ["a"; "b"] + 1).
Proof.
  eexists. split; [vm_compute; reflexivity|]. split; [reflexivity|].
  eapply least_loaded_no_overload; [vm_compute; reflexivity|done].
Defined.

Lemma least_loaded_balanced_noop_witness :
  LeastLoaded.ll_ComputeMoves balanced ["a"; "b"] = Some [].
Proof.
  apply least_loaded_balanced_noop.
  - intros k a Hk. apply (bool_decide_eq_true_1 (Backend a ∈ ["a"; "b"])).
    revert k a Hk. apply map_forallb. vm_compute. reflexivity.
  - intros b Hb. apply elem_of_cons in Hb as [->|Hb]; [vm_compute; discriminate|].
    apply list_elem_of_singleton in Hb as ->. vm_compute. discriminate.
Defined.

(** Five users of weight 1 on the inactive backend [dead], with [a] and [b]
    active and empty. *)
Definition orphaned : gmap string Assignment :=
  {[ "u1" := on "dead" 1; "u2" := on "dead" 1; "u3" := on "dead" 1;
     "u4" := on "dead" 1; "u5" := on "dead" 1 ]}.

(** The comment at the loop says an inactive backend has all its users
    evacuated; the target test [planned < ideal] leaves users behind once
    every active backend has reached the (rounded down) ideal load.  Five
    users of a dead backend, two empty active backends: one user stays on
    the dead backend. *)
Theorem least_loaded_strands_user :
  ∃ moves, LeastLoaded.ll_ComputeMoves orphaned ["a"; "b"] = Some moves ∧
    load (apply_moves moves orphaned) "dead" = 1.
Proof. eexists. split; vm_compute; reflexivity. Qed.

Lemma consistent_hash_places_witness :
  ∃ moves, ConsistentHash.ch_ComputeMoves skewed ["b"; "a"] = Some moves ∧
    ConsistentHash.ch_ComputeMoves (apply_moves moves skewed) ["b"; "a"] = Some [].
Proof.
  destruct (consistent_hash_places skewed ["b"; "a"]) as (moves & Hm & _ & Hz).
  - discriminate.
  - reflexivity.
  - exists moves. by split.
Defined.
End LeastLoadedExamples.
