(* ===== verification/UserCache.v ===== *)
(** * user_cache.go: the local sticky cache

    A map from routing key to backend and expiry instant.  Expired entries are
    removed lazily by [Get] and by the background sweep; both are shown to be
    unobservable: the cache answers as the specification that never removes
    an expired entry, on every sequence of operations with a monotone clock. *)
From stdpp Require Import base gmap strings list fin_maps.
From Stdlib Require Import ZArith Lia.
From S2P Require Import Prelude Go.
Local Open Scope Z_scope.

Module UC.

Record cacheEntry := mkCacheEntry { backend : string; exp : Z }.

Record UserCache := mkUserCache { ttl : Duration; data : gmap string cacheEntry }.

#[global] Instance cacheEntry_eq_dec : EqDecision cacheEntry.
Proof. solve_decision. Defined.

#[global] Instance UserCache_eq_dec : EqDecision UserCache.
Proof. solve_decision. Defined.

Definition NewUserCache (ttl : Duration) : UserCache := mkUserCache ttl ∅.

(** ** Operations *)

Definition set_data (c : UserCache) (d : gmap string cacheEntry) : UserCache :=
  mkUserCache (ttl c) d.

Definition Get (now : Z) (key : string) (c : UserCache) : result string * UserCache :=
  match data c !! key with
  | None => ((EmptyString, Some ErrCacheMiss), c)
  | Some entry =>
      if After now (exp entry)
      then ((EmptyString, Some ErrCacheMiss), set_data c (delete key (data c)))
      else ((backend entry, None), c)
  end.

Definition Set_ (now : Z) (key b : string) (c : UserCache) : UserCache :=
  set_data c (<[key := mkCacheEntry b (now + ttl c)]> (data c)).

(** Invalidate deletes a specific user's sticky mapping. *)
Definition Invalidate (userID : string) (c : UserCache) : UserCache :=
  set_data c (delete userID (data c)).

(** UsersForBackend returns all routing keys whose live entry is on [b]. *)
Definition UsersForBackend `{!MapIter} (now : Z) (b : string) (c : UserCache) : list string :=
  omap (λ '(key, entry),
      if bool_decide (backend entry = b) && negb (Before (exp entry) now) then Some key else None)
    (range 10 (data c)).

(** InvalidateBackend deletes every entry on [b], expired or not. *)
Definition InvalidateBackend `{!MapIter} (b : string) (c : UserCache) : UserCache :=
  set_data c
    (foldl (λ d '(key, entry), if bool_decide (backend entry = b) then delete key d else d)
       (data c) (range 11 (data c))).

(** One tick of [cleanupLoop]. *)
Definition cleanup `{!MapIter} (now : Z) (c : UserCache) : UserCache :=
  set_data c
    (foldl (λ d '(key, entry), if After now (exp entry) then delete key d else d)
       (data c) (range 12 (data c))).

(** ** The specification: a timed map that never removes an expired entry *)

(** What a reader sees at [now]. *)
Definition live (now : Z) (d : gmap string cacheEntry) (key : string) : option string :=
  match d !! key with
  | Some e => if After now (exp e) then None else Some (backend e)
  | None => None
  end.

Inductive op :=
  | OGet (key : string)
  | OSet (key b : string)
  | OInvalidate (key : string)
  | OUsers (b : string)
  | OInvalidateBackend (b : string)
  | OCleanup.

Inductive out :=
  | OutGet (r : result string)
  | OutUsers (s : gset string)
  | OutUnit.

(** The cache as the program runs it. *)
Definition step `{!MapIter} (now : Z) (o : op) (c : UserCache) : out * UserCache :=
  match o with
  | OGet k => let '(r, c') := Get now k c in (OutGet r, c')
  | OSet k b => (OutUnit, Set_ now k b c)
  | OInvalidate k => (OutUnit, Invalidate k c)
  | OUsers b => (OutUsers (list_to_set (UsersForBackend now b c)), c)
  | OInvalidateBackend b => (OutUnit, InvalidateBackend b c)
  | OCleanup => (OutUnit, cleanup now c)
  end.

(** The specification: lookups, inserts and filters on the timed map. *)
Definition spec_step (ttl now : Z) (o : op) (d : gmap string cacheEntry)
    : out * gmap string cacheEntry :=
  match o with
  | OGet k => (OutGet (match live now d k with
                       | Some b => (b, None) | None => (EmptyString, Some ErrCacheMiss) end), d)
  | OSet k b => (OutUnit, <[k := mkCacheEntry b (now + ttl)]> d)
  | OInvalidate k => (OutUnit, delete k d)
  | OUsers b => (OutUsers (filter (λ k, live now d k = Some b) (dom d)), d)
  | OInvalidateBackend b => (OutUnit, filter (λ '(_, e), backend e ≠ b) d)
  | OCleanup => (OutUnit, d)
  end.

Fixpoint run `{!MapIter} (ops : list (Z * op)) (c : UserCache) : list out :=
  match ops with
  | [] => []
  | (now, o) :: ops => let '(r, c') := step now o c in r :: run ops c'
  end.

Fixpoint spec_run (ttl : Z) (ops : list (Z * op)) (d : gmap string cacheEntry) : list out :=
  match ops with
  | [] => []
  | (now, o) :: ops => let '(r, d') := spec_step ttl now o d in r :: spec_run ttl ops d'
  end.

(** The clock never goes back. *)
Fixpoint monotone (t : Z) (ops : list (Z * op)) : Prop :=
  match ops with
  | [] => True
  | (now, _) :: ops => t ≤ now ∧ monotone now ops
  end.

(** ** Deleting while ranging *)

Lemma lookup_InvalidateBackend `{!MapIter} b c k :
  data (InvalidateBackend b c) !! k
  = match data c !! k with
    | Some e => if bool_decide (backend e = b) then None else Some e | None => None end.
Proof. apply (range_delete_if 11 (λ _ e, bool_decide (backend e = b))). Qed.

Lemma lookup_cleanup `{!MapIter} now c k :
  data (cleanup now c) !! k
  = match data c !! k with
    | Some e => if After now (exp e) then None else Some e | None => None end.
Proof. apply (range_delete_if 12 (λ _ e, After now (exp e))). Qed.

(** ** Simulation *)

(** The two maps agree from [now] on. *)
Definition agree (now : Z) (d d' : gmap string cacheEntry) : Prop :=
  ∀ k, d !! k = d' !! k ∨
    (d !! k = None ∧ ∃ e, d' !! k = Some e ∧ After now (exp e) = true).

Lemma live_None_later d k now t :
  live now d k = None → now ≤ t → live t d k = None.
Proof.
  unfold live, After. destruct (d !! k) as [e|]; [|done]. intros. repeat case_match; bool_prop; try done. lia.
Qed.

Lemma agree_later now t d d' : agree now d d' → now ≤ t → agree t d d'.
Proof.
  intros H Ht k. destruct (H k) as [?|(? & e & He & Ha)]; [by left|right].
  split; [done|]. exists e. split; [done|]. unfold After in *. bool_prop. apply Z.ltb_lt. lia.
Qed.

Lemma agree_live now d d' k : agree now d d' → live now d k = live now d' k.
Proof.
  intros H. unfold live. destruct (H k) as [->|(-> & e & -> & ->)]; done.
Qed.

Lemma elem_of_UsersForBackend `{!MapIter} now b c k :
  k ∈ UsersForBackend now b c ↔ live now (data c) k = Some b.
Proof.
  unfold UsersForBackend, live. rewrite list_elem_of_omap. split.
  - intros ([k' e] & Hin%elem_of_range & Hif).
    destruct (bool_decide (backend e = b)) eqn:Hb; simpl in Hif; [|done].
    destruct (Before (exp e) now) eqn:Hn; simpl in Hif; [done|]. injection Hif as ->.
    rewrite Hin. unfold After. unfold Before in Hn. rewrite Hn. bool_prop. congruence.
  - destruct (data c !! k) as [e|] eqn:Hk; [|done]. intros Hif.
    exists (k, e). split; [by apply elem_of_range|].
    unfold After in Hif. unfold Before. destruct (exp e <? now); [done|].
    injection Hif as ->. by rewrite bool_decide_true.
Qed.

Lemma cache_step_sim `{!MapIter} now o c d r c' :
  agree now (data c) d → step now o c = (r, c') →
  ∃ d', spec_step (ttl c) now o d = (r, d') ∧ agree now (data c') d' ∧ ttl c' = ttl c.
Proof.
  intros Hag. pose proof (λ k, agree_live now _ _ k Hag) as Hlive.
  destruct o as [k|k b|k|b|b|]; simpl; unfold set_data.
  - unfold Get. specialize (Hlive k). unfold live in *. intros Hs.
    exists d. destruct (data c !! k) as [e|] eqn:Hk.
    + destruct (After now (exp e)) eqn:Hexp; simplify_eq; simpl.
      * rewrite <- Hlive. split; [done|]. split; [|done]. intros j. rewrite lookup_delete.
        case_decide; [subst j|apply Hag]. destruct (Hag k) as [Heq|(Hn & _)]; [|congruence].
        right. split; [done|]. exists e. by rewrite <- Heq.
      * by rewrite <- Hlive.
    + simplify_eq. rewrite <- Hlive. done.
  - intros; simplify_eq. eexists. split; [done|]. split; [|done]. intros j. simpl.
    rewrite !lookup_insert. case_decide; [by left|apply Hag].
  - intros; simplify_eq. eexists. split; [done|]. split; [|done]. intros j. simpl.
    rewrite !lookup_delete. case_decide; [by left|apply Hag].
  - intros; simplify_eq. exists d. split; [|done]. f_equal. f_equal. apply set_eq. intros k.
    rewrite elem_of_list_to_set, elem_of_UsersForBackend, elem_of_filter, Hlive, elem_of_dom.
    split; [by intros [? _]|]. intros Hl. split; [done|]. unfold live in Hl.
    destruct (d !! k); [eauto|done].
  - intros; simplify_eq. eexists. split; [done|]. split; [|done]. intros k.
    rewrite lookup_InvalidateBackend, map_lookup_filter.
    destruct (Hag k) as [->|(-> & e & -> & He)]; simpl.
    + destruct (d !! k) as [e|]; simpl; [|by left]. left.
      case_bool_decide; case_guard; done.
    + case_guard; simpl; [|by left]. right. eauto.
  - intros; simplify_eq. exists d. split; [done|]. split; [|done]. intros k.
    rewrite lookup_cleanup. destruct (Hag k) as [<-|(-> & e & -> & He)]; [|right; eauto].
    destruct (data c !! k) as [e|] eqn:Hk; [|by left].
    destruct (After now (exp e)) eqn:He; [|by left]. right. split; [done|]. eauto.
Qed.

(** C31. Removing expired entries, lazily in [Get] and in the background sweep,
    is unobservable: on every sequence of cache operations with a monotone
    clock, whatever the iteration orders, the cache answers as the timed map
    that keeps every entry. *)
Theorem user_cache_refines `{!MapIter} ttl t ops :
  monotone t ops → run ops (NewUserCache ttl) = spec_run ttl ops ∅.
Proof.
  change ttl with (UC.ttl (NewUserCache ttl)) at 2.
  assert (Hag : agree t (data (NewUserCache ttl)) ∅) by (intros k; by left).
  revert t Hag. generalize (∅ : gmap string cacheEntry) as d. generalize (NewUserCache ttl) as c.
  induction ops as [|[now o] ops IH]; intros c d t Hag Hm; [done|].
  destruct Hm as [Ht Hm]. simpl. destruct (step now o c) as [r c'] eqn:Hs.
  destruct (cache_step_sim now o c d r c') as (d' & -> & Hag' & Httl); eauto using agree_later.
  f_equal. rewrite <- Httl. eauto.
Qed.

Lemma user_cache_refines_witness :
  let _ := map_iter_canonical in
  let ops := [(0, OSet "u" "a"); (3, OGet "u"); (9, OUsers "a"); (9, OGet "u"); (9, OCleanup)] in
  run ops (NewUserCache 5) = spec_run 5 ops ∅ ∧
  spec_run 5 ops ∅ = [OutUnit; OutGet ("a", None); OutUsers ∅;
                      OutGet (EmptyString, Some ErrCacheMiss); OutUnit].
Proof.
  intros inst ops. split; [|vm_compute; reflexivity].
  apply (user_cache_refines 5 0). simpl. lia.
Defined.

End UC.
