(* ===== verification/Notifier.v ===== *)
(** * cache_notifier.go: invalidations from other replicas

    A replica that drains or evicts a backend publishes its name; every replica
    drops the cached users of that backend.  [subscribeDebouncedNotifier] is a
    goroutine between two channels: the callback of the subscription puts
    names into a buffer of 64 and drops what does not fit; the loop collects
    names and, a window after the first, invalidates them all. *)
From stdpp Require Import base gmap strings list fin_maps relations.
From Stdlib Require Import ZArith Lia.
From S2P Require Import Prelude Go UserCache.
Local Open Scope Z_scope.

Module Notifier.

(** [timer] is the instant the timer fires, [None] for a nil timer. *)
Record sub := mkSub {
  ch : list string;
  pending : gset string;
  timer : option Z;
  cache : UC.UserCache
}.

Definition init (c : UC.UserCache) : sub := mkSub [] ∅ None c.

Definition capacity : nat := 64.

(** The callback: [false] when the event is dropped. *)
Definition onInvalidate (b : string) (s : sub) : bool * sub :=
  if (length (ch s) <? capacity)%nat
  then (true, mkSub (ch s ++ [b]) (pending s) (timer s) (cache s))
  else (false, s).

(** [case backend := <-ch] *)
Definition receive (now : Z) (window : Duration) (s : sub) : option sub :=
  match ch s with
  | [] => None
  | b :: rest =>
      Some (mkSub rest ({[b]} ∪ pending s)
              (match timer s with Some t => Some t | None => Some (now + window) end) (cache s))
  end.

Section loop.
Context `{!MapIter}.

(** [case <-timerC]: every pending backend is invalidated. *)
Definition fire (now : Z) (s : sub) : option sub :=
  match timer s with
  | None => None
  | Some t =>
      if t <=? now
      then Some (mkSub (ch s) ∅ None
                   (foldl (λ c b, UC.InvalidateBackend b c) (cache s) (range_set 120 (pending s))))
      else None
  end.

(** The goroutines of the subscriber, and the requests that write the cache
    meanwhile.  [owed] are the accepted events the cache has not seen yet. *)
Inductive step (window : Duration) : sub * gset string → sub * gset string → Prop :=
  | step_accept b s s' owed :
      onInvalidate b s = (true, s') → step window (s, owed) (s', {[b]} ∪ owed)
  | step_drop b s s' owed :
      onInvalidate b s = (false, s') → step window (s, owed) (s', owed)
  | step_receive now s s' owed :
      receive now window s = Some s' → step window (s, owed) (s', owed)
  | step_fire now s s' owed :
      fire now s = Some s' → step window (s, owed) (s', owed ∖ pending s ∪ list_to_set (ch s))
  | step_set now key b s owed :
      step window (s, owed)
        (mkSub (ch s) (pending s) (timer s) (UC.Set_ now key b (cache s)), owed).

(** Nothing accepted is forgotten. *)
Record sub_inv (st : sub * gset string) : Prop := {
  inv_owed : ∀ b, b ∈ st.2 → b ∈ ch st.1 ∨ b ∈ pending st.1;
  inv_timer : pending st.1 ≠ ∅ → is_Some (timer st.1);
  inv_bound : (length (ch st.1) ≤ capacity)%nat
}.

Lemma step_sub_inv window st st' : step window st st' → sub_inv st → sub_inv st'.
Proof.
  intros Hstep [Ho Ht Hb]. destruct Hstep as [b s s' owed Hs|b s s' owed Hs|now s s' owed Hs|now s s' owed Hs|now key b s owed];
    simpl in *.
  - unfold onInvalidate in Hs. destruct (Nat.ltb_spec (length (ch s)) capacity); [|done].
    injection Hs as <-. split; simpl; [set_solver|done|]. rewrite length_app. simpl. lia.
  - unfold onInvalidate in Hs. destruct (Nat.ltb_spec (length (ch s)) capacity); [done|].
    injection Hs as <-. by split.
  - unfold receive in Hs. destruct (ch s) as [|x rest] eqn:Hch; [done|]. injection Hs as <-.
    split; simpl in *; [set_solver|by destruct (timer s); eauto|lia].
  - unfold fire in Hs. destruct (timer s) as [t|]; [|done]. destruct (t <=? now); [|done].
    injection Hs as <-. split; simpl in *; [set_solver|done|done].
  - by split.
Qed.

Lemma foldl_invalidate_backends (bs : list string) (c : UC.UserCache) k e :
  UC.data (foldl (λ c b, UC.InvalidateBackend b c) c bs) !! k = Some e ↔
  UC.data c !! k = Some e ∧ UC.backend e ∉ bs.
Proof.
  revert c. induction bs as [|b bs IH]; intros c; simpl; [set_solver|].
  rewrite IH, UC.lookup_InvalidateBackend. destruct (UC.data c !! k) as [e'|]; [|naive_solver].
  case_bool_decide; set_solver.
Qed.

(** No accepted invalidation is lost: in every reachable state of the
    subscriber, an event that was accepted and not applied is in the buffer or
    pending, and while something is pending the timer runs.  When it fires,
    the cache drops exactly the users of the pending backends, and nothing is
    pending any more; an event is dropped only while 64 others wait. *)
Theorem notifier_delivers window c s owed :
  rtc (step window) (init c, ∅) (s, owed) →
  (∀ b, b ∈ owed → b ∈ ch s ∨ b ∈ pending s) ∧
  (pending s ≠ ∅ → is_Some (timer s)) ∧
  (∀ now s', fire now s = Some s' → pending s' = ∅ ∧
     ∀ k e, UC.data (cache s') !! k = Some e ↔ UC.data (cache s) !! k = Some e ∧ UC.backend e ∉ pending s) ∧
  (∀ b s', onInvalidate b s = (false, s') → length (ch s) = capacity).
Proof.
  intros Hr. assert (Hinv : sub_inv (s, owed)).
  { revert Hr. apply (rtc_ind_r sub_inv).
    - split; simpl; [set_solver|done|unfold capacity; lia].
    - intros; eauto using step_sub_inv. }
  destruct Hinv as [Ho Ht Hb]. split; [done|]. split; [done|]. split.
  - intros now s' Hf. unfold fire in Hf. destruct (timer s) as [t|]; [|done]. destruct (t <=? now); [|done].
    injection Hf as <-. split; [done|]. intros k e. simpl. rewrite foldl_invalidate_backends.
    by rewrite elem_of_range_set.
  - intros b s'. unfold onInvalidate. destruct (Nat.ltb_spec (length (ch s)) capacity); [done|]. simpl in Hb. lia.
Qed.
End loop.

(** Two events for one backend: one timer, one invalidation. *)
#[local] Existing Instance map_iter_canonical.

Definition ex_cache : UC.UserCache :=
  UC.Set_ 0 "bob" "b2" (UC.Set_ 0 "alice" "b1" (UC.NewUserCache Minute)).

Definition ex_sub : sub := mkSub ["b1"] {["b1"]} (Some 100) ex_cache.

Lemma notifier_delivers_witness :
  ∃ s', fire 100 ex_sub = Some s' ∧ pending s' = ∅ ∧ UC.data (cache s') !! "alice" = None.
Proof.
  destruct (notifier_delivers 100 ex_cache ex_sub {["b1"]}) as (_ & _ & Hf & _).
  { eapply rtc_l; [by apply (step_accept _ "b1")|]. eapply rtc_l; [by apply (step_receive _ 0)|].
    eapply rtc_l; [by apply (step_accept _ "b1")|].
    replace ({["b1"]} ∪ ({["b1"]} ∪ ∅)) with ({["b1"]} : gset string) by set_solver. apply rtc_refl. }
  destruct (fire 100 ex_sub) as [s'|] eqn:Hs; [|by vm_compute in Hs].
  destruct (Hf 100 s' Hs) as [Hp Hd]. exists s'. split; [done|]. split; [done|].
  destruct (UC.data (cache s') !! "alice") as [e|] eqn:He; [|done].
  apply Hd in He as [He Hn]. vm_compute in He. injection He as <-. destruct Hn.
  by apply (bool_decide_unpack _); vm_compute.
Defined.

End Notifier.
