(* ===== verification/Poison.v ===== *)
(** * poison.go: poison pill detection

    The detector keeps, per routing key, the instants of its recent forced
    reassignments, trimmed to the window on every record and by a background
    prune.  It is shown to quarantine exactly when the full history of the key
    has [threshold] reassignments within the window. *)
From stdpp Require Import base gmap strings list fin_maps.
From Stdlib Require Import ZArith Lia.
From S2P Require Import Prelude Go.
Local Open Scope Z_scope.

Module Poison.

Record PoisonPillDetector := mkDetector {
  events : gmap string (list Z);
  quarantine : gset string;
  threshold : Z;
  window : Duration;
  (* stickyproxy_poison_pill_detections_total, stickyproxy_quarantined_accounts *)
  poisonPillDetections : Z;
  quarantinedAccounts : Z
}.

Definition NewPoisonPillDetector (threshold : Z) (window : Duration) : PoisonPillDetector :=
  mkDetector ∅ ∅ threshold window 0 0.

(** ** Operations *)

(** [for i < len(events) && events[i].Before(cutoff) { i++ }; events[i:]] *)
Fixpoint drop_before (cutoff : Z) (evs : list Z) : list Z :=
  match evs with
  | t :: rest => if Before t cutoff then drop_before cutoff rest else evs
  | [] => []
  end.

(** RecordReassignment: true if the account is, or was just, quarantined. *)
Definition RecordReassignment (now : Z) (routingKey : string) (p : PoisonPillDetector)
    : bool * PoisonPillDetector :=
  if bool_decide (routingKey ∈ quarantine p) then (true, p)
  else
    let cutoff := now - window p in
    let evs := drop_before cutoff (default [] (events p !! routingKey) ++ [now]) in
    if threshold p <=? Z.of_nat (length evs) then
      (true, mkDetector (delete routingKey (<[routingKey := evs]> (events p)))
               ({[routingKey]} ∪ quarantine p) (threshold p) (window p)
               (poisonPillDetections p + 1) (quarantinedAccounts p + 1))
    else
      (false, mkDetector (<[routingKey := evs]> (events p)) (quarantine p)
                (threshold p) (window p) (poisonPillDetections p) (quarantinedAccounts p)).

Definition IsQuarantined (routingKey : string) (p : PoisonPillDetector) : bool :=
  bool_decide (routingKey ∈ quarantine p).

Definition Unquarantine (routingKey : string) (p : PoisonPillDetector) : PoisonPillDetector :=
  if bool_decide (routingKey ∈ quarantine p) then
    mkDetector (events p) (quarantine p ∖ {[routingKey]}) (threshold p) (window p)
      (poisonPillDetections p) (quarantinedAccounts p - 1)
  else p.

Definition QuarantinedAccounts `{!MapIter} (p : PoisonPillDetector) : list string :=
  range_set 20 (quarantine p).

(** The body of the prune loop for one key. *)
Definition prune_key (cutoff : Z) (evs : gmap string (list Z)) (kv : string * list Z)
    : gmap string (list Z) :=
  let '(key, ts) := kv in
  match drop_before cutoff ts with
  | [] => delete key evs
  | ts' => if bool_decide (length ts' = length ts) then evs else <[key := ts']> evs
  end.

Definition prune `{!MapIter} (now : Z) (p : PoisonPillDetector) : PoisonPillDetector :=
  mkDetector (foldl (prune_key (now - window p)) (events p) (range 21 (events p)))
    (quarantine p) (threshold p) (window p) (poisonPillDetections p) (quarantinedAccounts p).

(** ** The specification: untrimmed histories *)

Inductive op :=
  | ORecord (key : string)
  | OUnquarantine (key : string)
  | OIsQuarantined (key : string)
  | OPrune.

Record spec := mkSpec { hist : gmap string (list Z); quar : gset string }.

Definition in_window (window now : Z) (h : list Z) : Z :=
  Z.of_nat (length (filter (λ t, now - window ≤ t) h)).

Definition spec_step (threshold window now : Z) (o : op) (s : spec) : bool * spec :=
  match o with
  | ORecord k =>
      if bool_decide (k ∈ quar s) then (true, s)
      else
        let h := default [] (hist s !! k) ++ [now] in
        if threshold <=? in_window window now h
        then (true, mkSpec (delete k (hist s)) ({[k]} ∪ quar s))
        else (false, mkSpec (<[k := h]> (hist s)) (quar s))
  | OUnquarantine k => (false, mkSpec (hist s) (quar s ∖ {[k]}))
  | OIsQuarantined k => (bool_decide (k ∈ quar s), s)
  | OPrune => (false, s)
  end.

Definition step `{!MapIter} (now : Z) (o : op) (p : PoisonPillDetector)
    : bool * PoisonPillDetector :=
  match o with
  | ORecord k => RecordReassignment now k p
  | OUnquarantine k => (false, Unquarantine k p)
  | OIsQuarantined k => (IsQuarantined k p, p)
  | OPrune => (false, prune now p)
  end.

Fixpoint run `{!MapIter} (ops : list (Z * op)) (p : PoisonPillDetector)
    : list bool * PoisonPillDetector :=
  match ops with
  | [] => ([], p)
  | (now, o) :: ops =>
      let '(r, p) := step now o p in let '(rs, p) := run ops p in (r :: rs, p)
  end.

Fixpoint spec_run (threshold window : Z) (ops : list (Z * op)) (s : spec) : list bool :=
  match ops with
  | [] => []
  | (now, o) :: ops =>
      let '(r, s) := spec_step threshold window now o s in r :: spec_run threshold window ops s
  end.

Fixpoint monotone (t : Z) (ops : list (Z * op)) : Prop :=
  match ops with
  | [] => True
  | (now, _) :: ops => t ≤ now ∧ monotone now ops
  end.

(** ** Trimming *)

Lemma drop_before_filter c ts :
  StronglySorted Z.le ts → drop_before c ts = filter (λ t, c ≤ t) ts.
Proof.
  induction 1 as [|t ts Hs IH Hf]; [done|]. simpl. unfold Before.
  rewrite filter_cons. destruct (Z.ltb_spec t c).
  - rewrite decide_False by lia. done.
  - rewrite decide_True by lia. f_equal.
    rewrite list_filter_keep; [done|]. eapply Forall_impl; [exact Hf|]. simpl. lia.
Qed.

Lemma filter_filter_window c c' (ts : list Z) :
  c' ≤ c → filter (λ t, c ≤ t) (filter (λ t, c' ≤ t) ts) = filter (λ t, c ≤ t) ts.
Proof.
  intros Hc. induction ts as [|t ts IH]; [done|]. rewrite !filter_cons.
  destruct (decide (c' ≤ t)) as [H1|H1]; rewrite ?filter_cons; destruct (decide (c ≤ t)) as [H2|H2];
    rewrite ?IH; try done; lia.
Qed.

Lemma sorted_filter (P : Z → Prop) `{!∀ x, Decision (P x)} ts :
  StronglySorted Z.le ts → StronglySorted Z.le (filter P ts).
Proof.
  induction 1 as [|t ts Hs IH Hf]; [constructor|]. rewrite filter_cons.
  case_decide; [|done]. constructor; [done|]. by apply Forall_list_filter.
Qed.

Lemma sorted_snoc ts now :
  StronglySorted Z.le ts → Forall (λ t, t ≤ now) ts → StronglySorted Z.le (ts ++ [now]).
Proof.
  induction 1 as [|t ts Hs IH Hf]; intros Hle; simpl; [repeat constructor|].
  inversion_clear Hle. constructor; [by apply IH|]. apply Forall_app. by repeat constructor.
Qed.

Lemma drop_before_same c ts : length (drop_before c ts) = length ts → drop_before c ts = ts.
Proof.
  assert (Hle : ∀ l, (length (drop_before c l) ≤ length l)%nat).
  { induction l as [|t l IH]; simpl; [done|]. case_match; simpl; lia. }
  destruct ts as [|t ts]; simpl; [done|]. case_match; [|done].
  intros Hl. pose proof (Hle ts). lia.
Qed.

Lemma lookup_prune `{!MapIter} now p k :
  default [] (events (prune now p) !! k) = drop_before (now - window p) (default [] (events p !! k)).
Proof.
  unfold prune. simpl. set (c := now - window p).
  enough (Hgen : ∀ l (evs : gmap string (list Z)), NoDup l.*1 →
    (∀ k ts, (k, ts) ∈ l → evs !! k = Some ts) →
    default [] (foldl (prune_key c) evs l !! k) =
      if decide (k ∈ l.*1) then drop_before c (default [] (evs !! k)) else default [] (evs !! k)).
  { rewrite Hgen.
    - case_decide as Hk; [done|]. rewrite elem_of_range_keys in Hk.
      destruct (events p !! k) eqn:He; [|done]. destruct Hk. eauto.
    - apply NoDup_range_keys.
    - intros k' ts. apply elem_of_range. }
  induction l as [|[k' ts] l IH]; intros evs Hnd Hin; [done|].
  apply NoDup_cons in Hnd as [Hk' Hnd]. simpl in Hk'.
  assert (Hts : evs !! k' = Some ts) by (apply Hin; left).
  assert (Hother : ∀ j, j ≠ k' → prune_key c evs (k', ts) !! j = evs !! j).
  { intros j Hj. simpl. repeat case_match; rewrite ?lookup_delete_ne, ?lookup_insert_ne; done. }
  assert (Hsame : default [] (prune_key c evs (k', ts) !! k') = drop_before c ts).
  { simpl. destruct (drop_before c ts) as [|t0 ts0] eqn:Hd; [by rewrite lookup_delete_eq|].
    case_bool_decide as Hl; [|by rewrite lookup_insert_eq].
    rewrite Hts. simpl. rewrite <- Hd. symmetry. apply drop_before_same. by rewrite Hd. }
  change (foldl (prune_key c) evs ((k', ts) :: l))
    with (foldl (prune_key c) (prune_key c evs (k', ts)) l).
  rewrite IH; [|done|].
  - destruct (decide (k = k')) as [->|Hne].
    + rewrite (decide_False (P := k' ∈ l.*1)), Hsame, Hts by done. rewrite decide_True by (simpl; left). done.
    + rewrite Hother by done. destruct (decide (k ∈ l.*1)).
      * rewrite decide_True by (simpl; by right). done.
      * rewrite decide_False; [done|]. simpl. set_solver.
  - intros j ts' Hj. rewrite Hother; [apply Hin; by right|].
    intros ->. apply Hk'. apply (list_elem_of_fmap_2 fst) in Hj. done.
Qed.

(** ** Simulation *)

(** The detector holds, for each key, the part of its history from some
    instant on that no window starting now can reach behind. *)
Record sim (t : Z) (p : PoisonPillDetector) (s : spec) : Prop := {
  sim_quar : quarantine p = quar s;
  sim_gauge : quarantinedAccounts p = Z.of_nat (size (quarantine p));
  sim_hist : ∀ k, let h := default [] (hist s !! k) in
    StronglySorted Z.le h ∧ Forall (λ x, x ≤ t) h ∧
    ∃ c, c ≤ t - window p ∧ default [] (events p !! k) = filter (λ x, c ≤ x) h
}.

Lemma sim_later t t' p s : sim t p s → t ≤ t' → sim t' p s.
Proof.
  intros [Hq Hg Hh] Ht. split; [done..|]. intros k.
  destruct (Hh k) as (Hs & Hf & c & Hc & He). split; [done|]. split.
  - eapply Forall_impl; [exact Hf|]. simpl. lia.
  - exists c. split; [lia|done].
Qed.

(** The trimmed list after a record is the window of the full history. *)
Lemma record_window t now p s k :
  sim t p s → t ≤ now →
  drop_before (now - window p) (default [] (events p !! k) ++ [now])
  = filter (λ x, now - window p ≤ x) (default [] (hist s !! k) ++ [now]).
Proof.
  intros Hsim Ht. destruct (sim_hist _ _ _ Hsim k) as (Hs & Hf & c & Hc & ->).
  rewrite drop_before_filter.
  - rewrite !filter_app, filter_filter_window by lia. done.
  - apply sorted_snoc; [by apply sorted_filter|]. apply Forall_list_filter.
    eapply Forall_impl; [exact Hf|]. simpl. lia.
Qed.

Lemma sorted_hist_snoc t now p s k :
  sim t p s → t ≤ now → let h := default [] (hist s !! k) ++ [now] in
  StronglySorted Z.le h ∧ Forall (λ x, x ≤ now) h.
Proof.
  intros Hsim Ht. destruct (sim_hist _ _ _ Hsim k) as (Hs & Hf & _).
  assert (Forall (λ x, x ≤ now) (default [] (hist s !! k))).
  { eapply Forall_impl; [exact Hf|]. simpl. lia. }
  split; [by apply sorted_snoc|]. apply Forall_app. split; [done|]. by repeat constructor.
Qed.

Lemma record_sim t now k p s :
  sim t p s → t ≤ now →
  let '(r, p') := RecordReassignment now k p in
  let '(r', s') := spec_step (threshold p) (window p) now (ORecord k) s in
  r = r' ∧ sim now p' s' ∧ threshold p' = threshold p ∧ window p' = window p.
Proof.
  intros Hsim Ht. pose proof (sim_later _ now _ _ Hsim Ht) as [Hq Hg Hh].
  unfold RecordReassignment, spec_step, in_window. rewrite <- Hq.
  case_bool_decide as Hin; [done|]. rewrite (record_window t now p s k) by done.
  set (h := default [] (hist s !! k) ++ [now]).
  destruct (threshold p <=? _) eqn:Hthr; (split; [done|]); (split; [|done]); split; simpl.
  - by rewrite Hq.
  - rewrite size_union, size_singleton by set_solver. lia.
  - intros j. rewrite delete_insert_eq, !lookup_delete. case_decide as Hj; [|apply Hh].
    simpl. split; [constructor|]. split; [constructor|]. exists (now - window p). split; [lia|done].
  - done.
  - done.
  - intros j. rewrite !lookup_insert. case_decide as Hj; [subst j|apply Hh]. simpl.
    destruct (sorted_hist_snoc t now p s k) as [Hs Hf]; [done..|].
    split; [done|]. split; [done|]. exists (now - window p). split; [lia|done].
Qed.

Lemma poison_step_sim `{!MapIter} t now o p s :
  sim t p s → t ≤ now →
  let '(r, p') := step now o p in
  let '(r', s') := spec_step (threshold p) (window p) now o s in
  r = r' ∧ sim now p' s' ∧ threshold p' = threshold p ∧ window p' = window p.
Proof.
  intros Hsim Ht. destruct o as [k|k|k|]; [by apply record_sim with t|..]; simpl.
  all: pose proof (sim_later _ now _ _ Hsim Ht) as Hnow; destruct Hnow as [Hq Hg Hh].
  - unfold Unquarantine. split; [done|]. case_bool_decide as Hk; simpl.
    + split; [|done]. split; simpl; [by rewrite Hq| |done].
      rewrite size_difference, size_singleton by set_solver.
      assert (size (quarantine p) ≠ 0)%nat; [|lia].
      apply size_non_empty_iff. set_solver.
    + split; [|done]. split; simpl; [set_solver|done|done].
  - split; [|done]. unfold IsQuarantined. by rewrite Hq.
  - split; [done|]. split; [|done]. split; [done|done|].
    intros k. rewrite lookup_prune. simpl. destruct (Hh k) as (Hs & Hf & c & Hc & ->).
    split; [done|]. split; [done|]. exists (now - window p). split; [lia|].
    rewrite drop_before_filter by by apply sorted_filter. apply filter_filter_window. lia.
Qed.

Lemma run_sim `{!MapIter} t ops p s :
  sim t p s → monotone t ops →
  (run ops p).1 = spec_run (threshold p) (window p) ops s ∧
  quarantinedAccounts (run ops p).2 = Z.of_nat (size (quarantine (run ops p).2)).
Proof.
  revert t p s. induction ops as [|[now o] ops IH]; intros t p s Hsim Hm; simpl.
  { split; [done|]. apply Hsim. }
  destruct Hm as [Ht Hm]. pose proof (poison_step_sim t now o p s Hsim Ht) as Hstep.
  destruct (step now o p) as [r p'].
  destruct (spec_step (threshold p) (window p) now o s) as [r' s'].
  destruct Hstep as (-> & Hsim' & Hthr & Hwin).
  destruct (IH now p' s' Hsim' Hm) as [Hr Hgauge].
  destruct (run ops p') as [rs p'']. simpl in *. rewrite Hr, Hthr, Hwin. done.
Qed.

(** C32. The detector decides on the full history: on every sequence of
    records, unquarantines, queries and background prunes with a monotone
    clock, its answers are those of the specification that keeps every
    reassignment and quarantines a key exactly when [threshold] of them lie
    within [window]; and the quarantine gauge always equals the number of
    quarantined accounts. *)
Theorem poison_refines `{!MapIter} threshold window t ops :
  monotone t ops →
  (run ops (NewPoisonPillDetector threshold window)).1
    = spec_run threshold window ops (mkSpec ∅ ∅) ∧
  let p := (run ops (NewPoisonPillDetector threshold window)).2 in
  quarantinedAccounts p = Z.of_nat (size (quarantine p)).
Proof.
  intros Hm. apply (run_sim t ops (NewPoisonPillDetector threshold window)); [|done].
  split; [done|done|]. intros k. simpl. split; [constructor|]. split; [constructor|].
  exists (t - window). split; [lia|done].
Qed.

Lemma poison_refines_witness :
  let _ := map_iter_canonical in
  let ops := [(0, ORecord "u"); (50, OPrune); (100, ORecord "u"); (130, ORecord "u");
              (140, ORecord "u"); (150, OIsQuarantined "u")] in
  (run ops (NewPoisonPillDetector 3 60)).1 = spec_run 3 60 ops (mkSpec ∅ ∅) ∧
  spec_run 3 60 ops (mkSpec ∅ ∅) = [false; false; false; false; true; true].
Proof.
  intros inst ops. split; [|vm_compute; reflexivity].
  apply (poison_refines 3 60 0). simpl. lia.
Defined.

End Poison.
