(* ===== verification/Hold.v ===== *)
(** * hold.go: holding requests during transitions

    Channels are named by numbers; a hold entry is a channel with the
    [sync.Once] that guards its close.  The operations are executable; a step
    relation interleaves them with the waiting requests, and an invariant by
    rule induction shows that clearing a transition releases every request
    that was waiting for it. *)
From stdpp Require Import base gmap strings list fin_maps relations.
From Stdlib Require Import ZArith Lia.
From S2P Require Import Prelude Go.

Module Hold.

(** [holdEntry]: the identity of its [done] channel. *)
Record HoldManager := mkHold {
  holds : gmap string nat;      (* routing key -> channel of its entry *)
  closed : gset nat;            (* the channels that were closed *)
  next : nat;                   (* the channel the next [make] returns *)
  timeout : Duration            (* per-request hold timeout *)
}.

Definition NewHoldManager (timeout : Duration) : HoldManager := mkHold ∅ ∅ 0 timeout.

(** ** Operations *)

(** [h.once.Do(func() { close(h.done) })]. *)
Definition close (ch : nat) (h : HoldManager) : HoldManager :=
  mkHold (holds h) ({[ch]} ∪ closed h) (next h) (timeout h).

Definition mark_key (h : HoldManager) (key : string) : HoldManager :=
  match holds h !! key with
  | Some _ => h
  | None => mkHold (<[key := next h]> (holds h)) (closed h) (S (next h)) (timeout h)
  end.

Definition MarkTransition (routingKeys : list string) (h : HoldManager) : HoldManager :=
  foldl mark_key h routingKeys.

Definition clear_key (h : HoldManager) (key : string) : HoldManager :=
  match holds h !! key with
  | Some ch =>
      let h := close ch h in mkHold (delete key (holds h)) (closed h) (next h) (timeout h)
  | None => h
  end.

Definition ClearTransition (routingKeys : list string) (h : HoldManager) : HoldManager :=
  foldl clear_key h routingKeys.

(** [Wait] in two parts: the lookup under the mutex, which returns [None] (the
    call returns false at once) or the channel to block on; and the select,
    which [may] return true when the channel is closed. *)
Definition wait_lookup (routingKey : string) (h : HoldManager) : option nat :=
  holds h !! routingKey.

Definition wait_ready (ch : nat) (h : HoldManager) : bool := bool_decide (ch ∈ closed h).

(** ** The system: the manager and the requests blocked in [Wait] *)

Record waiter := mkWaiter { w_key : string; w_chan : nat }.

Record sys := mkSys { mgr : HoldManager; waiting : gmap nat waiter }.

(** How the select of a blocked [Wait] ends: the transition completed, the hold
    timeout expired, or the context was cancelled; only the first returns
    true. *)
Inductive wake := Done | TimedOut | Cancelled.

Definition wait_result (how : wake) : bool :=
  match how with Done => true | TimedOut | Cancelled => false end.

Inductive step : sys → sys → Prop :=
  | step_mark keys s :
      step s (mkSys (MarkTransition keys (mgr s)) (waiting s))
  | step_clear keys s :
      step s (mkSys (ClearTransition keys (mgr s)) (waiting s))
  | step_block tid key ch s :
      waiting s !! tid = None → wait_lookup key (mgr s) = Some ch →
      step s (mkSys (mgr s) (<[tid := mkWaiter key ch]> (waiting s)))
  | step_wake tid w how s :
      waiting s !! tid = Some w →
      (wait_result how = true → wait_ready (w_chan w) (mgr s) = true) →
      step s (mkSys (mgr s) (delete tid (waiting s))).

Definition init (timeout : Duration) : sys := mkSys (NewHoldManager timeout) ∅.

Definition reachable (s : sys) : Prop := ∃ timeout, rtc step (init timeout) s.

(** ** Invariant *)

Record mgr_inv (h : HoldManager) : Prop := {
  inv_open : ∀ k ch, holds h !! k = Some ch → ch ∉ closed h;
  inv_fresh : ∀ k ch, holds h !! k = Some ch → ch < next h;
  inv_closed : ∀ ch, ch ∈ closed h → ch < next h;
  inv_inj : ∀ k k' ch, holds h !! k = Some ch → holds h !! k' = Some ch → k = k'
}.

(** A blocked request waits on a closed channel or on the entry its key has
    now. *)
Definition waiter_inv (h : HoldManager) (w : waiter) : Prop :=
  w_chan w ∈ closed h ∨ holds h !! w_key w = Some (w_chan w).

Definition sys_inv (s : sys) : Prop :=
  mgr_inv (mgr s) ∧ ∀ tid w, waiting s !! tid = Some w → waiter_inv (mgr s) w.

Lemma mark_key_inv h key : mgr_inv h → mgr_inv (mark_key h key).
Proof.
  intros [Ho Hf Hc Hi]. unfold mark_key. destruct (holds h !! key) eqn:Hk; [done|].
  split; simpl.
  - intros k ch. rewrite lookup_insert. case_decide; [|eauto].
    intros [= <-] Hin%Hc. lia.
  - intros k ch. rewrite lookup_insert. case_decide; [intros [= <-]; lia|].
    intros Hx%Hf. lia.
  - intros ch H%Hc. lia.
  - intros k k' ch. rewrite !lookup_insert. repeat case_decide; subst; try done.
    + intros [= <-] Hx%Hf. lia.
    + intros Hx%Hf [= <-]. lia.
    + eauto.
Qed.

Lemma clear_key_inv h key : mgr_inv h → mgr_inv (clear_key h key).
Proof.
  intros [Ho Hf Hc Hi]. unfold clear_key. destruct (holds h !! key) as [c|] eqn:Hk; [|done].
  split; simpl.
  - intros k ch. rewrite lookup_delete. case_decide as Hne; [done|]. intros Hch.
    rewrite elem_of_union, elem_of_singleton. intros [->|Hin]; [|by apply (Ho k ch)].
    apply Hne. eauto.
  - intros k ch. rewrite lookup_delete. case_decide; [done|]. apply Hf.
  - intros ch [->%elem_of_singleton|Hx]%elem_of_union; [by apply (Hf key)|by apply Hc].
  - intros k k' ch. rewrite !lookup_delete. repeat case_decide; try done. eauto.
Qed.

Lemma mark_key_waiter h key w : waiter_inv h w → waiter_inv (mark_key h key) w.
Proof.
  unfold mark_key, waiter_inv. destruct (holds h !! key) eqn:Hk; [done|].
  intros [?|Hw]; [by left|right]. simpl. rewrite lookup_insert_ne; [done|congruence].
Qed.

Lemma clear_key_waiter h key w : waiter_inv h w → waiter_inv (clear_key h key) w.
Proof.
  unfold clear_key, waiter_inv. destruct (holds h !! key) as [c|] eqn:Hk; [|done]. simpl.
  intros [?|Hw]; [left; set_solver|].
  destruct (decide (w_key w = key)) as [Heq|Hne].
  - left. assert (c = w_chan w) by congruence. set_solver.
  - right. by rewrite lookup_delete_ne.
Qed.

Lemma MarkTransition_inv keys h :
  mgr_inv h → mgr_inv (MarkTransition keys h).
Proof. revert h. induction keys as [|k keys IH]; intros h Hh; simpl; auto using mark_key_inv. Qed.

Lemma ClearTransition_inv keys h :
  mgr_inv h → mgr_inv (ClearTransition keys h).
Proof. revert h. induction keys as [|k keys IH]; intros h Hh; simpl; auto using clear_key_inv. Qed.

Lemma MarkTransition_waiter keys h w :
  waiter_inv h w → waiter_inv (MarkTransition keys h) w.
Proof. revert h. induction keys as [|k keys IH]; intros h Hh; simpl; auto using mark_key_waiter. Qed.

Lemma ClearTransition_waiter keys h w :
  waiter_inv h w → waiter_inv (ClearTransition keys h) w.
Proof. revert h. induction keys as [|k keys IH]; intros h Hh; simpl; auto using clear_key_waiter. Qed.

#[local] Hint Resolve MarkTransition_inv ClearTransition_inv MarkTransition_waiter
  ClearTransition_waiter : go.

Lemma hold_step_inv s s' : step s s' → sys_inv s → sys_inv s'.
Proof.
  intros Hstep [Hm Hw]. destruct Hstep as [keys s|keys s|tid key ch s Hn Hl|tid w how s Ht Hd];
    split; simpl; eauto with go.
  - intros tid' w. rewrite lookup_insert. case_decide; [|eauto].
    intros [= <-]. by right.
  - intros tid' w'. rewrite lookup_delete. case_decide; [done|eauto].
Qed.

Lemma reachable_inv s : reachable s → sys_inv s.
Proof.
  intros [timeout Hs]. revert Hs. apply (rtc_ind_r sys_inv).
  - split; [|done]. split; set_solver.
  - intros; eauto using hold_step_inv.
Qed.

(** ** Effect of the operations on the map *)

Lemma lookup_MarkTransition keys h k :
  is_Some (holds (MarkTransition keys h) !! k) ↔ k ∈ keys ∨ is_Some (holds h !! k).
Proof.
  revert h. induction keys as [|k' keys IH]; intros h; simpl; [set_solver|].
  rewrite IH, elem_of_cons. unfold mark_key. destruct (holds h !! k') as [c|] eqn:Hk'; simpl.
  - split; [tauto|]. intros [[->|?]|?]; eauto.
  - rewrite lookup_insert_is_Some. destruct (decide (k' = k)); naive_solver.
Qed.

Lemma lookup_ClearTransition keys h k :
  holds (ClearTransition keys h) !! k = if decide (k ∈ keys) then None else holds h !! k.
Proof.
  revert h. induction keys as [|k' keys IH]; intros h; [done|]. simpl. rewrite IH.
  assert (holds (clear_key h k') !! k = if decide (k = k') then None else holds h !! k) as ->.
  { unfold clear_key. destruct (holds h !! k') eqn:Hk'; simpl.
    - destruct (decide (k = k')) as [->|]; [by rewrite lookup_delete_eq|by rewrite lookup_delete_ne].
    - destruct (decide (k = k')) as [->|]; done. }
  destruct (decide (k ∈ keys)); [by rewrite decide_True by set_solver|].
  destruct (decide (k = k')); [by rewrite decide_True by set_solver|].
  by rewrite decide_False by set_solver.
Qed.

(** C30. No request is left behind: in every reachable state, after
    [ClearTransition(keys)] every request blocked in [Wait] for one of the keys
    has its channel closed, so its select can return; and the keys are no
    longer in transition, so that later calls to [Wait] return at once. *)
Theorem clear_releases_waiters s keys tid w :
  reachable s → waiting s !! tid = Some w → w_key w ∈ keys →
  wait_ready (w_chan w) (ClearTransition keys (mgr s)) = true ∧
  wait_lookup (w_key w) (ClearTransition keys (mgr s)) = None.
Proof.
  intros [_ Hw]%reachable_inv Ht Hk. unfold wait_ready, wait_lookup.
  assert (Hnone : holds (ClearTransition keys (mgr s)) !! w_key w = None).
  { by rewrite lookup_ClearTransition, decide_True. }
  split; [|done]. apply bool_decide_eq_true_2.
  destruct (ClearTransition_waiter keys _ _ (Hw _ _ Ht)) as [?|Hs]; [done|congruence].
Qed.

Definition witness_sys : sys :=
  mkSys (MarkTransition ["u"; "v"] (NewHoldManager Second)) {[ 7 := mkWaiter "u" 0 ]}.

Lemma clear_releases_waiters_witness :
  waiting witness_sys !! 7 = Some (mkWaiter "u" 0) ∧
  wait_ready 0 (mgr witness_sys) = false ∧
  wait_ready 0 (ClearTransition ["v"; "u"] (mgr witness_sys)) = true ∧
  wait_lookup "u" (ClearTransition ["v"; "u"] (mgr witness_sys)) = None.
Proof.
  split; [reflexivity|]. split; [reflexivity|].
  apply (clear_releases_waiters witness_sys ["v"; "u"] 7 (mkWaiter "u" 0)); [|reflexivity|set_solver].
  exists Second. eapply rtc_l; [apply (step_mark ["u"; "v"])|]. eapply rtc_l; [|apply rtc_refl].
  apply (step_block 7 "u" 0); reflexivity.
Defined.

(** A call that changes the transition set. *)
Inductive call := Mark (keys : list string) | Clear (keys : list string).

Definition apply_call (h : HoldManager) (c : call) : HoldManager :=
  match c with Mark keys => MarkTransition keys h | Clear keys => ClearTransition keys h end.

Definition clears (k : string) (c : call) : Prop :=
  match c with Mark _ => False | Clear keys => k ∈ keys end.

Lemma mark_keeps_entry keys h k ch :
  holds h !! k = Some ch → holds (MarkTransition keys h) !! k = Some ch.
Proof.
  revert h. induction keys as [|k' keys IH]; intros h Hk; [done|]. apply IH.
  unfold mark_key. destruct (holds h !! k') eqn:Hk'; [done|]. simpl. rewrite lookup_insert_ne; congruence.
Qed.

(** A held request stays held until its own transition is cleared: from any
    reachable state, whatever keys are marked or cleared next, in any order, as
    long as no call clears the key, its entry stays the one its waiters block
    on, and that channel stays open. *)
Theorem held_until_cleared s calls k ch :
  reachable s → wait_lookup k (mgr s) = Some ch → Forall (λ c, ¬ clears k c) calls →
  let h := foldl apply_call (mgr s) calls in
  wait_lookup k h = Some ch ∧ wait_ready ch h = false.
Proof.
  intros [Hm _]%reachable_inv Hk Hcs. simpl. revert Hm Hk. generalize (mgr s). clear s.
  induction Hcs as [|c calls Hc _ IH]; intros h Hm Hk; simpl.
  { split; [done|]. apply bool_decide_eq_false_2. by apply (inv_open _ Hm k). }
  unfold wait_lookup in *. destruct c as [keys|keys]; simpl in Hc |- *; apply IH; eauto with go.
  - by apply mark_keeps_entry.
  - by rewrite lookup_ClearTransition, decide_False.
Qed.

Lemma held_until_cleared_witness :
  let h := foldl apply_call (mgr witness_sys) [Mark ["u"; "w"]; Clear ["v"]; Mark ["v"]] in
  wait_lookup "u" h = Some 0 ∧ wait_ready 0 h = false.
Proof.
  apply (held_until_cleared witness_sys [Mark ["u"; "w"]; Clear ["v"]; Mark ["v"]] "u" 0);
    [|reflexivity|repeat constructor; simpl; set_solver].
  exists Second. eapply rtc_l; [apply (step_mark ["u"; "v"])|]. eapply rtc_l; [|apply rtc_refl].
  apply (step_block 7 "u" 0); reflexivity.
Defined.

End Hold.
