(* ===== verification/Transition.v ===== *)
(** * transition.go and the Redis locker of redis.go: the transition lock

    [TransitionLock] takes a distributed lock (a Redis key set with NX and a
    TTL) and then the replica's mutex.  The Redis server is a parameter
    ([LockServer]) with the documented behaviour of SET NX EX and DEL as laws.
    A step relation interleaves the goroutines of all replicas; drains and
    rebalances are mutually exclusive as long as every holder finishes within
    the TTL, and an execution shows what happens when one does not. *)
From stdpp Require Import base gmap strings list fin_maps relations.
From Stdlib Require Import ZArith Lia.
From S2P Require Import Prelude Go.
Local Open Scope Z_scope.

Module Transition.

(** ** The Redis commands the locker uses *)

(** The state of the server as far as [sticky-proxy:transition-lock] goes:
    [lease s] is the instant the key expires, [None] when the key is absent.  A
    command is one step; a client that repeats a DEL whose reply was lost would
    make it two. *)
Class LockServer : Type := {
  server : Type;
  lease : server → option Z;
  SetNX : Z → Duration → server → result bool * server;
  Del : server → option error * server;
  (* SET key 1 NX EX ttl: true when the key was absent or expired *)
  SetNX_true now ttl s s' :
    SetNX now ttl s = ((true, None), s') →
    (∀ e, lease s = Some e → e ≤ now) ∧ lease s' = Some (now + ttl);
  SetNX_other now ttl s r s' :
    SetNX now ttl s = (r, s') → r ≠ (true, None) →
    lease s' = lease s ∨
    ((∀ e, lease s = Some e → e ≤ now) ∧ lease s' = Some (now + ttl));
  (* DEL removes the key, whoever set it *)
  Del_ok s s' : Del s = (None, s') → lease s' = None;
  Del_err s err s' : Del s = (Some err, s') → lease s' = lease s ∨ lease s' = None
}.

Section lock.
Context `{!LockServer} (ttl : Duration).

(** ** Operations *)

(** [RedisDistributedLocker]. *)
Definition TryLock (now : Z) (s : server) : result bool * server := SetNX now ttl s.

Definition Unlock_dist (s : server) : option error * server := Del s.

(** The part of [TransitionLock.Lock] before [t.mu.Lock()]: false means the
    caller skips the operation. *)
Definition Lock_dist (now : Z) (s : server) : bool * server :=
  match TryLock now s with
  | ((acquired, err), s') =>
      if bool_decide (err ≠ None) || negb acquired then (false, s') else (true, s')
  end.

(** ** All replicas *)

(** Where a goroutine that drains or rebalances is: it holds the distributed
    lock (taken with the given expiry) and waits for the mutex; it is in the
    critical section; it has released the mutex. *)
Inductive phase := HasDist (e : Z) | Crit (e : Z) | Releasing (e : Z).

Definition expiry (ph : phase) : Z :=
  match ph with HasDist e | Crit e | Releasing e => e end.

Record sys := mkSys {
  now : Z;
  srv : server;
  mu : gmap nat nat;            (* replica -> goroutine holding its mutex *)
  phases : gmap nat phase       (* goroutines inside Lock/Unlock *)
}.

Context (replica : nat → nat).

Inductive step : sys → sys → Prop :=
  | step_tick d s : 0 ≤ d →
      step s (mkSys (now s + d) (srv s) (mu s) (phases s))
  | step_trylock_ok t s srv' :
      phases s !! t = None → Lock_dist (now s) (srv s) = (true, srv') →
      step s (mkSys (now s) srv' (mu s) (<[t := HasDist (now s + ttl)]> (phases s)))
  | step_trylock_fail t s srv' :
      phases s !! t = None → Lock_dist (now s) (srv s) = (false, srv') →
      step s (mkSys (now s) srv' (mu s) (phases s))
  | step_mu_lock t e s :
      phases s !! t = Some (HasDist e) → mu s !! replica t = None →
      step s (mkSys (now s) (srv s) (<[replica t := t]> (mu s)) (<[t := Crit e]> (phases s)))
  | step_mu_unlock t e s :
      phases s !! t = Some (Crit e) →
      step s (mkSys (now s) (srv s) (delete (replica t) (mu s)) (<[t := Releasing e]> (phases s)))
  | step_unlock_dist t e s err srv' :
      phases s !! t = Some (Releasing e) → Unlock_dist (srv s) = (err, srv') →
      step s (mkSys (now s) srv' (mu s) (delete t (phases s))).

(** The same steps as a function, to run schedules. *)
Inductive act := Tick (d : Z) | TryLockA (t : nat) | MuLock (t : nat) | MuUnlock (t : nat)
  | UnlockDist (t : nat).

Definition exec1 (a : act) (s : sys) : option sys :=
  match a with
  | Tick d => if 0 <=? d then Some (mkSys (now s + d) (srv s) (mu s) (phases s)) else None
  | TryLockA t =>
      match phases s !! t with
      | Some _ => None
      | None =>
          let '(ok, srv') := Lock_dist (now s) (srv s) in
          Some (mkSys (now s) srv' (mu s)
                  (if ok : bool then <[t := HasDist (now s + ttl)]> (phases s) else phases s))
      end
  | MuLock t =>
      match phases s !! t, mu s !! replica t with
      | Some (HasDist e), None =>
          Some (mkSys (now s) (srv s) (<[replica t := t]> (mu s)) (<[t := Crit e]> (phases s)))
      | _, _ => None
      end
  | MuUnlock t =>
      match phases s !! t with
      | Some (Crit e) =>
          Some (mkSys (now s) (srv s) (delete (replica t) (mu s)) (<[t := Releasing e]> (phases s)))
      | _ => None
      end
  | UnlockDist t =>
      match phases s !! t with
      | Some (Releasing e) =>
          Some (mkSys (now s) (Unlock_dist (srv s)).2 (mu s) (delete t (phases s)))
      | _ => None
      end
  end.

Fixpoint exec (l : list act) (s : sys) : option sys :=
  match l with
  | [] => Some s
  | a :: l => s' ← exec1 a s; exec l s'
  end.

Lemma exec1_step a s s' : exec1 a s = Some s' → step s s'.
Proof.
  destruct a as [d|t|t|t|t]; simpl.
  - destruct (Z.leb_spec 0 d); [|done]. intros [= <-]. by constructor.
  - destruct (phases s !! t) eqn:Ht; [done|].
    destruct (Lock_dist (now s) (srv s)) as [[] srv'] eqn:Hl; intros [= <-].
    + by apply step_trylock_ok.
    + by apply step_trylock_fail with t.
  - destruct (phases s !! t) as [[e|e|e]|] eqn:Ht; try done.
    destruct (mu s !! replica t) eqn:Hm; [done|]. intros [= <-]. by constructor.
  - destruct (phases s !! t) as [[e|e|e]|] eqn:Ht; try done. intros [= <-]. by constructor.
  - destruct (phases s !! t) as [[e|e|e]|] eqn:Ht; try done. intros [= <-].
    eapply step_unlock_dist; [done|]. apply surjective_pairing.
Qed.

Lemma exec_reach l s s' : exec l s = Some s' → rtc step s s'.
Proof.
  revert s. induction l as [|a l IH]; intros s; simpl; [intros [= <-]; apply rtc_refl|].
  destruct (exec1 a s) as [s1|] eqn:Ha; [|done]. simpl. intros Hl.
  eapply rtc_l; eauto using exec1_step.
Qed.

(** Every goroutine between a successful [TryLock] and the end of [Unlock] is
    within the TTL of its lock. *)
Definition timely (s : sys) : Prop :=
  ∀ t ph, phases s !! t = Some ph → now s < expiry ph.

Definition timely_step (s s' : sys) : Prop := step s s' ∧ timely s'.

(** ** Invariant *)

(** At most one goroutine is inside, and the key in Redis is its own. *)
Definition exclusive (s : sys) : Prop :=
  (∀ t ph, phases s !! t = Some ph → lease (srv s) = Some (expiry ph) ∧ now s < expiry ph) ∧
  (∀ t t' ph ph', phases s !! t = Some ph → phases s !! t' = Some ph' → t = t').

Lemma Lock_dist_true n s s' :
  Lock_dist n s = (true, s') →
  (∀ e, lease s = Some e → e ≤ n) ∧ lease s' = Some (n + ttl).
Proof.
  unfold Lock_dist, TryLock. destruct (SetNX n ttl s) as [[ok err] s1] eqn:Hs.
  destruct err as [err|]; [by rewrite bool_decide_true|].
  rewrite bool_decide_false by naive_solver.
  destruct ok; simpl; [|done]. intros [= <-]. by apply SetNX_true.
Qed.

Lemma Lock_dist_false n s s' :
  Lock_dist n s = (false, s') →
  lease s' = lease s ∨ ((∀ e, lease s = Some e → e ≤ n) ∧ lease s' = Some (n + ttl)).
Proof.
  unfold Lock_dist, TryLock. destruct (SetNX n ttl s) as [[ok err] s1] eqn:Hs.
  intros Hif. apply SetNX_other in Hs.
  - destruct (bool_decide (err ≠ None) || negb ok); by simplify_eq.
  - intros [= -> ->]. rewrite bool_decide_false in Hif by naive_solver. done.
Qed.

Lemma exclusive_replace t ph ph' s m :
  phases s !! t = Some ph → expiry ph' = expiry ph → exclusive s →
  exclusive (mkSys (now s) (srv s) m (<[t := ph']> (phases s))).
Proof.
  intros Ht He [Hl Hu]. split; simpl.
  - intros t' p. rewrite lookup_insert. case_decide; [|eauto].
    intros [= <-]. rewrite He. eauto.
  - intros t1 t2 p1 p2. rewrite !lookup_insert. repeat case_decide; subst; eauto.
Qed.

Lemma timely_step_exclusive s s' : timely_step s s' → exclusive s → exclusive s'.
Proof.
  intros [Hstep Htime] Hex. destruct Hex as [Hl Hu]. pose proof (conj Hl Hu : exclusive s) as Hex.
  destruct Hstep as [d s Hd|t s srv' Hn Hlk|t s srv' Hn Hlk|t e s Ht Hmu|t e s Ht|t e s err srv' Ht Hun].
  - split; [|done]. intros t ph Ht. split; [by eapply Hl|]. by apply (Htime t).
  - apply Lock_dist_true in Hlk as [Hfree Hset].
    assert (Hnone : ∀ t' ph, phases s !! t' = Some ph → False).
    { intros t' ph Hp. destruct (Hl _ _ Hp) as [He Hlt]. apply Hfree in He. lia. }
    split; simpl.
    + intros t' ph. rewrite lookup_insert. case_decide as Ht'; [|by intros ?%Hnone].
      intros [= <-]. split; [done|]. apply (Htime t). simpl. by rewrite lookup_insert_eq.
    + intros t1 t2 p1 p2. rewrite !lookup_insert.
      repeat case_decide; subst; try done; intros ? ?; exfalso; eauto.
  - apply Lock_dist_false in Hlk. split; [|done]. intros t' ph Hp. simpl.
    destruct (Hl _ _ Hp) as [He Hlt]. split; [|done].
    destruct Hlk as [->|[Hfree _]]; [done|]. apply Hfree in He. lia.
  - by apply exclusive_replace with (HasDist e).
  - by apply exclusive_replace with (Crit e).
  - split; simpl.
    + intros t' ph. rewrite lookup_delete. case_decide as Hne; [done|].
      intros Hp. destruct Hne. eauto.
    + intros t1 t2 p1 p2. rewrite !lookup_delete. repeat case_decide; try done. eauto.
Qed.

Lemma timely_reach_exclusive s s' :
  rtc timely_step s s' → phases s = ∅ → exclusive s'.
Proof.
  intros Hr Hs. assert (Hinit : exclusive s).
  { split; rewrite Hs; intros ? ?; by rewrite ?lookup_empty. }
  clear Hs. induction Hr; eauto using timely_step_exclusive.
Qed.

(** C28. Mutual exclusion across replicas: from a state where nobody drains or
    rebalances, as long as every holder finishes within the TTL, at most one
    goroutine of all replicas is past [TransitionLock.Lock]. *)
Theorem transition_mutual_exclusion s s' t t' e e' :
  phases s = ∅ → rtc timely_step s s' →
  phases s' !! t = Some (Crit e) → phases s' !! t' = Some (Crit e') → t = t'.
Proof. intros Hs Hr. apply (timely_reach_exclusive s s' Hr Hs). Qed.
End lock.

Arguments now {_} _.
Arguments srv {_} _.
Arguments mu {_} _.
Arguments phases {_} _.

(** ** A concrete server, and what a late unlock does *)

#[refine] Definition key_server : LockServer := {|
  server := option Z;
  lease := id;
  SetNX now ttl s :=
    match s with
    | Some e => if now <? e then ((false, None), s) else ((true, None), Some (now + ttl))
    | None => ((true, None), Some (now + ttl))
    end;
  Del s := (None, None)
|}.
Proof.
  - intros now ttl [e|] s' H; simpl in *; [destruct (Z.ltb_spec now e)|]; simplify_eq;
      split; [intros; simplify_eq; lia|done|done|done].
  - intros now ttl [e|] r s' H Hr; simpl in *; [destruct (Z.ltb_spec now e)|]; simplify_eq; auto.
  - intros s s' H. by simplify_eq.
  - intros s err s' H. by simplify_eq.
Defined.

(** Replica of goroutine [t]: each on its own. *)
Definition own (t : nat) : nat := t.

(** The key as the server holds it. *)
Definition key (o : option Z) : @server key_server := o.

Definition start : @sys key_server := mkSys 0 (key None) ∅ ∅.

Lemma transition_mutual_exclusion_witness :
  let s' : @sys key_server :=
    mkSys 5 (key (Some (60 * Second))) {[ 1%nat := 1%nat ]} {[ 1%nat := Crit (60 * Second) ]} in
  rtc (timely_step (60 * Second) own) start s' ∧
  ∀ t t' e e', phases s' !! t = Some (Crit e) → phases s' !! t' = Some (Crit e') → t = t'.
Proof.
  intros s'.
  assert (Htimely : ∀ s : @sys key_server,
    forallb (λ p, now s <? expiry p.2) (map_to_list (phases s)) = true → timely s).
  { intros s Hs t ph Hp. apply Z.ltb_lt. revert t ph Hp. by apply map_forallb. }
  assert (Hrun : rtc (timely_step (60 * Second) own) start s').
  { eapply rtc_l; [split; [eapply (step_trylock_ok _ _ 1%nat); reflexivity|by apply Htimely]|].
    eapply rtc_l; [split; [eapply (step_mu_lock _ _ 1%nat); reflexivity|by apply Htimely]|].
    eapply rtc_l; [split; [apply (step_tick _ _ 5); lia|by apply Htimely]|apply rtc_refl]. }
  split; [done|]. intros t t' e e'.
  apply (transition_mutual_exclusion (60 * Second) own start s' t t' e e'); [reflexivity|done].
Defined.

(** The Redis unlock deletes the key without checking who set it.  When a
    drain outlives the TTL, a second replica takes the lock, the late unlock
    of the first deletes the second's key, and a third replica enters while
    the second is still in its critical section and well within its TTL. *)
Theorem transition_unlock_steals_lock :
  ∃ s, rtc (step (60 * Second) own) start s ∧
    phases s !! 1%nat = Some (Crit (121 * Second)) ∧
    phases s !! 2%nat = Some (Crit (122 * Second)) ∧
    now s = 62 * Second.
Proof.
  destruct (exec (60 * Second) own
    [TryLockA 0; MuLock 0; Tick (61 * Second); TryLockA 1; MuLock 1; MuUnlock 0; UnlockDist 0;
     Tick Second; TryLockA 2; MuLock 2] start) as [s|] eqn:Hrun; [|vm_compute in Hrun; done].
  exists s. split; [by eapply exec_reach|].
  vm_compute in Hrun. injection Hrun as <-. repeat split; vm_compute; reflexivity.
Qed.

End Transition.
