(* ===== verification/Store.v ===== *)
(** * store.go: the interface between the proxy and its stores

    [Store] is the Go interface; every operation passes the store's state
    explicitly and takes the instant at which it runs where it reads the clock.
    The contract has two parts, because the memory store supports only the
    first: [BackendsSpec] is what a store promises about the set of active
    backends, [TableSpec] what it promises about the assignment table.  The
    stores differ in the data they can hold ([TableLimits]) and in what an
    on-demand assignment does with an existing one ([AssignSpec]).  The
    operations that use a store are verified against these classes; the store
    files discharge them. *)
From stdpp Require Import base gmap strings list fin_maps.
From Stdlib Require Import ZArith Lia.
From S2P Require Import Prelude Go Assignment.
Local Open Scope Z_scope.

Class Store (S : Type) : Type := {
  AssignLeastLoaded : Z → string → S → result (option Assignment) * S;
  GetAssignment : string → S → result (option Assignment) * S;
  GetAllAssignments : S → result (gmap string Assignment) * S;
  GetBackendUsers : string → S → result (list string) * S;
  BulkAssign : Z → gmap string BulkAssignEntry → S → result (gmap string string) * S;
  BulkDeleteAssignments : list string → S → option error * S;
  ActiveBackends : S → result (list string) * S;
  AddBackend : string → S → option error * S;
  RemoveBackend : string → S → option error * S;
  Ping : S → option error * S
}.

(** ** Abstract view of the table *)

(** What [BulkAssign] stores for an entry. *)
Definition entry_assignment (now : Z) (e : BulkAssignEntry) : Assignment :=
  mkAssignment (e_Backend e) now "assignment" (effective (e_Weight e)).

(** Which entries of a bulk assignment are new. *)
Definition fresh_entries (m : gmap string Assignment) (entries : gmap string BulkAssignEntry)
    : gmap string BulkAssignEntry :=
  filter (λ '(k, _), m !! k = None) entries.

Lemma lookup_fresh_entries m entries k :
  fresh_entries m entries !! k = if decide (m !! k = None) then entries !! k else None.
Proof.
  apply option_eq. intros e. unfold fresh_entries. rewrite map_lookup_filter_Some.
  case_decide; naive_solver.
Qed.

(** A table without some keys. *)
Definition without (m : gmap string Assignment) (ks : list string) : gmap string Assignment :=
  filter (λ '(k, _), k ∉ ks) m.

Lemma lookup_without m ks k :
  without m ks !! k = if decide (k ∈ ks) then None else m !! k.
Proof.
  apply option_eq. intros a. unfold without. rewrite map_lookup_filter_Some. case_decide; naive_solver.
Qed.

Lemma without_cons m k ks : without m (k :: ks) = delete k (without m ks).
Proof.
  apply map_eq. intros k'. rewrite lookup_delete, !lookup_without.
  destruct (decide (k = k')) as [->|Hne]; [by rewrite decide_True by set_solver|].
  destruct (decide (k' ∈ ks)); [by rewrite decide_True by set_solver|].
  by rewrite decide_False by set_solver.
Qed.

Lemma without_nil m : without m [] = m.
Proof. apply map_eq. intros k. by rewrite lookup_without, decide_False by set_solver. Qed.

(** Removing exactly the users of a backend. *)
Lemma lookup_without_users m users b k :
  (∀ k, k ∈ users ↔ ∃ a, m !! k = Some a ∧ Backend a = b) →
  without m users !! k =
    match m !! k with
    | Some a => if decide (Backend a = b) then None else Some a
    | None => None
    end.
Proof.
  intros Hu. rewrite lookup_without. destruct (m !! k) as [a|] eqn:Ha.
  - destruct (decide (Backend a = b)); [rewrite decide_True; [done|]|rewrite decide_False; [done|]];
      rewrite Hu; naive_solver.
  - by destruct (decide (k ∈ users)).
Qed.

Lemma msum_without (f : string → Assignment → Z) m ks :
  NoDup ks →
  msum f (without m ks) + zsum (λ p, f p.1 p.2) (omap (λ k, a ← m !! k; Some (k, a)) ks) = msum f m.
Proof.
  induction ks as [|k ks IH]; intros Hnd; [rewrite without_nil; cbn; rewrite zsum_nil; lia|].
  apply NoDup_cons in Hnd as [Hk Hnd]. specialize (IH Hnd). rewrite without_cons.
  assert (Hl : without m ks !! k = m !! k) by (by rewrite lookup_without, decide_False).
  cbn [omap list_omap]. destruct (m !! k) as [a|] eqn:Ha; simpl.
  - rewrite (msum_delete f (without m ks) k a) in IH by done. rewrite zsum_cons. simpl. lia.
  - by rewrite delete_id by done.
Qed.

Lemma load_without m ks b :
  NoDup ks →
  load (without m ks) b + zsum (λ p, weight_on b p.2) (omap (λ k, a ← m !! k; Some (k, a)) ks)
  = load m b.
Proof. apply (msum_without (λ _, weight_on b)). Qed.

Lemma total_without m ks : total (without m ks) ≤ total m.
Proof.
  induction ks as [|k ks IH]; [by rewrite without_nil|]. rewrite without_cons.
  destruct (without m ks !! k) as [a|] eqn:Ha; [|by rewrite delete_id].
  unfold total in *. rewrite (msum_delete _ (without m ks) k a) in IH by done. simpl in IH.
  pose proof (EffectiveWeight_pos a). lia.
Qed.

Lemma total_insert m k a : total (<[k := a]> m) ≤ total m + EffectiveWeight a.
Proof.
  unfold total. destruct (m !! k) as [a'|] eqn:Hk.
  - rewrite (msum_update _ m k a' a) by done. pose proof (EffectiveWeight_pos a'). lia.
  - rewrite msum_insert by done. lia.
Qed.

(** Distinct keys of a table are no more than its entries. *)
Lemma length_keys_le_size {A} (m : gmap string A) ks :
  NoDup ks → (∀ k, k ∈ ks → is_Some (m !! k)) → (length ks ≤ size m)%nat.
Proof.
  intros Hnd Hks. rewrite <- (size_dom m (D := gset string)), <- (size_list_to_set (C := gset string) ks Hnd).
  apply subseteq_size. intros k Hk%elem_of_list_to_set. by apply elem_of_dom, Hks.
Qed.

Lemma length_users_le_size b (m : gmap string Assignment) users :
  NoDup users → (∀ k, k ∈ users ↔ ∃ a, m !! k = Some a ∧ Backend a = b) →
  (length users ≤ size m)%nat.
Proof.
  intros Hnd Hu. apply length_keys_le_size; [done|]. intros k (a & Ha & _)%Hu. by exists a.
Qed.

(** The load depends only on the backend and the effective weight of each key. *)
Definition placement (a : Assignment) : string * Z := (Backend a, EffectiveWeight a).

Lemma load_placement m m' b :
  (∀ k, placement <$> m !! k = placement <$> m' !! k) → load m b = load m' b.
Proof.
  intros Heq. assert (Hf : placement <$> m = placement <$> m').
  { apply map_eq. intros k. by rewrite !lookup_fmap. }
  pose proof (msum_fmap placement (λ _ p, if decide (p.1 = b) then p.2 else 0) m) as H1.
  pose proof (msum_fmap placement (λ _ p, if decide (p.1 = b) then p.2 else 0) m') as H2.
  rewrite Hf, H2 in H1. symmetry. exact H1.
Qed.

(** Weight of the entries of a bulk assignment. *)
Definition entries_weight (entries : gmap string BulkAssignEntry) : Z :=
  msum (λ _ e, effective (e_Weight e)) entries.

(** The outcome of an on-demand assignment: an existing assignment that
    [stands] is kept; otherwise the key goes, with weight 1, to an active backend
    that is least loaded among the other keys. *)
Definition assigned_least (stands : gset string → Assignment → Prop) (m : gmap string Assignment)
    (active : gset string) (k : string) (a : Assignment) : Prop :=
  (m !! k = Some a ∧ stands active a) ∨
  (Backend a ∈ active ∧ (∀ a0, m !! k = Some a0 → ¬ stands active a0) ∧ Weight a = 1 ∧
   ∀ b, b ∈ active → load (delete k m) (Backend a) ≤ load (delete k m) b).

(** ** The contract *)

(** [live s]: the store can be reached and its data is consistent. *)
Class BackendsSpec (S : Type) `{!Store S} : Type := {
  live : S → Prop;
  act : S → gset string;
  tbl : S → gmap string Assignment;
  ActiveBackends_spec s :
    live s → ∃ l s', ActiveBackends s = ((l, None), s') ∧ l ≡ₚ elements (act s) ∧
      live s' ∧ act s' = act s ∧ tbl s' = tbl s;
  AddBackend_spec b s :
    live s → ∃ s', AddBackend b s = (None, s') ∧ live s' ∧ act s' = {[b]} ∪ act s ∧ tbl s' = tbl s;
  RemoveBackend_spec b s :
    live s → ∃ s', RemoveBackend b s = (None, s') ∧ live s' ∧ act s' = act s ∖ {[b]} ∧ tbl s' = tbl s;
  Ping_spec s :
    live s → ∃ s', Ping s = (None, s') ∧ live s' ∧ act s' = act s ∧ tbl s' = tbl s
}.

(** What a store can hold: the instants it can write and how it reads them
    back, the weights of an entry, the backends an entry may name given the
    active ones, the size of a bulk operation. *)
Class TableLimits (S : Type) : Type := {
  instant_ok : Z → Prop;
  stamp : Z → Z;
  weight_ok : Z → Prop;
  target_ok : gset string → string → Prop;
  batch_ok : nat → Prop;
  weight_ok_1 : weight_ok 1;
  target_ok_active active b : b ∈ active → target_ok active b;
  batch_ok_1 : batch_ok 1;
  batch_ok_le n m : (n ≤ m)%nat → batch_ok m → batch_ok n
}.
Arguments instant_ok S {_} _ : assert.
Arguments stamp S {_} _ : assert.
Arguments weight_ok S {_} _ : assert.
Arguments target_ok S {_} _ _ : assert.
Arguments batch_ok S {_} _ : assert.

(** Sums of weights are bounded by [two53]. *)
Class TableSpec (S : Type) `{!Store S, !BackendsSpec S, !TableLimits S} : Prop := {
  tbl_weight_ok s k a : live s → tbl s !! k = Some a → weight_ok S (Weight a);
  GetAssignment_spec k s :
    live s → ∃ r s', GetAssignment k s = (r, s') ∧ live s' ∧ act s' = act s ∧ tbl s' = tbl s ∧
      match tbl s !! k with Some a => r = (Some a, None) | None => ∃ e, r = (None, Some e) end;
  GetAllAssignments_spec s :
    live s → ∃ s', GetAllAssignments s = ((tbl s, None), s') ∧
      live s' ∧ act s' = act s ∧ tbl s' = tbl s;
  GetBackendUsers_spec b s :
    live s → ∃ users s', GetBackendUsers b s = ((users, None), s') ∧
      live s' ∧ act s' = act s ∧ tbl s' = tbl s ∧
      ∀ k, k ∈ users ↔ ∃ a, tbl s !! k = Some a ∧ Backend a = b;
  BulkAssign_spec now entries s :
    live s → instant_ok S now → (∀ k e, entries !! k = Some e → weight_ok S (e_Weight e)) →
    (∀ k e, entries !! k = Some e → target_ok S (act s) (e_Backend e)) → batch_ok S (size entries) →
    total (tbl s) + entries_weight entries < two53 →
    ∃ s', BulkAssign now entries s = ((e_Backend <$> fresh_entries (tbl s) entries, None), s') ∧
      live s' ∧ act s' = act s ∧
      tbl s' = (entry_assignment (stamp S now) <$> fresh_entries (tbl s) entries) ∪ tbl s;
  BulkDeleteAssignments_spec keys s :
    live s → NoDup keys → batch_ok S (length keys) → total (tbl s) < two53 →
    ∃ s', BulkDeleteAssignments keys s = (None, s') ∧
      live s' ∧ act s' = act s ∧ tbl s' = without (tbl s) keys
}.

(** [stands active a]: an on-demand assignment keeps the assignment [a]. *)
Class AssignSpec (S : Type) `{!Store S, !BackendsSpec S} : Type := {
  stands : gset string → Assignment → Prop;
  AssignLeastLoaded_spec now k s :
    live s → act s ≠ ∅ → total (tbl s) + 1 < two53 →
    ∃ a s', AssignLeastLoaded now k s = ((Some a, None), s') ∧
      live s' ∧ act s' = act s ∧ tbl s' = <[k := a]> (tbl s) ∧
      assigned_least stands (tbl s) (act s) k a;
  AssignLeastLoaded_empty now k s :
    live s → act s = ∅ → total (tbl s) + 1 < two53 →
    ∃ e s', AssignLeastLoaded now k s = ((None, Some e), s') ∧
      live s' ∧ act s' = act s ∧ (tbl s' = tbl s ∨ tbl s' = delete k (tbl s))
}.
Arguments stands S {_ _ _} _ _ : assert.
