(* ===== verification/StoreMemory.v ===== *)
(** * store_memory.go: MemoryStore

    The in-process store of hash mode: the set of backends and the sorted slice
    rebuilt on every change.  It discharges the backend part of the store
    contract; the assignment operations return errNotSupported. *)
From stdpp Require Import base gmap strings list sorting fin_maps.
From Stdlib Require Import ZArith Lia.
From S2P Require Import Prelude Go Assignment Store.
Local Open Scope Z_scope.

Module StoreMemory.

Record MemoryStore := mkMemoryStore {
  backends : gset string;
  sorted : list string     (* pre-sorted, rebuilt on add/remove *)
}.

Definition NewMemoryStore : MemoryStore := mkMemoryStore ∅ [].

Section store.
Context `{!MapIter}.
Implicit Types (s : MemoryStore).

Definition rebuildSorted s : MemoryStore :=
  mkMemoryStore (backends s) (sort_Strings (range_set 40 (backends s))).

Definition mem_ActiveBackends s : result (list string) * MemoryStore := ((sorted s, None), s).

Definition mem_AddBackend (b : string) s : option error * MemoryStore :=
  if bool_decide (b ∈ backends s) then (None, s)
  else (None, rebuildSorted (mkMemoryStore ({[b]} ∪ backends s) (sorted s))).

Definition mem_RemoveBackend (b : string) s : option error * MemoryStore :=
  (None, rebuildSorted (mkMemoryStore (backends s ∖ {[b]}) (sorted s))).

#[export] Instance memory_store : Store MemoryStore := {|
  AssignLeastLoaded _ _ s := ((None, Some errNotSupported), s);
  GetAssignment _ s := ((None, Some errNotSupported), s);
  GetAllAssignments s := ((∅, Some errNotSupported), s);
  GetBackendUsers _ s := (([], Some errNotSupported), s);
  BulkAssign _ _ s := ((∅, Some errNotSupported), s);
  BulkDeleteAssignments _ s := (Some errNotSupported, s);
  ActiveBackends := mem_ActiveBackends;
  AddBackend := mem_AddBackend;
  RemoveBackend := mem_RemoveBackend;
  Ping s := (None, s)
|}.

(** The slice is the sorted list of the set. *)
Definition sorted_inv s : Prop := sorted s = sort_Strings (elements (backends s)).

Lemma sort_range_set site (b : gset string) :
  sort_Strings (range_set site b) = sort_Strings (elements b).
Proof.
  apply sort_Strings_canonical, NoDup_Permutation.
  - apply NoDup_range_set.
  - apply NoDup_elements.
  - intros x. by rewrite elem_of_range_set, elem_of_elements.
Qed.

Lemma rebuildSorted_inv s : sorted_inv (rebuildSorted s).
Proof. unfold sorted_inv. simpl. apply sort_range_set. Qed.

#[export, refine] Instance memory_backends_spec : BackendsSpec MemoryStore := {|
  live := sorted_inv; act := backends; tbl _ := ∅ |}.
Proof.
  - intros s Hs. exists (sorted s), s. split; [done|]. split; [|done].
    rewrite Hs. apply sort_Strings_perm.
  - intros b s Hs. cbn. unfold mem_AddBackend. case_bool_decide as Hb.
    + exists s. split; [done|]. split; [done|]. split; [set_solver|done].
    + eexists. split; [done|]. split; [apply rebuildSorted_inv|done].
  - intros b s Hs. eexists. split; [done|]. split; [apply rebuildSorted_inv|done].
  - intros s Hs. by exists s.
Defined.

(** ** Runs of the store *)

Inductive op := Add (b : string) | Remove (b : string).

Definition step (s : MemoryStore) (o : op) : MemoryStore :=
  match o with Add b => (mem_AddBackend b s).2 | Remove b => (mem_RemoveBackend b s).2 end.

(** The set a sequence of operations denotes. *)
Definition denote (a : gset string) (o : op) : gset string :=
  match o with Add b => {[b]} ∪ a | Remove b => a ∖ {[b]} end.

Lemma store_step_inv s o : sorted_inv s → sorted_inv (step s o) ∧ backends (step s o) = denote (backends s) o.
Proof.
  intros Hs. destruct o as [b|b]; simpl.
  - unfold mem_AddBackend. case_bool_decide; simpl; [split; [done|set_solver]|].
    split; [apply rebuildSorted_inv|done].
  - split; [apply rebuildSorted_inv|done].
Qed.

(** After any sequence of additions and removals on a new MemoryStore,
    [ActiveBackends] returns without error the sorted, duplicate-free list of
    exactly the backends added and not removed since: two replicas that saw
    the same final set route over the same list, whatever the order of their
    map iterations. *)
Theorem memory_store_runs ops :
  let s := foldl step NewMemoryStore ops in
  let final := foldl denote ∅ ops in
  (ActiveBackends s).1 = (sort_Strings (elements final), None) ∧ backends s = final.
Proof.
  simpl. unfold mem_ActiveBackends.
  enough (Hgen : ∀ s, sorted_inv s →
    sorted_inv (foldl step s ops) ∧ backends (foldl step s ops) = foldl denote (backends s) ops).
  { destruct (Hgen NewMemoryStore) as [Hs Hb]; [by vm_compute|]. simpl. rewrite Hs, Hb. done. }
  induction ops as [|o ops IH]; intros s Hs; [done|]. simpl.
  destruct (store_step_inv s o Hs) as [Hs' <-]. by apply IH.
Qed.
End store.

End StoreMemory.
