(* ===== verification/ConnTracker.v ===== *)
(** * conn_tracker.go: the tracker of WebSocket bridges

    [conns] maps a routing key to its set of bridges.  A bridge is a pointer,
    modelled by an opaque name; closing and swapping a bridge are the calls the
    tracker makes on it, returned as actions.  The specification is a set of
    (routing key, bridge) pairs. *)
From stdpp Require Import base gmap strings list fin_maps.
From Stdlib Require Import ZArith Lia.
From S2P Require Import Prelude Go.

Module CT.

Record ConnTracker := mkTracker { conns : gmap string (gset string) }.

Definition NewConnTracker : ConnTracker := mkTracker ∅.

(** [ct.conns[routingKey]]: a nil map ranges like an empty one. *)
Definition bridges_of (ct : ConnTracker) (k : string) : gset string := default ∅ (conns ct !! k).

(** What the tracker does to a bridge. *)
Inductive action := CloseB (bridge : string) | SwapB (bridge newBackend : string).

#[export] Instance CloseB_inj : Inj (=) (=) CloseB.
Proof. by intros ?? [= ->]. Qed.

#[export] Instance SwapB_inj nb : Inj (=) (=) (λ b, SwapB b nb).
Proof. by intros ?? [= ->]. Qed.

Definition Add (k bridge : string) (ct : ConnTracker) : ConnTracker :=
  let m := match conns ct !! k with None => <[k := ∅]> (conns ct) | Some _ => conns ct end in
  mkTracker (<[k := {[bridge]} ∪ default ∅ (m !! k)]> m).

Definition Remove (k bridge : string) (ct : ConnTracker) : ConnTracker :=
  match conns ct !! k with
  | None => ct
  | Some s =>
      let s' := s ∖ {[bridge]} in
      if bool_decide (size s' = 0)%nat then mkTracker (delete k (conns ct))
      else mkTracker (<[k := s']> (conns ct))
  end.

Section ops.
Context `{!MapIter}.

Definition CloseConns (k : string) (ct : ConnTracker) : list action * ConnTracker :=
  (CloseB <$> range_set 50 (bridges_of ct k), mkTracker (delete k (conns ct))).

Definition SwapConns (k newBackend : string) (ct : ConnTracker) : list action * ConnTracker :=
  ((λ b, SwapB b newBackend) <$> range_set 51 (bridges_of ct k), ct).

Definition Count (k : string) (ct : ConnTracker) : nat := size (bridges_of ct k).
End ops.

(** ** Specification *)

Definition pairs := gset (string * string).

Definition tracked (ct : ConnTracker) (k b : string) : Prop := b ∈ bridges_of ct k.

(** No key keeps an empty set, so the map does not leak keys. *)
Definition tight (ct : ConnTracker) : Prop := ∀ k s, conns ct !! k = Some s → s ≠ ∅.

Lemma bridges_of_insert ct k s k' :
  bridges_of (mkTracker (<[k := s]> (conns ct))) k' = if decide (k = k') then s else bridges_of ct k'.
Proof. unfold bridges_of. simpl. rewrite lookup_insert. by case_decide. Qed.

Lemma bridges_of_delete ct k k' :
  bridges_of (mkTracker (delete k (conns ct))) k' = if decide (k = k') then ∅ else bridges_of ct k'.
Proof. unfold bridges_of. simpl. rewrite lookup_delete. by case_decide. Qed.

Lemma tracked_Add k b ct k' b' :
  tracked (Add k b ct) k' b' ↔ (k' = k ∧ b' = b) ∨ tracked ct k' b'.
Proof.
  unfold tracked, Add, bridges_of. destruct (conns ct !! k) as [s|] eqn:Hk; simpl.
  - rewrite Hk. simpl. rewrite lookup_insert. case_decide; subst; [rewrite Hk; simpl|]; set_solver.
  - rewrite lookup_insert_eq, insert_insert_eq, lookup_insert. simpl.
    case_decide; subst; [rewrite Hk; simpl|]; set_solver.
Qed.

Lemma tracked_Remove k b ct k' b' :
  tracked (Remove k b ct) k' b' ↔ tracked ct k' b' ∧ ¬ (k' = k ∧ b' = b).
Proof.
  unfold tracked, Remove. destruct (conns ct !! k) as [s|] eqn:Hk.
  - assert (Hb : bridges_of ct k = s) by (unfold bridges_of; by rewrite Hk).
    case_bool_decide as He.
    + apply size_empty_inv in He. fold_leibniz. rewrite bridges_of_delete.
      case_decide; subst k' || idtac; [|set_solver]. rewrite Hb. set_solver.
    + rewrite bridges_of_insert. case_decide; subst k' || idtac; [|set_solver]. rewrite Hb. set_solver.
  - split; [|tauto]. intros Ht. split; [done|]. intros [-> ->]. unfold bridges_of in Ht.
    rewrite Hk in Ht. set_solver.
Qed.

Lemma tight_Add k b ct : tight ct → tight (Add k b ct).
Proof.
  intros Ht k' s. unfold Add. simpl. destruct (conns ct !! k) eqn:Hk;
    rewrite !lookup_insert; repeat case_decide; intros Hs; simplify_eq/=; try set_solver; by eapply Ht.
Qed.

Lemma tight_Remove k b ct : tight ct → tight (Remove k b ct).
Proof.
  intros Ht k' s. unfold Remove. destruct (conns ct !! k) as [s0|] eqn:Hk; [|apply Ht].
  case_bool_decide as He; simpl.
  - intros [_ Hs]%lookup_delete_Some. by eapply Ht.
  - rewrite lookup_insert. case_decide; [|apply Ht]. intros [= <-] He'. apply He.
    rewrite He'. apply size_empty.
Qed.

(** ** Runs *)

Inductive op :=
  | OpAdd (k b : string)
  | OpRemove (k b : string)
  | OpClose (k : string)
  | OpSwap (k newBackend : string).

Section runs.
Context `{!MapIter}.

Definition step (ct : ConnTracker) (o : op) : list action * ConnTracker :=
  match o with
  | OpAdd k b => ([], Add k b ct)
  | OpRemove k b => ([], Remove k b ct)
  | OpClose k => CloseConns k ct
  | OpSwap k b => SwapConns k b ct
  end.

(** The set of pairs after an operation. *)
Definition denote (p : pairs) (o : op) : pairs :=
  match o with
  | OpAdd k b => {[(k, b)]} ∪ p
  | OpRemove k b => p ∖ {[(k, b)]}
  | OpClose k => filter (λ x, x.1 ≠ k) p
  | OpSwap _ _ => p
  end.

(** The bridge calls an operation makes, in some order. *)
Definition calls (p : pairs) (o : op) (acts : list action) : Prop :=
  NoDup acts ∧
  match o with
  | OpAdd _ _ | OpRemove _ _ => acts = []
  | OpClose k => ∀ a, a ∈ acts ↔ ∃ b, a = CloseB b ∧ (k, b) ∈ p
  | OpSwap k nb => ∀ a, a ∈ acts ↔ ∃ b, a = SwapB b nb ∧ (k, b) ∈ p
  end.

Fixpoint run (ops : list op) (ct : ConnTracker) : list (list action) * ConnTracker :=
  match ops with
  | [] => ([], ct)
  | o :: ops =>
      let '(acts, ct) := step ct o in
      let '(rest, ct) := run ops ct in (acts :: rest, ct)
  end.

Fixpoint calls_run (p : pairs) (ops : list op) (acts : list (list action)) : Prop :=
  match ops, acts with
  | [], [] => True
  | o :: ops, a :: acts => calls p o a ∧ calls_run (denote p o) ops acts
  | _, _ => False
  end.

Definition represents (ct : ConnTracker) (p : pairs) : Prop :=
  tight ct ∧ ∀ k b, tracked ct k b ↔ (k, b) ∈ p.

Lemma step_denote ct p o :
  represents ct p →
  calls p o (step ct o).1 ∧ represents (step ct o).2 (denote p o).
Proof.
  intros [Ht Hp]. destruct o as [k b|k b|k|k nb]; simpl.
  - split; [by repeat constructor|]. split; [by apply tight_Add|]. intros k' b'.
    rewrite tracked_Add, Hp. set_solver.
  - split; [by repeat constructor|]. split; [by apply tight_Remove|]. intros k' b'.
    rewrite tracked_Remove, Hp. set_solver.
  - split.
    + split; [apply NoDup_fmap_2; [apply _|apply NoDup_range_set]|].
      intros a. rewrite list_elem_of_fmap. setoid_rewrite elem_of_range_set.
      setoid_rewrite <- Hp. done.
    + split.
      { intros k' s. simpl. intros [_ Hs]%lookup_delete_Some. by eapply Ht. }
      intros k' b'. unfold tracked. rewrite bridges_of_delete. rewrite elem_of_filter, <- Hp. simpl.
      case_decide; subst; set_solver.
  - split; [|done].
    split; [apply NoDup_fmap_2; [apply _|apply NoDup_range_set]|].
    intros a. rewrite list_elem_of_fmap. setoid_rewrite elem_of_range_set.
    setoid_rewrite <- Hp. done.
Qed.

(** In every run of the tracker, a drain closes and a rebalance swaps each
    bridge registered for the routing key, and no other, exactly once; after
    the run [Count] of a key is the number of its bridges added and neither
    removed nor closed, and a key without bridges leaves no entry behind. *)
Theorem conn_tracker_refines ops :
  let '(acts, ct) := run ops NewConnTracker in
  let final := foldl denote ∅ ops in
  calls_run ∅ ops acts ∧
  (∀ k, Count k ct = size (filter (λ x, x.1 = k) final)) ∧
  (∀ k, is_Some (conns ct !! k) ↔ ∃ b, (k, b) ∈ final).
Proof.
  enough (Hgen : ∀ ct p, represents ct p →
    calls_run p ops (run ops ct).1 ∧ represents (run ops ct).2 (foldl denote p ops)).
  { destruct (run ops NewConnTracker) as [acts ct] eqn:Hrun.
    destruct (Hgen NewConnTracker ∅) as [Hc [Ht Hp]].
    { split; [by intros k s Hs|]. intros k b. unfold tracked, bridges_of. simpl.
      rewrite lookup_empty. simpl. set_solver. }
    rewrite Hrun in *. simpl in *. split; [done|]. split; intros k.
    - unfold Count, size, set_size, compose. rewrite <- (length_fmap (pair k)).
      apply Permutation_length, NoDup_Permutation.
      { apply NoDup_fmap_2; [apply _|apply NoDup_elements]. }
      { apply NoDup_elements. }
      intros [k' b]. rewrite list_elem_of_fmap, elem_of_elements, elem_of_filter, <- Hp.
      setoid_rewrite elem_of_elements. unfold tracked. simpl. naive_solver.
    - unfold is_Some. split.
      + intros [s Hs]. destruct (set_choose_L s (Ht _ _ Hs)) as [b Hb]. exists b. apply Hp.
        unfold tracked, bridges_of. by rewrite Hs.
      + intros [b Hb%Hp]. unfold tracked, bridges_of in Hb.
        destruct (conns ct !! k) as [s|]; [eauto|set_solver]. }
  induction ops as [|o ops IH]; intros ct p Hr; [done|]. simpl.
  destruct (step_denote ct p o Hr) as [Hc Hr'].
  destruct (step ct o) as [acts ct']. simpl in *. destruct (IH _ _ Hr') as [Hc' Hr''].
  by destruct (run ops ct').
Qed.
End runs.

End CT.
