(* ===== verification/Hooks.v ===== *)
(** * hooks.go: the webhook client

    [send] posts the users to the backend and retries.  The HTTP client and the
    context are outside: what attempt number [i] meets is an argument.  A call
    returns its error and the number of POSTs it made. *)
From stdpp Require Import base strings list pretty.
From Stdlib Require Import ZArith Lia.
From S2P Require Import Prelude Go.
Local Open Scope Z_scope.

Module Hooks.

(** What an attempt meets, in the order the code looks. *)
Inductive attempt :=
  | CtxDone (e : error)        (* ctx.Err() != nil *)
  | BadRequest (e : error)     (* the request cannot be built *)
  | NetError (e : error)       (* client.Do failed *)
  | Status (code : Z).

(** [fmt.Errorf("hook %s returned %d", path, resp.StatusCode)] *)
Definition hook_error (path : string) (code : Z) : error :=
  ErrOther ("hook " +:+ path +:+ " returned " +:+ pretty code).

Section send.
Context (path : string) (outcome : nat → attempt).

Fixpoint attempts (n i : nat) (lastErr : option error) (posts : nat) : option error * nat :=
  match n with
  | O => (lastErr, posts)
  | S n =>
      match outcome i with
      | CtxDone e => (Some e, posts)
      | BadRequest e => (Some e, posts)
      | NetError e => attempts n (S i) (Some e) (S posts)
      | Status code =>
          if (200 <=? code) && (code <? 300) then (None, S posts)
          else attempts n (S i) (Some (hook_error path code)) (S posts)
      end
  end.

(** [for attempt := 0; attempt <= h.retries; attempt++] *)
Definition send (retries : Z) : option error * nat := attempts (Z.to_nat (retries + 1)) 0 None 0.

(** ** What a send means *)

Definition accepted (a : attempt) : Prop := ∃ code, a = Status code ∧ 200 ≤ code < 300.

(** The attempt leaves the loop without success. *)
Definition gives_up (a : attempt) : Prop := ∃ e, a = CtxDone e ∨ a = BadRequest e.

Lemma attempts_spec n i lastErr posts :
  let '(err, posts') := attempts n i lastErr posts in
  (posts' ≤ posts + n)%nat ∧
  (err = None →
     (∃ j, (i ≤ j < i + n)%nat ∧ accepted (outcome j) ∧ posts' = (posts + (j - i) + 1)%nat ∧
        ∀ k, (i ≤ k < j)%nat → ¬ accepted (outcome k) ∧ ¬ gives_up (outcome k)) ∨
     (n = 0%nat ∧ lastErr = None ∧ posts' = posts)) ∧
  (∀ j, (i ≤ j < i + n)%nat → accepted (outcome j) →
     (∀ k, (i ≤ k < j)%nat → ¬ gives_up (outcome k)) → err = None).
Proof.
  revert i lastErr posts. induction n as [|n IH]; intros i lastErr posts; simpl.
  { split; [lia|]. split; [auto|]. intros j Hj. lia. }
  assert (Hstep : ∀ e, ¬ accepted (outcome i) → ¬ gives_up (outcome i) →
    let '(err, posts') := attempts n (S i) (Some e) (S posts) in
    (posts' ≤ posts + S n)%nat ∧
    (err = None →
       (∃ j, (i ≤ j < i + S n)%nat ∧ accepted (outcome j) ∧ posts' = (posts + (j - i) + 1)%nat ∧
          ∀ k, (i ≤ k < j)%nat → ¬ accepted (outcome k) ∧ ¬ gives_up (outcome k)) ∨
       (S n = 0%nat ∧ lastErr = None ∧ posts' = posts)) ∧
    (∀ j, (i ≤ j < i + S n)%nat → accepted (outcome j) →
       (∀ k, (i ≤ k < j)%nat → ¬ gives_up (outcome k)) → err = None)).
  { intros e Hna Hng. specialize (IH (S i) (Some e) (S posts)).
    destruct (attempts n (S i) (Some e) (S posts)) as [err posts']. destruct IH as (Hle & Hok & Hall).
    split; [lia|]. split.
    - intros He. destruct (Hok He) as [(j & Hj & Ha & Hp & Hk)|(_ & ? & _)]; [|done].
      left. exists j. split; [lia|]. split; [done|]. split; [lia|]. intros k Hk'.
      destruct (decide (k = i)) as [->|]; [done|]. apply Hk. lia.
    - intros j Hj Ha Hg. destruct (decide (j = i)) as [->|]; [done|].
      apply (Hall j); [lia|done|]. intros k Hk. apply Hg. lia. }
  destruct (outcome i) as [e|e|e|code] eqn:Ho.
  - split; [lia|]. split; [done|]. intros j Hj Ha Hg. destruct (decide (j = i)) as [->|].
    { rewrite Ho in Ha. by destruct Ha as (? & ? & _). }
    destruct (Hg i); [lia|]. rewrite Ho. exists e. by left.
  - split; [lia|]. split; [done|]. intros j Hj Ha Hg. destruct (decide (j = i)) as [->|].
    { rewrite Ho in Ha. by destruct Ha as (? & ? & _). }
    destruct (Hg i); [lia|]. rewrite Ho. exists e. by right.
  - apply Hstep; [by intros (? & ? & _)|]. intros (? & [?|?]); done.
  - destruct (Z.leb_spec 200 code), (Z.ltb_spec code 300); cbn [andb].
    1: { split; [lia|]. split; [|done]. intros _. left. exists i. split; [lia|]. split.
         { exists code. by rewrite Ho. }
         split; [lia|]. intros k Hk. lia. }
    all: apply Hstep; [intros (c & Hc & ?); simplify_eq; lia|intros (? & [?|?]); congruence].
Qed.

Lemma send_nonneg retries :
  0 ≤ retries →
  let '(err, posts) := send retries in
  (Z.of_nat posts ≤ retries + 1) ∧
  (err = None ↔ ∃ j, Z.of_nat j ≤ retries ∧ accepted (outcome j) ∧
     ∀ k, (k < j)%nat → ¬ gives_up (outcome k)) ∧
  (err = None → ∃ j, accepted (outcome j) ∧ posts = S j ∧ ∀ k, (k < j)%nat → ¬ accepted (outcome k)).
Proof.
  intros Hr. unfold send. pose proof (attempts_spec (Z.to_nat (retries + 1)) 0 None 0) as Hs.
  destruct (attempts (Z.to_nat (retries + 1)) 0 None 0) as [err posts]. destruct Hs as (Hle & Hok & Hall).
  split; [lia|]. split; [split|].
  - intros He. destruct (Hok He) as [(j & Hj & Ha & _ & Hk)|(? & _)]; [|lia].
    exists j. split; [lia|]. split; [done|]. intros k Hkj. apply Hk. lia.
  - intros (j & Hj & Ha & Hg). apply (Hall j); [lia|done|]. intros k Hk. apply Hg. lia.
  - intros He. destruct (Hok He) as [(j & Hj & Ha & Hp & Hk)|(? & _)]; [|lia].
    exists j. split; [done|]. split; [lia|]. intros k Hkj. apply Hk. lia.
Qed.
End send.

(** The hook counters of the metrics. *)
Record counters := mkCounters { hook_assigns : Z; hook_unassigns : Z; hook_failures : Z }.

Definition SendAssign (outcome : nat → attempt) (retries : Z) (m : counters) : counters * nat :=
  let '(err, posts) := send "/hooks/assign" outcome retries in
  match err with
  | Some _ => (mkCounters (hook_assigns m) (hook_unassigns m) (hook_failures m + 1), posts)
  | None => (mkCounters (hook_assigns m + 1) (hook_unassigns m) (hook_failures m), posts)
  end.

Definition SendUnassign (outcome : nat → attempt) (retries : Z) (m : counters) : counters * nat :=
  let '(err, posts) := send "/hooks/unassign" outcome retries in
  match err with
  | Some _ => (mkCounters (hook_assigns m) (hook_unassigns m) (hook_failures m + 1), posts)
  | None => (mkCounters (hook_assigns m) (hook_unassigns m + 1) (hook_failures m), posts)
  end.

(** What a hook call does, by its retry count.  With [retries >= 0] it
    succeeds exactly when one of its [retries + 1] attempts is answered with a
    2xx status before the context ends; it then stops at the first such
    attempt, and it never posts more than [retries + 1] times.  With a negative
    count, which the configuration accepts, the loop body never runs: nothing
    is ever posted and the call still counts as a delivered hook. *)
Theorem send_spec path outcome retries m :
  (0 ≤ retries →
     let '(err, posts) := send path outcome retries in
     (Z.of_nat posts ≤ retries + 1) ∧
     (err = None ↔ ∃ j, Z.of_nat j ≤ retries ∧ accepted (outcome j) ∧
        ∀ k, (k < j)%nat → ¬ gives_up (outcome k)) ∧
     (err = None → ∃ j, accepted (outcome j) ∧ posts = S j ∧ ∀ k, (k < j)%nat → ¬ accepted (outcome k))) ∧
  (retries < 0 →
     SendAssign outcome retries m = (mkCounters (hook_assigns m + 1) (hook_unassigns m) (hook_failures m), 0%nat) ∧
     SendUnassign outcome retries m = (mkCounters (hook_assigns m) (hook_unassigns m + 1) (hook_failures m), 0%nat)).
Proof.
  split; [apply send_nonneg|].
  intros Hr. assert (Hs : ∀ path, send path outcome retries = (None, 0%nat)).
  { intros path'. unfold send. by replace (Z.to_nat (retries + 1)) with 0%nat by lia. }
  unfold SendAssign, SendUnassign. by rewrite !Hs.
Qed.

(** The first attempt fails, the second is answered 500, the third 204. *)
Definition flaky (i : nat) : attempt :=
  match i with O => NetError ErrCtx | 1%nat => Status 500 | _ => Status 204 end.

Lemma send_spec_witness :
  send "/hooks/assign" flaky 2 = (None, 3%nat) ∧ send "/hooks/assign" flaky 1 ≠ (None, 2%nat) ∧
  let '(err, posts) := send "/hooks/assign" flaky 2 in Z.of_nat posts ≤ 2 + 1.
Proof.
  split; [by vm_compute|]. split; [by vm_compute|].
  destruct (send_spec "/hooks/assign" flaky 2 (mkCounters 0 0 0)) as [Hs _].
  destruct (send "/hooks/assign" flaky 2) as [err posts]. apply Hs. lia.
Defined.

End Hooks.
