(* ===== verification/World.v ===== *)
(** * The state the transitions work on

    Draining a backend, rebalancing and pre-assigning accounts all work on the
    same parts: the store, the local cache, the hold manager and the connection
    tracker, with webhooks and invalidation events sent to the outside.  A call
    to the outside is an event of the trace, recorded together with the store,
    the cache and the holds at that moment, so that theorems can say in which
    state of the system a backend was notified. *)
From stdpp Require Import base gmap strings list fin_maps.
From Stdlib Require Import ZArith Lia.
From S2P Require Import Prelude Go Assignment Store UserCache Hold ConnTracker.
Local Open Scope Z_scope.

Inductive event :=
  | EvAssign (b : string) (keys : list string)      (* hooks.SendAssign *)
  | EvUnassign (b : string) (keys : list string)    (* hooks.SendUnassign *)
  | EvPublish (b : string)                          (* notifier.Publish *)
  | EvBridge (a : CT.action).                       (* bridge.Close, bridge.SwapBackend *)

(** Which optional collaborators are configured (non-nil). *)
Record config := mkConfig {
  has_hooks : bool;
  has_notifier : bool;
  has_hold : bool;
  has_conns : bool
}.

Record world (S : Type) := mkWorld {
  w_store : S;
  w_cache : UC.UserCache;
  w_hold : Hold.HoldManager;
  w_conns : CT.ConnTracker;
  w_trace : list (event * (S * UC.UserCache * Hold.HoldManager))
}.
Arguments mkWorld {S}.
Arguments w_store {S}.
Arguments w_cache {S}.
Arguments w_hold {S}.
Arguments w_conns {S}.
Arguments w_trace {S}.

Section world.
Context `{!MapIter} {S : Type} (cfg : config).
Implicit Types (w : world S).

Definition set_store (s : S) w : world S :=
  mkWorld s (w_cache w) (w_hold w) (w_conns w) (w_trace w).

Definition set_hold (h : Hold.HoldManager) w : world S :=
  mkWorld (w_store w) (w_cache w) h (w_conns w) (w_trace w).

Definition set_cache (c : UC.UserCache) w : world S :=
  mkWorld (w_store w) c (w_hold w) (w_conns w) (w_trace w).

Definition set_conns (ct : CT.ConnTracker) w : world S :=
  mkWorld (w_store w) (w_cache w) (w_hold w) ct (w_trace w).

Definition emit (e : event) w : world S :=
  mkWorld (w_store w) (w_cache w) (w_hold w) (w_conns w)
    (w_trace w ++ [(e, (w_store w, w_cache w, w_hold w))]).

Definition emits (es : list event) w : world S := foldl (λ w e, emit e w) w es.

Definition SendAssign (b : string) (keys : list string) w : world S :=
  if has_hooks cfg then emit (EvAssign b keys) w else w.

Definition SendUnassign (b : string) (keys : list string) w : world S :=
  if has_hooks cfg then emit (EvUnassign b keys) w else w.

(** publishNotification logs and swallows errors. *)
Definition publishNotification (b : string) w : world S :=
  if has_notifier cfg then emit (EvPublish b) w else w.

Definition Invalidate (k : string) w : world S := set_cache (UC.Invalidate k (w_cache w)) w.

Definition MarkTransition (keys : list string) w : world S :=
  if has_hold cfg then set_hold (Hold.MarkTransition keys (w_hold w)) w else w.

Definition ClearTransition (keys : list string) w : world S :=
  if has_hold cfg then set_hold (Hold.ClearTransition keys (w_hold w)) w else w.

Definition CloseConns (k : string) w : world S :=
  if has_conns cfg then
    let '(acts, ct) := CT.CloseConns k (w_conns w) in emits (EvBridge <$> acts) (set_conns ct w)
  else w.

Definition SwapConns (k b : string) w : world S :=
  if has_conns cfg then
    let '(acts, ct) := CT.SwapConns k b (w_conns w) in emits (EvBridge <$> acts) (set_conns ct w)
  else w.
End world.

(** [byBackend[b] = append(byBackend[b], key)] over a list of pairs. *)
Definition by_backend (l : list (string * string)) : gmap string (list string) :=
  foldl (λ m '(key, b), <[b := default [] (m !! b) ++ [key]]> m) ∅ l.

Lemma lookup_by_backend l b k :
  k ∈ default [] (by_backend l !! b) ↔ (k, b) ∈ l.
Proof.
  unfold by_backend.
  enough (Hgen : ∀ m : gmap string (list string), k ∈ default [] (foldl (λ m '(key, b), <[b := default [] (m !! b) ++ [key]]> m) m l !! b)
    ↔ k ∈ default [] (m !! b) ∨ (k, b) ∈ l).
  { rewrite Hgen, lookup_empty. simpl. set_solver. }
  induction l as [|[k' b'] l IH]; intros m; simpl; [set_solver|].
  rewrite IH, lookup_insert. case_decide; subst; simpl; set_solver.
Qed.

Lemma by_backend_nonempty l b ks : by_backend l !! b = Some ks → ks ≠ [].
Proof.
  unfold by_backend.
  enough (Hgen : ∀ m : gmap string (list string), (∀ b ks, m !! b = Some ks → ks ≠ []) →
    ∀ b ks, foldl (λ m '(key, b), <[b := default [] (m !! b) ++ [key]]> m) m l !! b = Some ks → ks ≠ []).
  { by apply Hgen. }
  induction l as [|[k' b'] l IH]; intros m Hm; simpl; [done|]. apply IH. intros b1 ks1.
  rewrite lookup_insert. case_decide; [|apply Hm]. intros [= <-]. by destruct (default [] (m !! b')).
Qed.

(** ** Frames: what each effect leaves alone *)

Section frames.
Context `{!MapIter} {S : Type} (cfg : config).
Implicit Types (w : world S).

(** The events added by a computation. *)
Definition extends w w' (es : list (event * (S * UC.UserCache * Hold.HoldManager))) : Prop :=
  w_trace w' = w_trace w ++ es.

(** A group of webhooks changes only the trace; every event is sent in the
    state the group found. *)
Lemma foldl_hooks (send : string → list string → event) (l : list (string * list string)) w :
  let w' := foldl (λ w '(b, ks), if has_hooks cfg then emit (send b ks) w else w) w l in
  w_store w' = w_store w ∧ w_cache w' = w_cache w ∧ w_hold w' = w_hold w ∧
  w_conns w' = w_conns w ∧
  extends w w' ((λ p, (send p.1 p.2, (w_store w, w_cache w, w_hold w))) <$>
    (if has_hooks cfg then l else [])).
Proof.
  unfold extends. revert w. induction l as [|[b ks] l IH]; intros w; simpl.
  { destruct (has_hooks cfg); by rewrite app_nil_r. }
  destruct (has_hooks cfg).
  - destruct (IH (emit (send b ks) w)) as (Hs & Hc & Hh & Hn & Ht). simpl in *.
    do 4 (split; [done|]). rewrite Ht, <- app_assoc. done.
  - apply IH.
Qed.

Lemma foldl_invalidate keys w :
  let w' := foldl (λ w k, Invalidate k w) w keys in
  w_store w' = w_store w ∧ w_hold w' = w_hold w ∧ w_conns w' = w_conns w ∧
  w_trace w' = w_trace w ∧
  ∀ k, UC.data (w_cache w') !! k = if decide (k ∈ keys) then None else UC.data (w_cache w) !! k.
Proof.
  revert w. induction keys as [|k keys IH]; intros w; simpl; [done|].
  destruct (IH (Invalidate k w)) as (Hs & Hh & Hn & Ht & Hc). do 4 (split; [done|]).
  intros k'. rewrite Hc. unfold Invalidate, UC.Invalidate. simpl. rewrite lookup_delete.
  destruct (decide (k' ∈ keys)); [by rewrite decide_True by set_solver|].
  destruct (decide (k = k')); [by rewrite decide_True by set_solver|].
  by rewrite decide_False by set_solver.
Qed.

Lemma emits_frame es w :
  let w' := emits es w in
  w_store w' = w_store w ∧ w_cache w' = w_cache w ∧ w_hold w' = w_hold w ∧
  extends w w' ((λ e, (e, (w_store w, w_cache w, w_hold w))) <$> es).
Proof.
  unfold emits, extends. revert w. induction es as [|e es IH]; intros w; simpl; [by rewrite app_nil_r|].
  destruct (IH (emit e w)) as (Hs & Hc & Hh & Ht). simpl in *. do 3 (split; [done|]).
  by rewrite Ht, <- app_assoc.
Qed.

Lemma emits_conns es w : w_conns (emits es w) = w_conns w.
Proof. unfold emits. revert w. induction es as [|e es IH]; intros w; simpl; [done|]. by rewrite IH. Qed.

Lemma bridges_CloseConns k w k' :
  CT.bridges_of (w_conns (CloseConns cfg k w)) k' =
    if has_conns cfg && bool_decide (k = k') then ∅ else CT.bridges_of (w_conns w) k'.
Proof.
  unfold CloseConns. destruct (has_conns cfg); [|done]. simpl. rewrite emits_conns. simpl.
  rewrite CT.bridges_of_delete. case_decide; [by rewrite bool_decide_true|by rewrite bool_decide_false].
Qed.

(** The bridge [x] has been closed. *)
Definition closed (x : string) (w : world S) : Prop := ∃ st, (EvBridge (CT.CloseB x), st) ∈ w_trace w.

Lemma closed_emit x e w : closed x (emit e w) ↔ closed x w ∨ e = EvBridge (CT.CloseB x).
Proof.
  unfold closed. simpl. setoid_rewrite elem_of_app. setoid_rewrite list_elem_of_singleton. split.
  - intros (st & [Hin|[= <- _]]); eauto.
  - intros [(st & Hin)| ->]; eauto.
Qed.

Lemma closed_emits x es w : closed x (emits es w) ↔ closed x w ∨ EvBridge (CT.CloseB x) ∈ es.
Proof.
  unfold emits. revert w. induction es as [|e es IH]; intros w; simpl; [set_solver|].
  rewrite IH, closed_emit, elem_of_cons. naive_solver.
Qed.

Lemma closed_CloseConns x k w :
  closed x (CloseConns cfg k w) ↔ closed x w ∨ has_conns cfg = true ∧ x ∈ CT.bridges_of (w_conns w) k.
Proof.
  unfold CloseConns. destruct (has_conns cfg); simpl; [|naive_solver].
  rewrite closed_emits. unfold CT.CloseConns. simpl. rewrite list_elem_of_fmap.
  setoid_rewrite list_elem_of_fmap. setoid_rewrite elem_of_range_set.
  change (closed x (set_conns (CT.mkTracker (delete k (CT.conns (w_conns w)))) w)) with (closed x w). naive_solver.
Qed.

(** A step that touches only connections and the trace. *)
Definition conn_step (w w' : world S) : Prop :=
  w_store w' = w_store w ∧ w_cache w' = w_cache w ∧ w_hold w' = w_hold w ∧
  ∃ acts, w_trace w' = w_trace w ++ ((λ a, (EvBridge a, (w_store w, w_cache w, w_hold w))) <$> acts).

Global Instance conn_step_refl : Reflexive conn_step.
Proof. intros w. do 3 (split; [done|]). exists []. by rewrite app_nil_r. Qed.

Global Instance conn_step_trans : Transitive conn_step.
Proof.
  intros w1 w2 w3 (Hs & Hc & Hh & a1 & H1) (Hs' & Hc' & Hh' & a2 & H2).
  split; [congruence|]. split; [congruence|]. split; [congruence|]. exists (a1 ++ a2).
  rewrite H2, H1, fmap_app, <- app_assoc. by rewrite Hs, Hc, Hh.
Qed.

Lemma CloseConns_step k w : conn_step w (CloseConns cfg k w).
Proof.
  unfold CloseConns. destruct (has_conns cfg); [|done]. simpl.
  destruct (emits_frame (EvBridge <$> (CT.CloseB <$> range_set 50 (CT.bridges_of (w_conns w) k)))
    (set_conns (CT.mkTracker (delete k (CT.conns (w_conns w)))) w)) as (Hs & Hc & Hh & Ht).
  do 3 (split; [done|]). eexists. rewrite Ht, <- list_fmap_compose. done.
Qed.

Lemma SwapConns_step k b w : conn_step w (SwapConns cfg k b w).
Proof.
  unfold SwapConns. destruct (has_conns cfg); [|done]. simpl.
  destruct (emits_frame (EvBridge <$> ((λ x, CT.SwapB x b) <$> range_set 51 (CT.bridges_of (w_conns w) k)))
    (set_conns (w_conns w) w)) as (Hs & Hc & Hh & Ht).
  do 3 (split; [done|]). eexists. rewrite Ht, <- list_fmap_compose. done.
Qed.

Lemma foldl_conn_step {A} (f : world S → A → world S) (l : list A) w :
  (∀ w x, conn_step w (f w x)) → conn_step w (foldl f w l).
Proof.
  intros Hf. revert w. induction l as [|x l IH]; intros w; simpl; [done|].
  etransitivity; [apply Hf|apply IH].
Qed.
End frames.
