(* ===== verification/Rebalancer.v ===== *)
(** * rebalancer.go: carrying out a rebalance

    [rebalance] fetches the table, asks the strategy for a plan and carries it
    out: hold the moved users, notify the old backends, delete, assign, drop
    the cached mappings, publish, notify the new backends, deal with the open
    WebSockets, release the users.  Verified against the store contract, for
    any sound strategy. *)
From stdpp Require Import base gmap strings list sorting fin_maps.
From Stdlib Require Import ZArith Lia.
From S2P Require Import Prelude Go Assignment Store RebalanceStrategy UserCache Hold ConnTracker World.
Local Open Scope Z_scope.

Module Rebalancer.

Section ops.
Context `{!MapIter} {S : Type} `{!Store S}.
Context (strategy : RebalanceStrategy) (cfg : config) (wsSwapOnRebalance : bool).
Implicit Types (w : world S) (assignments : gmap string Assignment).

(** [if a, ok := assignments[key]; ok { w = a.Weight }] *)
Definition weight_of assignments (key : string) : Z :=
  match assignments !! key with Some a => Weight a | None => 0 end.

(** The moves with a target, and the keys left to the round robin. *)
Definition route assignments (acc : gmap string BulkAssignEntry * list string) (m : Move)
    : gmap string BulkAssignEntry * list string :=
  let '(new, unrouted) := acc in
  let w := weight_of assignments (RoutingKey m) in
  if bool_decide (ToBackend m ≠ "")
  then (<[RoutingKey m := mkEntry (ToBackend m) w]> new, unrouted)
  else (new, unrouted ++ [RoutingKey m]).

(** Round robin over the active backends; [None] is an index out of range. *)
Fixpoint round_robin assignments (active : list string) (i : nat) (keys : list string)
    (new : gmap string BulkAssignEntry) : option (gmap string BulkAssignEntry) :=
  match keys with
  | [] => Some new
  | key :: keys =>
      b ← active !! (i mod length active)%nat;
      round_robin assignments active (Datatypes.S i) keys
        (<[key := mkEntry b (weight_of assignments key)]> new)
  end.

Definition new_assignments assignments (active : list string) (moves : list Move)
    : option (gmap string BulkAssignEntry) :=
  let '(new, unrouted) := foldl (route assignments) (∅, []) moves in
  if bool_decide (unrouted ≠ []) && bool_decide (active ≠ [])
  then round_robin assignments active 0 unrouted new
  else Some new.

(** One event per distinct source backend. *)
Definition publish_moves (moves : list Move) (w : world S) : world S :=
  if has_notifier cfg then
    snd (foldl (λ '(notified, w) m,
           if bool_decide (FromBackend m ∈ (notified : gset string)) then (notified, w)
           else ({[FromBackend m]} ∪ notified, publishNotification cfg (FromBackend m) w))
         (∅, w) moves)
  else w.

Definition send_all (send : string → list string → event) (site : nat)
    (groups : gmap string (list string)) (w : world S) : world S :=
  foldl (λ w '(b, ks), if has_hooks cfg then emit (send b ks) w else w) w (range site groups).

(** Step 7: the open WebSockets of a moved user. *)
Definition move_conns (assigned : gmap string string) (w : world S) (m : Move) : world S :=
  if has_conns cfg then
    match assigned !! RoutingKey m with
    | Some newBackend =>
        if wsSwapOnRebalance then SwapConns cfg (RoutingKey m) newBackend w
        else CloseConns cfg (RoutingKey m) w
    | None => CloseConns cfg (RoutingKey m) w
    end
  else w.

(** [locked] is the answer of the transition lock, [now] the clock when the
    new assignments are created; [None] is a run-time panic. *)
Definition rebalance (locked : bool) (now : Z) (activeBackends : list string) (w : world S)
    : option (world S) :=
  if negb locked then Some w
  else
    let activeBackends := sort_Strings activeBackends in
    let '((assignments, err), s) := GetAllAssignments (w_store w) in
    let w := set_store s w in
    match err with
    | Some _ => Some w
    | None =>
        moves ← @ComputeMoves strategy assignments activeBackends;
        match moves with
        | [] => Some w
        | _ =>
            let routingKeys := RoutingKey <$> moves in
            let w := MarkTransition cfg routingKeys w in
            let w := send_all EvUnassign 60
              (by_backend ((λ m, (RoutingKey m, FromBackend m)) <$> moves)) w in
            let '(_, s) := BulkDeleteAssignments routingKeys (w_store w) in
            let w := set_store s w in
            newAssignments ← new_assignments assignments activeBackends moves;
            let '((assigned, _), s) := BulkAssign now newAssignments (w_store w) in
            let w := set_store s w in
            let w := foldl (λ w k, Invalidate k w) w routingKeys in
            let w := publish_moves moves w in
            let w := send_all EvAssign 62 (by_backend (range 61 assigned)) w in
            let w := foldl (move_conns assigned) w moves in
            Some (ClearTransition cfg routingKeys w)
        end
    end.
End ops.

(** ** The entries of the new assignments *)

Section entries.
Context (m : gmap string Assignment) (active : list string) (moves : list Move).
Context (Hok : Forall (move_ok m active) moves) (Hnd : NoDup (RoutingKey <$> moves)).
Context (Hempty : "" ∉ active).

Definition planned_entries : gmap string BulkAssignEntry :=
  list_to_map ((λ mv, (RoutingKey mv, mkEntry (ToBackend mv) (weight_of m (RoutingKey mv)))) <$> moves).

(** Every move of a sound plan has a target: nothing is left to the round
    robin. *)
Lemma new_assignments_planned : new_assignments m active moves = Some planned_entries.
Proof using Hok Hnd Hempty.
  assert (Hroute : ∀ new, foldl (route m) (new, []) moves =
    (foldl (λ new mv, <[RoutingKey mv := mkEntry (ToBackend mv) (weight_of m (RoutingKey mv))]> new)
       new moves, [])).
  { clear Hnd. induction Hok as [|mv moves' (_ & Hto & _) Htl IH]; intros new; simpl; [done|].
    rewrite bool_decide_true; [by apply IH|]. intros Heq. apply Hempty. by rewrite <- Heq. }
  unfold new_assignments. rewrite Hroute. rewrite bool_decide_false by (intros Hx; by apply Hx).
  f_equal. by apply foldl_insert_list_to_map.
Qed.

Lemma planned_keys_nodup :
  NoDup ((λ mv, (RoutingKey mv, mkEntry (ToBackend mv) (weight_of m (RoutingKey mv)))) <$> moves).*1.
Proof using Hnd. by rewrite <- list_fmap_compose. Qed.

Lemma lookup_planned k e :
  planned_entries !! k = Some e ↔
  ∃ mv, mv ∈ moves ∧ k = RoutingKey mv ∧ e = mkEntry (ToBackend mv) (weight_of m k).
Proof using Hnd.
  unfold planned_entries. rewrite <- elem_of_list_to_map by apply planned_keys_nodup.
  rewrite list_elem_of_fmap. split; intros (mv & H1 & H2); exists mv; naive_solver.
Qed.

Lemma move_assigned mv : mv ∈ moves → ∃ a, m !! RoutingKey mv = Some a ∧ Backend a = FromBackend mv.
Proof using Hok. intros Hin. rewrite Forall_forall in Hok. by destruct (Hok mv Hin) as [? _]. Qed.

(** The new entries weigh what the deleted ones did. *)
Lemma planned_weight :
  total (without m (RoutingKey <$> moves)) + entries_weight planned_entries = total m.
Proof using Hok Hnd.
  unfold total. rewrite <- (msum_without _ m (RoutingKey <$> moves)) by done. f_equal.
  unfold entries_weight, planned_entries. rewrite msum_list_to_map by apply planned_keys_nodup.
  rewrite zsum_fmap. clear Hnd. induction Hok as [|mv moves' ((a & Ha & _) & _) Htl IH]; [done|].
  specialize (IH Htl). cbn [fmap list_fmap omap list_omap]. rewrite Ha. simpl in *.
  rewrite !zsum_cons, IH. simpl.
  unfold weight_of. rewrite Ha. done.
Qed.

Lemma size_planned : size planned_entries = length moves.
Proof using Hnd.
  unfold planned_entries. rewrite <- length_map_to_list, map_to_list_to_map by apply planned_keys_nodup.
  apply length_fmap.
Qed.

(** Deleting the moved keys makes every entry fresh. *)
Lemma planned_fresh :
  fresh_entries (without m (RoutingKey <$> moves)) planned_entries = planned_entries.
Proof using Hnd.
  apply map_eq. intros k. rewrite lookup_fresh_entries, lookup_without.
  destruct (planned_entries !! k) as [e|] eqn:He; [|by case_decide].
  apply lookup_planned in He as (mv & Hin & -> & _).
  rewrite (decide_True (P := RoutingKey mv ∈ _)) by (by apply list_elem_of_fmap_2).
  by rewrite decide_True.
Qed.

(** The table after the plan was carried out. *)
Definition carried_out (now : Z) : gmap string Assignment :=
  (entry_assignment now <$> planned_entries) ∪ without m (RoutingKey <$> moves).

Lemma lookup_carried_out now mv a :
  mv ∈ moves → m !! RoutingKey mv = Some a →
  carried_out now !! RoutingKey mv =
    Some (mkAssignment (ToBackend mv) now "assignment" (EffectiveWeight a)).
Proof using Hnd.
  intros Hin Ha. unfold carried_out. apply lookup_union_Some_l. rewrite lookup_fmap.
  rewrite (proj2 (lookup_planned _ _)) by eauto. unfold entry_assignment, weight_of. simpl. by rewrite Ha.
Qed.

Lemma lookup_carried_out_ne now k :
  k ∉ RoutingKey <$> moves → carried_out now !! k = m !! k.
Proof using Hnd.
  intros Hk. unfold carried_out. rewrite lookup_union_r.
  - by rewrite lookup_without, decide_False.
  - rewrite lookup_fmap. destruct (planned_entries !! k) as [e|] eqn:He; [|done].
    apply lookup_planned in He as (mv & Hin & -> & _). destruct Hk. by apply list_elem_of_fmap_2.
Qed.

Lemma load_carried_out now b : load (carried_out now) b = load (apply_moves moves m) b.
Proof using Hok Hnd.
  apply load_placement. intros k. destruct (decide (k ∈ RoutingKey <$> moves)) as [Hin|Hin].
  - apply list_elem_of_fmap in Hin as (mv & -> & Hin).
    destruct (move_assigned mv Hin) as (a & Ha & _).
    rewrite (lookup_carried_out now mv a), lookup_apply_moves, Ha by done. simpl.
    unfold placement, with_backend, EffectiveWeight. simpl. by rewrite effective_idem.
  - by rewrite lookup_carried_out_ne, lookup_apply_moves_ne by done.
Qed.
End entries.

(** ** The run *)

Section run.
Context `{!MapIter} {S : Type} `{!Store S, !BackendsSpec S, !TableLimits S, !TableSpec S}.
Context (strategy : RebalanceStrategy) (cfg : config) (wsSwap : bool).
Implicit Types (w : world S) (moves : list Move).

Definition snap w : S * UC.UserCache * Hold.HoldManager := (w_store w, w_cache w, w_hold w).

Lemma publish_moves_frame moves w :
  let w' := publish_moves cfg moves w in
  snap w' = snap w ∧ w_conns w' = w_conns w ∧
  ∃ bs, w_trace w' = w_trace w ++ ((λ b, (EvPublish b, snap w)) <$> bs) ∧ NoDup bs ∧
    (∀ b, b ∈ bs ↔ has_notifier cfg = true ∧ b ∈ FromBackend <$> moves).
Proof.
  unfold publish_moves. destruct (has_notifier cfg) eqn:Hn.
  2: { split; [done|]. split; [done|]. exists []. rewrite app_nil_r. split; [done|].
       split; [constructor|]. set_solver. }
  enough (Hgen : ∀ notified w, let w' := (foldl (λ '(notified, w) m,
      if bool_decide (FromBackend m ∈ (notified : gset string)) then (notified, w)
      else ({[FromBackend m]} ∪ notified, publishNotification cfg (FromBackend m) w))
      (notified, w) moves).2 in
    snap w' = snap w ∧ w_conns w' = w_conns w ∧
    ∃ bs, w_trace w' = w_trace w ++ ((λ b, (EvPublish b, snap w)) <$> bs) ∧ NoDup bs ∧
      (∀ b, b ∈ bs ↔ b ∈ FromBackend <$> moves ∧ b ∉ notified)).
  { destruct (Hgen ∅ w) as (? & ? & bs & Ht & Hnd & Hb). split; [done|]. split; [done|].
    exists bs. split; [done|]. split; [done|]. set_solver. }
  induction moves as [|mv moves IH]; intros notified w1; simpl.
  { split; [done|]. split; [done|]. exists []. rewrite app_nil_r. split; [done|].
    split; [constructor|]. set_solver. }
  case_bool_decide as Hin.
  - destruct (IH notified w1) as (? & ? & bs & Ht & Hnd & Hb). split; [done|]. split; [done|].
    exists bs. split; [done|]. split; [done|]. intros b. rewrite Hb, elem_of_cons.
    split; [tauto|]. intros [[->|?] ?]; tauto.
  - assert (Hp : publishNotification cfg (FromBackend mv) w1 = emit (EvPublish (FromBackend mv)) w1)
      by (unfold publishNotification; by rewrite Hn).
    destruct (IH ({[FromBackend mv]} ∪ notified) (publishNotification cfg (FromBackend mv) w1))
      as (Hs & Hc & bs & Ht & Hnd & Hb).
    rewrite Hs, Hc, Ht, Hp. split; [done|]. split; [done|]. exists (FromBackend mv :: bs).
    simpl. rewrite <- app_assoc.
    split; [done|]. split.
    + apply NoDup_cons. split; [|done]. rewrite Hb, elem_of_union, elem_of_singleton. tauto.
    + intros b. rewrite !elem_of_cons, Hb, elem_of_union, elem_of_singleton.
      destruct (decide (b = FromBackend mv)) as [->|]; tauto.
Qed.

Lemma send_all_frame send site groups w :
  let w' := send_all cfg send site groups w in
  snap w' = snap w ∧ w_conns w' = w_conns w ∧
  w_trace w' = w_trace w ++
    ((λ p, (send p.1 p.2, snap w)) <$> (if has_hooks cfg then range site groups else [])).
Proof.
  destruct (foldl_hooks cfg send (range site groups) w) as (Hs & Hc & Hh & Hn & Ht).
  simpl. unfold snap, send_all. by rewrite Hs, Hc, Hh.
Qed.

Lemma move_conns_step assigned w mv : conn_step w (move_conns cfg wsSwap assigned w mv).
Proof.
  unfold move_conns. destruct (has_conns cfg) eqn:?; [|done].
  destruct (assigned !! _); [destruct wsSwap|]; auto using SwapConns_step, CloseConns_step.
Qed.

Definition held_by (keys : list string) (h : Hold.HoldManager) : Hold.HoldManager :=
  if has_hold cfg then Hold.MarkTransition keys h else h.

Definition released (keys : list string) (h : Hold.HoldManager) : Hold.HoldManager :=
  if has_hold cfg then Hold.ClearTransition keys h else h.

(** The last steps of a rebalance: everything after the new assignments. *)
Lemma rebalance_tail moves (assigned : gmap string string) w :
  let keys := RoutingKey <$> moves in
  let w1 := foldl (λ w k, Invalidate k w) w keys in
  let w2 := publish_moves cfg moves w1 in
  let w3 := send_all cfg EvAssign 62 (by_backend (range 61 assigned)) w2 in
  let w' := ClearTransition cfg keys (foldl (move_conns cfg wsSwap assigned) w3 moves) in
  w_store w' = w_store w ∧ w_hold w' = released keys (w_hold w) ∧
  (∀ k, UC.data (w_cache w') !! k = if decide (k ∈ keys) then None else UC.data (w_cache w) !! k) ∧
  let at_end := (w_store w, w_cache w', w_hold w) in
  ∃ bs acts,
    w_trace w' = w_trace w ++ ((λ b, (EvPublish b, at_end)) <$> bs) ++
      ((λ p, (EvAssign p.1 p.2, at_end)) <$>
         (if has_hooks cfg then range 62 (by_backend (range 61 assigned)) else [])) ++
      ((λ a, (EvBridge a, at_end)) <$> acts) ∧
    NoDup bs ∧ (∀ b, b ∈ bs ↔ has_notifier cfg = true ∧ b ∈ FromBackend <$> moves).
Proof.
  intros keys w1 w2 w3 w'.
  destruct (foldl_invalidate keys w) as (Hs1 & Hh1 & _ & Ht1 & Hc1). fold w1 in Hs1, Hh1, Ht1, Hc1.
  destruct (publish_moves_frame moves w1) as (Hsn2 & _ & bs & Ht2 & Hnd & Hb). fold w2 in Hsn2, Ht2.
  destruct (send_all_frame EvAssign 62 (by_backend (range 61 assigned)) w2) as (Hsn3 & _ & Ht3).
  fold w3 in Hsn3, Ht3. unfold snap in *.
  destruct (foldl_conn_step (move_conns cfg wsSwap assigned) moves w3 (move_conns_step assigned))
    as (Hs4 & Hc4 & Hh4 & acts & Ht4).
  set (w4 := foldl (move_conns cfg wsSwap assigned) w3 moves) in *.
  assert (Hsnap : w_store w' = w_store w4 ∧ w_cache w' = w_cache w4 ∧ w_trace w' = w_trace w4 ∧
    w_hold w' = released keys (w_hold w4)).
  { unfold w', ClearTransition, released. by destruct (has_hold cfg). }
  destruct Hsnap as (-> & Hcw & -> & ->). injection Hsn3 as Hs3 Hc3 Hh3. injection Hsn2 as Hs2 Hc2 Hh2.
  assert (Hst : w_store w4 = w_store w) by congruence.
  assert (Hho : w_hold w4 = w_hold w) by congruence.
  assert (Hca : w_cache w' = w_cache w1) by congruence.
  split; [done|]. split; [by rewrite Hho|]. split; [intros k; rewrite Hca; apply Hc1|].
  exists bs, acts. split; [|done]. rewrite Ht4, Ht3, Ht2, Ht1.
  rewrite Hs3, Hc3, Hh3, Hs2, Hc2, Hh2, Hs1, Hh1, Hca, <- !app_assoc. done.
Qed.

(** A rebalance with a plan, in full: the state it ends in and what the
    outside saw. *)
Record rebalanced (now : Z) (moves : list Move) (w w' : world S) : Prop := {
  rb_live : live (w_store w');
  rb_act : act (w_store w') = act (w_store w);
  rb_tbl : tbl (w_store w') = carried_out (tbl (w_store w)) moves (stamp S now);
  rb_hold : w_hold w' = released (RoutingKey <$> moves) (held_by (RoutingKey <$> moves) (w_hold w));
  rb_cache k : UC.data (w_cache w') !! k =
    if decide (k ∈ RoutingKey <$> moves) then None else UC.data (w_cache w) !! k;
  rb_trace : ∃ s0 bs acts,
    let held := held_by (RoutingKey <$> moves) (w_hold w) in
    let before := (s0, w_cache w, held) in
    let after := (w_store w', w_cache w', held) in
    tbl s0 = tbl (w_store w) ∧
    w_trace w' = w_trace w ++
      ((λ p, (EvUnassign p.1 p.2, before)) <$> (if has_hooks cfg then
         range 60 (by_backend ((λ m, (RoutingKey m, FromBackend m)) <$> moves)) else [])) ++
      ((λ b, (EvPublish b, after)) <$> bs) ++
      ((λ p, (EvAssign p.1 p.2, after)) <$> (if has_hooks cfg then
         range 62 (by_backend (range 61 (e_Backend <$> planned_entries (tbl (w_store w)) moves)))
         else [])) ++
      ((λ a, (EvBridge a, after)) <$> acts) ∧
    NoDup bs ∧ (∀ b, b ∈ bs ↔ has_notifier cfg = true ∧ b ∈ FromBackend <$> moves)
}.

Lemma rebalance_run now active w mv moves :
  live (w_store w) → instant_ok S now → batch_ok S (size (tbl (w_store w))) →
  (∀ b, b ∈ active → target_ok S (act (w_store w)) b) →
  total (tbl (w_store w)) < two53 → "" ∉ active →
  ComputeMoves (tbl (w_store w)) (sort_Strings active) = Some (mv :: moves) →
  Forall (move_ok (tbl (w_store w)) (sort_Strings active)) (mv :: moves) →
  NoDup (RoutingKey <$> mv :: moves) →
  ∃ w', rebalance strategy cfg wsSwap true now active w = Some w' ∧
    rebalanced now (mv :: moves) w w'.
Proof.
  intros Hl Hy Hbat Htgt Htot Hempty Hplan Hok Hnd.
  rewrite <- sort_Strings_elem in Hempty. unfold rebalance. cbn [negb].
  destruct (GetAllAssignments_spec (w_store w) Hl) as (s0 & -> & Hl0 & Ha0 & Ht0).
  cbv beta iota zeta. rewrite Hplan. cbn [mbind option_bind].
  set (mvs := mv :: moves) in *. set (m := tbl (w_store w)) in *.
  set (keys := RoutingKey <$> mvs) in *.
  set (w0 := MarkTransition cfg keys (set_store s0 w)).
  assert (Hw0 : snap w0 = (s0, w_cache w, held_by keys (w_hold w)) ∧ w_trace w0 = w_trace w).
  { unfold w0, MarkTransition, held_by. by destruct (has_hold cfg). }
  destruct Hw0 as [Hsn0 Htr0].
  destruct (send_all_frame EvUnassign 60 (by_backend ((λ m, (RoutingKey m, FromBackend m)) <$> mvs)) w0)
    as (Hsn1 & _ & Htr1).
  set (w1 := send_all cfg EvUnassign 60 _ w0) in *.
  rewrite Hsn0 in Hsn1, Htr1. unfold snap in Hsn1. injection Hsn1 as Hst1 Hc1 Hh1.
  assert (Hlen : batch_ok S (length mvs)).
  { eapply batch_ok_le; [|exact Hbat]. rewrite <- (length_fmap RoutingKey mvs).
    apply length_keys_le_size; [done|]. intros k (mv' & -> & Hin)%list_elem_of_fmap.
    destruct (move_assigned m _ _ Hok mv' Hin) as (a & Ha & _). by exists a. }
  rewrite Hst1. destruct (BulkDeleteAssignments_spec keys s0 Hl0 Hnd) as (s1 & -> & Hl1 & Ha1 & Ht1);
    [unfold keys; by rewrite length_fmap|by rewrite Ht0|].
  rewrite (new_assignments_planned m (sort_Strings active) mvs) by done. cbn [mbind option_bind].
  destruct (BulkAssign_spec now (planned_entries m mvs) s1 Hl1 Hy) as (s2 & Hb & Hl2 & Ha2 & Ht2).
  { intros k e (mv' & Hin & -> & ->)%lookup_planned; [|done]. simpl. unfold weight_of.
    destruct (move_assigned m _ _ Hok mv' Hin) as (a & Ha & _). rewrite Ha.
    by apply (tbl_weight_ok (w_store w) (RoutingKey mv')). }
  { intros k e (mv' & Hin & _ & ->)%lookup_planned; [|done]. rewrite Ha1, Ha0. apply Htgt.
    rewrite Forall_forall in Hok. destruct (Hok mv' Hin) as (_ & Hto & _).
    by rewrite sort_Strings_elem in Hto. }
  { by rewrite size_planned. }
  { rewrite Ht1, Ht0. fold m. unfold keys.
    by rewrite (planned_weight m (sort_Strings active) mvs). }
  cbn [w_store set_store]. rewrite Hb, Ht1, Ht0. fold m.
  pose proof (planned_fresh m mvs Hnd) as Hfresh. fold keys in Hfresh. rewrite !Hfresh.
  eexists. split; [done|].
  destruct (rebalance_tail mvs (e_Backend <$> planned_entries m mvs) (set_store s2 (set_store s1 w1)))
    as (Hst & Hho & Hca & bs & acts & Htr & Hbs).
  fold keys in Hst, Hho, Hca, Htr.
  set (w' := ClearTransition cfg keys _) in *. cbn [w_store w_hold w_cache w_trace set_store] in *.
  rewrite Hc1, Hh1 in *. split.
  - by rewrite Hst.
  - rewrite Hst. congruence.
  - rewrite Hst, Ht2, Ht1, Ht0. fold m. by rewrite Hfresh.
  - done.
  - done.
  - exists s0, bs, acts. split; [done|]. split; [|done]. rewrite Htr, Htr1, Htr0, Hst, <- app_assoc. done.
Qed.

Context `{!SoundStrategy strategy}.

(** The run of a sound strategy, an empty plan included. *)
Lemma rebalance_sound now active w :
  live (w_store w) → instant_ok S now → batch_ok S (size (tbl (w_store w))) →
  (∀ b, b ∈ active → target_ok S (act (w_store w)) b) →
  total (tbl (w_store w)) < two53 →
  "" ∉ active → Z.of_nat (length active) < two32 →
  ∃ moves w', ComputeMoves (tbl (w_store w)) (sort_Strings active) = Some moves ∧
    Forall (move_ok (tbl (w_store w)) (sort_Strings active)) moves ∧ NoDup (RoutingKey <$> moves) ∧
    rebalance strategy cfg wsSwap true now active w = Some w' ∧
    (moves = [] ∧ (∃ s', w' = set_store s' w ∧ live s' ∧ act s' = act (w_store w) ∧
                    tbl s' = tbl (w_store w)) ∨
     rebalanced now moves w w').
Proof.
  intros Hl Hy Hbat Htgt Htot Hempty Hlen.
  destruct (ComputeMoves_sound (tbl (w_store w)) (sort_Strings active)) as (moves & Hc & Hok & Hnd).
  { by rewrite sort_Strings_elem. }
  { by rewrite sort_Strings_length. }
  exists moves. destruct moves as [|mv moves].
  - destruct (GetAllAssignments_spec (w_store w) Hl) as (s0 & Hg & Hl0 & Ha0 & Ht0).
    exists (set_store s0 w). split; [done|]. split; [done|]. split; [done|]. split; [|left; split; [done|]; by exists s0].
    unfold rebalance. simpl. by rewrite Hg, Hc.
  - destruct (rebalance_run now active w mv moves) as (w' & Hr & Hrb); try done.
    exists w'. auto 10.
Qed.

(** C13. A rebalance that gets the lock carries out the plan of its strategy
    on any store that keeps the contract: it never panics; each moved user
    ends on the target of its move with its weight kept, every other user is
    untouched, so that every backend ends with the load of the plan; no moved
    user is left in the local cache or on hold.  The table must be within what
    the store can take in one batch, and the given backends ones it can assign
    to. *)
Theorem rebalance_carries_out now active w :
  live (w_store w) → instant_ok S now → batch_ok S (size (tbl (w_store w))) →
  (∀ b, b ∈ active → target_ok S (act (w_store w)) b) →
  total (tbl (w_store w)) < two53 →
  "" ∉ active → Z.of_nat (length active) < two32 →
  ∃ moves w', ComputeMoves (tbl (w_store w)) (sort_Strings active) = Some moves ∧
    rebalance strategy cfg wsSwap true now active w = Some w' ∧
    live (w_store w') ∧ act (w_store w') = act (w_store w) ∧
    (∀ b, load (tbl (w_store w')) b = load (apply_moves moves (tbl (w_store w))) b) ∧
    (∀ mv, mv ∈ moves → ∃ a, tbl (w_store w) !! RoutingKey mv = Some a ∧
       tbl (w_store w') !! RoutingKey mv =
         Some (mkAssignment (ToBackend mv) (stamp S now) "assignment" (EffectiveWeight a)) ∧
       UC.data (w_cache w') !! RoutingKey mv = None ∧
       (has_hold cfg = true → Hold.wait_lookup (RoutingKey mv) (w_hold w') = None)) ∧
    (∀ k, k ∉ RoutingKey <$> moves → tbl (w_store w') !! k = tbl (w_store w) !! k ∧
       UC.data (w_cache w') !! k = UC.data (w_cache w) !! k).
Proof.
  intros Hl Hy Hbat Htgt Htot Hempty Hlen.
  destruct (rebalance_sound now active w) as (moves & w' & Hc & Hok & Hnd & Hr & Hcase); try done.
  exists moves, w'. split; [done|]. split; [done|].
  destruct Hcase as [(-> & s' & -> & Hl' & Ha' & Ht')|[Hl' Ha' Ht' Hh Hca _]].
  { simpl. rewrite Ht'. split; [done|]. split; [done|]. split; [done|]. split; [|done].
    by intros mv ?%not_elem_of_nil. }
  split; [done|]. split; [done|]. rewrite Ht'. split.
  { intros b. by eapply load_carried_out. }
  split.
  - intros mv Hin. destruct (move_assigned _ _ _ Hok mv Hin) as (a & Ha & _). exists a.
    split; [done|]. split; [by apply lookup_carried_out|]. split.
    + rewrite Hca. by rewrite decide_True by (by apply list_elem_of_fmap_2).
    + intros Hhold. rewrite Hh. unfold released, Hold.wait_lookup. rewrite Hhold.
      rewrite Hold.lookup_ClearTransition. by rewrite decide_True by (by apply list_elem_of_fmap_2).
  - intros k Hk. split; [by apply lookup_carried_out_ne|]. rewrite Hca. by rewrite decide_False.
Qed.

(** What a backend may rely on when it is notified in state [st]. *)
Definition notified_ok (e : event) (st : S * UC.UserCache * Hold.HoldManager) : Prop :=
  let '(s, c, h) := st in
  match e with
  | EvUnassign b ks => ∀ k, k ∈ ks →
      (∃ a, tbl s !! k = Some a ∧ Backend a = b) ∧
      (has_hold cfg = true → is_Some (Hold.wait_lookup k h))
  | EvAssign b ks => ∀ k, k ∈ ks →
      (∃ a, tbl s !! k = Some a ∧ Backend a = b) ∧ UC.data c !! k = None ∧
      (has_hold cfg = true → is_Some (Hold.wait_lookup k h))
  | EvPublish _ | EvBridge _ => True
  end.

Lemma held_marked keys h k :
  k ∈ keys → has_hold cfg = true → is_Some (Hold.wait_lookup k (held_by keys h)).
Proof.
  intros Hk Hh. unfold held_by, Hold.wait_lookup. rewrite Hh. apply Hold.lookup_MarkTransition. by left.
Qed.

Lemma elem_of_groups site (l : list (string * string)) b ks k :
  (b, ks) ∈ range site (by_backend l) → k ∈ ks → (k, b) ∈ l.
Proof.
  intros Hb%elem_of_range Hk. apply lookup_by_backend. by rewrite Hb.
Qed.

Lemma groups_complete site (l : list (string * string)) b k :
  (k, b) ∈ l → ∃ ks, (b, ks) ∈ range site (by_backend l) ∧ k ∈ ks.
Proof.
  intros Hk%lookup_by_backend. destruct (by_backend l !! b) as [ks|] eqn:Hb; simpl in Hk.
  - exists ks. by rewrite elem_of_range.
  - by apply not_elem_of_nil in Hk.
Qed.

Lemma elem_of_planned_backends m moves k b :
  NoDup (RoutingKey <$> moves) →
  (k, b) ∈ range 61 (e_Backend <$> planned_entries m moves) ↔
  ∃ mv, mv ∈ moves ∧ k = RoutingKey mv ∧ b = ToBackend mv.
Proof.
  intros Hnd. rewrite elem_of_range, lookup_fmap, fmap_Some. setoid_rewrite lookup_planned; [|done].
  naive_solver.
Qed.

Lemma unassigned_ok m moves active s c h p :
  Forall (move_ok m active) moves → tbl s = m →
  p ∈ range 60 (by_backend ((λ mv, (RoutingKey mv, FromBackend mv)) <$> moves)) →
  notified_ok (EvUnassign p.1 p.2) (s, c, held_by (RoutingKey <$> moves) h).
Proof.
  intros Hok Hs Hp k Hk. destruct p as [b ks].
  apply (elem_of_groups _ _ b ks k) in Hp; [|done].
  apply list_elem_of_fmap in Hp as (mv & Heq & Hin). simplify_eq/=.
  split; [|apply held_marked; by apply list_elem_of_fmap_2].
  rewrite Forall_forall in Hok. destruct (Hok mv Hin) as [? _]. done.
Qed.

Lemma assigned_ok m moves now s c h p :
  NoDup (RoutingKey <$> moves) → (∀ mv, mv ∈ moves → is_Some (m !! RoutingKey mv)) →
  tbl s = carried_out m moves now →
  (∀ k, k ∈ RoutingKey <$> moves → UC.data c !! k = None) →
  p ∈ range 62 (by_backend (range 61 (e_Backend <$> planned_entries m moves))) →
  notified_ok (EvAssign p.1 p.2) (s, c, held_by (RoutingKey <$> moves) h).
Proof.
  intros Hnd Hm Hs Hc Hp k Hk. destruct p as [b ks].
  apply (elem_of_groups _ _ b ks k) in Hp; [|done].
  apply elem_of_planned_backends in Hp as (mv & Hin & -> & ->); [|done].
  assert (Hkey : RoutingKey mv ∈ RoutingKey <$> moves) by (by apply list_elem_of_fmap_2).
  split; [|split; [by apply Hc|by apply held_marked]].
  destruct (Hm mv Hin) as [a Ha]. rewrite Hs, (lookup_carried_out _ _ Hnd now mv a) by done. eauto.
Qed.

(** C14. The webhook protocol of a rebalance.  A backend hears of an unassign
    while the users are still assigned to it, and of an assign once they are
    assigned to it and no longer in the local cache; requests of those users
    are on hold at both moments.  With hooks configured, every move is
    announced to its old and to its new backend, unassigns before assigns.
    The store's limits are those of the previous claim. *)
Theorem rebalance_hook_protocol now active w :
  live (w_store w) → instant_ok S now → batch_ok S (size (tbl (w_store w))) →
  (∀ b, b ∈ active → target_ok S (act (w_store w)) b) →
  total (tbl (w_store w)) < two53 →
  "" ∉ active → Z.of_nat (length active) < two32 →
  ∃ moves w' before after,
    ComputeMoves (tbl (w_store w)) (sort_Strings active) = Some moves ∧
    rebalance strategy cfg wsSwap true now active w = Some w' ∧
    w_trace w' = w_trace w ++ before ++ after ∧
    (∀ e st, (e, st) ∈ before ++ after → notified_ok e st) ∧
    (has_hooks cfg = true → ∀ mv, mv ∈ moves →
       (∃ ks st, (EvUnassign (FromBackend mv) ks, st) ∈ before ∧ RoutingKey mv ∈ ks) ∧
       (∃ ks st, (EvAssign (ToBackend mv) ks, st) ∈ after ∧ RoutingKey mv ∈ ks)).
Proof.
  intros Hl Hy Hbat Htgt Htot Hempty Hlen.
  destruct (rebalance_sound now active w) as (moves & w' & Hc & Hok & Hnd & Hr & Hcase); try done.
  exists moves, w'. destruct Hcase as [(-> & s' & -> & _)|[_ _ Ht' _ Hca (s0 & bs & acts & Hs0 & Htr & _)]].
  { exists [], []. simpl. rewrite app_nil_r. do 3 (split; [done|]).
    split; [by intros ? ? ?%not_elem_of_nil|]. by intros _ mv ?%not_elem_of_nil. }
  eexists _, _. split; [done|]. split; [done|]. split; [exact Htr|]. split.
  - intros e st. rewrite !elem_of_app, !list_elem_of_fmap.
    intros [(p & Heq & Hp)|[(b & Heq & _)|[(p & Heq & Hp)|(a & Heq & _)]]]; simplify_eq; [|done| |done].
    + destruct (has_hooks cfg); [|by apply not_elem_of_nil in Hp]. by eapply unassigned_ok.
    + destruct (has_hooks cfg); [|by apply not_elem_of_nil in Hp]. eapply assigned_ok; [done| |done| |done].
      * intros mv Hin. destruct (move_assigned _ _ _ Hok mv Hin) as (a & Ha & _). eauto.
      * intros k Hk. rewrite Hca. by rewrite decide_True.
  - intros -> mv Hin. split.
    + destruct (groups_complete 60 ((λ m, (RoutingKey m, FromBackend m)) <$> moves)
        (FromBackend mv) (RoutingKey mv)) as (ks & Hks & Hk).
      { apply list_elem_of_fmap. by exists mv. }
      eexists ks, _. split; [|done]. apply list_elem_of_fmap. by exists (FromBackend mv, ks).
    + destruct (groups_complete 62 (range 61 (e_Backend <$> planned_entries (tbl (w_store w)) moves))
        (ToBackend mv) (RoutingKey mv)) as (ks & Hks & Hk).
      { apply elem_of_planned_backends; [done|]. by exists mv. }
      eexists ks, _. split; [|done]. rewrite !elem_of_app. right. left.
      apply list_elem_of_fmap. by exists (ToBackend mv, ks).
Qed.
End run.

End Rebalancer.
