(* ===== verification/Drain.v ===== *)
(** * drain.go: draining a backend

    [drain] unassigns every user of a backend and then takes it out of the
    active set, holding the users meanwhile; [StartDrain] lets at most one
    drain of a backend run.  In assignment mode it is verified against the
    store contract. *)
From stdpp Require Import base gmap strings list fin_maps relations.
From Stdlib Require Import ZArith Lia.
From S2P Require Import Prelude Go Assignment Store UserCache Hold ConnTracker World.
Local Open Scope Z_scope.

Module Drain.

(** Where the users of a backend are recorded: the assignment table, the
    sticky keys of Redis, or (hash mode without Redis) the local cache only. *)
Inductive mode := Assignment_ | StickyRedis | LocalOnly.

(** The sticky-key operations of redis.go that drain calls. *)
Class Sticky (S : Type) : Type := {
  GetUsersForBackend : string → S → result (list string) * S;
  BulkDeleteSticky : list string → S → option error * S
}.

(** ** The transition lock *)

(** One call of [tLock.Lock]: it got the lock, or not, and then [ctx.Err()]. *)
Inductive attempt := Got | Busy (expired : bool).

Inductive acquired := Acquired | Abandoned | Waiting.

(** [for !d.tLock.Lock(ctx) { if ctx.Err() != nil { return }; sleep }] *)
Fixpoint retry (answers : list attempt) : acquired :=
  match answers with
  | [] => Waiting
  | Got :: _ => Acquired
  | Busy true :: _ => Abandoned
  | Busy false :: answers => retry answers
  end.

Definition acquire (answers : list attempt) : acquired :=
  match answers with
  | [] => Waiting
  | Got :: _ => Acquired
  | Busy _ :: answers => retry answers
  end.

Section ops.
Context `{!MapIter} {S : Type} `{!Store S, !Sticky S}.
Context (cfg : config) (routingMode : mode).
Implicit Types (w : world S).

Definition users_of (now : Z) (b : string) w : result (list string) * world S :=
  match routingMode with
  | Assignment_ => let '(r, s) := GetBackendUsers b (w_store w) in (r, set_store s w)
  | StickyRedis => let '(r, s) := GetUsersForBackend b (w_store w) in (r, set_store s w)
  | LocalOnly => ((UC.UsersForBackend now b (w_cache w), None), w)
  end.

(** Bulk delete assignments/sticky keys; errors are logged. *)
Definition delete_users (users : list string) w : world S :=
  match routingMode with
  | Assignment_ => let '(_, s) := BulkDeleteAssignments users (w_store w) in set_store s w
  | StickyRedis => let '(_, s) := BulkDeleteSticky users (w_store w) in set_store s w
  | LocalOnly => w
  end.

(** Invalidate local cache + close WebSocket connections. *)
Definition evict_user w (u : string) : world S := CloseConns cfg u (Invalidate u w).

Definition unassign_users (b : string) (users : list string) w : world S :=
  foldl evict_user (delete_users users (SendUnassign cfg b users w)) users.

Definition remove_backend (b : string) w : world S :=
  let '(_, s) := RemoveBackend b (w_store w) in set_store s w.

(** The body of [drain] once it has the lock. *)
Definition drain_locked (now : Z) (b : string) w : world S :=
  let '((users, err), w) := users_of now b w in
  match err with
  | Some _ => w
  | None =>
      match users with
      | [] => remove_backend b (publishNotification cfg b w)
      | _ =>
          let w := MarkTransition cfg users w in
          let w := unassign_users b users w in
          let w := remove_backend b (publishNotification cfg b w) in
          ClearTransition cfg users w
      end
  end.

(** [None]: still waiting for the lock. *)
Definition drain (answers : list attempt) (now : Z) (b : string) w : option (world S) :=
  match acquire answers with
  | Waiting => None
  | Abandoned => Some w
  | Acquired => Some (drain_locked now b w)
  end.
End ops.

(** ** Evicting users *)

Section evict.
Context `{!MapIter} {S : Type} (cfg : config).
Implicit Types (w : world S).

Lemma foldl_evict users w :
  let w' := foldl (evict_user cfg) w users in
  w_store w' = w_store w ∧ w_hold w' = w_hold w ∧
  (∀ k, UC.data (w_cache w') !! k = if decide (k ∈ users) then None else UC.data (w_cache w) !! k) ∧
  (∀ k, CT.bridges_of (w_conns w') k =
     if has_conns cfg && bool_decide (k ∈ users) then ∅ else CT.bridges_of (w_conns w) k) ∧
  ∃ evs, w_trace w' = w_trace w ++ evs ∧ ∀ e st, (e, st) ∈ evs → ∃ a, e = EvBridge a.
Proof.
  revert w. induction users as [|u users IH]; intros w; simpl.
  { do 3 (split; [done|]). split; [by destruct (has_conns cfg)|]. exists [].
    rewrite app_nil_r. split; [done|]. by intros ? ? ?%not_elem_of_nil. }
  destruct (IH (evict_user cfg w u)) as (Hs & Hh & Hc & Hb & evs & Ht & Hev).
  destruct (CloseConns_step cfg u (Invalidate u w)) as (Hs1 & Hc1 & Hh1 & acts & Ht1).
  fold (evict_user cfg w u) in Hs1, Hc1, Hh1, Ht1.
  split; [by rewrite Hs, Hs1|]. split; [by rewrite Hh, Hh1|]. split; [|split].
  - intros k. rewrite Hc, Hc1. unfold Invalidate, UC.Invalidate. simpl. rewrite lookup_delete.
    destruct (decide (k ∈ users)); [by rewrite decide_True by set_solver|].
    destruct (decide (u = k)); [by rewrite decide_True by set_solver|].
    by rewrite decide_False by set_solver.
  - intros k. rewrite Hb. unfold evict_user at 1. rewrite bridges_CloseConns. destruct (has_conns cfg); simpl; [|done].
    destruct (decide (u = k)) as [->|Hne].
    + rewrite (bool_decide_true (k ∈ k :: users)) by set_solver. rewrite (bool_decide_true (k = k)) by done.
      by destruct (bool_decide _).
    + rewrite (bool_decide_false (u = k)) by done.
      rewrite (bool_decide_ext (k ∈ u :: users) (k ∈ users)); [done|]. set_solver.
  - eexists. rewrite Ht, Ht1, <- app_assoc. split; [done|]. intros e st.
    rewrite elem_of_app, list_elem_of_fmap. intros [(a & Heq & _)|Hin]; [|by eapply Hev].
    exists a. by injection Heq.
Qed.

(** The bridges that an eviction closes. *)
Lemma closed_evict x users w :
  closed x (foldl (evict_user cfg) w users) ↔
  closed x w ∨ has_conns cfg = true ∧ ∃ k, k ∈ users ∧ x ∈ CT.bridges_of (w_conns w) k.
Proof.
  revert w. induction users as [|u users IH]; intros w; simpl.
  { split; [by left|]. intros [?|(_ & k & ?%not_elem_of_nil & _)]; done. }
  rewrite IH. unfold evict_user. rewrite closed_CloseConns. change (closed x (Invalidate u w)) with (closed x w).
  setoid_rewrite bridges_CloseConns. simpl. destruct (has_conns cfg); simpl; [|naive_solver].
  setoid_rewrite elem_of_cons. split.
  - intros [[?|[_ ?]]|(_ & k & Hk & Hx)]; [by left|right; eauto|]. right. split; [done|].
    destruct (bool_decide (u = k)); [set_solver|eauto].
  - intros [?|(_ & k & [->|Hk] & Hx)]; [auto..|]. destruct (decide (u = k)) as [->|Hne]; [auto|].
    right. split; [done|]. exists k. by rewrite bool_decide_false.
Qed.
End evict.

(** ** Draining in assignment mode *)

Section assignment.
Context `{!MapIter} {S : Type} `{!Store S, !Sticky S, !BackendsSpec S, !TableLimits S, !TableSpec S}.
Context (cfg : config).
Implicit Types (w : world S).

(** The users the scan of the table returned. *)
Definition scanned (b : string) (s : S) : list string := (GetBackendUsers b s).1.1.

Lemma publish_frame b w :
  let w' := publishNotification cfg b w in
  w_store w' = w_store w ∧ w_cache w' = w_cache w ∧ w_hold w' = w_hold w ∧ w_conns w' = w_conns w ∧
  (∀ x, closed x w' ↔ closed x w).
Proof. unfold publishNotification. destruct (has_notifier cfg); [|done]. do 4 (split; [done|]). intros x. rewrite closed_emit. naive_solver. Qed.

(** The last two steps: publish and leave the active set. *)
Lemma remove_backend_run b w :
  live (w_store w) →
  let w' := remove_backend b (publishNotification cfg b w) in
  live (w_store w') ∧ act (w_store w') = act (w_store w) ∖ {[b]} ∧
  tbl (w_store w') = tbl (w_store w) ∧ w_cache w' = w_cache w ∧ w_hold w' = w_hold w ∧
  w_conns w' = w_conns w ∧ (∀ x, closed x w' ↔ closed x w).
Proof.
  intros Hl. destruct (publish_frame b w) as (Hs & Hc & Hh & Hn & Hx).
  destruct (RemoveBackend_spec b (w_store w) Hl) as (s & Hr & Hl' & Ha & Ht).
  unfold remove_backend. rewrite Hs, Hr. simpl. rewrite Hc, Hh, Hn. do 6 (split; [done|]). exact Hx.
Qed.

(** Unassigning the users found: hook, delete, evict. *)
Lemma unassign_users_run b users w :
  live (w_store w) → total (tbl (w_store w)) < two53 → NoDup users → batch_ok S (length users) →
  let w' := unassign_users cfg Assignment_ b users w in
  live (w_store w') ∧ act (w_store w') = act (w_store w) ∧
  tbl (w_store w') = without (tbl (w_store w)) users ∧ w_hold w' = w_hold w ∧
  (∀ k, UC.data (w_cache w') !! k = if decide (k ∈ users) then None else UC.data (w_cache w) !! k) ∧
  (∀ k, CT.bridges_of (w_conns w') k =
     if has_conns cfg && bool_decide (k ∈ users) then ∅ else CT.bridges_of (w_conns w) k) ∧
  (∀ x, closed x w' ↔
     closed x w ∨ has_conns cfg = true ∧ ∃ k, k ∈ users ∧ x ∈ CT.bridges_of (w_conns w) k).
Proof.
  intros Hl Htot Hnd Hbat. unfold unassign_users.
  assert (Hsend : w_store (SendUnassign cfg b users w) = w_store w ∧
    w_cache (SendUnassign cfg b users w) = w_cache w ∧ w_hold (SendUnassign cfg b users w) = w_hold w ∧
    w_conns (SendUnassign cfg b users w) = w_conns w ∧
    ∀ x, closed x (SendUnassign cfg b users w) ↔ closed x w).
  { unfold SendUnassign. destruct (has_hooks cfg); [|done]. do 4 (split; [done|]). intros x. rewrite closed_emit. naive_solver. }
  destruct Hsend as (Hs & Hc & Hh & Hn & Hx). unfold delete_users. rewrite Hs.
  destruct (BulkDeleteAssignments_spec users (w_store w) Hl Hnd Hbat Htot) as (s1 & -> & Hl1 & Ha1 & Ht1).
  destruct (foldl_evict cfg users (set_store s1 (SendUnassign cfg b users w)))
    as (Hs2 & Hh2 & Hc2 & Hb2 & _).
  simpl in *. rewrite Hs2, Hh2, Hh. do 4 (split; [done|]).
  split; [intros k; by rewrite Hc2, Hc|]. split; [intros k; by rewrite Hb2, Hn|].
  intros x. rewrite closed_evict. simpl. rewrite Hn, <- Hx. done.
Qed.

(** The whole drain, on the users the scan found. *)
Lemma drain_run now b w :
  live (w_store w) → batch_ok S (size (tbl (w_store w))) → total (tbl (w_store w)) < two53 →
  NoDup (scanned b (w_store w)) →
  let w' := drain_locked cfg Assignment_ now b w in
  ∃ users, (∀ k, k ∈ users ↔ ∃ a, tbl (w_store w) !! k = Some a ∧ Backend a = b) ∧
    live (w_store w') ∧ act (w_store w') = act (w_store w) ∖ {[b]} ∧
    tbl (w_store w') = without (tbl (w_store w)) users ∧
    (∀ x, closed x w' ↔
       closed x w ∨ has_conns cfg = true ∧ ∃ k, k ∈ users ∧ x ∈ CT.bridges_of (w_conns w) k) ∧
    ∀ k, k ∈ users →
      UC.data (w_cache w') !! k = None ∧
      (has_conns cfg = true → CT.bridges_of (w_conns w') k = ∅) ∧
      (has_hold cfg = true → Hold.wait_lookup k (w_hold w') = None).
Proof.
  intros Hl Hbat Htot Hnd. unfold drain_locked, users_of, scanned in *.
  destruct (GetBackendUsers_spec b (w_store w) Hl) as (users & s0 & Hg & Hl0 & Ha0 & Ht0 & Hu).
  rewrite Hg in *. simpl in Hnd. exists users. split; [done|]. rewrite <- Ha0, <- Ht0 in *.
  destruct users as [|u us].
  { destruct (remove_backend_run b (set_store s0 w) Hl0) as (Hl' & Ha' & Ht' & _ & _ & _ & Hx').
    cbv beta iota. rewrite Ha', Ht'. split; [done|]. split; [done|].
    split; [by rewrite without_nil|]. split; [|by intros k ?%not_elem_of_nil]. intros x. rewrite Hx'.
    split; [by left|]. intros [?|(_ & k & ?%not_elem_of_nil & _)]; done. }
  set (users := u :: us) in *. cbv beta iota zeta.
  set (w1 := MarkTransition cfg users (set_store s0 w)).
  assert (Hs1 : w_store w1 = s0) by (unfold w1, MarkTransition; by destruct (has_hold cfg)).
  destruct (unassign_users_run b users w1) as (Hl2 & Ha2 & Ht2 & _ & Hc2 & Hb2 & Hx2);
    [by rewrite Hs1|by rewrite Hs1|done| |].
  { eapply batch_ok_le, Hbat. by apply (length_users_le_size b). }
  set (w2 := unassign_users cfg Assignment_ b users w1) in *.
  destruct (remove_backend_run b w2 Hl2) as (Hl3 & Ha3 & Ht3 & Hc3 & Hh3 & Hn3 & Hx3).
  set (w3 := remove_backend b (publishNotification cfg b w2)) in *.
  assert (Hcl : w_store (ClearTransition cfg users w3) = w_store w3 ∧
    w_cache (ClearTransition cfg users w3) = w_cache w3 ∧
    w_conns (ClearTransition cfg users w3) = w_conns w3 ∧
    ∀ x, closed x (ClearTransition cfg users w3) ↔ closed x w3)
    by (unfold ClearTransition; by destruct (has_hold cfg)).
  assert (Hw1 : w_conns w1 = w_conns w ∧ ∀ x, closed x w1 ↔ closed x w)
    by (unfold w1, MarkTransition; by destruct (has_hold cfg)).
  destruct Hw1 as [Hn1 Hx1]. destruct Hcl as (-> & -> & -> & Hxc).
  rewrite Ha3, Ha2, Ht3, Ht2, Hs1. do 3 (split; [done|]).
  split; [intros x; by rewrite Hxc, Hx3, Hx2, Hx1, Hn1|]. intros k Hk. split; [|split].
  - rewrite Hc3, Hc2. by rewrite decide_True.
  - intros Hconns. rewrite Hn3, Hb2, Hconns. simpl. by rewrite bool_decide_true.
  - intros Hhold. unfold ClearTransition, Hold.wait_lookup. rewrite Hhold.
    change (Hold.holds (Hold.ClearTransition users (w_hold w3)) !! k = None).
    by rewrite Hold.lookup_ClearTransition, decide_True.
Qed.

(** C15. A drain in assignment mode that gets the lock: afterwards the backend
    is out of the active set and no user is assigned to it; the users it had
    are out of the local cache and not on hold, every WebSocket bridge the
    tracker had for them was told to close and is tracked no more, and no other
    bridge was; every other assignment is untouched.  The store answers, its
    weights stay below 2^53, the scan of the table must not have returned a key
    twice, and the users fit in one batch of the store. *)
Theorem drain_evacuates answers now b w :
  live (w_store w) → batch_ok S (size (tbl (w_store w))) → total (tbl (w_store w)) < two53 →
  acquire answers = Acquired →
  NoDup (scanned b (w_store w)) →
  ∃ w', drain cfg Assignment_ answers now b w = Some w' ∧ live (w_store w') ∧
    act (w_store w') = act (w_store w) ∖ {[b]} ∧ load (tbl (w_store w')) b = 0 ∧
    (∀ x, closed x w' ↔
       closed x w ∨ has_conns cfg = true ∧
       ∃ k a, tbl (w_store w) !! k = Some a ∧ Backend a = b ∧ x ∈ CT.bridges_of (w_conns w) k) ∧
    ∀ k, match tbl (w_store w) !! k with
         | Some a =>
             if decide (Backend a = b) then
               tbl (w_store w') !! k = None ∧ UC.data (w_cache w') !! k = None ∧
               (has_conns cfg = true → CT.bridges_of (w_conns w') k = ∅) ∧
               (has_hold cfg = true → Hold.wait_lookup k (w_hold w') = None)
             else tbl (w_store w') !! k = Some a
         | None => tbl (w_store w') !! k = None
         end.
Proof.
  intros Hl Hbat Htot Hacq Hnd. unfold drain. rewrite Hacq. eexists. split; [done|].
  destruct (drain_run now b w Hl Hbat Htot Hnd) as (users & Hu & Hl' & Ha' & Ht' & Hx & Hgone).
  split; [done|]. split; [done|].
  assert (Hkey : ∀ k, tbl (w_store (drain_locked cfg Assignment_ now b w)) !! k =
    match tbl (w_store w) !! k with
    | Some a => if decide (Backend a = b) then None else Some a
    | None => None
    end).
  { intros k. rewrite Ht'. by apply lookup_without_users. }
  split.
  - apply zsum_zero. intros [k a] Hin%elem_of_map_to_list. simpl. rewrite Hkey in Hin.
    unfold weight_on. destruct (tbl (w_store w) !! k); [|done]. case_decide; [done|].
    simplify_eq. by rewrite decide_False.
  - split; [intros x; rewrite Hx; setoid_rewrite Hu; naive_solver|]. intros k. rewrite Hkey. destruct (tbl (w_store w) !! k) as [a|] eqn:Ha; [|done].
    case_decide; [|done]. split; [done|]. apply Hgone, Hu. eauto.
Qed.
End assignment.

(** ** At most one drain of a backend *)

(** [draining], the goroutines StartDrain launched, and the backends whose drain
    context was cancelled. *)
Record DrainManager := mkDrain {
  draining : gset string;
  running : list string;
  cancelled : gset string
}.

Definition NewDrainManager : DrainManager := mkDrain ∅ [] ∅.

Definition IsDraining (b : string) (d : DrainManager) : bool := bool_decide (b ∈ draining d).

Definition DrainingBackends `{!MapIter} (d : DrainManager) : list string := range_set 95 (draining d).

(** A new drain starts with a context of its own. *)
Definition StartDrain (b : string) (d : DrainManager) : DrainManager :=
  if bool_decide (b ∈ draining d) then d
  else mkDrain ({[b]} ∪ draining d) (b :: running d) (cancelled d).

Definition CancelDrain (b : string) (d : DrainManager) : DrainManager :=
  if bool_decide (b ∈ draining d) then mkDrain (draining d) (running d) ({[b]} ∪ cancelled d) else d.

(** The goroutine of backend [b] ends, and its context with it. *)
Definition finish (b : string) (d : DrainManager) : DrainManager :=
  mkDrain (draining d ∖ {[b]}) (filter (λ x, x ≠ b) (running d)) (cancelled d ∖ {[b]}).

Inductive step : DrainManager → DrainManager → Prop :=
  | step_start b d : step d (StartDrain b d)
  | step_cancel b d : step d (CancelDrain b d)
  | step_finish b d : b ∈ running d → step d (finish b d).

Record drains_inv (d : DrainManager) : Prop := {
  drains_nodup : NoDup (running d);
  drains_listed : ∀ b, b ∈ draining d ↔ b ∈ running d;
  drains_cancelled : cancelled d ⊆ draining d
}.

Lemma drains_step d d' : step d d' → drains_inv d → drains_inv d'.
Proof.
  intros Hstep [Hnd Hd Hc]. destruct Hstep as [b d|b d|b d Hb]; unfold StartDrain, CancelDrain, finish.
  - case_bool_decide as Hin; [done|]. split; simpl; [|set_solver|set_solver].
    apply NoDup_cons. by rewrite <- Hd.
  - case_bool_decide as Hin; [|done]. split; simpl; [done|done|set_solver].
  - split; simpl; [by apply NoDup_filter| |set_solver]. intros b'.
    rewrite elem_of_difference, elem_of_singleton, list_elem_of_filter, Hd. tauto.
Qed.

(** Whatever the order of StartDrain and CancelDrain calls and of the
    drains' endings, no backend is ever drained by two goroutines at once,
    [IsDraining] and [DrainingBackends] report exactly the backends with a
    running drain, and a drain that starts is not cancelled yet: a cancellation
    hits only the drain that was running when it was asked for. *)
Theorem one_drain_per_backend `{!MapIter} d :
  rtc step NewDrainManager d →
  NoDup (running d) ∧ (∀ b, IsDraining b d = true ↔ b ∈ running d) ∧
  (∀ b, b ∈ DrainingBackends d ↔ b ∈ running d) ∧
  (∀ b, IsDraining b d = false → b ∉ cancelled (StartDrain b d)).
Proof.
  intros Hd. assert (Hinv : drains_inv d).
  { revert d Hd. apply rtc_ind_r; [split; [constructor|set_solver|set_solver]|]. intros; eauto using drains_step. }
  destruct Hinv as [Hnd Hl Hc]. unfold IsDraining, StartDrain. split; [done|]. split; [|split].
  - intros b. by rewrite bool_decide_eq_true.
  - intros b. unfold DrainingBackends. by rewrite elem_of_range_set.
  - intros b Hb. rewrite Hb. apply bool_decide_eq_false in Hb. set_solver.
Qed.

End Drain.
