(* ===== verification/Discovery.v ===== *)
(** * discovery.go: pre-assigning discovered accounts

    One reconciliation of AccountDiscovery: fetch the accounts, drop their
    stale assignments, spread the unassigned ones over the active backends in
    round robin.  The account source is outside: what it returned is an
    argument.  Verified against the store contract. *)
From stdpp Require Import base gmap strings list sorting fin_maps.
From Stdlib Require Import ZArith Lia.
From S2P Require Import Prelude Go Assignment Store UserCache Hold ConnTracker World.
Local Open Scope Z_scope.

Module Discovery.

Record DiscoveredAccount := mkAccount { ID : string; acct_weight : Z }.

Section ops.
Context `{!MapIter} {S : Type} `{!Store S}.
Context (cfg : config).
Implicit Types (w : world S).

(** The accounts to assign, and the keys of the stale assignments. *)
Definition classify (current : gmap string Assignment) (activeSet : gset string)
    (accounts : list DiscoveredAccount) : list DiscoveredAccount * list string :=
  foldl (λ '(unassigned, staleKeys) acct,
    match current !! ID acct with
    | None => (unassigned ++ [acct], staleKeys)
    | Some assignment =>
        if bool_decide (Backend assignment ∈ activeSet) then (unassigned, staleKeys)
        else (unassigned ++ [acct], staleKeys ++ [ID acct])
    end) ([], []) accounts.

(** [backends[i%len(backends)]]; [None] is an index out of range. *)
Fixpoint spread (backends : list string) (i : nat) (unassigned : list DiscoveredAccount)
    (assignments : gmap string BulkAssignEntry) : option (gmap string BulkAssignEntry) :=
  match unassigned with
  | [] => Some assignments
  | acct :: unassigned =>
      b ← backends !! (i mod length backends)%nat;
      spread backends (Datatypes.S i) unassigned
        (<[ID acct := mkEntry b (acct_weight acct)]> assignments)
  end.

Definition reconcile (now : Z) (fetched : result (list DiscoveredAccount)) (w : world S)
    : option (world S) :=
  match fetched with
  | (_, Some _) => Some w
  | (accounts, None) =>
      let '((current, err), s) := GetAllAssignments (w_store w) in
      let w := set_store s w in
      match err with
      | Some _ => Some w
      | None =>
          let '((backends, err), s) := ActiveBackends (w_store w) in
          let w := set_store s w in
          if bool_decide (err ≠ None) || bool_decide (backends = []) then Some w
          else
            let backends := sort_Strings backends in
            let activeSet := list_to_set backends in
            let '(unassigned, staleKeys) := classify current activeSet accounts in
            let w := if bool_decide (staleKeys = []) then w
                     else let '(_, s) := BulkDeleteAssignments staleKeys (w_store w) in set_store s w in
            if bool_decide (unassigned = []) then Some w
            else
              assignments ← spread backends 0 unassigned ∅;
              let '((assigned, _), s) := BulkAssign now assignments (w_store w) in
              let w := set_store s w in
              Some (foldl (λ w '(b, ks), SendAssign cfg b ks w) w
                      (range 71 (by_backend (range 70 assigned))))
      end
  end.
End ops.

(** ** The pieces of a reconciliation *)

Section pieces.
Context (current : gmap string Assignment) (active : gset string).

Definition needs (acct : DiscoveredAccount) : Prop :=
  ∀ a, current !! ID acct = Some a → Backend a ∉ active.

Definition stale (acct : DiscoveredAccount) : Prop :=
  ∃ a, current !! ID acct = Some a ∧ Backend a ∉ active.

#[local] Instance needs_dec acct : Decision (needs acct).
Proof.
  unfold needs. destruct (current !! ID acct) as [a|] eqn:Ha.
  - destruct (decide (Backend a ∈ active)); [right|left]; naive_solver.
  - left. by intros a ?.
Defined.

#[local] Instance stale_dec acct : Decision (stale acct).
Proof.
  unfold stale. destruct (current !! ID acct) as [a|] eqn:Ha.
  - destruct (decide (Backend a ∈ active)); [right|left]; naive_solver.
  - right. by intros (? & ? & _).
Defined.

Lemma classify_filter accounts :
  classify current active accounts = (filter needs accounts, ID <$> filter stale accounts).
Proof.
  unfold classify.
  enough (Hgen : ∀ un st, foldl (λ '(unassigned, staleKeys) acct,
    match current !! ID acct with
    | None => (unassigned ++ [acct], staleKeys)
    | Some assignment =>
        if bool_decide (Backend assignment ∈ active) then (unassigned, staleKeys)
        else (unassigned ++ [acct], staleKeys ++ [ID acct])
    end) (un, st) accounts = (un ++ filter needs accounts, st ++ (ID <$> filter stale accounts))).
  { apply Hgen. }
  induction accounts as [|acct accounts IH]; intros un st; simpl; [by rewrite !app_nil_r|].
  rewrite !filter_cons. destruct (current !! ID acct) as [a|] eqn:Ha.
  - assert (Hn : needs acct ↔ Backend a ∉ active) by (unfold needs; naive_solver).
    assert (Hs : stale acct ↔ Backend a ∉ active) by (unfold stale; naive_solver).
    case_bool_decide as Hb; rewrite IH.
    + rewrite (decide_False (P := needs acct)), (decide_False (P := stale acct)) by tauto. done.
    + rewrite (decide_True (P := needs acct)), (decide_True (P := stale acct)) by tauto.
      simpl. by rewrite <- !app_assoc.
  - rewrite IH, (decide_True (P := needs acct)), (decide_False (P := stale acct)).
    + by rewrite <- !app_assoc.
    + by intros (? & ? & _); simplify_eq.
    + intros a' Ha'. by simplify_eq.
Qed.
End pieces.

(** Position [i] of the round robin goes to [backends[i % n]]. *)
Definition slot (backends : list string) (p : nat * DiscoveredAccount) : string * BulkAssignEntry :=
  (ID p.2, mkEntry (default "" (backends !! (p.1 mod length backends)%nat)) (acct_weight p.2)).

Lemma slot_keys backends (l : list DiscoveredAccount) :
  (λ p, (slot backends p).1) <$> imap pair l = ID <$> l.
Proof.
  assert (Hgen : ∀ (l : list DiscoveredAccount) (f : nat → DiscoveredAccount → string),
    (∀ j x, f j x = ID x) → imap f l = ID <$> l).
  { induction l0 as [|x l0 IH]; intros f Hf; [done|]. simpl. rewrite Hf. f_equal.
    apply IH. intros. apply Hf. }
  rewrite fmap_imap. apply Hgen. done.
Qed.

Lemma spread_slots backends unassigned :
  backends ≠ [] → NoDup (ID <$> unassigned) →
  spread backends 0 unassigned ∅ = Some (list_to_map (slot backends <$> imap pair unassigned)).
Proof.
  intros Hne Hnd.
  assert (Hgen : ∀ l i m, spread backends i l m =
    Some (foldl (λ m p, <[(slot backends p).1 := (slot backends p).2]> m) m (imap (λ j, pair (i + j)%nat) l))).
  { induction l as [|acct l IH]; intros i m; [done|]. cbn [spread imap foldl].
    destruct (lookup_lt_is_Some_2 backends (i mod length backends)%nat) as [b Hb].
    { apply Nat.mod_upper_bound. by destruct backends. }
    rewrite Hb. cbn [mbind option_bind]. rewrite IH.
    assert (Hslot : slot backends ((i + 0)%nat, acct) = (ID acct, mkEntry b (acct_weight acct))).
    { unfold slot. simpl. by rewrite Nat.add_0_r, Hb. }
    rewrite Hslot. do 2 f_equal. apply imap_ext. intros j x _. unfold compose. f_equal. lia. }
  rewrite Hgen. f_equal. simpl.
  rewrite (foldl_insert_list_to_map (λ p, (slot backends p).1) (λ p, (slot backends p).2)).
  - done.
  - by rewrite slot_keys.
Qed.

(** ** The reconciliation *)

Section theorem.
Context `{!MapIter} {S : Type} `{!Store S, !BackendsSpec S, !TableLimits S, !TableSpec S}.
Context (cfg : config).
Implicit Types (w : world S).

(** The entries of the unassigned accounts. *)
Definition new_entries (m : gmap string Assignment) (active : gset string) (backends : list string)
    (accounts : list DiscoveredAccount) : gmap string BulkAssignEntry :=
  list_to_map (slot backends <$> imap pair (classify m active accounts).1).

Lemma lookup_new_entries m active backends accounts k e :
  NoDup (ID <$> accounts) → backends ≠ [] →
  new_entries m active backends accounts !! k = Some e →
  ∃ acct, acct ∈ accounts ∧ needs m active acct ∧ k = ID acct ∧ e_Weight e = acct_weight acct ∧
    e_Backend e ∈ backends.
Proof.
  intros Hnd Hne. unfold new_entries. intros Hk%elem_of_list_to_map_2.
  apply list_elem_of_fmap in Hk as ([i acct] & Heq & Hin). rewrite classify_filter in Hin. simpl in Hin.
  apply elem_of_lookup_imap_1 in Hin as (j & x & Hjx & Hj). simplify_eq.
  apply list_elem_of_lookup_2, list_elem_of_filter in Hj as [Hn Hin].
  unfold slot in Heq. simpl in Heq. simplify_eq. exists x. split; [done|]. split; [done|].
  split; [done|]. split; [done|]. simpl.
  destruct (lookup_lt_is_Some_2 backends (j mod length backends)%nat) as [b Hb].
  { apply Nat.mod_upper_bound. by destruct backends. }
  rewrite Hb. simpl. by apply list_elem_of_lookup_2 in Hb.
Qed.

Lemma new_entries_complete m active backends accounts acct :
  acct ∈ accounts → needs m active acct → is_Some (new_entries m active backends accounts !! ID acct).
Proof.
  intros Hin Hn. unfold new_entries. rewrite classify_filter. simpl.
  destruct (list_to_map _ !! ID acct) as [e|] eqn:He; [by eexists|].
  apply not_elem_of_list_to_map in He. destruct He.
  rewrite <- list_fmap_compose. unfold compose. rewrite slot_keys. apply list_elem_of_fmap_2.
  by apply list_elem_of_filter.
Qed.

Lemma NoDup_classify m active accounts :
  NoDup (ID <$> accounts) →
  NoDup (ID <$> (classify m active accounts).1) ∧ NoDup (classify m active accounts).2.
Proof.
  intros Hnd. rewrite classify_filter. simpl.
  split; by apply NoDup_fmap_filter.
Qed.

Lemma new_entries_weight m active backends accounts :
  NoDup (ID <$> accounts) →
  entries_weight (new_entries m active backends accounts)
  ≤ zsum (λ acct, effective (acct_weight acct)) accounts.
Proof.
  intros Hnd. destruct (NoDup_classify m active accounts Hnd) as [Hnd' _].
  unfold entries_weight, new_entries. rewrite msum_list_to_map.
  - rewrite zsum_fmap. transitivity (zsum (λ acct, effective (acct_weight acct)) (classify m active accounts).1).
    + apply Z.eq_le_incl. generalize (classify m active accounts).1 as l. clear.
      assert (Hgen : ∀ l (f : nat → nat),
        zsum (λ x, effective (e_Weight (slot backends x).2)) (imap (λ i, pair (f i)) l)
        = zsum (λ acct, effective (acct_weight acct)) l).
      { induction l as [|x l IH]; intros f; [done|]. cbn [imap]. rewrite !zsum_cons. f_equal. apply (IH (f ∘ Datatypes.S)). }
      intros l. apply (Hgen l id).
    + rewrite classify_filter. apply zsum_filter_le. intros acct _. pose proof (effective_pos (acct_weight acct)). lia.
  - rewrite <- list_fmap_compose. unfold compose. by rewrite slot_keys.
Qed.

Lemma length_classify m active accounts :
  (length (classify m active accounts).1 ≤ length accounts)%nat ∧
  (length (classify m active accounts).2 ≤ length accounts)%nat.
Proof. rewrite classify_filter. simpl. rewrite length_fmap. split; apply length_filter. Qed.

Lemma size_new_entries m active backends accounts :
  (size (new_entries m active backends accounts) ≤ length accounts)%nat.
Proof.
  etrans; [|apply (proj1 (length_classify m active accounts))]. unfold new_entries.
  etrans; [apply size_list_to_map_le|]. rewrite length_fmap, length_imap. done.
Qed.

(** The state after the stale assignments are gone. *)
Lemma drop_stale keys w :
  live (w_store w) → batch_ok S (length keys) → total (tbl (w_store w)) < two53 → NoDup keys →
  let w' := if bool_decide (keys = []) then w
            else let '(_, s) := BulkDeleteAssignments keys (w_store w) in set_store s w in
  live (w_store w') ∧ act (w_store w') = act (w_store w) ∧
  tbl (w_store w') = without (tbl (w_store w)) keys.
Proof.
  intros Hl Hbat Htot Hnd. case_bool_decide as Hk; [subst; by rewrite without_nil|].
  destruct (BulkDeleteAssignments_spec keys (w_store w) Hl Hnd Hbat Htot) as (s & -> & ?). done.
Qed.

(** The table a reconciliation leaves. *)
Definition reconciled (now : Z) (m : gmap string Assignment) (active : gset string)
    (backends : list string) (accounts : list DiscoveredAccount) : gmap string Assignment :=
  let m1 := without m (classify m active accounts).2 in
  (entry_assignment now <$> fresh_entries m1 (new_entries m active backends accounts)) ∪ m1.

(** The sorted list of active backends. *)
Lemma active_list s :
  live s → act s ≠ ∅ →
  ∃ l s', ActiveBackends s = ((l, None), s') ∧ l ≠ [] ∧ sort_Strings l ≡ₚ elements (act s) ∧
    list_to_set (sort_Strings l) = act s ∧ live s' ∧ act s' = act s ∧ tbl s' = tbl s.
Proof.
  intros Hl Hact. destruct (ActiveBackends_spec s Hl) as (l & s' & Hb & Hperm & ?).
  exists l, s'. split; [done|]. split; [|split; [|split; [|done]]].
  - intros ->. apply Hact. apply Permutation_nil_l in Hperm. symmetry in Hperm.
    apply elements_empty_inv in Hperm. by fold_leibniz.
  - by rewrite sort_Strings_perm.
  - apply set_eq. intros b. rewrite elem_of_list_to_set, sort_Strings_elem, Hperm.
    apply elem_of_elements.
Qed.

Lemma reconcile_run now accounts w :
  live (w_store w) → instant_ok S now → act (w_store w) ≠ ∅ → NoDup (ID <$> accounts) →
  (∀ acct, acct ∈ accounts → weight_ok S (acct_weight acct)) → batch_ok S (length accounts) →
  total (tbl (w_store w)) + zsum (λ acct, effective (acct_weight acct)) accounts < two53 →
  ∃ backends w', backends ≡ₚ elements (act (w_store w)) ∧
    reconcile cfg now (accounts, None) w = Some w' ∧
    live (w_store w') ∧ act (w_store w') = act (w_store w) ∧
    tbl (w_store w') = reconciled (stamp S now) (tbl (w_store w)) (act (w_store w)) backends accounts.
Proof.
  intros Hl Hy Hact Hnd Hint Hbat Htot. unfold reconcile.
  destruct (GetAllAssignments_spec (w_store w) Hl) as (s0 & -> & Hl0 & Ha0 & Ht0). cbv beta iota zeta.
  destruct (active_list s0 Hl0) as (l & s1 & Hb & Hne & Hperm & HA & Hl1 & Ha1 & Ht1); [by rewrite Ha0|].
  cbn [w_store set_store]. rewrite Hb. exists (sort_Strings l).
  rewrite (bool_decide_false (@None error ≠ None)), (bool_decide_false (l = [])) by (try done; intros Hx; by apply Hx).
  cbn [orb]. rewrite Ha0 in HA, Hperm. set (m := tbl (w_store w)) in *. set (A := act (w_store w)) in *.
  rewrite HA. destruct (classify m A accounts) as [un st] eqn:Hcl.
  destruct (NoDup_classify m A accounts Hnd) as [Hndu Hnds]. rewrite Hcl in Hndu, Hnds. simpl in *.
  assert (Hwt : 0 ≤ zsum (λ acct, effective (acct_weight acct)) accounts).
  { apply zsum_nonneg. intros acct _. pose proof (effective_pos (acct_weight acct)). lia. }
  destruct (drop_stale st (set_store s1 (set_store s0 w))) as (Hl2 & Ha2 & Ht2);
    [done| |simpl; rewrite Ht1, Ht0; lia|done|].
  { eapply batch_ok_le, Hbat. rewrite <- (length_fmap ID accounts).
    rewrite length_fmap. by destruct (length_classify m A accounts) as [_ Hst]; rewrite Hcl in Hst. }
  set (w2 := if bool_decide (st = []) then _ else _) in *. simpl in Ha2, Ht2.
  rewrite Ht1, Ht0 in Ht2. rewrite Ha1, Ha0 in Ha2.
  assert (Hrec : reconciled (stamp S now) m A (sort_Strings l) accounts =
    (entry_assignment (stamp S now) <$> fresh_entries (without m st) (new_entries m A (sort_Strings l) accounts))
    ∪ without m st) by (unfold reconciled; by rewrite Hcl).
  case_bool_decide as Hu.
  { exists w2. rewrite Hrec, Ht2. unfold new_entries. rewrite Hcl, Hu. simpl.
    unfold fresh_entries. rewrite map_filter_empty, fmap_empty, (left_id_L ∅ (∪)).
    done. }
  rewrite spread_slots by (try done; by rewrite sort_Strings_nil). cbn [mbind option_bind].
  assert (Hnew : list_to_map (slot (sort_Strings l) <$> imap pair un) = new_entries m A (sort_Strings l) accounts)
    by (unfold new_entries; by rewrite Hcl).
  rewrite Hnew. destruct (BulkAssign_spec now (new_entries m A (sort_Strings l) accounts) (w_store w2) Hl2 Hy)
    as (s3 & -> & Hl3 & Ha3 & Ht3).
  - intros k e (acct & Hin & _ & _ & -> & _)%lookup_new_entries; [by apply Hint|done|].
    by rewrite sort_Strings_nil.
  - intros k e (acct & Hin & _ & _ & _ & Hbe)%lookup_new_entries; [|done|by rewrite sort_Strings_nil].
    rewrite Ha2. apply target_ok_active. by rewrite Hperm, elem_of_elements in Hbe.
  - eapply batch_ok_le, Hbat. apply size_new_entries.
  - rewrite Ht2. pose proof (total_without m st). pose proof (new_entries_weight m A (sort_Strings l) accounts Hnd). lia.
  - eexists. split; [done|]. split; [done|].
    destruct (foldl_hooks cfg EvAssign (range 71 (by_backend (range 70 (e_Backend <$> fresh_entries (tbl (w_store w2))
      (new_entries m A (sort_Strings l) accounts))))) (set_store s3 w2)) as (Hs & _).
    unfold SendAssign. rewrite Hs. simpl. rewrite Ha3, Ht3, Ht2, Hrec. done.
Qed.

Lemma elem_of_stale m active accounts k :
  k ∈ (classify m active accounts).2 ↔ ∃ acct, acct ∈ accounts ∧ k = ID acct ∧ stale m active acct.
Proof.
  rewrite classify_filter. simpl. rewrite list_elem_of_fmap. setoid_rewrite list_elem_of_filter. naive_solver.
Qed.

Section reconciled.
Context (now : Z) (m : gmap string Assignment) (A : gset string) (backends : list string).
Context (accounts : list DiscoveredAccount) (Hnd : NoDup (ID <$> accounts)) (Hne : backends ≠ []).

Lemma ID_inj a b : a ∈ accounts → b ∈ accounts → ID a = ID b → a = b.
Proof using Hnd.
  intros [i Hi]%list_elem_of_lookup_1 [j Hj]%list_elem_of_lookup_1 Hid.
  assert (i = j) as ->; [|congruence].
  apply (NoDup_lookup (ID <$> accounts) i j (ID a)); [done| |];
    rewrite list_lookup_fmap; [by rewrite Hi|by rewrite Hj, Hid].
Qed.

(** An account without a usable assignment gets its round-robin slot. *)
Lemma lookup_reconciled_needs acct :
  acct ∈ accounts → needs m A acct →
  ∃ b, b ∈ backends ∧ reconciled now m A backends accounts !! ID acct =
    Some (mkAssignment b now "assignment" (effective (acct_weight acct))).
Proof using Hnd Hne.
  intros Hin Hn. destruct (new_entries_complete m A backends accounts acct Hin Hn) as [e He].
  destruct (lookup_new_entries m A backends accounts _ _ Hnd Hne He)
    as (acct' & Hin' & _ & Hid & Hwt & Hbe).
  assert (acct = acct') as <- by (by apply ID_inj).
  exists (e_Backend e). split; [done|]. unfold reconciled. apply lookup_union_Some_l.
  rewrite lookup_fmap, lookup_fresh_entries, He, decide_True.
  - simpl. unfold entry_assignment. by rewrite Hwt.
  - rewrite lookup_without. case_decide as Hs; [done|].
    destruct (m !! ID acct) as [a0|] eqn:Hm; [|done]. destruct Hs. apply elem_of_stale.
    exists acct. split; [done|]. split; [done|]. exists a0. split; [done|]. by apply Hn.
Qed.

Lemma lookup_reconciled_kept k a :
  m !! k = Some a → Backend a ∈ A → reconciled now m A backends accounts !! k = Some a.
Proof.
  intros Hm Hb.
  assert (Hkeep : without m (classify m A accounts).2 !! k = Some a).
  { rewrite lookup_without, decide_False; [done|]. rewrite elem_of_stale.
    intros (acct & _ & -> & a' & Ha' & Hna). by simplify_eq. }
  unfold reconciled. rewrite lookup_union_r; [done|].
  rewrite lookup_fmap, lookup_fresh_entries, decide_False; [done|]. by rewrite Hkeep.
Qed.

Lemma lookup_reconciled_other k :
  k ∉ ID <$> accounts → reconciled now m A backends accounts !! k = m !! k.
Proof using Hnd Hne.
  intros Hk. unfold reconciled. rewrite lookup_union_r.
  - rewrite lookup_without, decide_False; [done|]. rewrite elem_of_stale.
    intros (acct & Hin & -> & _). apply Hk. by apply list_elem_of_fmap_2.
  - rewrite lookup_fmap, lookup_fresh_entries. case_decide; [|done].
    destruct (new_entries m A backends accounts !! k) as [e|] eqn:He; [|done].
    apply lookup_new_entries in He as (acct & Hin & _ & -> & _); [|done|done].
    destruct Hk. by apply list_elem_of_fmap_2.
Qed.
End reconciled.

Lemma reconcile_all_placed now accounts w :
  live (w_store w) → instant_ok S now → act (w_store w) ≠ ∅ → NoDup (ID <$> accounts) →
  (∀ acct, acct ∈ accounts → weight_ok S (acct_weight acct)) → batch_ok S (length accounts) →
  total (tbl (w_store w)) + zsum (λ acct, effective (acct_weight acct)) accounts < two53 →
  ∃ w', reconcile cfg now (accounts, None) w = Some w' ∧
    live (w_store w') ∧ act (w_store w') = act (w_store w) ∧
    (∀ acct, acct ∈ accounts → ∃ a, tbl (w_store w') !! ID acct = Some a ∧
       Backend a ∈ act (w_store w) ∧
       match tbl (w_store w) !! ID acct with
       | Some a0 => if decide (Backend a0 ∈ act (w_store w)) then a = a0
                    else Weight a = effective (acct_weight acct)
       | None => Weight a = effective (acct_weight acct)
       end) ∧
    (∀ k, k ∉ ID <$> accounts → tbl (w_store w') !! k = tbl (w_store w) !! k).
Proof.
  intros Hl Hy Hact Hnd Hint Hbat Htot.
  destruct (reconcile_run now accounts w) as (backends & w' & Hperm & Hr & Hl' & Ha' & Ht'); try done.
  exists w'. split; [done|]. split; [done|]. split; [done|]. rewrite Ht'.
  set (m := tbl (w_store w)). set (A := act (w_store w)) in *.
  assert (Hback : ∀ b, b ∈ backends ↔ b ∈ A) by (intros b; by rewrite Hperm, elem_of_elements).
  assert (Hne : backends ≠ []).
  { destruct (set_choose_L A Hact) as [b Hb%Hback]. by intros ->; apply not_elem_of_nil in Hb. }
  split; [|intros k; by apply lookup_reconciled_other].
  intros acct Hin. destruct (m !! ID acct) as [a0|] eqn:Hm.
  - destruct (decide (Backend a0 ∈ A)) as [Hb|Hb].
    + exists a0. split; [by apply lookup_reconciled_kept|done].
    + destruct (lookup_reconciled_needs (stamp S now) m A backends accounts Hnd Hne acct Hin) as (b & Hb' & Hlk).
      { intros a Ha. by simplify_eq. }
      rewrite Hlk. eexists. split; [done|]. split; [by apply Hback|done].
  - destruct (lookup_reconciled_needs (stamp S now) m A backends accounts Hnd Hne acct Hin) as (b & Hb' & Hlk).
    { intros a Ha. by simplify_eq. }
    rewrite Hlk. eexists. split; [done|]. split; [by apply Hback|done].
Qed.

(** C27. A reconciliation places every discovered account: with a reachable
    store and at least one active backend, every fetched account ends with an
    assignment on an active backend.  An account that already had one keeps
    it unchanged, any other gets its fetched weight (1 if not positive); keys
    that were not fetched are untouched.  The ids are distinct, and weights,
    instant and number of accounts within what the store can hold. *)
Theorem reconcile_places now accounts w :
  live (w_store w) → instant_ok S now → act (w_store w) ≠ ∅ → NoDup (ID <$> accounts) →
  (∀ acct, acct ∈ accounts → weight_ok S (acct_weight acct)) → batch_ok S (length accounts) →
  total (tbl (w_store w)) + zsum (λ acct, effective (acct_weight acct)) accounts < two53 →
  ∃ w', reconcile cfg now (accounts, None) w = Some w' ∧
    live (w_store w') ∧ act (w_store w') = act (w_store w) ∧
    (∀ acct, acct ∈ accounts → ∃ a, tbl (w_store w') !! ID acct = Some a ∧
       Backend a ∈ act (w_store w) ∧
       match tbl (w_store w) !! ID acct with
       | Some a0 => if decide (Backend a0 ∈ act (w_store w)) then a = a0
                    else Weight a = effective (acct_weight acct)
       | None => Weight a = effective (acct_weight acct)
       end) ∧
    (∀ k, k ∉ ID <$> accounts → tbl (w_store w') !! k = tbl (w_store w) !! k).
Proof. apply reconcile_all_placed. Qed.
End theorem.

End Discovery.
