(* ===== verification/BackendDiscovery.v ===== *)
(** * discovery_backends.go and discovery_kubernetes.go: finding the backends

    Both reconcile the active set of the store with what they observe: the
    addresses a host name resolves to, or the endpoints of Kubernetes
    EndpointSlices.  The resolver and the informer are outside; what they
    return is an argument. *)
From stdpp Require Import base gmap strings list fin_maps pretty.
From Stdlib Require Import ZArith Lia.
From S2P Require Import Prelude Go Assignment Store StoreMemory Drain.
Local Open Scope Z_scope.

Module BD.

(** [net.JoinHostPort]: a host with a colon is an IPv6 literal. *)
Definition colon : Ascii.ascii := Ascii.ascii_of_N 58.

Fixpoint has_colon (s : string) : bool :=
  match s with
  | EmptyString => false
  | String c s => if decide (c = colon) then true else has_colon s
  end.

Definition JoinHostPort (host port : string) : string :=
  if has_colon host then "[" +:+ host +:+ "]:" +:+ port else host +:+ ":" +:+ port.

(** ** DNS *)

Module DNS.
Section ops.
Context `{!MapIter} {S : Type} `{!Store S}.
Context (port : string).

Definition url_of (ip : string) : string := "http://" +:+ JoinHostPort ip port.

Definition discovered (ips : list string) : gset string := list_to_set (url_of <$> ips).

Definition add_missing (known : list string) (s : S) (url : string) : S :=
  if bool_decide (url ∈ known) then s else (AddBackend url s).2.

Definition remove_gone (disc : gset string) (s : S) (url : string) : S :=
  if bool_decide (url ∈ disc) then s else (RemoveBackend url s).2.

(** [lookup] is the answer of the resolver. *)
Definition dns_reconcile (lookup : result (list string)) (s : S) : S :=
  match lookup.2 with
  | Some _ => s
  | None =>
      let disc := discovered lookup.1 in
      let '((current, err), s) := ActiveBackends s in
      match err with
      | Some _ => s
      | None =>
          let s := foldl (add_missing current) s (range_set 100 disc) in
          foldl (remove_gone disc) s current
      end
  end.
End ops.

(** *** What a reconciliation achieves *)

Section correct.
Context `{!MapIter} {S : Type} `{!Store S, !BackendsSpec S} (port : string).

Lemma add_missing_all cur l s :
  live s →
  let s' := foldl (add_missing cur) s l in
  live s' ∧ tbl s' = tbl s ∧ ∀ u, u ∈ act s' ↔ u ∈ act s ∨ (u ∈ l ∧ u ∉ cur).
Proof.
  revert s. induction l as [|x l IH]; intros s Hs; simpl; [set_solver|].
  unfold add_missing at 2 4 6. case_bool_decide as Hx.
  - destruct (IH s Hs) as (Hl & Ht & Ha). split; [done|]. split; [done|]. set_solver.
  - destruct (AddBackend_spec x s Hs) as (s1 & Heq & H1 & Ha1 & Ht1). rewrite Heq. simpl.
    destruct (IH s1 H1) as (Hl & Ht & Ha). split; [done|]. split; [congruence|]. intros u.
    rewrite Ha, Ha1, elem_of_union, elem_of_singleton, elem_of_cons. naive_solver.
Qed.

Lemma remove_gone_all disc l s :
  live s →
  let s' := foldl (remove_gone disc) s l in
  live s' ∧ tbl s' = tbl s ∧ ∀ u, u ∈ act s' ↔ u ∈ act s ∧ (u ∈ l → u ∈ disc).
Proof.
  revert s. induction l as [|x l IH]; intros s Hs; simpl; [set_solver|].
  unfold remove_gone at 2 4 6. case_bool_decide as Hx.
  - destruct (IH s Hs) as (Hl & Ht & Ha). split; [done|]. split; [done|]. set_solver.
  - destruct (RemoveBackend_spec x s Hs) as (s1 & Heq & H1 & Ha1 & Ht1). rewrite Heq. simpl.
    destruct (IH s1 H1) as (Hl & Ht & Ha). split; [done|]. split; [congruence|]. set_solver.
Qed.

(** A DNS reconciliation makes the active set equal to what the name
    resolves to: with a reachable store, afterwards exactly the URLs of the
    resolved addresses are active, whatever was active before (a backend the
    health checker took out comes back), and no assignment is touched.  A
    failed lookup changes nothing. *)
Theorem dns_reconcile_exact ips s :
  live s →
  let s' := dns_reconcile port (ips, None) s in
  live s' ∧ act s' = discovered port ips ∧ tbl s' = tbl s ∧
  ∀ l e, dns_reconcile port (l, Some e) s = s.
Proof.
  intros Hs. unfold dns_reconcile. simpl.
  destruct (ActiveBackends_spec s Hs) as (cur & s1 & -> & Hcur & H1 & Ha1 & Ht1). simpl.
  destruct (add_missing_all cur (range_set 100 (discovered port ips)) s1 H1) as (H2 & Ht2 & Ha2).
  destruct (remove_gone_all (discovered port ips) cur _ H2) as (H3 & Ht3 & Ha3).
  split; [done|]. split; [|split; [congruence|done]]. apply set_eq. intros u.
  assert (Hc : u ∈ cur ↔ u ∈ act s) by (rewrite Hcur; apply elem_of_elements).
  rewrite Ha3, Ha2, elem_of_range_set. destruct (decide (u ∈ act s)); set_solver.
Qed.
End correct.
End DNS.

(** ** Kubernetes *)

Module K8s.

Inductive epState := epUnknown | epActive | epTerminating.

#[global] Instance epState_eq_dec : EqDecision epState.
Proof. solve_decision. Defined.

(** The parts of an EndpointSlice the code reads; [None] is a nil pointer. *)
Record EndpointPort := mkPort { Name : option string; Port : option Z }.

Record Endpoint := mkEndpoint {
  Addresses : list string;
  Ready : option bool;
  Serving : option bool;
  Terminating : option bool
}.

Record EndpointSlice := mkSlice { Ports : list EndpointPort; Endpoints : list Endpoint }.

Record KubernetesBackendDiscovery (S : Type) := mkK8s {
  store : S;
  drain : option Drain.DrainManager;
  known : gmap string epState
}.
Arguments mkK8s {S}.
Arguments store {S}.
Arguments drain {S}.
Arguments known {S}.

(** [p != nil && *p] *)
Definition set_true (p : option bool) : bool := default false p.

Fixpoint named_port (portName : string) (ports : list EndpointPort) : Z :=
  match ports with
  | [] => 0
  | p :: ports =>
      match Name p, Port p with
      | Some n, Some v => if bool_decide (n = portName) then v else named_port portName ports
      | _, _ => named_port portName ports
      end
  end.

Definition resolvePort (portName : string) (ports : list EndpointPort) : Z :=
  match ports with
  | [] => 0
  | p :: _ => if bool_decide (portName = "") then default 0 (Port p) else named_port portName ports
  end.

(** What the conditions of an endpoint say; [None] is ignored. *)
Definition classify (ep : Endpoint) : option epState :=
  let ready := set_true (Ready ep) in
  let serving := set_true (Serving ep) in
  let terminating := set_true (Terminating ep) in
  if ready && negb terminating then Some epActive
  else if terminating && serving then Some epTerminating
  else None.

Definition k8s_url (port : Z) (addr : string) : string := "http://" +:+ JoinHostPort addr (pretty port).

Definition add_endpoint (port : Z) (desired : gmap string epState) (ep : Endpoint) : gmap string epState :=
  foldl (λ desired addr,
           match classify ep with
           | Some st => <[k8s_url port addr := st]> desired
           | None => desired
           end) desired (Addresses ep).

Definition add_slice (portName : string) (desired : gmap string epState) (slice : EndpointSlice)
    : gmap string epState :=
  let port := resolvePort portName (Ports slice) in
  if port =? 0 then desired else foldl (add_endpoint port) desired (Endpoints slice).

Definition buildDesiredState (portName : string) (slices : list EndpointSlice) : gmap string epState :=
  foldl (add_slice portName) ∅ slices.

Section ops.
Context `{!MapIter} {S : Type} `{!Store S}.
Implicit Types (k : KubernetesBackendDiscovery S).

Definition with_store (s : S) k : KubernetesBackendDiscovery S := mkK8s s (drain k) (known k).
Definition with_drain (d : option Drain.DrainManager) k : KubernetesBackendDiscovery S :=
  mkK8s (store k) d (known k).

(** One endpoint of the desired state, against the previous one. *)
Definition apply_one (prev : gmap string epState) k (p : string * epState) : KubernetesBackendDiscovery S :=
  let '(url, st) := p in
  let prevState := prev !! url in
  match st with
  | epActive =>
      let k := if bool_decide (prevState = Some epTerminating)
               then with_drain (Drain.CancelDrain url <$> drain k) k else k in
      if bool_decide (prevState = Some epActive) then k
      else with_store (AddBackend url (store k)).2 k
  | epTerminating =>
      if bool_decide (prevState = Some epTerminating) then k
      else
        match drain k with
        | Some d => with_drain (Some (Drain.StartDrain url d)) k
        | None => with_store (RemoveBackend url (store k)).2 k
        end
  | epUnknown => k
  end.

Definition remove_one (desired : gmap string epState) k (url : string) : KubernetesBackendDiscovery S :=
  match desired !! url with
  | Some _ => k
  | None => with_store (RemoveBackend url (store k)).2 k
  end.

Definition applyDesiredState (desired : gmap string epState) k : KubernetesBackendDiscovery S :=
  let prev := known k in
  let k := mkK8s (store k) (drain k) desired in
  let k := foldl (apply_one prev) k (range 101 desired) in
  foldl (remove_one desired) k (range 102 prev).*1.

Definition k8s_reconcile (portName : string) (slices : list EndpointSlice) k : KubernetesBackendDiscovery S :=
  applyDesiredState (buildDesiredState portName slices) k.
End ops.

(** *** The desired state *)

(** Endpoint [ep] of one of the slices asks for state [st] at URL [u]. *)
Definition asks (portName : string) (slices : list EndpointSlice) (u : string) (st : epState) : Prop :=
  ∃ slice ep addr, slice ∈ slices ∧ ep ∈ Endpoints slice ∧ addr ∈ Addresses ep ∧
    resolvePort portName (Ports slice) ≠ 0 ∧ u = k8s_url (resolvePort portName (Ports slice)) addr ∧
    classify ep = Some st.

(** A fold of insertions: the entries are those inserted or there before, and
    every key inserted is there. *)
Lemma foldl_asks {B} (f : gmap string epState → B → gmap string epState)
    (P : B → string → epState → Prop) (l : list B) (m : gmap string epState) :
  (∀ m x u st, f m x !! u = Some st → m !! u = Some st ∨ P x u st) →
  (∀ m x u, is_Some (m !! u) ∨ (∃ st, P x u st) → is_Some (f m x !! u)) →
  (∀ u st, foldl f m l !! u = Some st → m !! u = Some st ∨ ∃ x, x ∈ l ∧ P x u st) ∧
  (∀ u, is_Some (m !! u) ∨ (∃ x st, x ∈ l ∧ P x u st) → is_Some (foldl f m l !! u)).
Proof.
  intros Hs Hc. revert m. induction l as [|x l IH]; intros m; simpl.
  { split; [naive_solver|]. intros u [?|(? & ? & ?%elem_of_nil & _)]; done. }
  destruct (IH (f m x)) as [IHs IHc]. split.
  - intros u st [Hm|(y & Hy & HP)]%IHs; [|right; exists y; set_solver].
    destruct (Hs _ _ _ _ Hm); [by left|right; exists x; set_solver].
  - intros u Hu. apply IHc. destruct Hu as [Hu|(y & st & [->|Hy]%elem_of_cons & HP)]; [|left|right; eauto].
    + left. apply Hc. by left.
    + apply Hc. right. eauto.
Qed.

Lemma add_endpoint_asks port m ep :
  let P addr u st := u = k8s_url port addr ∧ classify ep = Some st in
  (∀ u st, add_endpoint port m ep !! u = Some st → m !! u = Some st ∨ ∃ addr, addr ∈ Addresses ep ∧ P addr u st) ∧
  (∀ u, is_Some (m !! u) ∨ (∃ addr st, addr ∈ Addresses ep ∧ P addr u st) →
     is_Some (add_endpoint port m ep !! u)).
Proof.
  apply (foldl_asks _ (λ addr u st, u = k8s_url port addr ∧ classify ep = Some st)); intros m' addr u.
  - intros st. destruct (classify ep) as [st'|]; [|by left]. rewrite lookup_insert.
    case_decide; [|by left]. intros [= <-]. by right.
  - destruct (classify ep) as [st'|]; [|naive_solver]. intros Hu. rewrite lookup_insert_is_Some.
    destruct (decide (k8s_url port addr = u)); naive_solver.
Qed.

Lemma add_slice_asks pn m slice :
  (∀ u st, add_slice pn m slice !! u = Some st → m !! u = Some st ∨ asks pn [slice] u st) ∧
  (∀ u, is_Some (m !! u) ∨ (∃ st, asks pn [slice] u st) → is_Some (add_slice pn m slice !! u)).
Proof.
  unfold add_slice. destruct (Z.eqb_spec (resolvePort pn (Ports slice)) 0) as [H0|H0].
  { split; [by left|]. intros u [?|(st & sl & ep & addr & ->%list_elem_of_singleton & _ & _ & Hp & _)]; [done|].
    contradiction. }
  destruct (foldl_asks (add_endpoint (resolvePort pn (Ports slice)))
    (λ ep u st, ∃ addr, addr ∈ Addresses ep ∧ u = k8s_url (resolvePort pn (Ports slice)) addr ∧
       classify ep = Some st) (Endpoints slice) m) as [Hs Hc].
  - intros m' ep u st. apply (add_endpoint_asks _ m' ep).
  - intros m' ep u Hu. apply (add_endpoint_asks _ m' ep). destruct Hu as [?|(st & addr & ?)]; [by left|]. right; eauto.
  - split.
    + intros u st [?|(ep & Hep & addr & Ha & -> & Hcl)]%Hs; [by left|right].
      exists slice, ep, addr. split; [set_solver|done].
    + intros u [?|(st & sl & ep & addr & ->%list_elem_of_singleton & Hep & Ha & _ & -> & Hcl)]; apply Hc; [by left|].
      right. exists ep, st. eauto 6.
Qed.

(** The desired state holds what some endpoint asks for, and a state for every
    URL an endpoint asks about. *)
Lemma buildDesiredState_spec pn slices :
  (∀ u st, buildDesiredState pn slices !! u = Some st → asks pn slices u st) ∧
  (∀ u st, asks pn slices u st → is_Some (buildDesiredState pn slices !! u)).
Proof.
  destruct (foldl_asks (add_slice pn) (λ slice, asks pn [slice]) slices ∅) as [Hs Hc].
  - intros m slice. apply add_slice_asks.
  - intros m slice. apply add_slice_asks.
  - split.
    + intros u st [?|(sl & Hsl & sl' & ep & addr & ->%list_elem_of_singleton & Hrest)]%Hs; [done|].
      by exists sl, ep, addr.
    + intros u st (sl & ep & addr & Hsl & Hrest). apply Hc. right. exists sl, st. split; [done|].
      exists sl, ep, addr. split; [set_solver|done].
Qed.

(** *** What a reconciliation achieves *)

Section correct.
Context `{!MapIter} {S : Type} `{!Store S, !BackendsSpec S}.
Implicit Types (k : KubernetesBackendDiscovery S).

(** Whether a URL whose desired state is [st] is active afterwards, when [was]
    says whether it was before. *)
Definition active_after (drains : Prop) (before : option epState) (st : option epState) (was : Prop) : Prop :=
  match st with
  | Some epActive => before ≠ Some epActive ∨ was
  | Some epTerminating => (before = Some epTerminating ∨ drains) ∧ was
  | Some epUnknown => was
  | None => before = None ∧ was
  end.

#[global] Instance active_after_proper :
  Proper (iff ==> (=) ==> (=) ==> iff ==> iff) active_after.
Proof. intros d d' Hd ? b -> ? st -> w w' Hw. unfold active_after. destruct st as [[]|]; by rewrite ?Hd, ?Hw. Qed.

Definition drains k : Prop := is_Some (drain k).

Lemma apply_one_spec prev k url st :
  live (store k) →
  let k' := apply_one prev k (url, st) in
  live (store k') ∧ known k' = known k ∧ tbl (store k') = tbl (store k) ∧ (drains k' ↔ drains k) ∧
  (∀ u, u ≠ url → u ∈ act (store k') ↔ u ∈ act (store k)) ∧
  (url ∈ act (store k') ↔ active_after (drains k) (prev !! url) (Some st) (url ∈ act (store k))).
Proof.
  intros Hk. unfold apply_one, active_after, drains.
  destruct (AddBackend_spec url (store k) Hk) as (s1 & He1 & H1 & Ha1 & Ht1).
  destruct (RemoveBackend_spec url (store k) Hk) as (s2 & He2 & H2 & Ha2 & Ht2).
  destruct st; simpl.
  - done.
  - repeat case_bool_decide; simpl; rewrite ?He1, ?fmap_is_Some; simpl; rewrite ?Ha1;
      (split; [done|]; split; [done|]; split; [done|]; split; [done|]; split); set_solver.
  - rewrite He2. case_bool_decide as Hp; simpl.
    { do 5 (split; [done|]). naive_solver. }
    destruct (drain k) as [d|] eqn:Hd; simpl; rewrite ?Ha2, ?Hd;
      (split; [done|]; split; [done|]; split; [done|]; split; [naive_solver|]; split); [done| |set_solver|].
    + split; [|naive_solver]. intros. split; [by right|done].
    + split; [set_solver|]. intros [[?|[? ?]] _]; done.
Qed.

Lemma apply_all_spec prev l k :
  live (store k) → NoDup l.*1 →
  let k' := foldl (apply_one prev) k l in
  live (store k') ∧ known k' = known k ∧ tbl (store k') = tbl (store k) ∧ (drains k' ↔ drains k) ∧
  (∀ u, u ∉ l.*1 → u ∈ act (store k') ↔ u ∈ act (store k)) ∧
  (∀ u st, (u, st) ∈ l →
     u ∈ act (store k') ↔ active_after (drains k) (prev !! u) (Some st) (u ∈ act (store k))).
Proof.
  revert k. induction l as [|[x st] l IH]; intros k Hk Hnd; cbn [foldl].
  { do 5 (split; [done|]). intros u st ?%elem_of_nil. done. }
  apply NoDup_cons in Hnd as [Hx Hnd]. cbn [fst] in *.
  destruct (apply_one_spec prev k x st Hk) as (H1 & Hkn & Ht & Hd & Hne & Hx1).
  destruct (IH _ H1 Hnd) as (H2 & Hkn2 & Ht2 & Hd2 & Hne2 & Hin2).
  split; [done|]. split; [congruence|]. split; [congruence|]. split; [by rewrite Hd2|]. split.
  - intros u [Hu Hl]%not_elem_of_cons. rewrite Hne2, Hne by done. done.
  - intros u st' [[= -> ->]|Hin]%elem_of_cons; [by rewrite Hne2|].
    assert (Hu : u ≠ x). { intros ->. apply Hx. apply list_elem_of_fmap. by exists (x, st'). }
    by rewrite (Hin2 u st' Hin), (Hne u Hu), Hd.
Qed.

Lemma remove_all_spec desired l k :
  live (store k) →
  let k' := foldl (remove_one desired) k l in
  live (store k') ∧ known k' = known k ∧ tbl (store k') = tbl (store k) ∧ drain k' = drain k ∧
  (∀ u, u ∈ act (store k') ↔ u ∈ act (store k) ∧ (u ∈ l → is_Some (desired !! u))).
Proof.
  revert k. induction l as [|x l IH]; intros k Hk; cbn [foldl].
  { do 4 (split; [done|]). intros u. split; [|by intros [? _]]. split; [done|]. intros ?%elem_of_nil. done. }
  unfold remove_one at 2 4 6 8 10. destruct (desired !! x) as [st|] eqn:Hx.
  - destruct (IH k Hk) as (H1 & Hkn & Ht & Hd & Ha). do 4 (split; [done|]). intros u. rewrite Ha, elem_of_cons.
    split; intros [? Hu]; (split; [done|]); [intros [->|?]; eauto|eauto].
  - destruct (RemoveBackend_spec x (store k) Hk) as (s1 & -> & H1 & Ha1 & Ht1). simpl.
    destruct (IH (with_store s1 k) H1) as (H2 & Hkn & Ht & Hd & Ha). simpl in *.
    split; [done|]. split; [done|]. split; [congruence|]. split; [done|]. intros u.
    rewrite Ha, Ha1, elem_of_difference, elem_of_singleton, elem_of_cons. split.
    + intros [[? ?] Hu]. split; [done|]. intros [->|?]; [done|eauto].
    + intros [Hu Hl]. split; [|eauto]. split; [done|]. intros ->. destruct Hl as [? ?]; [by left|congruence].
Qed.

Lemma applyDesiredState_active desired k :
  live (store k) →
  let k' := applyDesiredState desired k in
  live (store k') ∧ known k' = desired ∧ tbl (store k') = tbl (store k) ∧
  (∀ u, u ∈ act (store k') ↔ active_after (drains k) (known k !! u) (desired !! u) (u ∈ act (store k))).
Proof.
  intros Hk. unfold applyDesiredState.
  destruct (apply_all_spec (known k) (range 101 desired) (mkK8s (store k) (drain k) desired) Hk
    (NoDup_range_keys _ _)) as (H1 & Hkn & Ht & _ & Hne & Hin).
  destruct (remove_all_spec desired (range 102 (known k)).*1 _ H1) as (H2 & Hkn2 & Ht2 & _ & Ha).
  split; [done|]. split; [by rewrite Hkn2|]. split; [by rewrite Ht2|]. intros u. rewrite Ha, elem_of_range_keys.
  destruct (desired !! u) as [st|] eqn:Hu.
  - rewrite (Hin u st) by (by apply elem_of_range). split; [by intros [? _]|eauto].
  - rewrite Hne by (rewrite elem_of_range_keys, Hu; by intros [? ?]). simpl.
    destruct (known k !! u) as [x|]; split; [|by intros [? _]|by intros [? _]|by intros [_ ?]].
    intros [_ Hx]. destruct Hx; [eauto|done].
Qed.

Lemma apply_one_drains prev k url st d :
  drain k = Some d →
  ∃ d', drain (apply_one prev k (url, st)) = Some d' ∧ Drain.draining d ⊆ Drain.draining d' ∧
    (st = epTerminating → prev !! url ≠ Some epTerminating → url ∈ Drain.draining d').
Proof.
  intros Hd. unfold apply_one. destruct st.
  - by exists d.
  - repeat case_bool_decide; simpl; rewrite Hd; simpl; eexists; (split; [done|split; [|done]]);
      unfold Drain.CancelDrain; try case_bool_decide; done.
  - case_bool_decide; [by exists d|]. rewrite Hd. simpl. eexists. split; [done|].
    unfold Drain.StartDrain. case_bool_decide; set_solver.
Qed.

Lemma apply_all_drains prev l k d :
  drain k = Some d →
  ∃ d', drain (foldl (apply_one prev) k l) = Some d' ∧ Drain.draining d ⊆ Drain.draining d' ∧
    ∀ u, (u, epTerminating) ∈ l → prev !! u ≠ Some epTerminating → u ∈ Drain.draining d'.
Proof.
  revert k d. induction l as [|[x st] l IH]; intros k d Hd; cbn [foldl].
  { exists d. split; [done|]. split; [done|]. intros u ?%elem_of_nil. done. }
  destruct (apply_one_drains prev k x st d Hd) as (d1 & Hd1 & Hsub1 & Hx).
  destruct (IH _ _ Hd1) as (d2 & Hd2 & Hsub2 & Hl). exists d2. split; [done|].
  split; [by etransitivity|]. intros u [[= -> <-]|Hin]%elem_of_cons Hp; [|by apply Hl]. by apply Hsub2, Hx.
Qed.

Lemma remove_all_drain desired l k : drain (foldl (remove_one desired) k l) = drain k.
Proof.
  revert k. induction l as [|x l IH]; intros k; cbn [foldl]; [done|]. rewrite IH. unfold remove_one.
  by case_match.
Qed.

(** A Kubernetes reconciliation with a reachable store does what the
    endpoints ask for: a URL that becomes ready is active afterwards, one that
    disappears is not, one that starts terminating is handed to the drain
    manager (or removed at once when there is none), every other URL is left as
    it was; no assignment is touched.  What is asked for is what some endpoint
    with a port says, and every such endpoint counts. *)
Theorem k8s_reconcile_effect pn slices k :
  live (store k) →
  let desired := buildDesiredState pn slices in
  let k' := k8s_reconcile pn slices k in
  live (store k') ∧ known k' = desired ∧ tbl (store k') = tbl (store k) ∧
  (∀ u, u ∈ act (store k') ↔ active_after (drains k) (known k !! u) (desired !! u) (u ∈ act (store k))) ∧
  (∀ d u, drain k = Some d → desired !! u = Some epTerminating → known k !! u ≠ Some epTerminating →
     ∃ d', drain k' = Some d' ∧ Drain.IsDraining u d' = true) ∧
  (∀ u st, desired !! u = Some st → asks pn slices u st) ∧
  (∀ u st, asks pn slices u st → is_Some (desired !! u)).
Proof.
  intros Hk. simpl. destruct (applyDesiredState_active (buildDesiredState pn slices) k Hk) as (H1 & H2 & H3 & H4).
  do 4 (split; [done|]). split; [|apply buildDesiredState_spec].
  intros d u Hd Hu Hp. unfold k8s_reconcile, applyDesiredState. rewrite remove_all_drain.
  destruct (apply_all_drains (known k) (range 101 (buildDesiredState pn slices))
    (mkK8s (store k) (drain k) (buildDesiredState pn slices)) d Hd) as (d' & -> & _ & Hin).
  exists d'. split; [done|]. apply bool_decide_eq_true, Hin; [by apply elem_of_range|done].
Qed.

(** A ready backend that is missing from the active set is never added
    back: once Kubernetes discovery has recorded it as active, whether adding
    it failed or the health checker removed it since, any number of
    reconciliations that see its endpoint ready leave it out. *)
Theorem k8s_never_retries u ds k :
  live (store k) → known k !! u = Some epActive → u ∉ act (store k) →
  Forall (λ d : gmap string epState, d !! u = Some epActive) ds →
  u ∉ act (store (foldl (λ k d, applyDesiredState d k) k ds)).
Proof.
  intros Hk Hkn Hout Hds. revert k Hk Hkn Hout. induction Hds as [|d ds Hd _ IH]; intros k Hk Hkn Hout; [done|].
  cbn [foldl]. destruct (applyDesiredState_active d k Hk) as (H1 & H2 & _ & H4).
  apply IH; [done|by rewrite H2|]. rewrite H4, Hkn, Hd. simpl. by intros [?|?].
Qed.
End correct.
End K8s.
(** ** Examples, on the memory store *)

Module Examples.
#[local] Existing Instance map_iter_canonical.
Import StoreMemory.

(** One IPv4 and one IPv6 address; a third backend is no longer in the DNS. *)
Definition old_store : MemoryStore :=
  (mem_AddBackend "http://10.0.0.9:5678" (mem_AddBackend "http://10.0.0.1:5678" NewMemoryStore).2).2.

Lemma dns_reconcile_exact_witness :
  DNS.discovered "5678" ["10.0.0.1"; "fd00::2"] = {["http://10.0.0.1:5678"; "http://[fd00::2]:5678"]} ∧
  backends (DNS.dns_reconcile "5678" (["10.0.0.1"; "fd00::2"], None) old_store) =
    DNS.discovered "5678" ["10.0.0.1"; "fd00::2"].
Proof.
  split; [apply (bool_decide_unpack _); vm_compute; exact I|].
  destruct (DNS.dns_reconcile_exact "5678" ["10.0.0.1"; "fd00::2"] old_store) as (_ & Ha & _);
    [by vm_compute|exact Ha].
Defined.

(** A ready pod, one that terminates, one that is still starting. *)
Definition slice : K8s.EndpointSlice :=
  K8s.mkSlice [K8s.mkPort (Some "metrics") (Some 9090); K8s.mkPort (Some "http") (Some 5678)]
    [K8s.mkEndpoint ["10.0.0.1"] (Some true) (Some true) None;
     K8s.mkEndpoint ["10.0.0.9"] (Some false) (Some true) (Some true);
     K8s.mkEndpoint ["10.0.0.7"] (Some false) None None].

Definition empty_discovery : K8s.KubernetesBackendDiscovery MemoryStore := K8s.mkK8s old_store None ∅.

Lemma k8s_reconcile_effect_witness :
  K8s.buildDesiredState "http" [slice] =
    {["http://10.0.0.1:5678" := K8s.epActive; "http://10.0.0.9:5678" := K8s.epTerminating]} ∧
  "http://10.0.0.9:5678" ∉ backends (K8s.store (K8s.k8s_reconcile "http" [slice] empty_discovery)).
Proof.
  split; [apply (bool_decide_unpack _); vm_compute; exact I|].
  destruct (K8s.k8s_reconcile_effect "http" [slice] empty_discovery) as (_ & _ & _ & Ha & _); [by vm_compute|].
  rewrite Ha. vm_compute. by intros [[?|[? ?]] _].
Defined.

(** The backend was recorded as active, then the health checker removed it. *)
Definition removed_since : K8s.KubernetesBackendDiscovery MemoryStore :=
  let k := K8s.k8s_reconcile "http" [slice] empty_discovery in
  K8s.mkK8s (mem_RemoveBackend "http://10.0.0.1:5678" (K8s.store k)).2 (K8s.drain k) (K8s.known k).

Lemma k8s_never_retries_witness :
  let ds := repeat (K8s.buildDesiredState "http" [slice]) 5 in
  "http://10.0.0.1:5678" ∉ act (K8s.store (foldl (λ k d, K8s.applyDesiredState d k) removed_since ds)).
Proof.
  refine (K8s.k8s_never_retries "http://10.0.0.1:5678" (repeat (K8s.buildDesiredState "http" [slice]) 5)
            removed_since _ _ _ _).
  - by vm_compute.
  - by vm_compute.
  - by apply (bool_decide_unpack _); vm_compute.
  - repeat constructor.
Defined.
End Examples.
End BD.
