(* ===== verification/Backends.v ===== *)
(** * backends.go: BackendManager

    The per-backend circuit breaker, the forwarding decision of [ProxyRequest]
    and the eviction of a backend's sticky mappings.  The HTTP transport and
    [url.Parse] are outside: whether a URL parses and whether the round trip
    failed are arguments. *)
From stdpp Require Import base gmap strings list fin_maps.
From Stdlib Require Import ZArith Lia.
From S2P Require Import Prelude Go Hashing Assignment Store UserCache Hold ConnTracker World Drain.
Local Open Scope Z_scope.

Module Backends.

(** [until] is the zero [time.Time] until the breaker opens. *)
Record failure := mkFailure { count : Z; until : Z }.

Record BackendManager := mkManager {
  failures : gmap string failure;
  proxies : gset string;              (* backends with a cached reverse proxy *)
  evictionThreshold : Z;
  evictionCooldown : Duration
}.

Definition NewBackendManager (threshold : Z) (cooldown : Duration) : BackendManager :=
  mkManager ∅ ∅ threshold cooldown.

Definition Hash (userID : string) : Z := HashUser userID.

Definition set_failures (fs : gmap string failure) (m : BackendManager) : BackendManager :=
  mkManager fs (proxies m) (evictionThreshold m) (evictionCooldown m).

Definition set_proxies (ps : gset string) (m : BackendManager) : BackendManager :=
  mkManager (failures m) ps (evictionThreshold m) (evictionCooldown m).

(** Available reports whether a backend is currently accepting traffic. *)
Definition Available (now : Z) (b : string) (m : BackendManager) : bool * BackendManager :=
  match failures m !! b with
  | None => (true, m)
  | Some f =>
      if After now (until f) then (true, set_failures (delete b (failures m)) m)
      else (false, m)
  end.

(** The returned boolean is [shouldEvict]: the caller then clears the sticky
    mappings of the backend. *)
Definition recordFailure (now : Z) (b : string) (m : BackendManager) : bool * BackendManager :=
  let f := default (mkFailure 0 zeroTime) (failures m !! b) in
  let n := count f + 1 in
  let shouldEvict := evictionThreshold m <=? n in
  let f := mkFailure n (if shouldEvict then now + evictionCooldown m else until f) in
  let m := set_failures (<[b := f]> (failures m)) m in
  (shouldEvict, if shouldEvict then set_proxies (proxies m ∖ {[b]}) m else m).

(** [getOrCreateProxy]: false when the URL does not parse. *)
Definition getOrCreateProxy (parses : string → bool) (b : string) (m : BackendManager)
    : bool * BackendManager :=
  if bool_decide (b ∈ proxies m) then (true, m)
  else if parses b then (true, set_proxies ({[b]} ∪ proxies m) m)
  else (false, m).

Inductive response :=
  | Unavailable      (* 503, backend unavailable *)
  | InvalidBackend   (* 502, invalid backend *)
  | BackendError     (* 502, from the proxy's ErrorHandler *)
  | Forwarded.       (* the backend's own response *)

(** One request: the breaker is asked at [now]; when the round trip fails, the
    failure is recorded at [later].  The second component is [shouldEvict]. *)
Definition ProxyRequest (parses : string → bool) (now later : Z) (ok : bool) (b : string)
    (m : BackendManager) : response * bool * BackendManager :=
  let '(available, m) := Available now b m in
  if negb available then (Unavailable, false, m)
  else
    let '(valid, m) := getOrCreateProxy parses b m in
    if negb valid then (InvalidBackend, false, m)
    else if ok then (Forwarded, false, m)
    else let '(evict, m) := recordFailure later b m in (BackendError, evict, m).

(** ** Evicting the sticky mappings *)

Section evict.
Context `{!MapIter} {S : Type} `{!Store S, !Drain.Sticky S}.
Context (cfg : config) (routingMode : Drain.mode) (InvalidateSticky : string → S → option error * S).
Implicit Types (w : world S).

(** Assignment mode: unassign every user of the table. *)
Definition unassign_table (b : string) (w : world S) : world S :=
  let '((users, err), s) := GetBackendUsers b (w_store w) in
  let w := set_store s w in
  match err, users with
  | Some _, _ | None, [] => w
  | None, _ =>
      let w := SendUnassign cfg b users w in
      let '(_, s) := BulkDeleteAssignments users (w_store w) in set_store s w
  end.

Definition invalidateStickyMappings (now : Z) (b : string) (w : world S) : world S :=
  let w :=
    match routingMode with
    | Drain.Assignment_ => unassign_table b w
    | Drain.StickyRedis =>
        let '((users, err), s) := Drain.GetUsersForBackend b (w_store w) in
        let w := set_store s w in
        let w := match err, users with
                 | Some _, _ | None, [] => w
                 | None, _ => SendUnassign cfg b users w
                 end in
        let '(_, s) := InvalidateSticky b (w_store w) in set_store s w
    | Drain.LocalOnly =>
        match UC.UsersForBackend now b (w_cache w) with
        | [] => w
        | users => SendUnassign cfg b users w
        end
    end in
  let w := set_cache (UC.InvalidateBackend b (w_cache w)) w in
  publishNotification cfg b w.
End evict.

(** ** The breaker *)

(** A call on the breaker, at an instant. *)
Inductive op := OpAvailable (now : Z) (b : string) | OpFailure (now : Z) (b : string).

Definition step (m : BackendManager) (o : op) : BackendManager :=
  match o with
  | OpAvailable now b => (Available now b m).2
  | OpFailure now b => (recordFailure now b m).2
  end.

Definition op_time (o : op) : Z := match o with OpAvailable t _ | OpFailure t _ => t end.

Definition blocked (m : BackendManager) (b : string) (T : Z) : Prop :=
  ∃ f, failures m !! b = Some f ∧ evictionThreshold m ≤ count f ∧ T ≤ until f.

Lemma step_config m o :
  evictionThreshold (step m o) = evictionThreshold m ∧ evictionCooldown (step m o) = evictionCooldown m.
Proof.
  destruct o as [t b|t b]; simpl.
  - unfold Available. by repeat case_match.
  - unfold recordFailure. simpl. by case_match.
Qed.

Lemma step_blocked m o b T :
  blocked m b T → op_time o ≤ T → T ≤ op_time o + evictionCooldown m → blocked (step m o) b T.
Proof.
  intros (f & Hf & Hc & Ht) H1 H2. destruct o as [t b'|t b']; simpl in *.
  - unfold Available. destruct (failures m !! b') as [f'|] eqn:Hf'; simpl; [|by exists f].
    unfold After. destruct (Z.ltb_spec (until f') t); [|by exists f].
    exists f. simpl. split; [|done]. rewrite lookup_delete_ne; [done|].
    intros ->. simplify_eq. lia.
  - unfold recordFailure. destruct (decide (b' = b)) as [->|Hne].
    + rewrite Hf. simpl. exists (mkFailure (count f + 1) (t + evictionCooldown m)).
      assert ((evictionThreshold m <=? count f + 1) = true) as -> by (apply Z.leb_le; lia).
      simpl. rewrite lookup_insert_eq. split; [done|]. simpl. split; lia.
    + exists f. simpl. case_match; simpl; by rewrite lookup_insert_ne.
Qed.

(** An open breaker blocks its backend for the whole cooldown: from the
    failure that opens it at instant [t], whatever other requests check or fail
    meanwhile, on this backend or others, [Available] is false until
    [t + cooldown]. *)
Theorem breaker_blocks m b t ops t' :
  (recordFailure t b m).1 = true →
  Forall (λ o, t ≤ op_time o ≤ t + evictionCooldown m) ops →
  t' ≤ t + evictionCooldown m →
  (Available t' b (foldl step (recordFailure t b m).2 ops)).1 = false.
Proof.
  intros Hev Hops Ht'. set (T := t + evictionCooldown m) in *.
  assert (Hb : blocked (recordFailure t b m).2 b T ∧ evictionCooldown (recordFailure t b m).2 = evictionCooldown m).
  { unfold recordFailure in *. simpl in *. rewrite Hev. simpl. split; [|done].
    eexists. simpl. rewrite lookup_insert_eq. split; [done|]. simpl. split; [by apply Z.leb_le|done]. }
  destruct Hb as [Hb Hcd]. revert Hb Hcd. generalize (recordFailure t b m).2 as m0.
  induction Hops as [|o ops Ho Hops IH]; intros m0 Hb Hcd; simpl.
  - destruct Hb as (f & Hf & _ & Hle). unfold Available. rewrite Hf. unfold After.
    destruct (Z.ltb_spec (until f) t'); [lia|done].
  - apply IH; [|by destruct (step_config m0 o) as [_ ->]].
    apply step_blocked; [done|lia|]. rewrite Hcd. unfold T in *. lia.
Qed.

Lemma breaker_blocks_witness :
  let m := NewBackendManager 1 (30 * Second) in
  (Available (20 * Second) "b1" (foldl step (recordFailure 0 "b1" m).2
     [OpAvailable (5 * Second) "b1"; OpFailure (9 * Second) "b2"])).1 = false.
Proof.
  apply breaker_blocks; [done| |by vm_compute].
  repeat constructor; by vm_compute.
Defined.

(** A request of a sequential client: it ends before the next one starts. *)
Record request := mkRequest { r_now : Z; r_later : Z; r_ok : bool; r_backend : string }.

Fixpoint serve (parses : string → bool) (reqs : list request) (m : BackendManager)
    : list response * BackendManager :=
  match reqs with
  | [] => ([], m)
  | r :: reqs =>
      let '(resp, _, m) := ProxyRequest parses (r_now r) (r_later r) (r_ok r) (r_backend r) m in
      let '(resps, m) := serve parses reqs m in (resp :: resps, m)
  end.

(** No entry of the failure map has an open breaker. *)
Definition never_open (m : BackendManager) : Prop :=
  2 ≤ evictionThreshold m ∧
  ∀ b f, failures m !! b = Some f → count f = 1 ∧ until f = zeroTime.

Lemma ProxyRequest_never_open parses r m :
  never_open m → zeroTime < r_now r →
  let '(resp, evict, m') := ProxyRequest parses (r_now r) (r_later r) (r_ok r) (r_backend r) m in
  resp ≠ Unavailable ∧ evict = false ∧ never_open m'.
Proof.
  intros [Hth Hf] Ht. unfold ProxyRequest.
  assert (Ha : (Available (r_now r) (r_backend r) m).1 = true ∧
    failures (Available (r_now r) (r_backend r) m).2 !! r_backend r = None ∧
    never_open (Available (r_now r) (r_backend r) m).2).
  { unfold Available. destruct (failures m !! r_backend r) as [f|] eqn:Hr; [|done].
    destruct (Hf _ _ Hr) as [_ Hu]. unfold After. rewrite Hu, (proj2 (Z.ltb_lt _ _) Ht). simpl.
    split; [done|]. split; [apply lookup_delete_eq|]. split; [done|]. simpl.
    intros b f'. rewrite lookup_delete_Some. intros [_ ?]. eauto. }
  destruct (Available _ _ m) as [av m1]. destruct Ha as (Hav & Hnone & [Hth1 Hf1]). simpl in *. subst av.
  simpl. unfold getOrCreateProxy.
  destruct (bool_decide (r_backend r ∈ proxies m1)), (parses (r_backend r)); simpl; try done;
    (destruct (r_ok r); [done|]); unfold recordFailure; simpl; rewrite Hnone; simpl;
    rewrite (proj2 (Z.leb_gt _ _)) by lia; (split; [done|]; split; [done|]; split; [done|]);
    intros b f; simpl; rewrite lookup_insert; (case_decide; [intros [= <-]; done|apply Hf1]).
Qed.

(** Failures of sequential requests never open the breaker: with an
    eviction threshold of 2 or more, however many requests fail in a row, no
    request is refused and no backend is evicted.  The availability check that
    precedes each request drops the recorded failures, because the breaker
    that is not open yet has the zero time as its end. *)
Theorem sequential_failures_never_open parses threshold cooldown reqs :
  2 ≤ threshold → Forall (λ r, zeroTime < r_now r) reqs →
  Unavailable ∉ (serve parses reqs (NewBackendManager threshold cooldown)).1.
Proof.
  intros Hth Hreqs.
  assert (Hm : never_open (NewBackendManager threshold cooldown)).
  { split; [done|]. intros b f. simpl. by rewrite lookup_empty. }
  revert Hm. generalize (NewBackendManager threshold cooldown) as m.
  induction Hreqs as [|r reqs Hr Hreqs IH]; intros m Hm; simpl; [by apply not_elem_of_nil|].
  pose proof (ProxyRequest_never_open parses r m Hm Hr) as Hp.
  destruct (ProxyRequest parses (r_now r) (r_later r) (r_ok r) (r_backend r) m) as [[resp ev] m'].
  destruct Hp as (Hresp & _ & Hm'). specialize (IH m' Hm').
  destruct (serve parses reqs m'). simpl in *. by apply not_elem_of_cons.
Qed.

Lemma sequential_failures_never_open_witness :
  let reqs := replicate 10 (mkRequest 0 1 false "b1") in
  (serve (λ _, true) reqs (NewBackendManager 3 (30 * Second))).1 = replicate 10 BackendError ∧
  Unavailable ∉ (serve (λ _, true) reqs (NewBackendManager 3 (30 * Second))).1.
Proof.
  split; [by vm_compute|]. apply sequential_failures_never_open; [lia|].
  apply Forall_replicate. by vm_compute.
Defined.

(** ** Eviction *)

Section eviction.
Context `{!MapIter} {S : Type} `{!Store S, !Drain.Sticky S, !BackendsSpec S, !TableLimits S, !TableSpec S}.
Context (cfg : config) (InvalidateSticky : string → S → option error * S).
Implicit Types (w : world S).

Lemma unassign_table_run b w :
  live (w_store w) → batch_ok S (size (tbl (w_store w))) → total (tbl (w_store w)) < two53 →
  NoDup (Drain.scanned b (w_store w)) →
  let w' := unassign_table cfg b w in
  live (w_store w') ∧ act (w_store w') = act (w_store w) ∧ w_cache w' = w_cache w ∧
  ∀ k, tbl (w_store w') !! k =
    match tbl (w_store w) !! k with
    | Some a => if decide (Backend a = b) then None else Some a
    | None => None
    end.
Proof.
  intros Hl Hbat Htot Hnd. unfold unassign_table, Drain.scanned in *.
  destruct (GetBackendUsers_spec b (w_store w) Hl) as (users & s0 & Hg & Hl0 & Ha0 & Ht0 & Hu).
  rewrite Hg in *. simpl in Hnd. destruct users as [|u us].
  - simpl. do 3 (split; [done|]). intros k.
    rewrite <- (lookup_without_users _ [] b k Hu), without_nil. by rewrite Ht0.
  - assert (Hs : w_store (SendUnassign cfg b (u :: us) (set_store s0 w)) = s0 ∧
      w_cache (SendUnassign cfg b (u :: us) (set_store s0 w)) = w_cache w)
      by (unfold SendUnassign; by destruct (has_hooks cfg)).
    destruct Hs as [-> Hc].
    destruct (BulkDeleteAssignments_spec (u :: us) s0 Hl0 Hnd) as (s1 & -> & Hl1 & Ha1 & Ht1);
      [eapply batch_ok_le, Hbat; by apply (length_users_le_size b)|by rewrite Ht0|].
    simpl. rewrite Hc, Ha1, Ht1, Ht0. do 3 (split; [done|]). intros k. by apply lookup_without_users.
Qed.

(** Evicting a backend in assignment mode leaves no mapping to it: no
    assignment in the table and no entry in the local cache point to the
    backend, so its users are assigned afresh; other assignments and cache
    entries stay, and so does the active set.  The scan of the table must
    not have returned a key twice. *)
Theorem eviction_clears_mappings now b w :
  live (w_store w) → batch_ok S (size (tbl (w_store w))) → total (tbl (w_store w)) < two53 →
  NoDup (Drain.scanned b (w_store w)) →
  let w' := invalidateStickyMappings cfg Drain.Assignment_ InvalidateSticky now b w in
  live (w_store w') ∧ act (w_store w') = act (w_store w) ∧
  (∀ k, tbl (w_store w') !! k =
     match tbl (w_store w) !! k with
     | Some a => if decide (Backend a = b) then None else Some a
     | None => None
     end) ∧
  (∀ k, UC.data (w_cache w') !! k =
     match UC.data (w_cache w) !! k with
     | Some e => if bool_decide (UC.backend e = b) then None else Some e
     | None => None
     end).
Proof.
  intros Hl Hbat Htot Hnd. unfold invalidateStickyMappings. cbv zeta.
  destruct (unassign_table_run b w Hl Hbat Htot Hnd) as (Hl1 & Ha1 & Hc1 & Ht1).
  set (w1 := unassign_table cfg b w) in *.
  destruct (Drain.publish_frame cfg b (set_cache (UC.InvalidateBackend b (w_cache w1)) w1)) as (Hs & Hc & _).
  rewrite Hs, Hc. cbn [w_store w_cache set_cache]. do 3 (split; [done|]). intros k.
  by rewrite UC.lookup_InvalidateBackend, Hc1.
Qed.
End eviction.

End Backends.
