(* ===== verification/HealthChecker.v ===== *)
(** * health_checker.go: active health checks

    One pass of [checkAll]: refresh the list of backends, probe every known
    one, and move backends in and out of the active set when a threshold is
    crossed.  The HTTP probes are outside: [up b] is whether the probe of [b]
    answered 200, and [sched] the order in which the concurrent probes
    complete. *)
From stdpp Require Import base gmap strings list sorting fin_maps.
From Stdlib Require Import ZArith Lia.
From S2P Require Import Prelude Go Assignment Store StoreMemory Drain.
Local Open Scope Z_scope.

Module HC.

Record backendHealth := mkHealth {
  consecutiveFails : Z;
  consecutiveSuccesses : Z;
  healthy : bool
}.

Definition fresh_health : backendHealth := mkHealth 0 0 true.

(** The checker with the parts of its collaborators it changes: the store, the
    drains it started, and the fallback list of the Redis client. *)
Record HealthChecker (S : Type) := mkHC {
  states : gmap string backendHealth;
  previousBackends : list string;
  store : S;
  drain : Drain.DrainManager;
  cachedBackends : list string
}.
Arguments mkHC {S}.
Arguments states {S}.
Arguments previousBackends {S}.
Arguments store {S}.
Arguments drain {S}.
Arguments cachedBackends {S}.

Record config := mkConfig {
  unhealthyThreshold : Z;
  healthyThreshold : Z;
  has_redis : bool;             (* hc.redis != nil *)
  drainOnUnhealthy : bool;      (* drainOnUnhealthy && drain != nil *)
  rebalanceOnScale : bool       (* rebalanceOnScale && rebalancer != nil *)
}.

(** The thresholds of NewHealthChecker. *)
Definition defaults : config := mkConfig 3 1 false false false.

Section ops.
Context `{!MapIter} {S : Type} `{!Store S} (cfg : config).
Implicit Types (hc : HealthChecker S).

Definition NewHealthChecker (s : S) : HealthChecker S :=
  mkHC ∅ [] s Drain.NewDrainManager [].

Definition set_states (st : gmap string backendHealth) hc : HealthChecker S :=
  mkHC st (previousBackends hc) (store hc) (drain hc) (cachedBackends hc).

Definition set_hc_store (s : S) hc : HealthChecker S :=
  mkHC (states hc) (previousBackends hc) s (drain hc) (cachedBackends hc).

Definition set_drain (d : Drain.DrainManager) hc : HealthChecker S :=
  mkHC (states hc) (previousBackends hc) (store hc) d (cachedBackends hc).

Definition HealthyCount hc : nat :=
  length (filter (λ p, healthy p.2 = true) (range 80 (states hc))).

Definition getHealthyBackends hc : list string :=
  sort_Strings (filter (λ p, healthy p.2 = true) (range 81 (states hc))).*1.

(** recordResult updates counters and moves the backend on a transition. *)
Definition recordResult (b : string) (success : bool) hc : HealthChecker S :=
  let state := default fresh_health (states hc !! b) in
  let wasHealthy := healthy state in
  if success then
    let n := consecutiveSuccesses state + 1 in
    if negb wasHealthy && (healthyThreshold cfg <=? n) then
      let hc := set_states (<[b := mkHealth 0 n true]> (states hc)) hc in
      let '(_, s) := AddBackend b (store hc) in set_hc_store s hc
    else set_states (<[b := mkHealth 0 n wasHealthy]> (states hc)) hc
  else
    let n := consecutiveFails state + 1 in
    if wasHealthy && (unhealthyThreshold cfg <=? n) then
      let hc := set_states (<[b := mkHealth n 0 false]> (states hc)) hc in
      if drainOnUnhealthy cfg then set_drain (Drain.StartDrain b (drain hc)) hc
      else let '(_, s) := RemoveBackend b (store hc) in set_hc_store s hc
    else set_states (<[b := mkHealth n 0 wasHealthy]> (states hc)) hc.

(** [redis.RefreshBackendList]. *)
Definition RefreshBackendList hc : HealthChecker S :=
  if has_redis cfg then
    let '((backends, err), s) := ActiveBackends (store hc) in
    match err with
    | Some _ => set_hc_store s hc
    | None => mkHC (states hc) (previousBackends hc) s (drain hc) backends
    end
  else hc.

(** Merge newly discovered backends into the state map. *)
Definition merge (backends : list string) (st : gmap string backendHealth)
    : gmap string backendHealth :=
  foldl (λ st b, match st !! b with Some _ => st | None => <[b := fresh_health]> st end) st backends.

(** Prune the unhealthy backends absent from the active set. *)
Definition prune (known : gset string) (st : gmap string backendHealth)
    : gmap string backendHealth :=
  foldl (λ st' '(b, s), if bool_decide (b ∉ known) && negb (healthy s) then delete b st' else st')
    st (range 83 st).

(** One pass: the state after it, and the backend list a rebalance was
    triggered with.  [limit] backends were launched before the context
    ended. *)
Definition checkAll (sched : list string → list string) (limit : nat) (up : string → bool) hc
    : option (list string) * HealthChecker S :=
  let '((backends, err), s) := ActiveBackends (store hc) in
  let hc := set_hc_store s hc in
  match err with
  | Some _ => (None, hc)
  | None =>
      let hc := RefreshBackendList hc in
      let st := merge backends (states hc) in
      let allBackends := (range 82 st).*1 in
      let hc := set_states (prune (list_to_set backends) st) hc in
      let hc := foldl (λ hc b, recordResult b (up b) hc) hc (sched (take limit allBackends)) in
      if rebalanceOnScale cfg then
        let current := getHealthyBackends hc in
        let trigger := if bool_decide (previousBackends hc ≠ current) && bool_decide (current ≠ [])
                       then Some current else None in
        (trigger, mkHC (states hc) current (store hc) (drain hc) (cachedBackends hc))
      else (None, hc)
  end.
End ops.

(** ** Passes *)

Section passes.
Context `{!MapIter} {S : Type} `{!Store S, !BackendsSpec S} (cfg : config).
Context (Hdrain : drainOnUnhealthy cfg = false).
Implicit Types (hc : HealthChecker S).

Lemma lookup_merge backends st b :
  merge backends st !! b =
    match st !! b with
    | Some s => Some s
    | None => if decide (b ∈ backends) then Some fresh_health else None
    end.
Proof.
  revert st. induction backends as [|b' backends IH]; intros st; simpl.
  { by destruct (st !! b). }
  rewrite IH. destruct (st !! b') as [s'|] eqn:Hb'.
  - destruct (st !! b) as [s|] eqn:Hb; [done|].
    destruct (decide (b ∈ backends)); [by rewrite decide_True by set_solver|].
    rewrite decide_False; [done|]. intros [->|?]%elem_of_cons; [congruence|done].
  - rewrite lookup_insert. destruct (decide (b' = b)) as [->|Heq]; [rewrite Hb'; by rewrite decide_True by left|].
    destruct (st !! b); [done|].
    destruct (decide (b ∈ backends)); [by rewrite decide_True by set_solver|].
    by rewrite decide_False by set_solver.
Qed.

Lemma lookup_hc_prune known st b :
  prune known st !! b =
    match st !! b with
    | Some s => if bool_decide (b ∉ known) && negb (healthy s) then None else Some s
    | None => None
    end.
Proof.
  apply (range_delete_if 83 (λ b s, bool_decide (b ∉ known) && negb (healthy s))).
Qed.

(** A pass on a store that answers: the probes, from the merged and pruned
    states. *)
Lemma checkAll_run sched limit up hc :
  live (store hc) →
  ∃ l hc1, l ≡ₚ elements (act (store hc)) ∧ live (store hc1) ∧ act (store hc1) = act (store hc) ∧
    states hc1 = prune (list_to_set l) (merge l (states hc)) ∧
    let hc2 := foldl (λ hc b, recordResult cfg b (up b) hc) hc1 (sched (take limit (range 82 (merge l (states hc))).*1)) in
    store (checkAll cfg sched limit up hc).2 = store hc2 ∧ states (checkAll cfg sched limit up hc).2 = states hc2.
Proof.
  intros Hl. unfold checkAll.
  destruct (ActiveBackends_spec (store hc) Hl) as (l & s1 & -> & Hperm & Hl1 & Ha1 & _).
  set (hc1 := RefreshBackendList cfg (set_hc_store s1 hc)).
  assert (Hhc1 : live (store hc1) ∧ act (store hc1) = act (store hc) ∧ states hc1 = states hc).
  { unfold hc1, RefreshBackendList. destruct (has_redis cfg); [|done]. simpl.
    destruct (ActiveBackends_spec s1 Hl1) as (l2 & s2 & -> & _ & Hl2 & Ha2 & _). simpl.
    rewrite Ha2. done. }
  destruct Hhc1 as (Hl2 & Ha2 & Hs2). cbv beta iota zeta.
  exists l, (set_states (prune (list_to_set l) (merge l (states hc))) hc1). rewrite Hs2.
  do 4 (split; [done|]). by destruct (rebalanceOnScale cfg).
Qed.

(** The probe of another backend. *)
Lemma recordResult_frame b b' x hc :
  live (store hc) → b' ≠ b →
  let hc' := recordResult cfg b' x hc in
  live (store hc') ∧ states hc' !! b = states hc !! b ∧ (b ∈ act (store hc') ↔ b ∈ act (store hc)).
Proof using Hdrain.
  intros Hl Hne. unfold recordResult. rewrite Hdrain. destruct x; case_match; simpl.
  - destruct (AddBackend_spec b' (store hc) Hl) as (s & -> & Hl' & Hact & _). simpl.
    split; [done|]. split; [by rewrite lookup_insert_ne|]. rewrite Hact. set_solver.
  - split; [done|]. split; [by rewrite lookup_insert_ne|done].
  - destruct (RemoveBackend_spec b' (store hc) Hl) as (s & -> & Hl' & Hact & _). simpl.
    split; [done|]. split; [by rewrite lookup_insert_ne|]. rewrite Hact. set_solver.
  - split; [done|]. split; [by rewrite lookup_insert_ne|done].
Qed.

Lemma probes_frame (up : string → bool) bs b hc :
  live (store hc) → b ∉ bs →
  let hc' := foldl (λ hc b, recordResult cfg b (up b) hc) hc bs in
  live (store hc') ∧ states hc' !! b = states hc !! b ∧ (b ∈ act (store hc') ↔ b ∈ act (store hc)).
Proof using Hdrain.
  revert hc. induction bs as [|b' bs IH]; intros hc Hl Hb; simpl; [done|].
  apply not_elem_of_cons in Hb as [Hne Hb].
  destruct (recordResult_frame b b' (up b') hc Hl ltac:(done)) as (Hl1 & Hs1 & Ha1).
  destruct (IH _ Hl1 Hb) as (Hl2 & Hs2 & Ha2). split; [done|]. split; [by rewrite Hs2|by rewrite Ha2].
Qed.

(** The probes of a pass: the one of [b], if it is among them, on the state it
    had. *)
Lemma probes_split (up : string → bool) bs b hc (P : HealthChecker S → Prop) :
  live (store hc) → NoDup bs →
  (∀ hc1 hc2, live (store hc2) → states hc2 !! b = states hc1 !! b → (b ∈ act (store hc2) ↔ b ∈ act (store hc1)) →
     P hc1 → P hc2) →
  (b ∉ bs → P hc) →
  (∀ hc1, live (store hc1) → states hc1 !! b = states hc !! b → (b ∈ act (store hc1) ↔ b ∈ act (store hc)) →
     live (store (recordResult cfg b (up b) hc1)) ∧ P (recordResult cfg b (up b) hc1)) →
  P (foldl (λ hc b, recordResult cfg b (up b) hc) hc bs).
Proof using Hdrain.
  intros Hl Hnd HP Hout Hin. destruct (decide (b ∈ bs)) as [Hb|Hb].
  - apply list_elem_of_split in Hb as (l1 & l2 & ->). apply NoDup_app in Hnd as (_ & Hd & Hnd).
    apply NoDup_cons in Hnd as [Hb2 _]. rewrite foldl_app. simpl.
    destruct (probes_frame up l1 b hc Hl) as (Hl1 & Hs1 & Ha1); [intros Hx; by apply (Hd b Hx), list_elem_of_here|].
    destruct (Hin _ Hl1 Hs1 Ha1) as [Hl2 HP2]. destruct (probes_frame up l2 b _ Hl2 Hb2) as (Hl3 & Hs3 & Ha3).
    by eapply HP.
  - destruct (probes_frame up bs b hc Hl Hb) as (Hl1 & Hs1 & Ha1). by eapply HP; [..|apply Hout].
Qed.

(** Believed healthy, but not in the active set. *)
Definition missed hc (b : string) : Prop :=
  live (store hc) ∧ (b ∉ act (store hc)) ∧ ∃ st, states hc !! b = Some st ∧ healthy st = true.

Lemma recordResult_missed b b' x hc :
  missed hc b → (b' = b → x = true) → missed (recordResult cfg b' x hc) b.
Proof using Hdrain.
  intros (Hl & Hb & st & Hst & Hh) Hx. destruct (decide (b' = b)) as [->|Hne].
  - rewrite Hx by done. unfold recordResult. rewrite Hst. simpl. rewrite Hh. simpl.
    split; [done|]. split; [done|]. eexists. split; [apply lookup_insert_eq|done].
  - unfold recordResult. rewrite Hdrain. destruct x; case_match; simpl.
    + destruct (AddBackend_spec b' (store hc) Hl) as (s & -> & Hl' & Hact & _).
      split; [done|]. split; [simpl; rewrite Hact; set_solver|]. exists st. simpl. by rewrite lookup_insert_ne.
    + split; [done|]. split; [done|]. exists st. simpl. by rewrite lookup_insert_ne.
    + destruct (RemoveBackend_spec b' (store hc) Hl) as (s & -> & Hl' & Hact & _).
      split; [done|]. split; [simpl; rewrite Hact; set_solver|]. exists st. simpl. by rewrite lookup_insert_ne.
    + split; [done|]. split; [done|]. exists st. simpl. by rewrite lookup_insert_ne.
Qed.

Lemma foldl_missed (up : string → bool) bs b hc :
  missed hc b → up b = true → missed (foldl (λ hc b, recordResult cfg b (up b) hc) hc bs) b.
Proof using Hdrain.
  intros Hm Hup. revert hc Hm. induction bs as [|b' bs IH]; intros hc Hm; simpl; [done|].
  apply IH, recordResult_missed; [done|]. by intros ->.
Qed.

(** A pass in which the probe of such a backend succeeds changes nothing
    about it: it is not added back. *)
Lemma checkAll_missed sched limit up b hc :
  missed hc b → up b = true → missed (checkAll cfg sched limit up hc).2 b.
Proof using Hdrain.
  intros (Hl & Hb & st & Hst & Hh) Hup.
  destruct (checkAll_run sched limit up hc Hl) as (l & hc1 & Hperm & Hl1 & Ha1 & Hs1 & Hst2 & Hsts2).
  unfold missed. rewrite Hst2, Hsts2. apply (foldl_missed up); [|done]. split; [done|]. split; [by rewrite Ha1|].
  exists st. split; [|done]. rewrite Hs1, lookup_hc_prune, lookup_merge, Hst, Hh. by rewrite andb_false_r.
Qed.

(** *** One pass *)

(** In the active set, with [n] failures in a row. *)
Definition serving hc (b : string) (n : Z) : Prop :=
  live (store hc) ∧ b ∈ act (store hc) ∧
  match states hc !! b with
  | Some st => healthy st = true ∧ consecutiveFails st = n
  | None => n = 0
  end.

Definition gone hc (b : string) : Prop := live (store hc) ∧ b ∉ act (store hc).

Lemma record_serving b x n hc :
  serving hc b n →
  let hc' := recordResult cfg b x hc in
  if x then serving hc' b 0
  else if unhealthyThreshold cfg <=? n + 1 then gone hc' b else serving hc' b (n + 1).
Proof using Hdrain.
  intros (Hl & Hb & Hst). unfold recordResult. rewrite Hdrain.
  assert (Hstate : ∃ st, default fresh_health (states hc !! b) = st ∧ healthy st = true ∧ consecutiveFails st = n).
  { destruct (states hc !! b) as [st|]; eexists; (split; [done|]); [done|by subst]. }
  destruct Hstate as (st & -> & Hh & <-). rewrite Hh. simpl. destruct x.
  - split; [done|]. split; [done|]. simpl. by rewrite lookup_insert_eq.
  - destruct (unhealthyThreshold cfg <=? consecutiveFails st + 1).
    + destruct (RemoveBackend_spec b (store hc) Hl) as (s & -> & Hl' & Hact & _). simpl.
      split; [done|]. simpl. rewrite Hact. set_solver.
    + split; [done|]. split; [done|]. simpl. by rewrite lookup_insert_eq.
Qed.

(** A pass in which every backend known is probed once. *)
Lemma pass_serving sched limit up b n hc :
  (∀ l, sched l ≡ₚ l) → (size (dom (states hc) ∪ act (store hc)) ≤ limit)%nat → serving hc b n →
  let hc' := (checkAll cfg sched limit up hc).2 in
  if up b then serving hc' b 0
  else if unhealthyThreshold cfg <=? n + 1 then gone hc' b else serving hc' b (n + 1).
Proof using Hdrain.
  intros Hsched Hlim (Hl & Hb & Hst).
  destruct (checkAll_run sched limit up hc Hl) as (l & hc1 & Hperm & Hl1 & Ha1 & Hs1 & Hst2 & Hsts2).
  assert (Hbl : b ∈ l) by (by rewrite Hperm, elem_of_elements).
  assert (Hknown : is_Some (merge l (states hc) !! b)) by (rewrite lookup_merge, decide_True by done; by case_match).
  assert (Hlen : (length (range 82 (merge l (states hc))).*1 ≤ limit)%nat).
  { etrans; [|exact Hlim]. rewrite <- (size_list_to_set (C := gset string)) by apply NoDup_range_keys.
    apply subseteq_size. intros x. rewrite elem_of_list_to_set, elem_of_range_keys, lookup_merge, elem_of_union, elem_of_dom.
    destruct (states hc !! x); [by left|]. case_decide as Hx; [|by intros [? ?]]. right.
    by rewrite Hperm, elem_of_elements in Hx. }
  assert (Hs1b : serving hc1 b n).
  { split; [done|]. split; [by rewrite Ha1|]. rewrite Hs1, lookup_hc_prune, lookup_merge.
    rewrite (bool_decide_false (b ∉ list_to_set l)) by (rewrite elem_of_list_to_set; auto).
    destruct (states hc !! b) as [st|]; simpl; [done|]. rewrite decide_True by done. simpl. done. }
  assert (Hprobed : b ∈ sched (take limit (range 82 (merge l (states hc))).*1)).
  { rewrite Hsched, take_ge by done. by apply elem_of_range_keys. }
  set (P := λ hc', if up b then serving hc' b 0
    else if unhealthyThreshold cfg <=? n + 1 then gone hc' b else serving hc' b (n + 1)).
  cut (P (foldl (λ hc b, recordResult cfg b (up b) hc) hc1 (sched (take limit (range 82 (merge l (states hc))).*1)))).
  { unfold P, serving, gone. rewrite Hst2, Hsts2. done. }
  apply (probes_split up _ b); [done| | |done|].
  - rewrite Hsched. eapply sublist_NoDup; [|apply sublist_take]. apply NoDup_range_keys.
  - intros hc2 hc3 Hl3 Hs3 Ha3. unfold P, serving, gone. rewrite Hs3.
    destruct (up b); [by intros (_ & ?%Ha3 & ?)|]. destruct (_ <=? _); [intros [_ Hn]|by intros (_ & ?%Ha3 & ?)].
    split; [done|]. by rewrite Ha3.
  - intros hc2 Hl2 Hs2 Ha2. assert (Hsv : serving hc2 b n).
    { destruct Hs1b as (_ & ?%Ha2 & ?). split; [done|]. by rewrite Hs2. }
    pose proof (record_serving b (up b) n hc2 Hsv) as Hr. split; [|exact Hr].
    destruct (up b); [by destruct Hr|]. destruct (_ <=? _); by destruct Hr.
Qed.

(** A backend that is out stays out: the pass prunes the state of an unhealthy
    one before it probes it. *)
Lemma pass_gone sched limit up b hc :
  (∀ l, sched l ≡ₚ l) → gone hc b → gone (checkAll cfg sched limit up hc).2 b.
Proof using Hdrain.
  intros Hsched [Hl Hb].
  destruct (checkAll_run sched limit up hc Hl) as (l & hc1 & Hperm & Hl1 & Ha1 & Hs1 & Hst2 & Hsts2).
  unfold gone. rewrite Hst2. apply (probes_split up _ b _ (λ hc, gone hc b)); [done| | | |].
  - rewrite Hsched. eapply sublist_NoDup; [|apply sublist_take]. apply NoDup_range_keys.
  - intros hc2 hc3 Hl3 Hs3 Ha3. unfold gone. rewrite Ha3. by intros [_ ?].
  - intros _. split; [done|]. by rewrite Ha1.
  - intros hc2 Hl2 Hs2 Ha2. assert (Hb2 : b ∉ act (store hc2)) by (by rewrite Ha2, Ha1).
    assert (Hh : healthy (default fresh_health (states hc2 !! b)) = true).
    { rewrite Hs2, Hs1, lookup_hc_prune. destruct (merge l (states hc) !! b) as [st|]; [|done].
      rewrite (bool_decide_true (b ∉ list_to_set l)) by (by rewrite elem_of_list_to_set, Hperm, elem_of_elements).
      simpl. by destruct (healthy st) eqn:?. }
    unfold gone, recordResult. rewrite Hdrain, Hh. simpl. destruct (up b); [done|]. case_match; simpl; [|done].
    destruct (RemoveBackend_spec b (store hc2) Hl2) as (s & -> & Hl' & Hact & _). simpl.
    split; [done|]. split; [done|]. rewrite Hact. set_solver.
Qed.

(** *** Any number of passes *)

(** A pass with the order of its probes, how many it launches and which backends
    answer; or a change of the store by others. *)
Inductive event := Check (sched : list string → list string) (limit : nat) (up : string → bool) | Others (f : S → S).

Definition step hc (ev : event) : HealthChecker S :=
  match ev with
  | Check sched limit up => (checkAll cfg sched limit up hc).2
  | Others f => set_hc_store (f (store hc)) hc
  end.

(** Every pass probes every backend it knows, in some order; the others leave
    [b] alone. *)
Fixpoint undisturbed (b : string) (evs : list event) hc : Prop :=
  match evs with
  | [] => True
  | ev :: evs =>
      match ev with
      | Check sched limit _ => (∀ l, sched l ≡ₚ l) ∧ (size (dom (states hc) ∪ act (store hc)) ≤ limit)%nat
      | Others f => ∀ s, live s → live (f s) ∧ (b ∈ act (f s) ↔ b ∈ act s)
      end ∧ undisturbed b evs (step hc ev)
  end.

(** The results of the probes of [b], oldest first. *)
Definition results (b : string) (evs : list event) : list bool :=
  omap (λ ev, match ev with Check _ _ up => Some (up b) | Others _ => None end) evs.

(** Whether the threshold is reached, starting with [n] failures in a row. *)
Fixpoint trips (n : Z) (res : list bool) : bool :=
  match res with
  | [] => false
  | true :: res => trips 0 res
  | false :: res => (unhealthyThreshold cfg <=? n + 1) || trips (n + 1) res
  end.

Lemma events_gone b evs hc : undisturbed b evs hc → gone hc b → gone (foldl step hc evs) b.
Proof using Hdrain.
  revert hc. induction evs as [|ev evs IH]; intros hc Hu Hg; [done|]. destruct Hu as [Hev Hu]. simpl. apply (IH _ Hu).
  destruct ev as [sched limit up|f]; simpl; [apply pass_gone; [apply Hev|done]|].
  destruct Hg as [Hl Hb]. destruct (Hev _ Hl) as [Hl' Hb']. split; [done|]. simpl. by rewrite Hb'.
Qed.

Lemma events_serving b evs n hc :
  undisturbed b evs hc → serving hc b n →
  let hc' := foldl step hc evs in
  live (store hc') ∧ (b ∈ act (store hc') ↔ trips n (results b evs) = false).
Proof using Hdrain.
  revert n hc. induction evs as [|ev evs IH]; intros n hc Hu Hs; [by destruct Hs as (? & ? & _)|].
  destruct Hu as [Hev Hu]. destruct ev as [sched limit up|f].
  - destruct Hev as [Hsched Hlim]. pose proof (pass_serving sched limit up b n hc Hsched Hlim Hs) as Hp.
    cbn [foldl]. change (results b (Check sched limit up :: evs)) with (up b :: results b evs). simpl in Hp |- *.
    destruct (up b); [by apply IH|]. destruct (unhealthyThreshold cfg <=? n + 1); simpl; [|by apply IH].
    apply (events_gone b evs _ Hu) in Hp as [Hl Hb]. by split.
  - cbn [foldl]. change (results b (Others f :: evs)) with (results b evs). apply IH; [done|].
    destruct Hs as (Hl & Hb & Hst). destruct (Hev _ Hl) as [Hl' Hb']. split; [done|]. simpl. by rewrite Hb'.
Qed.

Context (Hut : 1 ≤ unhealthyThreshold cfg).

(** Reaching the threshold is a run of failures. *)
Lemma trips_spec n res :
  0 ≤ n < unhealthyThreshold cfg →
  trips n res = true ↔
  ∃ before after, replicate (Z.to_nat n) false ++ res = before ++ replicate (Z.to_nat (unhealthyThreshold cfg)) false ++ after.
Proof using Hut.
  revert n. induction res as [|x res IH]; intros n Hn; simpl.
  - split; [done|]. intros (before & after & Heq). apply (f_equal length) in Heq.
    rewrite !length_app, !length_replicate in Heq. simpl in Heq. lia.
  - destruct x.
    + rewrite IH by lia. simpl. split.
      * intros (before & after & ->). exists (replicate (Z.to_nat n) false ++ true :: before), after. by rewrite <- app_assoc.
      * intros (before & after & Heq).
        assert (Hlt : (Z.to_nat n < length before)%nat).
        { assert (Htrue : (replicate (Z.to_nat n) false ++ true :: res) !! Z.to_nat n = Some true)
            by (rewrite lookup_app_r; rewrite length_replicate; [by rewrite Nat.sub_diag|lia]).
          destruct (decide (Z.to_nat n < length before)%nat) as [|Hge]; [done|]. exfalso.
          rewrite Heq, lookup_app_r, lookup_app_l in Htrue by (rewrite ?length_replicate; lia).
          by apply lookup_replicate in Htrue as [? _]. }
        exists (drop (Datatypes.S (Z.to_nat n)) before), after.
        apply (f_equal (drop (Datatypes.S (Z.to_nat n)))) in Heq.
        rewrite drop_app_ge, length_replicate in Heq by (rewrite length_replicate; lia).
        replace (Datatypes.S (Z.to_nat n) - Z.to_nat n)%nat with 1%nat in Heq by lia. simpl in Heq.
        rewrite drop_0 in Heq. rewrite Heq, drop_app_le by lia. done.
    + assert (Hsh : replicate (Z.to_nat n) false ++ false :: res = replicate (Z.to_nat (n + 1)) false ++ res).
      { rewrite Z2Nat.inj_add, Nat.add_1_r by lia. by rewrite replicate_S_end, <- app_assoc. }
      rewrite Hsh. destruct (Z.leb_spec (unhealthyThreshold cfg) (n + 1)); simpl.
      * split; [|done]. intros _. exists [], res. simpl. do 2 f_equal. lia.
      * apply IH. lia.
Qed.

(** C35. The health checker takes a backend out at its threshold: with any
    number of passes of [checkAll], each probing every backend it knows in any
    order, and changes of the store by others that leave the backend alone in
    between, a backend that was in the active set when it was first seen is in it
    exactly as long as its probes have not failed as many times in a row as the
    threshold says; after that it stays out, whatever its later probes answer.
    This is the checker without draining on failure ([drainOnUnhealthy = false])
    and with a positive threshold, on a store that answers. *)
Theorem passes_evict_at_threshold hc evs b :
  live (store hc) → b ∈ act (store hc) → states hc !! b = None ∨ states hc !! b = Some fresh_health →
  undisturbed b evs hc →
  b ∈ act (store (foldl step hc evs)) ↔
  ¬ ∃ before after, results b evs = before ++ replicate (Z.to_nat (unhealthyThreshold cfg)) false ++ after.
Proof using Hdrain Hut.
  intros Hl Hb Hst Hu. destruct (events_serving b evs 0 hc Hu) as [_ ->].
  { split; [done|]. split; [done|]. by destruct Hst as [->| ->]. }
  rewrite <- not_true_iff_false. by rewrite (trips_spec 0) by lia.
Qed.
End passes.

(** ** A recovered backend *)

Section recovery.
#[local] Existing Instance map_iter_canonical.
Import StoreMemory.

Definition all_at_once : list string → list string := id.

Definition pass (up : bool) (hc : HealthChecker MemoryStore) : HealthChecker MemoryStore :=
  (checkAll defaults all_at_once 10 (λ _, up) hc).2.

Definition one_backend : HealthChecker MemoryStore :=
  NewHealthChecker (mem_AddBackend "b1" NewMemoryStore).2.

(** After three failed passes, out of the active set; one more pass, in
    which the backend answers, and it counts as healthy. *)
Definition recovered : HealthChecker MemoryStore := pass true (Nat.iter 3 (pass false) one_backend).

(** A backend that recovers is not added back.  With the default
    thresholds, a backend that failed three probes leaves the active set; the
    pass that finds it answering again drops its record and then creates a
    new one, healthy from the start, so that no transition to healthy is ever
    seen: it counts as healthy, but however many successful passes follow, it
    stays out of the active set. *)
Theorem recovered_backend_stays_out n :
  HealthyCount recovered = 1%nat ∧ "b1" ∉ backends (store (Nat.iter n (pass true) recovered)).
Proof.
  split; [by vm_compute|].
  assert (Hm : missed (Nat.iter n (pass true) recovered) "b1"); [|by destruct Hm as (_ & ? & _)].
  induction n as [|n IH]; simpl.
  - split; [by vm_compute|]. split; [by apply (bool_decide_unpack _); vm_compute|].
    eexists. by split; [vm_compute|].
  - by apply (checkAll_missed defaults).
Qed.
End recovery.

End HC.
