(* ===== verification/RedisBreaker.v ===== *)
(** * redis.go: the Redis circuit breaker and its hash fallback

    The breaker that guards the assignment calls, and the fallback that routes
    by hash over the last known list of backends.  The breaker is shown equal
    to a specification that only counts failures since the last success. *)
From stdpp Require Import base gmap strings list fin_maps.
From Stdlib Require Import ZArith Lia.
From S2P Require Import Prelude Go Hashing.
Local Open Scope Z_scope.

Module CB.

Inductive cbState := cbClosed | cbOpen | cbHalfOpen.

#[export] Instance cbState_eq_dec : EqDecision cbState.
Proof. solve_decision. Defined.

Record Breaker := mkBreaker {
  state : cbState;
  cbFailures : Z;
  cbOpenedAt : Z;
  cbThreshold : Z;
  cbCooldown : Duration;
  cachedBackends : list string     (* the fallback list *)
}.

(** The breaker of NewRedis. *)
Definition NewBreaker (threshold : Z) (cooldown : Duration) : Breaker :=
  mkBreaker cbClosed 0 0 threshold cooldown [].

(** The options of the client, and what NewRedis builds. *)
Record Options := mkOptions {
  Addr : string;
  PoolSize : Z;
  MinIdleConns : Z;
  DialTimeout : Duration;
  ReadTimeout : Duration;
  WriteTimeout : Duration;
  PoolTimeout : Duration
}.

Definition NewRedis (addr : string) (poolSize minIdleConns cbThreshold : Z) (cbCooldown : Duration) : Options * Breaker :=
  (mkOptions addr poolSize minIdleConns (5 * Second) (3 * Second) (3 * Second) (4 * Second),
   NewBreaker cbThreshold cbCooldown).

Definition isCBOpen (now : Z) (r : Breaker) : bool * Breaker :=
  match state r with
  | cbOpen =>
      if cbCooldown r <=? now - cbOpenedAt r
      then (false, mkBreaker cbHalfOpen (cbFailures r) (cbOpenedAt r) (cbThreshold r) (cbCooldown r)
                     (cachedBackends r))
      else (true, r)
  | cbHalfOpen => (false, r)
  | cbClosed => (false, r)
  end.

Definition recordCBFailure (now : Z) (r : Breaker) : Breaker :=
  let n := cbFailures r + 1 in
  if cbThreshold r <=? n
  then mkBreaker cbOpen n now (cbThreshold r) (cbCooldown r) (cachedBackends r)
  else mkBreaker (state r) n (cbOpenedAt r) (cbThreshold r) (cbCooldown r) (cachedBackends r).

Definition recordCBSuccess (r : Breaker) : Breaker :=
  mkBreaker (if bool_decide (state r = cbClosed) then state r else cbClosed) 0 (cbOpenedAt r)
    (cbThreshold r) (cbCooldown r) (cachedBackends r).

(** The four bytes of a hash, least significant first. *)
Definition hash_bytes (hash : Z) : list Z :=
  [Z.land hash 255; Z.land (Z.shiftr hash 8) 255; Z.land (Z.shiftr hash 16) 255;
   Z.land (Z.shiftr hash 24) 255].

(** [None] is an index out of range; the empty string is no fallback. *)
Definition hashFallback (hash : Z) (r : Breaker) : option string :=
  match cachedBackends r with
  | [] => Some ""
  | backends => index_mod backends (ChecksumIEEE (hash_bytes hash))
  end.

(** ** The fallback *)

Lemma hash_bytes_range hash : Forall (λ v, 0 ≤ v < 256) (hash_bytes hash).
Proof.
  assert (Hb : ∀ x, 0 ≤ Z.land x 255 < 256).
  { intros x. change 255 with (Z.ones 8). rewrite Z.land_ones by lia. apply Z.mod_pos_bound. lia. }
  unfold hash_bytes. repeat constructor; apply Hb.
Qed.

(** The fallback never panics, and picks one of the cached backends. *)
Lemma hashFallback_cached hash r :
  cachedBackends r ≠ [] → Z.of_nat (length (cachedBackends r)) < two32 →
  ∃ b, hashFallback hash r = Some b ∧ b ∈ cachedBackends r.
Proof.
  intros Hne Hlen. unfold hashFallback. destruct (cachedBackends r) as [|b l] eqn:Hc; [done|].
  apply index_mod_some; [done| |done]. apply ChecksumIEEE_u32, hash_bytes_range.
Qed.

(** ** The breaker *)

Inductive op := OpFailure (t : Z) | OpSuccess (t : Z) | OpQuery (t : Z).

Definition op_time (o : op) : Z := match o with OpFailure t | OpSuccess t | OpQuery t => t end.

Definition step (r : Breaker) (o : op) : Breaker :=
  match o with
  | OpFailure t => recordCBFailure t r
  | OpSuccess _ => recordCBSuccess r
  | OpQuery t => (isCBOpen t r).2
  end.

(** The specification: the failures since the last success, and the instant of
    the last failure. *)
Definition spec_step (s : Z * Z) (o : op) : Z * Z :=
  let '(n, last) := s in
  match o with
  | OpFailure t => (n + 1, t)
  | OpSuccess _ => (0, last)
  | OpQuery _ => (n, last)
  end.

Definition spec_open (threshold cooldown now : Z) (s : Z * Z) : bool :=
  (threshold <=? s.1) && (now <? s.2 + cooldown).

Fixpoint monotone (t : Z) (ops : list op) : Prop :=
  match ops with [] => True | o :: ops => t ≤ op_time o ∧ monotone (op_time o) ops end.

Definition agrees (threshold cooldown T : Z) (r : Breaker) (s : Z * Z) : Prop :=
  cbThreshold r = threshold ∧ cbCooldown r = cooldown ∧ cbFailures r = s.1 ∧ 0 ≤ s.1 ∧
  (s.1 < threshold → state r = cbClosed) ∧
  (threshold ≤ s.1 →
     state r = cbOpen ∧ cbOpenedAt r = s.2 ∨ state r = cbHalfOpen ∧ s.2 + cooldown ≤ T).

Lemma agrees_query threshold cooldown T now r s :
  agrees threshold cooldown T r s → T ≤ now → (isCBOpen now r).1 = spec_open threshold cooldown now s.
Proof.
  intros (_ & Hcd & _ & _ & Hlo & Hhi) Hn. unfold isCBOpen, spec_open.
  destruct (Z.leb_spec threshold s.1) as [H|H]; simpl; [|by rewrite Hlo].
  destruct (Hhi H) as [[-> Hat]|[-> Hle]].
  - rewrite Hcd, Hat. destruct (Z.leb_spec cooldown (now - s.2)), (Z.ltb_spec now (s.2 + cooldown)); simpl; lia || done.
  - destruct (Z.ltb_spec now (s.2 + cooldown)); [lia|done].
Qed.

Lemma agrees_step threshold cooldown T r s o :
  1 ≤ threshold → agrees threshold cooldown T r s → T ≤ op_time o →
  agrees threshold cooldown (op_time o) (step r o) (spec_step s o).
Proof.
  intros Hth (H1 & H2 & H3 & H4 & Hlo & Hhi) Ht. destruct s as [n last]. simpl in *.
  destruct o as [t|t|t]; simpl in *.
  - unfold recordCBFailure. rewrite H1, H3. destruct (Z.leb_spec threshold (n + 1)).
    + do 3 (split; [done|]). simpl. split; [lia|]. split; [lia|]. by left.
    + do 3 (split; [done|]). simpl. split; [lia|]. split; [intros _; apply Hlo; lia|lia].
  - do 3 (split; [done|]). simpl. split; [done|]. split; [|lia]. intros _. by case_bool_decide.
  - unfold isCBOpen. destruct (state r) eqn:Hs; simpl.
    + split; [done|]. split; [done|]. split; [done|]. split; [done|]. rewrite Hs. split; [done|].
      intros Hx. destruct (Hhi Hx) as [[? _]|[? _]]; done.
    + destruct (Z.leb_spec (cbCooldown r) (t - cbOpenedAt r)) as [Hc|Hc]; simpl.
      * do 3 (split; [done|]). split; [done|]. simpl. split; [intros Hx; by specialize (Hlo Hx)|].
        intros Hx. right. split; [done|]. destruct (Hhi Hx) as [[_ Hat]|[? _]]; [lia|done].
      * split; [done|]. split; [done|]. split; [done|]. split; [done|]. rewrite Hs. split; [done|].
        intros Hx. left. destruct (Hhi Hx) as [[_ ?]|[? _]]; done.
    + split; [done|]. split; [done|]. split; [done|]. split; [done|]. rewrite Hs. split; [done|].
      intros Hx. right. split; [done|]. destruct (Hhi Hx) as [[? _]|[_ ?]]; [done|simpl; lia].
Qed.

(** The Redis circuit breaker is open exactly when at least [threshold]
    calls failed since the last one that succeeded and the last failure is less
    than the cooldown ago, after any sequence of failures, successes and checks
    in time order.  After the cooldown every caller is let through, not one
    probe, until a call fails again. *)
Theorem redis_breaker_refines threshold cooldown t ops now :
  1 ≤ threshold → monotone t ops → Forall (λ o, op_time o ≤ now) ops → t ≤ now →
  (isCBOpen now (foldl step (NewBreaker threshold cooldown) ops)).1
  = spec_open threshold cooldown now (foldl spec_step (0, 0) ops).
Proof.
  intros Hth Hmono Hnow Htn.
  assert (Ha : agrees threshold cooldown t (NewBreaker threshold cooldown) (0, 0)).
  { do 3 (split; [done|]). split; [done|]. simpl. split; [done|lia]. }
  revert t Hmono Htn Ha. generalize (NewBreaker threshold cooldown) as r. generalize (0, 0) as s.
  induction Hnow as [|o ops Ho Hops IH]; intros s r t Hmono Htn Ha; simpl.
  - by eapply agrees_query.
  - destruct Hmono as [Ht Hmono]. eapply IH; [exact Hmono|done|]. by eapply agrees_step.
Qed.

Lemma redis_breaker_refines_witness :
  let ops := [OpFailure 1; OpQuery 2; OpSuccess 3; OpFailure 4; OpFailure 5] in
  (isCBOpen 9 (foldl step (NewBreaker 2 10) ops)).1 = true ∧
  spec_open 2 10 9 (foldl spec_step (0, 0) ops) = true.
Proof.
  assert (Heq := redis_breaker_refines 2 10 0
    [OpFailure 1; OpQuery 2; OpSuccess 3; OpFailure 4; OpFailure 5] 9).
  split; [|by vm_compute]. rewrite Heq; [by vm_compute|lia| |by repeat constructor|lia].
  simpl. lia.
Defined.

End CB.
