(* ===== verification/Config.v ===== *)
(** * internal/config/config.go: the configuration

    [Load] reads the environment (a function that is empty on unset variables,
    like [os.Getenv]) in the order of the source and stops at the first error.
    The fields of [Config] are grouped by the part of [Load] that sets them. *)
From stdpp Require Import base strings list.
From Stdlib Require Import ZArith Lia.
From S2P Require Import Prelude Go Hashing GoText.
Local Open Scope Z_scope.

Module Config.

(** The error messages, by what they complain about. *)
Inductive config_error :=
  | Missing (key : string)             (* "... is required but not set" *)
  | Invalid (key : string)             (* "invalid KEY ..." *)
  | Requires (what needs : string).    (* "WHAT requires NEEDS" *)

Abbreviation E A := (config_error + A)%type.

Definition bindE {A B} (e : E A) (f : A → E B) : E B :=
  match e with inl err => inl err | inr x => f x end.

Notation "'let!' x ':=' e 'in' k" := (bindE e (λ x, k)) (at level 10, x pattern, k at level 200).

(** Lines 65-141. *)
Record Limits := mkLimits {
  ProxyPort : string;
  RedisAddr : string;
  JWTSecret : string;
  CacheTTL : Duration;
  RedisPoolSize : Z;
  RedisMinIdleConns : Z;
  RedisCBThreshold : Z;
  RedisCBCooldown : Duration;
  JWTCacheMaxSize : Z;
  EvictionThreshold : Z;
  EvictionCooldown : Duration;
  BackendHealthInterval : Duration
}.

(** Lines 143-171. *)
Record Hooks := mkHooks {
  RoutingClaim : string;
  HooksEnabled : bool;
  HooksTimeout : Duration;
  HooksRetries : Z;
  DrainTimeout : Duration;
  DrainOnUnhealthy : bool
}.

(** Lines 173-250. *)
Record Modes := mkModes {
  RoutingMode : string;
  AccountsDiscovery : string;
  AccountsQuery : string;
  PostgresDSN : string;
  AccountsRefreshInterval : Duration;
  RebalanceStrategy : string;
  RebalanceOnScale : bool;
  BackendDiscovery : string;
  BackendDiscoveryHost : string;
  BackendDiscoveryPort : string;
  BackendDiscoveryInterval : Duration;
  BackendDiscoveryNamespace : string;
  BackendDiscoverySelector : string;
  BackendDiscoveryPortName : string;
  AssignmentStore : string
}.

(** Lines 281-354. *)
Record Extras := mkExtras {
  WSSwapOnRebalance : bool;
  HoldDuringTransition : bool;
  HoldTimeout : Duration;
  PoisonPillAction : string;
  PoisonPillThreshold : Z;
  PoisonPillWindow : Duration;
  BackendMaxConnsPerHost : Z;
  BackendMaxIdleConnsPerHost : Z;
  BackendIdleConnTimeout : Duration;
  PublicPaths : list string;
  AdminToken : string;
  LogFormat : string
}.

Record Config := mkConfig { limits : Limits; hooks : Hooks; modes : Modes; extras : Extras }.

Section load.
Context (env : string → string).

Definition envOrDefault (key fallback : string) : string :=
  if bool_decide (env key ≠ "") then env key else fallback.

Definition parse {A} (f : string → option A) (key : string) (fallback : A) : E A :=
  if bool_decide (env key = "") then inr fallback
  else match f (env key) with Some x => inr x | None => inl (Invalid key) end.

Definition parseInt : string → Z → E Z := parse Atoi.
Definition parseDuration : string → Duration → E Duration := parse ParseDuration.

(** A value outside its options is an error. *)
Definition oneof (key v : string) (options : list string) : E unit :=
  if bool_decide (v ∈ options) then inr tt else inl (Invalid key).

(** [":" +] a port without a colon. *)
Definition with_colon (port : string) : string :=
  match port with
  | EmptyString => EmptyString
  | String c _ => if bool_decide (c = Ascii.ascii_of_N 58) then port else ":" +:+ port
  end.

Definition load_limits : E Limits :=
  let port := with_colon (envOrDefault "PROXY_PORT" ":8080") in
  let addr := envOrDefault "REDIS_ADDR" "localhost:6379" in
  let secret := env "JWT_SECRET" in
  if bool_decide (secret = "") then inl (Missing "JWT_SECRET")
  else
    let! cacheTTL := parseDuration "CACHE_TTL" (24 * 60 * Minute) in
    let! poolSize := parseInt "REDIS_POOL_SIZE" 100 in
    let! minIdle := parseInt "REDIS_MIN_IDLE_CONNS" 10 in
    let! cbThreshold := parseInt "REDIS_CB_THRESHOLD" 5 in
    let! cbCooldown := parseDuration "REDIS_CB_COOLDOWN" (30 * Second) in
    let! jwtCacheMax := parseInt "JWT_CACHE_MAX_SIZE" 100000 in
    let! threshold := parseInt "EVICTION_THRESHOLD" 3 in
    let! cooldown := parseDuration "EVICTION_COOLDOWN" Minute in
    let! healthInterval := parseDuration "BACKEND_HEALTH_INTERVAL" (10 * Second) in
    inr (mkLimits port addr secret cacheTTL poolSize minIdle cbThreshold cbCooldown jwtCacheMax
           threshold cooldown healthInterval).

Definition is_true (key : string) : bool := bool_decide (env key = "true").

Definition load_hooks : E Hooks :=
  let claim := envOrDefault "ROUTING_CLAIM" "sub" in
  let enabled := is_true "HOOKS_ENABLED" in
  let! hooksTimeout := parseDuration "HOOKS_TIMEOUT" (5 * Second) in
  let! hooksRetries := parseInt "HOOKS_RETRIES" 2 in
  let! drainTimeout := parseDuration "DRAIN_TIMEOUT" (60 * Second) in
  inr (mkHooks claim enabled hooksTimeout hooksRetries drainTimeout (is_true "DRAIN_ON_UNHEALTHY")).

(** The default of ASSIGNMENT_STORE. *)
Definition default_store (accounts mode : string) : string :=
  if bool_decide (env "ASSIGNMENT_STORE" ≠ "") then env "ASSIGNMENT_STORE"
  else if bool_decide (accounts = "postgres") then "postgres"
  else if bool_decide (mode = "hash") then "memory"
  else "redis".

Definition load_modes : E Modes :=
  let mode := envOrDefault "ROUTING_MODE" "hash" in
  let! _ := oneof "ROUTING_MODE" mode ["hash"; "assignment"] in
  let accounts := env "ACCOUNTS_DISCOVERY" in
  let! _ := oneof "ACCOUNTS_DISCOVERY" accounts [""; "redis"; "http"; "postgres"] in
  let! accountsInterval := parseDuration "ACCOUNTS_REFRESH_INTERVAL" (30 * Second) in
  let strategy := envOrDefault "REBALANCE_STRATEGY" "none" in
  let! _ := oneof "REBALANCE_STRATEGY" strategy ["none"; "least-loaded"; "consistent-hash"] in
  let discovery := env "BACKEND_DISCOVERY" in
  let! _ := oneof "BACKEND_DISCOVERY" discovery [""; "dns"; "kubernetes"] in
  let! interval := parseDuration "BACKEND_DISCOVERY_INTERVAL" (10 * Second) in
  let store := default_store accounts mode in
  let! _ := oneof "ASSIGNMENT_STORE" store ["memory"; "redis"; "postgres"] in
  inr (mkModes mode accounts (env "ACCOUNTS_QUERY") (env "POSTGRES_DSN") accountsInterval strategy
         (is_true "REBALANCE_ON_SCALE") discovery (env "BACKEND_DISCOVERY_HOST")
         (envOrDefault "BACKEND_DISCOVERY_PORT" "5678") interval (env "BACKEND_DISCOVERY_NAMESPACE")
         (env "BACKEND_DISCOVERY_SELECTOR") (env "BACKEND_DISCOVERY_PORT_NAME") store).

(** The cross-field rules, in order: the condition that is refused, and the
    message. *)
Definition rules (m : Modes) : list (bool * (string * string)) :=
  [ (bool_decide (AccountsDiscovery m ≠ "") && bool_decide (RoutingMode m ≠ "assignment"),
     ("ACCOUNTS_DISCOVERY", "ROUTING_MODE=assignment"));
    (bool_decide (AccountsDiscovery m = "postgres") && bool_decide (PostgresDSN m = ""),
     ("ACCOUNTS_DISCOVERY=postgres", "POSTGRES_DSN"));
    (bool_decide (BackendDiscovery m = "dns") && bool_decide (BackendDiscoveryHost m = ""),
     ("BACKEND_DISCOVERY=dns", "BACKEND_DISCOVERY_HOST"));
    (bool_decide (BackendDiscovery m = "kubernetes") && bool_decide (BackendDiscoverySelector m = ""),
     ("BACKEND_DISCOVERY=kubernetes", "BACKEND_DISCOVERY_SELECTOR"));
    (bool_decide (RebalanceStrategy m ≠ "none") && bool_decide (RoutingMode m ≠ "assignment"),
     ("REBALANCE_STRATEGY", "ROUTING_MODE=assignment"));
    (bool_decide (AssignmentStore m = "memory") && bool_decide (RoutingMode m ≠ "hash"),
     ("ASSIGNMENT_STORE=memory", "ROUTING_MODE=hash"));
    (bool_decide (AssignmentStore m = "postgres") && bool_decide (RoutingMode m ≠ "assignment"),
     ("ASSIGNMENT_STORE=postgres", "ROUTING_MODE=assignment"));
    (bool_decide (AssignmentStore m = "postgres") && bool_decide (PostgresDSN m = ""),
     ("ASSIGNMENT_STORE=postgres", "POSTGRES_DSN"));
    (bool_decide (AccountsDiscovery m = "redis") && bool_decide (AssignmentStore m ≠ "redis"),
     ("ACCOUNTS_DISCOVERY=redis", "ASSIGNMENT_STORE=redis")) ].

Fixpoint validate (rs : list (bool * (string * string))) : E unit :=
  match rs with
  | [] => inr tt
  | (refused, (what, needs)) :: rs => if refused : bool then inl (Requires what needs) else validate rs
  end.

Definition public_paths (pp : string) : list string :=
  if bool_decide (pp = "") then []
  else filter (λ p, p ≠ "") (TrimSpace <$> SplitComma pp).

Definition load_extras : E Extras :=
  let swap := bool_decide (env "WS_SWAP_ON_REBALANCE" ≠ "false") in
  let hold := is_true "HOLD_DURING_TRANSITION" in
  let! holdTimeout := parseDuration "HOLD_TIMEOUT" (5 * Second) in
  let action := env "POISON_PILL_ACTION" in
  let! _ := oneof "POISON_PILL_ACTION" action [""; "quarantine"] in
  let! ppThreshold := parseInt "POISON_PILL_THRESHOLD" 3 in
  let! ppWindow := parseDuration "POISON_PILL_WINDOW" (5 * Minute) in
  let! maxConns := parseInt "BACKEND_MAX_CONNS_PER_HOST" 500 in
  let! maxIdle := parseInt "BACKEND_MAX_IDLE_CONNS_PER_HOST" 0 in
  let! idleTimeout := parseDuration "BACKEND_IDLE_CONN_TIMEOUT" (90 * Second) in
  let paths := public_paths (env "PUBLIC_PATHS") in
  let token := env "ADMIN_TOKEN" in
  let format := envOrDefault "LOG_FORMAT" "json" in
  let! _ := oneof "LOG_FORMAT" format ["json"; "text"] in
  inr (mkExtras swap hold holdTimeout action ppThreshold ppWindow maxConns maxIdle idleTimeout paths
         token format).

Definition Load : E Config :=
  let! l := load_limits in
  let! h := load_hooks in
  let! m := load_modes in
  let! _ := validate (rules m) in
  let! x := load_extras in
  inr (mkConfig l h m x).
End load.

(** ** What is accepted, and why something is refused *)

(** The documented variables that have a type, each with its type; an empty
    variable counts as unset. *)
Inductive kind := KInt | KDuration | KOneOf (options : list string).

Definition schema : list (string * kind) :=
  [ ("CACHE_TTL", KDuration);
    ("REDIS_POOL_SIZE", KInt);
    ("REDIS_MIN_IDLE_CONNS", KInt);
    ("REDIS_CB_THRESHOLD", KInt);
    ("REDIS_CB_COOLDOWN", KDuration);
    ("JWT_CACHE_MAX_SIZE", KInt);
    ("EVICTION_THRESHOLD", KInt);
    ("EVICTION_COOLDOWN", KDuration);
    ("BACKEND_HEALTH_INTERVAL", KDuration);
    ("HOOKS_TIMEOUT", KDuration);
    ("HOOKS_RETRIES", KInt);
    ("DRAIN_TIMEOUT", KDuration);
    ("ROUTING_MODE", KOneOf ["hash"; "assignment"]);
    ("ACCOUNTS_DISCOVERY", KOneOf ["redis"; "http"; "postgres"]);
    ("ACCOUNTS_REFRESH_INTERVAL", KDuration);
    ("REBALANCE_STRATEGY", KOneOf ["none"; "least-loaded"; "consistent-hash"]);
    ("BACKEND_DISCOVERY", KOneOf ["dns"; "kubernetes"]);
    ("BACKEND_DISCOVERY_INTERVAL", KDuration);
    ("ASSIGNMENT_STORE", KOneOf ["memory"; "redis"; "postgres"]);
    ("HOLD_TIMEOUT", KDuration);
    ("POISON_PILL_ACTION", KOneOf ["quarantine"]);
    ("POISON_PILL_THRESHOLD", KInt);
    ("POISON_PILL_WINDOW", KDuration);
    ("BACKEND_MAX_CONNS_PER_HOST", KInt);
    ("BACKEND_MAX_IDLE_CONNS_PER_HOST", KInt);
    ("BACKEND_IDLE_CONN_TIMEOUT", KDuration);
    ("LOG_FORMAT", KOneOf ["json"; "text"]) ].

Section spec.
Context (env : string → string).

Definition well_typed (p : string * kind) : Prop :=
  env p.1 = "" ∨
  match p.2 with
  | KInt => is_Some (Atoi (env p.1))
  | KDuration => is_Some (ParseDuration (env p.1))
  | KOneOf options => env p.1 ∈ options
  end.

(** The value of a variable, or its default. *)
Definition text_or (key d : string) : string := if decide (env key = "") then d else env key.
Definition int_or (key : string) (d : Z) : Z := if decide (env key = "") then d else default 0 (Atoi (env key)).
Definition time_or (key : string) (d : Duration) : Duration :=
  if decide (env key = "") then d else default 0 (ParseDuration (env key)).

Definition routing_mode : string := text_or "ROUTING_MODE" "hash".

Definition assignment_store : string :=
  text_or "ASSIGNMENT_STORE"
    (if decide (env "ACCOUNTS_DISCOVERY" = "postgres") then "postgres"
     else if decide (routing_mode = "hash") then "memory" else "redis").

(** What some settings need of others, under the words of the message. *)
Definition requirements : list (string * string * Prop) :=
  [ ("ACCOUNTS_DISCOVERY", "ROUTING_MODE=assignment",
     env "ACCOUNTS_DISCOVERY" ≠ "" → routing_mode = "assignment");
    ("ACCOUNTS_DISCOVERY=postgres", "POSTGRES_DSN",
     env "ACCOUNTS_DISCOVERY" = "postgres" → env "POSTGRES_DSN" ≠ "");
    ("BACKEND_DISCOVERY=dns", "BACKEND_DISCOVERY_HOST",
     env "BACKEND_DISCOVERY" = "dns" → env "BACKEND_DISCOVERY_HOST" ≠ "");
    ("BACKEND_DISCOVERY=kubernetes", "BACKEND_DISCOVERY_SELECTOR",
     env "BACKEND_DISCOVERY" = "kubernetes" → env "BACKEND_DISCOVERY_SELECTOR" ≠ "");
    ("REBALANCE_STRATEGY", "ROUTING_MODE=assignment",
     env "REBALANCE_STRATEGY" ∉ [""; "none"] → routing_mode = "assignment");
    ("ASSIGNMENT_STORE=memory", "ROUTING_MODE=hash",
     assignment_store = "memory" → routing_mode = "hash");
    ("ASSIGNMENT_STORE=postgres", "ROUTING_MODE=assignment",
     assignment_store = "postgres" → routing_mode = "assignment");
    ("ASSIGNMENT_STORE=postgres", "POSTGRES_DSN",
     assignment_store = "postgres" → env "POSTGRES_DSN" ≠ "");
    ("ACCOUNTS_DISCOVERY=redis", "ASSIGNMENT_STORE=redis",
     env "ACCOUNTS_DISCOVERY" = "redis" → assignment_store = "redis") ].

Definition acceptable : Prop :=
  env "JWT_SECRET" ≠ "" ∧ Forall well_typed schema ∧ Forall snd requirements.

(** Every field with its default. *)
Definition the_limits : Limits :=
  let port := text_or "PROXY_PORT" ":8080" in
  {| ProxyPort := if String.prefix ":" port then port else ":" +:+ port;
     RedisAddr := text_or "REDIS_ADDR" "localhost:6379";
     JWTSecret := env "JWT_SECRET";
     CacheTTL := time_or "CACHE_TTL" (24 * 60 * Minute);
     RedisPoolSize := int_or "REDIS_POOL_SIZE" 100;
     RedisMinIdleConns := int_or "REDIS_MIN_IDLE_CONNS" 10;
     RedisCBThreshold := int_or "REDIS_CB_THRESHOLD" 5;
     RedisCBCooldown := time_or "REDIS_CB_COOLDOWN" (30 * Second);
     JWTCacheMaxSize := int_or "JWT_CACHE_MAX_SIZE" 100000;
     EvictionThreshold := int_or "EVICTION_THRESHOLD" 3;
     EvictionCooldown := time_or "EVICTION_COOLDOWN" Minute;
     BackendHealthInterval := time_or "BACKEND_HEALTH_INTERVAL" (10 * Second) |}.

Definition the_hooks : Hooks :=
  {| RoutingClaim := text_or "ROUTING_CLAIM" "sub";
     HooksEnabled := bool_decide (env "HOOKS_ENABLED" = "true");
     HooksTimeout := time_or "HOOKS_TIMEOUT" (5 * Second);
     HooksRetries := int_or "HOOKS_RETRIES" 2;
     DrainTimeout := time_or "DRAIN_TIMEOUT" Minute;
     DrainOnUnhealthy := bool_decide (env "DRAIN_ON_UNHEALTHY" = "true") |}.

Definition the_modes : Modes :=
  {| RoutingMode := routing_mode;
     AccountsDiscovery := env "ACCOUNTS_DISCOVERY";
     AccountsQuery := env "ACCOUNTS_QUERY";
     PostgresDSN := env "POSTGRES_DSN";
     AccountsRefreshInterval := time_or "ACCOUNTS_REFRESH_INTERVAL" (30 * Second);
     RebalanceStrategy := text_or "REBALANCE_STRATEGY" "none";
     RebalanceOnScale := bool_decide (env "REBALANCE_ON_SCALE" = "true");
     BackendDiscovery := env "BACKEND_DISCOVERY";
     BackendDiscoveryHost := env "BACKEND_DISCOVERY_HOST";
     BackendDiscoveryPort := text_or "BACKEND_DISCOVERY_PORT" "5678";
     BackendDiscoveryInterval := time_or "BACKEND_DISCOVERY_INTERVAL" (10 * Second);
     BackendDiscoveryNamespace := env "BACKEND_DISCOVERY_NAMESPACE";
     BackendDiscoverySelector := env "BACKEND_DISCOVERY_SELECTOR";
     BackendDiscoveryPortName := env "BACKEND_DISCOVERY_PORT_NAME";
     AssignmentStore := assignment_store |}.

Definition the_extras : Extras :=
  {| WSSwapOnRebalance := negb (bool_decide (env "WS_SWAP_ON_REBALANCE" = "false"));
     HoldDuringTransition := bool_decide (env "HOLD_DURING_TRANSITION" = "true");
     HoldTimeout := time_or "HOLD_TIMEOUT" (5 * Second);
     PoisonPillAction := env "POISON_PILL_ACTION";
     PoisonPillThreshold := int_or "POISON_PILL_THRESHOLD" 3;
     PoisonPillWindow := time_or "POISON_PILL_WINDOW" (5 * Minute);
     BackendMaxConnsPerHost := int_or "BACKEND_MAX_CONNS_PER_HOST" 500;
     BackendMaxIdleConnsPerHost := int_or "BACKEND_MAX_IDLE_CONNS_PER_HOST" 0;
     BackendIdleConnTimeout := time_or "BACKEND_IDLE_CONN_TIMEOUT" (90 * Second);
     PublicPaths := filter (λ p, p ≠ "") (TrimSpace <$> SplitComma (env "PUBLIC_PATHS"));
     AdminToken := env "ADMIN_TOKEN";
     LogFormat := text_or "LOG_FORMAT" "json" |}.

Definition configuration : Config := mkConfig the_limits the_hooks the_modes the_extras.

(** The error names what is wrong. *)
Definition explains (e : config_error) : Prop :=
  match e with
  | Missing key => key = "JWT_SECRET" ∧ env key = ""
  | Invalid key => ∃ k, (key, k) ∈ schema ∧ ¬ well_typed (key, k)
  | Requires what needs => ∃ P, (what, needs, P) ∈ requirements ∧ ¬ P
  end.
End spec.

(** *** The steps of [Load] *)

Section steps.
Context (env : string → string).

(** A step that delivers [y] when [P] holds, and otherwise an error that names
    its reason. *)
Definition computes {A} (e : E A) (P : Prop) (y : A) : Prop :=
  match e with inr x => P ∧ x = y | inl err => ¬ P ∧ explains env err end.

Lemma computes_parseInt key d :
  (key, KInt) ∈ schema → computes (parseInt env key d) (well_typed env (key, KInt)) (int_or env key d).
Proof.
  intros Hk. unfold parseInt, parse, int_or, computes. case_bool_decide as He.
  - rewrite decide_True by done. split; [by left|done].
  - rewrite decide_False by done. destruct (Atoi (env key)) as [x|] eqn:Ha.
    + split; [right; by exists x|done].
    + assert (¬ well_typed env (key, KInt)); [|split; [done|by exists KInt]].
      unfold well_typed. simpl. rewrite Ha. by intros [?|[? ?]].
Qed.

Lemma computes_parseDuration key d :
  (key, KDuration) ∈ schema → computes (parseDuration env key d) (well_typed env (key, KDuration)) (time_or env key d).
Proof.
  intros Hk. unfold parseDuration, parse, time_or, computes. case_bool_decide as He.
  - rewrite decide_True by done. split; [by left|done].
  - rewrite decide_False by done. destruct (ParseDuration (env key)) as [x|] eqn:Ha.
    + split; [right; by exists x|done].
    + assert (¬ well_typed env (key, KDuration)); [|split; [done|by exists KDuration]].
      unfold well_typed. simpl. rewrite Ha. by intros [?|[? ?]].
Qed.

(** The value tested is the variable's, when it has one, and otherwise allowed. *)
Lemma computes_oneof key v os os' :
  (key, KOneOf os) ∈ schema → (env key = "" → v ∈ os') → (env key ≠ "" → v = env key) →
  (∀ x, x ≠ "" → x ∈ os' ↔ x ∈ os) →
  computes (oneof key v os') (well_typed env (key, KOneOf os)) tt.
Proof.
  intros Hk Hempty Hset Hos. unfold oneof, computes, well_typed. simpl.
  assert (Hiff : v ∈ os' ↔ env key = "" ∨ env key ∈ os).
  { destruct (decide (env key = "")) as [He|He]; [naive_solver|]. rewrite (Hset He), Hos by done. naive_solver. }
  case_bool_decide as Hv; rewrite Hiff in Hv; [done|]. split; [done|]. by exists (KOneOf os).
Qed.

Lemma computes_bind {A B} (e : E A) (f : A → E B) P Q x y :
  computes e P x → computes (f x) Q y → computes (bindE e f) (P ∧ Q) y.
Proof.
  unfold computes, bindE. destruct e as [err|x']; [by intros [? ?] _; split; [intros [? _]|]|].
  intros [HP ->] Hf. destruct (f x) as [err|y']; naive_solver.
Qed.

Lemma computes_ret {A} (x : A) : computes (inr x) True x.
Proof. done. Qed.

Lemma computes_iff {A} (e : E A) P Q x y : computes e P x → (P ↔ Q) → x = y → computes e Q y.
Proof. intros He Hiff <-. unfold computes in *. destruct e; by rewrite <- Hiff. Qed.
End steps.

(** Follow a chain of [let!]. *)
Ltac in_schema := unfold schema; repeat (first [apply list_elem_of_here | apply list_elem_of_further]).

Ltac compute_step :=
  cbv beta;
  lazymatch goal with
  | |- computes _ (inr _) _ _ => apply computes_ret
  | |- computes _ (bindE (parseInt _ _ _) _) _ _ => eapply computes_bind; [apply computes_parseInt; in_schema|]
  | |- computes _ (bindE (parseDuration _ _ _) _) _ _ => eapply computes_bind; [apply computes_parseDuration; in_schema|]
  end.

Section outcome.
Context (env : string → string).

Lemma text_or_empty key d : env key = "" → text_or env key d = d.
Proof. unfold text_or. intros ->. done. Qed.

Lemma text_or_set key d : env key ≠ "" → text_or env key d = env key.
Proof. unfold text_or. by case_decide. Qed.

Lemma envOrDefault_text key d : envOrDefault env key d = text_or env key d.
Proof. unfold envOrDefault, text_or. by case_bool_decide; case_decide. Qed.

Lemma default_store_text :
  default_store env (env "ACCOUNTS_DISCOVERY") (envOrDefault env "ROUTING_MODE" "hash") = assignment_store env.
Proof.
  rewrite envOrDefault_text. unfold default_store, assignment_store, routing_mode, text_or.
  repeat case_bool_decide; repeat case_decide; done.
Qed.

(** A default among the options. *)
Lemma computes_default key d os :
  (key, KOneOf os) ∈ schema → d ∈ os →
  computes env (oneof key (text_or env key d) os) (well_typed env (key, KOneOf os)) tt.
Proof.
  intros Hk Hd. apply computes_oneof; [done| |apply text_or_set|done]. intros He. by rewrite text_or_empty.
Qed.

(** No default, and the empty value allowed. *)
Lemma computes_optional key os :
  (key, KOneOf os) ∈ schema →
  computes env (oneof key (env key) ("" :: os)) (well_typed env (key, KOneOf os)) tt.
Proof. intros Hk. apply computes_oneof; [done|set_solver|done|set_solver]. Qed.

Lemma port_text :
  with_colon (envOrDefault env "PROXY_PORT" ":8080") =
  let port := text_or env "PROXY_PORT" ":8080" in if String.prefix ":" port then port else ":" +:+ port.
Proof.
  unfold envOrDefault, text_or. case_bool_decide as He; case_decide; try done. cbv zeta.
  destruct (env "PROXY_PORT") as [|c port]; [done|]. unfold with_colon. cbn [String.prefix].
  match goal with |- context [Ascii.ascii_dec ?a c] => destruct (Ascii.ascii_dec a c) as [<-|Hne] end;
    [by destruct port|]. case_bool_decide as Hc; [by destruct Hne|done].
Qed.

Lemma paths_text : public_paths (env "PUBLIC_PATHS") = filter (λ p, p ≠ "") (TrimSpace <$> SplitComma (env "PUBLIC_PATHS")).
Proof. unfold public_paths. case_bool_decide as Hp; [|done]. by rewrite Hp. Qed.

Definition group (i n : nat) : list (string * kind) := take n (drop i schema).

Lemma computes_limits :
  computes env (load_limits env) (env "JWT_SECRET" ≠ "" ∧ Forall (well_typed env) (group 0 9)) (the_limits env).
Proof.
  unfold load_limits. case_bool_decide as Hs; [split; [by intros [? _]|done]|].
  eapply computes_iff; [repeat compute_step|unfold group; simpl; rewrite !Forall_cons, Forall_nil; tauto|].
  unfold the_limits. rewrite port_text. f_equal. apply envOrDefault_text.
Qed.

Lemma computes_hooks : computes env (load_hooks env) (Forall (well_typed env) (group 9 3)) (the_hooks env).
Proof.
  unfold load_hooks. eapply computes_iff; [repeat compute_step|unfold group; simpl; rewrite !Forall_cons, Forall_nil; tauto|].
  unfold the_hooks, is_true. f_equal. apply envOrDefault_text.
Qed.

Lemma computes_modes : computes env (load_modes env) (Forall (well_typed env) (group 12 7)) (the_modes env).
Proof.
  unfold load_modes. rewrite default_store_text, !envOrDefault_text.
  eapply computes_iff; [|unfold group; simpl; rewrite !Forall_cons, Forall_nil; reflexivity|].
  - eapply computes_bind; [apply computes_default; [in_schema|set_solver]|].
    eapply computes_bind; [apply computes_optional; in_schema|]. compute_step.
    eapply computes_bind; [apply computes_default; [in_schema|set_solver]|].
    eapply computes_bind; [apply computes_optional; in_schema|]. compute_step.
    eapply computes_bind; [|compute_step]. apply computes_default; [in_schema|]. repeat case_decide; set_solver.
  - done.
Qed.

Lemma computes_extras : computes env (load_extras env) (Forall (well_typed env) (group 19 8)) (the_extras env).
Proof.
  unfold load_extras. rewrite paths_text, !envOrDefault_text.
  eapply computes_iff; [|unfold group; simpl; rewrite !Forall_cons, Forall_nil; reflexivity|].
  - compute_step. eapply computes_bind; [apply computes_optional; in_schema|]. repeat compute_step.
    eapply computes_bind; [apply computes_default; [in_schema|set_solver]|compute_step].
  - unfold the_extras, is_true. f_equal. repeat case_bool_decide; done.
Qed.

(** The rules are the requirements, each refused exactly when it does not hold. *)
Definition refuses (r : bool * (string * string)) (q : string * string * Prop) : Prop :=
  r.2 = q.1 ∧ (r.1 = true ↔ ¬ q.2) ∧ (r.1 = false ↔ q.2).

Lemma rules_requirements : Forall2 refuses (rules (the_modes env)) (requirements env).
Proof.
  assert (Hrule : ∀ (P Q : Prop) `{!Decision P, !Decision Q} (R : Prop), (R ↔ (P → ¬ Q)) →
    (bool_decide P && bool_decide Q = true ↔ ¬ R) ∧ (bool_decide P && bool_decide Q = false ↔ R)).
  { intros P Q ? ? R ->. repeat case_bool_decide; simpl; naive_solver. }
  assert (Hst : text_or env "REBALANCE_STRATEGY" "none" ≠ "none" ↔ env "REBALANCE_STRATEGY" ∉ [""; "none"]).
  { unfold text_or. case_decide as He; [rewrite He|]; set_solver. }
  unfold rules, requirements. simpl.
  repeat (constructor; [split; [done|apply Hrule; rewrite ?Hst; try tauto;
    split; [naive_solver|intros H1 H2; apply dec_stable; naive_solver]]|]). constructor.
Qed.

Lemma computes_rules rs qs :
  Forall2 refuses rs qs → qs ⊆ requirements env → computes env (validate rs) (Forall snd qs) tt.
Proof.
  induction 1 as [|[r [w n]] [[w' n'] P] rs qs (Hwn & Ht & Hf) _ IH]; intros Hsub; simpl in *; [done|].
  injection Hwn as -> ->. destruct r.
  - split; [by intros [? _]%Forall_cons; apply Ht|]. exists P. split; [apply Hsub, list_elem_of_here|by apply Ht].
  - eapply computes_iff; [apply IH; set_solver| |done]. rewrite Forall_cons. simpl. naive_solver.
Qed.

Lemma computes_validate : computes env (validate (rules (the_modes env))) (Forall snd (requirements env)) tt.
Proof. by apply computes_rules; [apply rules_requirements|]. Qed.

Lemma schema_groups : Forall (well_typed env) schema ↔
  Forall (well_typed env) (group 0 9) ∧ Forall (well_typed env) (group 9 3) ∧
  Forall (well_typed env) (group 12 7) ∧ Forall (well_typed env) (group 19 8).
Proof. change schema with (group 0 9 ++ group 9 3 ++ group 12 7 ++ group 19 8). by rewrite !Forall_app. Qed.

Lemma computes_Load : computes env (Load env) (acceptable env) (configuration env).
Proof.
  unfold Load. eapply computes_iff; [|unfold acceptable; rewrite schema_groups|].
  - eapply computes_bind; [apply computes_limits|]. eapply computes_bind; [apply computes_hooks|].
    eapply computes_bind; [apply computes_modes|]. eapply computes_bind; [apply computes_validate|].
    eapply computes_bind; [apply computes_extras|apply computes_ret].
  - tauto.
  - done.
Qed.

Lemma Load_acceptable c : Load env = inr c → acceptable env ∧ c = configuration env.
Proof. pose proof computes_Load as H. unfold computes in H. by intros Hl; rewrite Hl in H. Qed.

(** What the rest of the program relies on. *)
Record coherent (c : Config) : Prop := {
  coherent_strategy : RebalanceStrategy (modes c) ∈ ["none"; "least-loaded"; "consistent-hash"];
  (* a table is only used with a store that has one *)
  coherent_table : RoutingMode (modes c) = "assignment" → AssignmentStore (modes c) ≠ "memory";
  coherent_rebalance : RebalanceStrategy (modes c) ≠ "none" → RoutingMode (modes c) = "assignment";
  coherent_redis_source : AccountsDiscovery (modes c) = "redis" → AssignmentStore (modes c) = "redis"
}.

Lemma Load_coherent c : Load env = inr c → coherent c.
Proof.
  intros ((_ & Hty & Hreq) & ->)%Load_acceptable. unfold requirements in Hreq. rewrite !Forall_cons in Hreq.
  destruct Hreq as (_ & _ & _ & _ & Hreb & Hmem & _ & _ & Hredis & _). simpl in *. split; simpl.
  - rewrite Forall_forall in Hty. specialize (Hty ("REBALANCE_STRATEGY", _) ltac:(in_schema)).
    unfold text_or. case_decide; [set_solver|]. by destruct Hty.
  - intros Hm Hs. specialize (Hmem Hs). congruence.
  - intros Hs. apply Hreb. unfold text_or in Hs. case_decide as He; [done|]. set_solver.
  - done.
Qed.

End outcome.

(** Only the secret is set: the documented defaults. *)
Definition minimal (key : string) : string := if bool_decide (key = "JWT_SECRET") then "s3cret" else "".

Example Load_defaults : ∃ c, Load minimal = inr c ∧
  ProxyPort (limits c) = ":8080" ∧ CacheTTL (limits c) = 24 * 60 * Minute ∧
  EvictionThreshold (limits c) = 3 ∧ HooksRetries (hooks c) = 2 ∧ RoutingMode (modes c) = "hash" ∧
  AssignmentStore (modes c) = "memory" ∧ PublicPaths (extras c) = [] ∧ AdminToken (extras c) = "".
Proof. eexists. by vm_compute. Qed.

(** Values out of any sensible range pass: a window of zero makes the detector's
    ticker panic, negative retries send no hook. *)
Definition careless (key : string) : string :=
  if bool_decide (key = "JWT_SECRET") then "s3cret"
  else if bool_decide (key = "POISON_PILL_WINDOW") then "0s"
  else if bool_decide (key = "HOOKS_RETRIES") then "-1"
  else "".

Example Load_accepts_nonsense : ∃ c, Load careless = inr c ∧
  PoisonPillWindow (extras c) = 0 ∧ HooksRetries (hooks c) = -1.
Proof. eexists. by vm_compute. Qed.

End Config.
