(* ===== verification/RateLimiter.v ===== *)
(** * rate_limiter.go: the per-user token bucket

    Tokens are [float64], so that the bucket computes what the program
    computes. *)
From stdpp Require Import base gmap strings list fin_maps.
From Stdlib Require Import ZArith Lia Floats.SpecFloat.
From S2P Require Import Prelude Go GoFloat.
Local Open Scope Z_scope.

Module RL.

(** [d.Seconds()]: whole seconds plus the remaining nanoseconds. *)
Definition Seconds (d : Duration) : float64 :=
  fadd (of_int (Z.quot d Second)) (fdiv (of_int (Z.rem d Second)) (of_int Second)).

(** ** The limiter *)

Record userLimiter := mkLimiter { tokens : float64; lastRefill : Z }.

Record RateLimiter := mkRate { rate : float64; burst : Z; limiters : gmap string userLimiter }.

Definition NewRateLimiter (rate : float64) (burst : Z) : RateLimiter := mkRate rate burst ∅.

(** Refill for [elapsed], cap at the burst, take one token if there is one. *)
Definition take_token (rate : float64) (burst : Z) (elapsed : Duration) (tokens : float64)
    : bool * float64 :=
  let t := fadd tokens (fmul (Seconds elapsed) rate) in
  let t := if fgt t (of_int burst) then of_int burst else t in
  if fge t (of_int 1) then (true, fsub t (of_int 1)) else (false, t).

Definition Allow (now : Z) (userID : string) (rl : RateLimiter) : bool * RateLimiter :=
  let ul := default (mkLimiter (of_int (burst rl)) now) (limiters rl !! userID) in
  let '(ok, t) := take_token (rate rl) (burst rl) (now - lastRefill ul) (tokens ul) in
  (ok, mkRate (rate rl) (burst rl) (<[userID := mkLimiter t now]> (limiters rl))).

(** One tick of [cleanup]: buckets idle for more than five minutes go. *)
Definition cleanup `{!MapIter} (now : Z) (rl : RateLimiter) : RateLimiter :=
  mkRate (rate rl) (burst rl)
    (foldl (λ m '(key, ul), if 5 * Minute <? now - lastRefill ul then delete key m else m)
       (limiters rl) (range 90 (limiters rl))).

(** The limiter of the proxy: [NewRateLimiter(100, 200)]. *)
Definition proxy_limiter : RateLimiter := NewRateLimiter (of_int 100) 200.

(** [n] calls of one user at one instant. *)
Fixpoint allow_n (n : nat) (now : Z) (u : string) (rl : RateLimiter) : list bool * RateLimiter :=
  match n with
  | O => ([], rl)
  | S n =>
      let '(ok, rl) := Allow now u rl in
      let '(oks, rl) := allow_n n now u rl in (ok :: oks, rl)
  end.

Fixpoint take_n (n : nat) (t : float64) : list bool * float64 :=
  match n with
  | O => ([], t)
  | S n =>
      let '(ok, t) := take_token (of_int 100) 200 0 t in
      let '(oks, t) := take_n n t in (ok :: oks, t)
  end.

Lemma Allow_bucket now u t rl :
  rate rl = of_int 100 → burst rl = 200 →
  match limiters rl !! u with Some ul => ul = mkLimiter t now | None => t = of_int 200 end →
  Allow now u rl =
    ((take_token (of_int 100) 200 0 t).1,
     mkRate (of_int 100) 200 (<[u := mkLimiter (take_token (of_int 100) 200 0 t).2 now]> (limiters rl))).
Proof.
  intros Hr Hb Hu. unfold Allow. rewrite Hr, Hb.
  assert (default (mkLimiter (of_int 200) now) (limiters rl !! u) = mkLimiter t now) as ->.
  { destruct (limiters rl !! u); subst; done. }
  cbn [lastRefill tokens]. rewrite Z.sub_diag. by destruct (take_token (of_int 100) 200 0 t).
Qed.

Lemma allow_n_take_n n now u t rl :
  rate rl = of_int 100 → burst rl = 200 →
  match limiters rl !! u with Some ul => ul = mkLimiter t now | None => t = of_int 200 end →
  (allow_n n now u rl).1 = (take_n n t).1 ∧
  (0 < n → (allow_n n now u rl).2 =
     mkRate (of_int 100) 200 (<[u := mkLimiter (take_n n t).2 now]> (limiters rl)))%nat.
Proof.
  revert t rl. induction n as [|n IH]; intros t rl Hr Hb Hu; [split; [done|lia]|].
  cbn [allow_n take_n]. rewrite (Allow_bucket now u t rl Hr Hb Hu).
  destruct (take_token (of_int 100) 200 0 t) as [ok t'] eqn:Ht. cbn [fst snd].
  set (rl' := mkRate _ _ _). destruct (IH t' rl') as [IH1 IH2]; [done|done| |].
  { unfold rl'. cbn [limiters]. by rewrite lookup_insert_eq. }
  destruct n as [|n]; [done|]. specialize (IH2 (Nat.lt_0_succ n)).
  destruct (allow_n (S n) now u rl') as [oks rl2], (take_n (S n) t') as [oks' t2]. cbn [fst snd] in *.
  subst. split; [done|]. intros _. unfold rl'. cbn [limiters]. by rewrite insert_insert_eq.
Qed.

Lemma take_n_add n k t :
  take_n (n + k) t = ((take_n n t).1 ++ (take_n k (take_n n t).2).1, (take_n k (take_n n t).2).2).
Proof.
  revert t. induction n as [|n IH]; intros t; [cbn [Nat.add take_n fst snd app]; by destruct (take_n k t)|]. cbn [Nat.add take_n].
  destruct (take_token (of_int 100) 200 0 t) as [ok t']. rewrite IH.
  by destruct (take_n n t') as [oks t2].
Qed.

Lemma take_200 : take_n 200 (of_int 200) = (replicate 200 true, of_int 0).
Proof. by vm_compute. Qed.

Lemma take_n_empty n : take_n n (of_int 0) = (replicate n false, of_int 0).
Proof.
  assert (Ht : take_token (of_int 100) 200 0 (of_int 0) = (false, of_int 0)) by by vm_compute.
  induction n as [|n IH]; [done|]. cbn [take_n]. by rewrite Ht, IH.
Qed.

(** Burst bound: at any instant, the proxy's limiter lets exactly 200
    requests of a user it has not seen through, and refuses the ones that
    follow at that instant; 10 milliseconds refill exactly one token. *)
Theorem burst_bound now u n :
  (allow_n (200 + n) now u proxy_limiter).1 = replicate 200 true ++ replicate n false ∧
  (let rl := (allow_n 200 now u proxy_limiter).2 in
   (Allow (now + 10000000) u rl).1 = true ∧ (Allow (now + 9999999) u rl).1 = false).
Proof.
  assert (Hnew : match limiters proxy_limiter !! u with
    Some ul => ul = mkLimiter (of_int 200) now | None => of_int 200 = of_int 200 end) by done.
  split.
  - destruct (allow_n_take_n (200 + n) now u (of_int 200) proxy_limiter eq_refl eq_refl Hnew) as [-> _].
    by rewrite take_n_add, take_200, take_n_empty.
  - destruct (allow_n_take_n 200 now u (of_int 200) proxy_limiter eq_refl eq_refl Hnew) as [_ ->]; [|lia].
    rewrite take_200. cbn [snd]. unfold Allow. cbn [limiters rate burst].
    rewrite lookup_insert_eq. cbn [from_option id lastRefill tokens].
    rewrite !(Z.add_comm now), !Z.add_simpl_r. by vm_compute.
Qed.

End RL.
