(* ===== verification/JWT.v ===== *)
(** * jwt.go and jwt_cache.go: authentication

    [extractUserIDFromJWT] with its cache of validated tokens.  The JWT library
    is outside: [parse now token] is what [jwt.Parse] with the HMAC key
    function answers at instant [now]: the claims of a valid token.  The cache
    is shown transparent under the documented behaviour of the library. *)
From stdpp Require Import base gmap strings list fin_maps.
From Stdlib Require Import ZArith Lia.
From S2P Require Import Prelude Go.
Local Open Scope Z_scope.

Module JWT.

(** The claims the program reads: strings, and numbers by the whole seconds
    [int64(f)] gives. *)
Inductive claim := CStr (s : string) | CNum (secs : Z) | COther.

Definition claims := gmap string claim.

Record CachedJWT := mkCached { RoutingKey : string; Exp : Z }.

Record JWTCache := mkCache { data : gmap string CachedJWT; maxSize : Z }.

Definition NewJWTCache (maxSize : Z) : JWTCache := mkCache ∅ maxSize.

Definition Get (now : Z) (token : string) (c : JWTCache) : option CachedJWT * JWTCache :=
  match data c !! token with
  | None => (None, c)
  | Some cached =>
      if After now (Exp cached) then (None, mkCache (delete token (data c)) (maxSize c))
      else (Some cached, c)
  end.

Definition Set_ (token : string) (jwt : CachedJWT) (c : JWTCache) : JWTCache :=
  mkCache (<[token := jwt]> (data c)) (maxSize c).

(** [sweep]: delete the expired entries, then evict down to [maxSize] in the
    order [rand.Shuffle] left the live keys. *)
Definition sweep `{!MapIter} (shuffle : list string → list string) (now : Z) (c : JWTCache) : JWTCache :=
  let kept := foldl (λ d '(key, cached), if After now (Exp cached) then delete key d else d)
                (data c) (range 91 (data c)) in
  let keys := (filter (λ p, After now (Exp p.2) = false) (range 91 (data c))).*1 in
  mkCache
    (if (0 <? maxSize c) && (maxSize c <? Z.of_nat (length keys))
     then foldl (λ d k, delete k d) kept (drop (Z.to_nat (maxSize c)) (shuffle keys))
     else kept) (maxSize c).

Definition space : Ascii.ascii := Ascii.ascii_of_N 32.

(** [strings.SplitN(s, " ", 2)] with two parts, or [None]. *)
Fixpoint split_space (s : string) : option (string * string) :=
  match s with
  | EmptyString => None
  | String c rest =>
      if Ascii.eqb c space then Some (EmptyString, rest)
      else '(a, b) ← split_space rest; Some (String c a, b)
  end.

(** The token of an [Authorization: Bearer] header. *)
Definition bearer (authHeader : string) : option string :=
  match split_space authHeader with
  | Some (scheme, token) => if bool_decide (scheme = "Bearer") then Some token else None
  | None => None
  end.

(** The routing claim, a non-empty string. *)
Definition routing_key (routingClaim : string) (cs : claims) : option string :=
  match cs !! routingClaim with
  | Some (CStr s) => if bool_decide (s = "") then None else Some s
  | _ => None
  end.

(** [time.Unix(int64(expUnix), 0)]; an absent or non-numeric claim is 0. *)
Definition exp_of (cs : claims) : Z :=
  match cs !! "exp" with Some (CNum e) => e * Second | _ => 0 end.

Section extract.
Context (parse : Z → string → option claims) (routingClaim : string).

(** [None] is a non-nil error: the request is answered 401. *)
Definition extractUserIDFromJWT (now : Z) (authHeader : string) (c : JWTCache)
    : option CachedJWT * JWTCache :=
  match bearer authHeader with
  | None => (None, c)
  | Some token =>
      match Get now token c with
      | (Some cached, c) => (Some cached, c)
      | (None, c) =>
          match parse now token with
          | None => (None, c)
          | Some cs =>
              match routing_key routingClaim cs with
              | None => (None, c)
              | Some key =>
                  let cached := mkCached key (exp_of cs) in
                  (Some cached, Set_ token cached c)
              end
          end
      end
  end.

(** The same without a cache. *)
Definition extract_uncached (now : Z) (authHeader : string) : option CachedJWT :=
  token ← bearer authHeader;
  cs ← parse now token;
  key ← routing_key routingClaim cs;
  Some (mkCached key (exp_of cs)).

(** ** Transparency *)

(** What the program relies on: a token that was valid stays valid, with the
    same claims, until its expiry instant. *)
Context (parse_until : ∀ t1 t2 token cs,
  parse t1 token = Some cs → t1 ≤ t2 < exp_of cs → parse t2 token = Some cs).

(** Every cached entry came from a validation in the past. *)
Definition justified (now : Z) (c : JWTCache) : Prop :=
  ∀ token cached, data c !! token = Some cached →
  ∃ t cs, t ≤ now ∧ parse t token = Some cs ∧ routing_key routingClaim cs = Some (RoutingKey cached) ∧
    Exp cached = exp_of cs.

Lemma justified_later now now' c : now ≤ now' → justified now c → justified now' c.
Proof.
  intros Hle Hj token cached Hc. destruct (Hj token cached Hc) as (t & cs & Ht & Hrest).
  exists t, cs. split; [lia|done].
Qed.

Lemma justified_sub now c c' :
  (∀ token cached, data c' !! token = Some cached → data c !! token = Some cached) →
  justified now c → justified now c'.
Proof. intros Hsub Hj token cached Hc. by apply Hj, Hsub. Qed.

Lemma Get_sub now token c tok cached :
  data (Get now token c).2 !! tok = Some cached → data c !! tok = Some cached.
Proof.
  unfold Get. repeat case_match; try done. simpl. by intros [_ ?]%lookup_delete_Some.
Qed.

Lemma foldl_delete_sub (l : list string) (d : gmap string CachedJWT) tok cached :
  foldl (λ d k, delete k d) d l !! tok = Some cached → d !! tok = Some cached.
Proof.
  revert d. induction l as [|k l IH]; intros d; simpl; [done|].
  by intros [_ ?]%IH%lookup_delete_Some.
Qed.

Lemma sweep_sub `{!MapIter} shuffle now c tok cached :
  data (sweep shuffle now c) !! tok = Some cached → data c !! tok = Some cached.
Proof.
  unfold sweep. simpl. intros Hd.
  assert (Hk : foldl (λ d '(key, cached), if After now (Exp cached) then delete key d else d)
    (data c) (range 91 (data c)) !! tok = Some cached).
  { destruct (_ && _) in Hd; [by apply foldl_delete_sub in Hd|done]. }
  rewrite (range_delete_if 91 (λ _ j, After now (Exp j))) in Hk.
  destruct (data c !! tok) as [j|]; [|done]. by destruct (After now (Exp j)).
Qed.

(** One call: right, and the cache stays justified. *)
Lemma extract_justified now hdr c :
  justified now c →
  let '(out, c') := extractUserIDFromJWT now hdr c in
  justified now c' ∧ (out = extract_uncached now hdr ∨ ∃ j, out = Some j ∧ now = Exp j).
Proof using parse_until.
  intros Hj. unfold extractUserIDFromJWT, extract_uncached.
  destruct (bearer hdr) as [token|]; [|by auto]. simpl. unfold Get.
  destruct (data c !! token) as [cached|] eqn:Hc.
  - destruct (Hj token cached Hc) as (t & cs & Ht & Hp & Hk & He).
    unfold After. destruct (Z.ltb_spec (Exp cached) now) as [Hx|Hx].
    + set (c1 := mkCache (delete token (data c)) (maxSize c)).
      assert (Hj1 : justified now c1).
      { apply (justified_sub now c); [|done]. intros tok j. simpl. by intros [_ ?]%lookup_delete_Some. }
      destruct (parse now token) as [cs'|] eqn:Hp'; [|by auto]. simpl.
      destruct (routing_key routingClaim cs') as [key|] eqn:Hk'; [|by auto]. split; [|by left].
      intros tok j. simpl. rewrite lookup_insert. case_decide; [|apply Hj1].
      subst. intros [= <-]. exists now, cs'. done.
    + split; [done|]. destruct (decide (now = Exp cached)) as [->|Hne]; [right; eauto|left].
      rewrite (parse_until t now token cs Hp) by lia. simpl. rewrite Hk. simpl. rewrite <- He.
      by destruct cached.
  - destruct (parse now token) as [cs'|] eqn:Hp'; [|by auto]. simpl.
    destruct (routing_key routingClaim cs') as [key|] eqn:Hk'; [|by auto]. split; [|by left].
    intros tok j. simpl. rewrite lookup_insert. case_decide; [|apply Hj].
    subst. intros [= <-]. exists now, cs'. done.
Qed.

Inductive op := OpExtract (hdr : string) | OpSweep (shuffle : list string → list string).

Fixpoint run `{!MapIter} (ops : list (Z * op)) (c : JWTCache) : list (Z * string * option CachedJWT) :=
  match ops with
  | [] => []
  | (now, OpExtract hdr) :: ops =>
      let '(out, c) := extractUserIDFromJWT now hdr c in (now, hdr, out) :: run ops c
  | (now, OpSweep shuffle) :: ops => run ops (sweep shuffle now c)
  end.

Fixpoint monotone (t : Z) (ops : list (Z * op)) : Prop :=
  match ops with [] => True | (now, _) :: ops => t ≤ now ∧ monotone now ops end.

(** C33. The token cache is transparent: in any run of requests and sweeps in
    time order, whatever the sweeps evict, every request is answered as if
    its token had been validated afresh, except that a cached token is still
    accepted at the very instant of its expiry. *)
Theorem jwt_cache_transparent `{!MapIter} t ops max :
  monotone t ops →
  Forall (λ '(now, hdr, out), out = extract_uncached now hdr ∨ ∃ j, out = Some j ∧ now = Exp j)
    (run ops (NewJWTCache max)).
Proof using parse_until.
  assert (Hj : justified t (NewJWTCache max)) by (intros token j; simpl; by rewrite lookup_empty).
  revert t Hj. generalize (NewJWTCache max) as c.
  induction ops as [|[now o] ops IH]; intros c t Hj; simpl; [constructor|].
  intros [Ht Hmono]. apply (justified_later t now) in Hj; [|done]. destruct o as [hdr|shuffle].
  - pose proof (extract_justified now hdr c Hj) as He.
    destruct (extractUserIDFromJWT now hdr c) as [out c']. destruct He as [Hj' Hout].
    constructor; [done|]. by apply (IH c' now).
  - apply (IH _ now); [|done]. apply (justified_sub now c); [|done]. intros tok j. apply sweep_sub.
Qed.
End extract.

(** ** A token service *)

Module JWTExamples.
#[local] Existing Instance map_iter_canonical.

(** One token, of user [alice], that expires 100 seconds after the epoch. *)
Definition parse (now : Z) (token : string) : option claims :=
  if bool_decide (token = "tok") && (now <? 100 * Second)
  then Some {["sub" := CStr "alice"; "exp" := CNum 100]} else None.

Lemma jwt_cache_transparent_witness :
  run parse "sub" [(0, OpExtract "Bearer tok"); (5, OpSweep id); (200 * Second, OpExtract "Bearer tok")]
    (NewJWTCache 10)
  = [(0, "Bearer tok", Some (mkCached "alice" (100 * Second))); (200 * Second, "Bearer tok", None)] ∧
  Forall (λ '(now, hdr, out), out = extract_uncached parse "sub" now hdr ∨ ∃ j, out = Some j ∧ now = Exp j)
    (run parse "sub" [(0, OpExtract "Bearer tok"); (5, OpSweep id); (200 * Second, OpExtract "Bearer tok")]
      (NewJWTCache 10)).
Proof.
  split; [by vm_compute|]. apply (jwt_cache_transparent parse "sub") with (t := 0).
  - intros t1 t2 token cs. unfold parse.
    destruct (bool_decide (token = "tok")); simpl; [|done].
    destruct (Z.ltb_spec t1 (100 * Second)) as [?|?]; [|done]. intros Hcs. injection Hcs as <-.
    change (exp_of _) with (100 * Second). intros Ht.
    rewrite (proj2 (Z.ltb_lt t2 (100 * Second))) by lia. done.
  - simpl. unfold Second. lia.
Defined.
End JWTExamples.

End JWT.
