(* ===== verification/Proxy.v ===== *)
(** * proxy.go: serving a request

    [ServeHTTP] in two parts, because a request may block in the hold manager
    between them: [authorize] authenticates and applies the limits, [route] picks
    the backend and forwards.  What other goroutines did to the proxy while the
    request was held is the argument [held] of [ServeHTTP].  [None] is a run-time
    panic.  The round trip to the backend is outside: whether it failed is an
    argument, as in backends.go. *)
From stdpp Require Import base gmap strings list sorting fin_maps.
From Stdlib Require Import ZArith Lia.
From S2P Require Import Prelude Go Hashing Assignment Store UserCache Poison Hold.
From S2P Require Import ConnTracker World Drain Backends RedisBreaker RateLimiter JWT.
Local Open Scope Z_scope.

Module Proxy.

Inductive routing_mode := ModeAssignment | ModeHash.

(** The proxy and its collaborators; [None] is a nil pointer. *)
Record Proxy (S : Type) := mkProxy {
  p_world : world S;
  p_backends : Backends.BackendManager;
  p_drain : option Drain.DrainManager;
  p_poison : option Poison.PoisonPillDetector;
  p_redis : option CB.Breaker;
  p_limiter : RL.RateLimiter;
  p_jwt : JWT.JWTCache
}.
Arguments mkProxy {S}.
Arguments p_world {S}.
Arguments p_backends {S}.
Arguments p_drain {S}.
Arguments p_poison {S}.
Arguments p_redis {S}.
Arguments p_limiter {S}.
Arguments p_jwt {S}.

Record params := mkParams {
  routingMode : routing_mode;
  routingClaim : string;
  publicPaths : list string;
  wcfg : config
}.

Record request := mkReq {
  Path : string;
  RemoteAddr : string;
  Authorization : string;
  isWebSocket : bool
}.

Inductive answer :=
  | Unauthorized                                    (* 401 *)
  | RateLimited                                     (* 429 *)
  | Quarantined                                     (* 503, account quarantined *)
  | NoBackend                                       (* 503, no backend *)
  | ToWebSocket (b : string) (userID : string)      (* bridged; X-User-ID is set *)
  | ToBackend (b : string) (userID : string) (r : Backends.response)
  | ToPublic (b : string) (r : Backends.response).

(** [strings.HasPrefix]. *)
Definition HasPrefix (s prefix : string) : bool := String.prefix prefix s.

Section ops.
Context `{!MapIter} {S : Type} `{!Store S}.
Context (params : params) (parses : string → bool) (parse : Z → string → option JWT.claims).
Implicit Types (p : Proxy S).

Definition set_world (w : world S) p : Proxy S :=
  mkProxy w (p_backends p) (p_drain p) (p_poison p) (p_redis p) (p_limiter p) (p_jwt p).
Definition set_backends (b : Backends.BackendManager) p : Proxy S :=
  mkProxy (p_world p) b (p_drain p) (p_poison p) (p_redis p) (p_limiter p) (p_jwt p).
Definition set_poison (d : option Poison.PoisonPillDetector) p : Proxy S :=
  mkProxy (p_world p) (p_backends p) (p_drain p) d (p_redis p) (p_limiter p) (p_jwt p).
Definition set_redis (r : option CB.Breaker) p : Proxy S :=
  mkProxy (p_world p) (p_backends p) (p_drain p) (p_poison p) r (p_limiter p) (p_jwt p).
Definition set_limiter (l : RL.RateLimiter) p : Proxy S :=
  mkProxy (p_world p) (p_backends p) (p_drain p) (p_poison p) (p_redis p) l (p_jwt p).
Definition set_jwt (j : JWT.JWTCache) p : Proxy S :=
  mkProxy (p_world p) (p_backends p) (p_drain p) (p_poison p) (p_redis p) (p_limiter p) j.

Definition isPublicPath (path : string) : bool :=
  existsb (λ prefix, HasPrefix path prefix) (publicPaths params).

(** ** Choosing a backend *)

(** [p.redis.hashFallback(p.backends.Hash(key))]; a proxy without Redis has
    none. *)
Definition fallback (r : CB.Breaker) (key : string) : option string :=
  CB.hashFallback (Backends.Hash key) r.

(** The store call of assignViaTable, with the breaker told of the outcome. *)
Definition assign_from_store (now : Z) (key : string) p : option (result string * Proxy S) :=
  let '((a, err), s) := AssignLeastLoaded now key (w_store (p_world p)) in
  let p := set_world (set_store s (p_world p)) p in
  match err, a with
  | None, Some a =>
      Some ((Backend a, None), set_redis (CB.recordCBSuccess <$> p_redis p) p)
  | _, _ =>
      match p_redis p with
      | None => Some (("", err), p)
      | Some r =>
          let r := CB.recordCBFailure now r in
          let p := set_redis (Some r) p in
          fb ← fallback r key;
          Some (if bool_decide (fb = "") then ("", err) else (fb, None), p)
      end
  end.

Definition assignViaTable (now : Z) (key : string) p : option (result string * Proxy S) :=
  match p_redis p with
  | None => assign_from_store now key p
  | Some r =>
      let '(open, r) := CB.isCBOpen now r in
      let p := set_redis (Some r) p in
      if open then
        fb ← fallback r key;
        if bool_decide (fb = "") then assign_from_store now key p else Some ((fb, None), p)
      else assign_from_store now key p
  end.

Definition assignViaHash (key : string) p : option (result string * Proxy S) :=
  let '((backends, err), s) := ActiveBackends (w_store (p_world p)) in
  let p := set_world (set_store s (p_world p)) p in
  match err with
  | Some e => Some (("", Some e), p)
  | None =>
      if bool_decide (backends = []) then Some (("", Some (ErrOther "no active backends")), p)
      else
        b ← index_mod (sort_Strings backends) (Backends.Hash key);
        Some ((b, None), p)
  end.

Definition assign (now : Z) (key : string) p : option (result string * Proxy S) :=
  match routingMode params with
  | ModeAssignment => assignViaTable now key p
  | ModeHash => assignViaHash key p
  end.

(** ** The handler *)

Definition is_draining (b : string) p : bool :=
  match p_drain p with Some d => Drain.IsDraining b d | None => false end.

(** Before the hold: [inl] an answer, [inr] the routing key. *)
Definition authorize (now : Z) (r : request) p : (answer + string) * Proxy S :=
  let '(jwt, c) := JWT.extractUserIDFromJWT parse (routingClaim params) now (Authorization r) (p_jwt p) in
  let p := set_jwt c p in
  match jwt with
  | None => (inl Unauthorized, p)
  | Some jwtData =>
      let key := JWT.RoutingKey jwtData in
      let '(allowed, l) := RL.Allow now key (p_limiter p) in
      let p := set_limiter l p in
      if negb allowed then (inl RateLimited, p)
      else
        match p_poison p with
        | Some d => if Poison.IsQuarantined key d then (inl Quarantined, p) else (inr key, p)
        | None => (inr key, p)
        end
  end.

(** The cached backend, if it may still be used: [inl] an answer (the account
    was just quarantined), [inr None] a miss. *)
Definition cached_backend (now : Z) (key : string) p : (answer + option string) * Proxy S :=
  let '((b, err), c) := UC.Get now key (w_cache (p_world p)) in
  let p := set_world (set_cache c (p_world p)) p in
  match err with
  | Some _ => (inr None, p)
  | None =>
      let '(available, bm) := Backends.Available now b (p_backends p) in
      let p := set_backends bm p in
      if available && negb (is_draining b p) then (inr (Some b), p)
      else
        let '(quarantined, d) :=
          match p_poison p with
          | Some d => let '(q, d) := Poison.RecordReassignment now key d in (q, Some d)
          | None => (false, None)
          end in
        let p := set_poison d p in
        if quarantined : bool then (inl Quarantined, p)
        else (inr None, set_world (Invalidate key (p_world p)) p)
  end.

(** Forward to [b]: a WebSocket bridge, or [ProxyRequest]. *)
Definition forward (now later : Z) (ok : bool) (r : request) (key b : string) p : answer * Proxy S :=
  if isWebSocket r then (ToWebSocket b key, p)
  else
    let '(resp, _, bm) := Backends.ProxyRequest parses now later ok b (p_backends p) in
    (ToBackend b key resp, set_backends bm p).

(** After the hold. *)
Definition route (now later : Z) (ok : bool) (r : request) (key : string) p
    : option (answer * Proxy S) :=
  match cached_backend now key p with
  | (inl a, p) => Some (a, p)
  | (inr (Some b), p) => Some (forward now later ok r key b p)
  | (inr None, p) =>
      '((b, err), p) ← assign now key p;
      match err with
      | Some _ => Some (NoBackend, p)
      | None =>
          let w := set_cache (UC.Set_ now key b (w_cache (p_world p))) (p_world p) in
          let w := SendAssign (wcfg params) b [key] w in
          Some (forward now later ok r key b (set_world w p))
      end
  end.

(** ** Public paths *)

(** bindStickyKey: the binding a backend asked for in its response. *)
Definition bindStickyKey (now : Z) (key b : string) p : Proxy S :=
  let w := set_cache (UC.Set_ now key b (w_cache (p_world p))) (p_world p) in
  let w :=
    match routingMode params with
    | ModeAssignment =>
        let '(_, s) := BulkAssign now {[key := mkEntry b 1]} (w_store w) in set_store s w
    | ModeHash => w
    end in
  set_world (SendAssign (wcfg params) b [key] w) p.

(** [stickyKey] is the X-Sticky-Routing-Key header of the response, empty if
    absent. *)
Definition servePublic (now later : Z) (ok : bool) (stickyKey : string) (r : request) p
    : option (answer * Proxy S) :=
  let '((backends, err), s) := ActiveBackends (w_store (p_world p)) in
  let p := set_world (set_store s (p_world p)) p in
  if bool_decide (err ≠ None) || bool_decide (backends = []) then Some (NoBackend, p)
  else
    b ← index_mod (sort_Strings backends) (HashUser (RemoteAddr r));
    let '(resp, _, bm) := Backends.ProxyRequest parses now later ok b (p_backends p) in
    let p := set_backends bm p in
    let header := match resp with Backends.Forwarded => stickyKey | _ => "" end in
    Some (ToPublic b resp, if bool_decide (header = "") then p else bindStickyKey later header b p).

(** The whole handler: [held] is what happened while the request was on
    hold, [now] the clock before it, [now'] after it. *)
Definition ServeHTTP (now now' later : Z) (ok : bool) (stickyKey : string) (held : Proxy S → Proxy S)
    (r : request) p : option (answer * Proxy S) :=
  if isPublicPath (Path r) then servePublic now later ok stickyKey r p
  else
    match authorize now r p with
    | (inl a, p) => Some (a, p)
    | (inr key, p) => route now' later ok r key (held p)
    end.
End ops.

(** ** Properties *)

(** The backend a request was forwarded to, with the user it was forwarded
    for. *)
Definition target (a : answer) : option (string * string) :=
  match a with
  | ToWebSocket b u | ToBackend b u _ => Some (b, u)
  | _ => None
  end.

Section security.
Context `{!MapIter} {S : Type} `{!Store S}.
Context (params : params) (parses : string → bool) (parse : Z → string → option JWT.claims).
Implicit Types (p : Proxy S).

Lemma forward_target now later ok r key b p :
  target (forward parses now later ok r key b p).1 = Some (b, key).
Proof.
  unfold forward. destruct (isWebSocket r); [done|].
  by destruct (Backends.ProxyRequest _ _ _ _ _ _) as [[resp ev] bm].
Qed.

Lemma forward_world now later ok r key b p :
  p_world (forward parses now later ok r key b p).2 = p_world p.
Proof.
  unfold forward. destruct (isWebSocket r); [done|].
  by destruct (Backends.ProxyRequest _ _ _ _ _ _) as [[resp ev] bm].
Qed.

Lemma cached_backend_no_target now key p :
  match (cached_backend now key p).1 with inl a => target a = None | inr _ => True end.
Proof.
  unfold cached_backend. destruct (UC.Get _ _ _) as [[b [e|]] c]; [done|].
  destruct (Backends.Available _ _ _) as [av bm]. simpl.
  destruct (av && negb _); [done|]. destruct (p_poison p) as [d|]; [|done].
  destruct (Poison.RecordReassignment _ _ _) as [[] d']; done.
Qed.

Lemma route_user now later ok r key p a p' b u :
  route params parses now later ok r key p = Some (a, p') → target a = Some (b, u) → u = key.
Proof.
  intros Hr Ht. unfold route in Hr. pose proof (cached_backend_no_target now key p) as Hc.
  destruct (cached_backend now key p) as [[a0|[b0|]] p0]; simpl in Hc.
  - injection Hr as -> ->. congruence.
  - injection Hr as Hf. pose proof (forward_target now later ok r key b0 p0) as Hft. rewrite Hf in Hft.
    simpl in Hft. congruence.
  - apply bind_Some in Hr as ([[b1 [e|]] p1] & _ & Hr); [by simplify_eq|]. injection Hr as Hf.
    match type of Hf with forward _ _ _ _ _ _ _ ?q = _ =>
      pose proof (forward_target now later ok r key b1 q) as Hft end.
    rewrite Hf in Hft. simpl in Hft. congruence.
Qed.

(** C1. Only authenticated users reach a backend: when a request outside the
    public paths is forwarded, its Authorization header held a token the
    authentication accepted, and the user the backend is told of
    (X-User-ID) is the routing key of that token.  A request that is refused
    as unauthorized changes nothing but the token cache. *)
Theorem authenticated_only now now' later ok sticky held r p a p' :
  isPublicPath params (Path r) = false →
  ServeHTTP params parses parse now now' later ok sticky held r p = Some (a, p') →
  let jwt := (JWT.extractUserIDFromJWT parse (routingClaim params) now (Authorization r) (p_jwt p)).1 in
  (∀ b u, target a = Some (b, u) → ∃ j, jwt = Some j ∧ JWT.RoutingKey j = u) ∧
  (jwt = None → a = Unauthorized ∧ p' = set_jwt (p_jwt p') p).
Proof.
  intros Hpub Hs. unfold ServeHTTP, authorize in Hs. rewrite Hpub in Hs.
  destruct (JWT.extractUserIDFromJWT _ _ _ _ _) as [[j|] c]; simpl in *.
  2: { simplify_eq. split; [|done]. intros b u. done. }
  split; [|done]. intros b u Ht. exists j. split; [done|].
  destruct (RL.Allow now (JWT.RoutingKey j) (p_limiter p)) as [[] l]; simpl in Hs; [|by simplify_eq].
  destruct (p_poison p) as [d|]; [destruct (Poison.IsQuarantined _ d); [by simplify_eq|]|];
    symmetry; by eapply route_user.
Qed.
End security.

Section stickiness.
Context `{!MapIter} {S : Type} `{!Store S}.
Context (params : params) (parses : string → bool).
Implicit Types (p : Proxy S).

Lemma SendAssign_frame cfg b keys (w : world S) :
  w_store (SendAssign cfg b keys w) = w_store w ∧ w_cache (SendAssign cfg b keys w) = w_cache w.
Proof. unfold SendAssign. by destruct (has_hooks cfg). Qed.

(** The cached entry of a key that a lookup may use. *)
Definition usable (now : Z) (key b : string) (e : UC.cacheEntry) p : Prop :=
  UC.data (w_cache (p_world p)) !! key = Some e ∧ UC.backend e = b ∧ now ≤ UC.exp e ∧
  (Backends.Available now b (p_backends p)).1 = true ∧ is_draining b p = false.

Lemma cached_backend_hit now key b e p :
  usable now key b e p →
  ∃ p', cached_backend now key p = (inr (Some b), p') ∧ p_world p' = p_world p.
Proof.
  intros (He & Hb & Hexp & Hav & Hdr). unfold cached_backend, UC.Get. rewrite He.
  unfold After. rewrite (proj2 (Z.ltb_ge _ _)) by lia. rewrite Hb.
  cbn [p_backends set_world]. destruct (Backends.Available now b (p_backends p)) as [av bm] eqn:Ha.
  simpl in Hav. subst av.
  assert (is_draining b (set_backends bm (set_world (set_cache (w_cache (p_world p)) (p_world p)) p)) = false)
    as -> by exact Hdr.
  simpl. eexists. split; [done|]. by destruct (p_world p).
Qed.

(** A lookup that hits leaves the entry it used. *)
Lemma cached_backend_some now key p b p' :
  cached_backend now key p = (inr (Some b), p') →
  ∃ e, UC.data (w_cache (p_world p')) !! key = Some e ∧ UC.backend e = b.
Proof.
  unfold cached_backend, UC.Get. destruct (UC.data (w_cache (p_world p)) !! key) as [e|] eqn:He; [|done].
  destruct (After now (UC.exp e)); [done|]. destruct (Backends.Available _ _ _) as [av bm]. simpl.
  destruct (av && negb _).
  - intros Heq. injection Heq as <- <-. exists e. done.
  - destruct (p_poison p) as [d|]; [|done]. destruct (Poison.RecordReassignment _ _ _) as [[] d']; done.
Qed.

(** A lookup changes nothing of the world but the cache, from which it may only
    remove an entry; the entry a hit uses has not expired. *)
Lemma cached_backend_frame now key p :
  let res := cached_backend now key p in
  w_store (p_world res.2) = w_store (p_world p) ∧
  UC.ttl (w_cache (p_world res.2)) = UC.ttl (w_cache (p_world p)) ∧
  UC.data (w_cache (p_world res.2)) ⊆ UC.data (w_cache (p_world p)) ∧
  (∀ b, res.1 = inr (Some b) →
     ∃ e, UC.data (w_cache (p_world p)) !! key = Some e ∧ UC.backend e = b ∧ now ≤ UC.exp e).
Proof.
  unfold cached_backend, UC.Get. destruct (UC.data (w_cache (p_world p)) !! key) as [e|] eqn:He; [|done].
  unfold After. destruct (Z.ltb_spec (UC.exp e) now) as [Hx|Hx].
  { simpl. do 2 (split; [done|]). split; [apply delete_subseteq|done]. }
  destruct (Backends.Available _ _ _) as [av bm]. simpl. destruct (av && negb _); simpl.
  - do 3 (split; [done|]). intros b [= <-]. by exists e.
  - destruct (p_poison p) as [d|]; [destruct (Poison.RecordReassignment _ _ _) as [[] d']|]; simpl;
      (do 2 (split; [done|]); split; [first [done|apply delete_subseteq]|done]).
Qed.

(** A lookup leaves the entries of other users, choosing a backend the whole
    cache. *)
Lemma cached_backend_other now k key p :
  k ≠ key →
  UC.data (w_cache (p_world (cached_backend now k p).2)) !! key = UC.data (w_cache (p_world p)) !! key.
Proof.
  intros Hne. unfold cached_backend, UC.Get. destruct (UC.data (w_cache (p_world p)) !! k) as [e|]; [|done].
  destruct (After now (UC.exp e)); [simpl; by rewrite lookup_delete_ne|].
  destruct (Backends.Available _ _ _) as [av bm]. simpl. destruct (av && negb _); [done|].
  destruct (p_poison p) as [d|]; [destruct (Poison.RecordReassignment _ _ _) as [[] d']|]; simpl;
    (done || by rewrite lookup_delete_ne).
Qed.

Lemma assign_cache now key p res p' :
  assign params now key p = Some (res, p') → w_cache (p_world p') = w_cache (p_world p).
Proof.
  assert (Hst : ∀ q q' r, assign_from_store now key q = Some (r, q') → w_cache (p_world q') = w_cache (p_world q)).
  { intros q q' r. unfold assign_from_store. destruct (AssignLeastLoaded _ _ _) as [[[a|] [e|]] s];
      [|by intros; simplify_eq| |]; simpl; (destruct (p_redis q); [|by intros; simplify_eq]);
      intros (fb & _ & He)%bind_Some; by simplify_eq. }
  unfold assign. destruct (routingMode params).
  - unfold assignViaTable. destruct (p_redis p) as [r|]; [|apply Hst]. destruct (CB.isCBOpen now r) as [[] r'].
    + intros (fb & _ & He)%bind_Some. case_bool_decide; [by apply Hst in He|by simplify_eq].
    + intros He. by apply Hst in He.
  - unfold assignViaHash. destruct (ActiveBackends _) as [[l [e|]] s]; [by intros; simplify_eq|].
    case_bool_decide; [by intros; simplify_eq|]. intros (b & _ & He)%bind_Some. by simplify_eq.
Qed.

Lemma cached_backend_redis now key p : p_redis (cached_backend now key p).2 = p_redis p.
Proof.
  unfold cached_backend. destruct (UC.Get _ _ _) as [[b [e|]] c]; [done|].
  destruct (Backends.Available _ _ _) as [av bm]. simpl. destruct (av && negb _); [done|].
  destruct (p_poison p) as [d|]; [|done]. by destruct (Poison.RecordReassignment _ _ _) as [[] d'].
Qed.

(** The entry a request that was forwarded leaves: the one it used, or a new
    one. *)
Lemma route_entry now later ok r key p a p' b u :
  route params parses now later ok r key p = Some (a, p') → target a = Some (b, u) →
  ∃ e, UC.data (w_cache (p_world p')) !! key = Some e ∧ UC.backend e = b ∧
    (UC.data (w_cache (p_world p)) !! key = Some e ∧ now ≤ UC.exp e ∨
     UC.exp e = now + UC.ttl (w_cache (p_world p))).
Proof.
  intros Hr Ht. unfold route in Hr. pose proof (cached_backend_no_target now key p) as Hc.
  pose proof (cached_backend_frame now key p) as (_ & Httl & Hsub & Hhit).
  destruct (cached_backend now key p) as [[a0|[b0|]] p0] eqn:Hcb; simpl in Hc, Httl, Hsub, Hhit.
  - injection Hr as -> ->. congruence.
  - injection Hr as Hf. pose proof (forward_target parses now later ok r key b0 p0) as Hft.
    pose proof (forward_world parses now later ok r key b0 p0) as Hfw. rewrite Hf in Hft, Hfw. simpl in *.
    rewrite Hfw. apply cached_backend_some in Hcb as (e & He & Hb). destruct (Hhit b0 eq_refl) as (e' & He' & _ & Hx).
    assert (e' = e) as -> by (eapply lookup_weaken in He; [|exact Hsub]; congruence).
    exists e. simplify_eq. eauto.
  - apply bind_Some in Hr as ([[b1 [e|]] p1] & Has & Hr); [by simplify_eq|]. injection Hr as Hf.
    match type of Hf with forward _ _ _ _ _ _ _ ?q = _ =>
      pose proof (forward_target parses now later ok r key b1 q) as Hft;
      pose proof (forward_world parses now later ok r key b1 q) as Hfw end.
    rewrite Hf in Hft, Hfw. cbn [fst snd] in Hft, Hfw. rewrite Hfw. cbn [p_world set_world].
    match goal with |- context [SendAssign ?c ?b ?ks ?w] =>
      destruct (SendAssign_frame c b ks w) as [_ ->] end.
    apply assign_cache in Has. simpl. eexists. split; [apply lookup_insert_eq|]. simpl. split; [congruence|].
    right. by rewrite Has, Httl.
Qed.

(** A request changes the entries of no other user. *)
Lemma route_other now later ok r k key p a p' :
  route params parses now later ok r k p = Some (a, p') → k ≠ key →
  UC.data (w_cache (p_world p')) !! key = UC.data (w_cache (p_world p)) !! key.
Proof.
  intros Hr Hne. unfold route in Hr. pose proof (cached_backend_other now k key p Hne) as Hc.
  destruct (cached_backend now k p) as [[a0|[b0|]] p0]; simpl in Hc.
  - by injection Hr as -> ->.
  - injection Hr as Hf. pose proof (forward_world parses now later ok r k b0 p0) as Hfw. rewrite Hf in Hfw. simpl in Hfw.
    by rewrite Hfw.
  - apply bind_Some in Hr as ([[b1 [e|]] p1] & Has & Hr); apply assign_cache in Has.
    { simplify_eq. by rewrite Has. }
    injection Hr as Hf. match type of Hf with forward _ _ _ _ _ _ _ ?q = _ =>
      pose proof (forward_world parses now later ok r k b1 q) as Hfw end.
    rewrite Hf in Hfw. cbn [fst snd] in Hfw. rewrite Hfw. cbn [p_world set_world].
    match goal with |- context [SendAssign ?c ?b ?ks ?w] =>
      destruct (SendAssign_frame c b ks w) as [_ ->] end.
    simpl. rewrite lookup_insert_ne by done. by rewrite Has.
Qed.
End stickiness.

Section placement.
Context `{!MapIter} {S : Type} `{!Store S, !BackendsSpec S}.
Context (params : params) (parses : string → bool).
Implicit Types (p : Proxy S).

(** The user is not in the cache, or only with an expired entry. *)
Definition missed now key p : Prop :=
  UC.live now (UC.data (w_cache (p_world p))) key = None.

Lemma cached_backend_miss now key p :
  missed now key p →
  ∃ c, cached_backend now key p = (inr None, set_world (set_cache c (p_world p)) p).
Proof.
  unfold missed, UC.live, cached_backend, UC.Get.
  destruct (UC.data (w_cache (p_world p)) !! key) as [e|]; [|by eauto].
  destruct (After now (UC.exp e)); [by eauto|done].
Qed.

(** Redis is not considered down. *)
Definition breaker_closed now p : Prop :=
  match p_redis p with Some r => (CB.isCBOpen now r).1 = false | None => True end.

Lemma assign_spec `{!AssignSpec S} now key p :
  routingMode params = ModeAssignment → breaker_closed now p →
  live (w_store (p_world p)) → act (w_store (p_world p)) ≠ ∅ →
  total (tbl (w_store (p_world p))) + 1 < two53 →
  ∃ a p1, assign params now key p = Some ((Backend a, None), p1) ∧
    w_cache (p_world p1) = w_cache (p_world p) ∧ live (w_store (p_world p1)) ∧
    act (w_store (p_world p1)) = act (w_store (p_world p)) ∧
    tbl (w_store (p_world p1)) = <[key := a]> (tbl (w_store (p_world p))) ∧
    assigned_least (stands S) (tbl (w_store (p_world p))) (act (w_store (p_world p))) key a ∧
    p1 = set_redis (p_redis p1) (set_world (set_store (w_store (p_world p1)) (p_world p)) p) ∧
    match p_redis p1 with Some r => CB.state r = CB.cbClosed | None => True end.
Proof.
  intros Hmode Hcb Hl Hact Htot. unfold assign. rewrite Hmode.
  destruct (AssignLeastLoaded_spec now key (w_store (p_world p)) Hl Hact Htot)
    as (a & s1 & Ha & Hl1 & Ha1 & Ht1 & Hleast).
  assert (Hst : ∀ q, p_world q = p_world p →
    assign_from_store now key q = Some ((Backend a, None),
      set_redis (CB.recordCBSuccess <$> p_redis q) (set_world (set_store s1 (p_world q)) q))).
  { intros q Hq. unfold assign_from_store. by rewrite Hq, Ha. }
  unfold assignViaTable, breaker_closed in *. destruct (p_redis p) as [r|] eqn:Hr.
  - destruct (CB.isCBOpen now r) as [open r'] eqn:Ho. simpl in Hcb. subst open.
    rewrite Hst by done. eexists a, _. split; [done|]. do 5 (split; [done|]). split; [done|]. simpl. by case_bool_decide.
  - rewrite Hst by done. eexists a, _. split; [done|]. do 6 (split; [done|]). simpl. by rewrite Hr.
Qed.

(** C3. A new user is placed by the table: in assignment mode, with a
    reachable store, its weights within 2^53, and Redis not considered down, a
    request of a user who is not in the cache is forwarded to the backend its assignment names, which
    is active and least loaded when the assignment is new; the table then
    holds that assignment and the cache that backend. *)
Theorem request_follows_table `{!AssignSpec S} now later ok r key p :
  routingMode params = ModeAssignment → breaker_closed now p → missed now key p →
  live (w_store (p_world p)) → act (w_store (p_world p)) ≠ ∅ →
  total (tbl (w_store (p_world p))) + 1 < two53 →
  ∃ a ans p1, route params parses now later ok r key p = Some (ans, p1) ∧
    target ans = Some (Backend a, key) ∧
    assigned_least (stands S) (tbl (w_store (p_world p))) (act (w_store (p_world p))) key a ∧
    live (w_store (p_world p1)) ∧
    tbl (w_store (p_world p1)) = <[key := a]> (tbl (w_store (p_world p))) ∧
    UC.data (w_cache (p_world p1)) !! key =
      Some (UC.mkCacheEntry (Backend a) (now + UC.ttl (w_cache (p_world p1)))).
Proof.
  intros Hmode Hcb Hmiss Hl Hact Htot.
  destruct (cached_backend_miss now key p Hmiss) as [c Hc].
  unfold route. rewrite Hc. set (q := set_world (set_cache c (p_world p)) p).
  destruct (assign_spec now key q Hmode Hcb Hl Hact Htot)
    as (a & p1 & -> & Hca & Hl1 & _ & Ht1 & Hleast & _).
  cbn [mbind option_bind]. set (w := SendAssign _ _ _ _).
  destruct (SendAssign_frame (wcfg params) (Backend a) [key]
    (set_cache (UC.Set_ now key (Backend a) (w_cache (p_world p1))) (p_world p1))) as [Hws Hwc].
  fold w in Hws, Hwc.
  eexists a, _, _. split; [by rewrite <- surjective_pairing|]. split; [apply forward_target|].
  rewrite forward_world. cbn [p_world set_world]. rewrite Hws, Hwc. simpl.
  do 3 (split; [done|]). apply lookup_insert_eq.
Qed.

Lemma assign_hash_spec now key p :
  routingMode params = ModeHash → live (w_store (p_world p)) → act (w_store (p_world p)) ≠ ∅ →
  Z.of_nat (size (act (w_store (p_world p)))) < two32 →
  ∃ b p1, assign params now key p = Some ((b, None), p1) ∧
    w_cache (p_world p1) = w_cache (p_world p) ∧ live (w_store (p_world p1)) ∧
    act (w_store (p_world p1)) = act (w_store (p_world p)) ∧ tbl (w_store (p_world p1)) = tbl (w_store (p_world p)) ∧
    b ∈ act (w_store (p_world p)) ∧
    index_mod (sort_Strings (elements (act (w_store (p_world p))))) (HashUser key) = Some b.
Proof.
  intros Hmode Hl Hact Hsize. unfold assign. rewrite Hmode. unfold assignViaHash.
  destruct (ActiveBackends_spec (w_store (p_world p)) Hl) as (l & s1 & -> & Hperm & Hl1 & Ha1 & Ht1).
  assert (Hsort : sort_Strings l = sort_Strings (elements (act (w_store (p_world p)))))
    by (by apply sort_Strings_canonical).
  assert (Hne : sort_Strings l ≠ []).
  { rewrite Hsort, sort_Strings_nil. intros He. apply elements_empty_inv in He. fold_leibniz. done. }
  destruct (index_mod_some (sort_Strings l) (HashUser key)) as (b & Hb & Hin).
  { done. }
  { apply HashUser_u32. }
  { rewrite sort_Strings_length. by rewrite Hperm. }
  rewrite (bool_decide_false (l = [])) by (by rewrite sort_Strings_nil in Hne).
  unfold Backends.Hash. rewrite Hb. cbn [mbind option_bind]. eexists b, _. split; [done|]. simpl.
  do 4 (split; [done|]). rewrite <- Hsort. split; [|done]. by rewrite sort_Strings_elem, Hperm, elem_of_elements in Hin.
Qed.

(** C4. In hash mode all replicas agree: a request of a user who is not in
    the cache is forwarded to the element of the sorted list of active
    backends that the CRC-32 of its routing key selects, whatever order the
    store lists the backends in; it never panics. *)
Theorem hash_mode_agrees now later ok r key p :
  routingMode params = ModeHash → missed now key p → live (w_store (p_world p)) →
  act (w_store (p_world p)) ≠ ∅ → Z.of_nat (size (act (w_store (p_world p)))) < two32 →
  ∃ b ans p1, route params parses now later ok r key p = Some (ans, p1) ∧
    target ans = Some (b, key) ∧ b ∈ act (w_store (p_world p)) ∧
    index_mod (sort_Strings (elements (act (w_store (p_world p))))) (HashUser key) = Some b.
Proof.
  intros Hmode Hmiss Hl Hact Hsize.
  destruct (cached_backend_miss now key p Hmiss) as [c Hc]. unfold route. rewrite Hc.
  destruct (assign_hash_spec now key (set_world (set_cache c (p_world p)) p) Hmode Hl Hact Hsize)
    as (b & p1 & -> & _ & _ & _ & _ & Hb & Hi).
  cbn [mbind option_bind]. eexists b, _, _. split; [by rewrite <- surjective_pairing|].
  split; [apply forward_target|]. done.
Qed.

(** A binding from a response header can split a user: when the user of
    the header already has an assignment on another backend, the table keeps
    it (set-if-absent), but the local cache is pointed to the answering
    backend: this replica and the table now route the user differently. *)
Theorem sticky_binding_splits_user `{!TableLimits S, !TableSpec S} now key b p a :
  routingMode params = ModeAssignment → live (w_store (p_world p)) → instant_ok S now →
  target_ok S (act (w_store (p_world p))) b →
  total (tbl (w_store (p_world p))) + 1 < two53 → 0 ≤ UC.ttl (w_cache (p_world p)) →
  tbl (w_store (p_world p)) !! key = Some a → Backend a ≠ b →
  let p' := bindStickyKey params now key b p in
  tbl (w_store (p_world p')) !! key = Some a ∧
  UC.live now (UC.data (w_cache (p_world p'))) key = Some b.
Proof.
  intros Hmode Hl Hy Htgt Htot Httl Ha Hne. unfold bindStickyKey. rewrite Hmode. cbn [w_store set_cache].
  destruct (BulkAssign_spec now {[key := mkEntry b 1]} (w_store (p_world p)) Hl Hy) as (s1 & -> & _ & _ & Ht1).
  { intros k e. rewrite lookup_singleton_Some. intros [_ <-]. apply weight_ok_1. }
  { intros k e. rewrite lookup_singleton_Some. by intros [_ <-]. }
  { rewrite map_size_singleton. apply batch_ok_1. }
  { unfold entries_weight. rewrite <- insert_empty, msum_insert, msum_empty by done.
    cbn [e_Weight effective]. change (effective 1) with 1. lia. }
  set (w := set_store s1 _). destruct (SendAssign_frame (wcfg params) b [key] w) as [Hs Hc].
  cbn [p_world set_world]. rewrite Hs, Hc. unfold w. cbn [w_store w_cache set_store set_cache].
  rewrite Ht1. split.
  - rewrite lookup_union_r; [done|]. rewrite lookup_fmap, lookup_fresh_entries, decide_False; [done|].
    by rewrite Ha.
  - unfold UC.live, UC.Set_. simpl. rewrite lookup_insert_eq. simpl. unfold After.
    by rewrite (proj2 (Z.ltb_ge _ _)) by lia.
Qed.
End placement.

End Proxy.
