(* ===== verification/Session.v ===== *)
(** * Sticky sessions

    One proxy between the first request of a user that is forwarded and the
    expiry of the cache entry it leaves: requests of this and of other users,
    public requests with their bindings, authentications, invalidations by drains
    and notifications, sweeps of the cache, and whatever other goroutines do to
    the rest of the proxy, in any order.  A run returns its requests with their
    answers. *)
From stdpp Require Import base gmap strings list fin_maps.
From Stdlib Require Import ZArith Lia.
From S2P Require Import Prelude Go Assignment Store UserCache World Poison Backends Drain RateLimiter JWT Proxy.
Local Open Scope Z_scope.

Module Session.

Section session.
Context `{!MapIter} {S : Type} `{!Store S}.
Context (params : Proxy.params) (parses : string → bool) (parse : Z → string → option JWT.claims).
Implicit Types (p : Proxy.Proxy S).

Inductive event :=
  | Pass (d : Z)                                                       (* time *)
  | Authorize (r : Proxy.request)                                      (* the first half of ServeHTTP *)
  | Request (later : Z) (ok : bool) (r : Proxy.request) (k : string)   (* the second half, for user [k] *)
  | Public (later : Z) (ok : bool) (stickyKey : string) (r : Proxy.request)
  | Forget (k : string)                                                (* cache.Invalidate *)
  | ForgetBackend (b : string)                                         (* cache.InvalidateBackend *)
  | Sweep                                                              (* a tick of cleanupLoop *)
  | Elsewhere (f : Proxy.Proxy S → Proxy.Proxy S).                     (* the rest of the proxy *)

(** A request of user [q_key] and its answer, between two states. *)
Record served := mkServed { q_key : string; q_answer : Proxy.answer; q_before : world S; q_after : world S }.

Definition on_cache (f : UC.UserCache → UC.UserCache) p : Proxy.Proxy S :=
  Proxy.set_world (set_cache (f (w_cache (Proxy.p_world p))) (Proxy.p_world p)) p.

Definition exec (ev : event) (t : Z) p : option (list served * (Z * Proxy.Proxy S)) :=
  match ev with
  | Pass d => Some ([], (t + d, p))
  | Authorize r => Some ([], (t, (Proxy.authorize params parse t r p).2))
  | Request later ok r k =>
      '(a, p') ← Proxy.route params parses t later ok r k p;
      Some ([mkServed k a (Proxy.p_world p) (Proxy.p_world p')], (t, p'))
  | Public later ok stickyKey r =>
      '(_, p') ← Proxy.servePublic params parses t later ok stickyKey r p; Some ([], (t, p'))
  | Forget k => Some ([], (t, on_cache (UC.Invalidate k) p))
  | ForgetBackend b => Some ([], (t, on_cache (UC.InvalidateBackend b) p))
  | Sweep => Some ([], (t, on_cache (UC.cleanup t) p))
  | Elsewhere f => Some ([], (t, f p))
  end.

Fixpoint run (evs : list event) (t : Z) p : option (list served * (Z * Proxy.Proxy S)) :=
  match evs with
  | [] => Some ([], (t, p))
  | ev :: evs => '(q, (t, p)) ← exec ev t p; '(qs, res) ← run evs t p; Some (q ++ qs, res)
  end.

(** Backend [b] takes requests: its breaker is closed and it is not draining. *)
Definition takes (b : string) (t : Z) p : Prop :=
  (Backends.Available t b (Proxy.p_backends p)).1 = true ∧ Proxy.is_draining b p = false.

(** The event does not end the session of [key] on [b]: nobody invalidates the
    entry or binds the user anew, [b] takes the user's requests, the clock does
    not go back, and [Elsewhere] leaves the cache. *)
Definition spares (key b : string) (ev : event) (t : Z) p : Prop :=
  match ev with
  | Pass d => 0 ≤ d
  | Authorize _ | Sweep => True
  | Request _ _ _ k => k = key → takes b t p
  | Public _ _ stickyKey _ => stickyKey ≠ key
  | Forget k => k ≠ key
  | ForgetBackend b' => b' ≠ b
  | Elsewhere f => w_cache (Proxy.p_world (f p)) = w_cache (Proxy.p_world p)
  end.

Fixpoint spared (key b : string) (evs : list event) (t : Z) p : Prop :=
  match evs with
  | [] => True
  | ev :: evs => spares key b ev t p ∧ ∀ q t' p', exec ev t p = Some (q, (t', p')) → spared key b evs t' p'
  end.

(** Deciding it, along the run. *)
#[global] Instance spares_dec key b ev t p : Decision (spares key b ev t p).
Proof. destruct ev; simpl; unfold takes; apply _. Defined.

Fixpoint spared_run (key b : string) (evs : list event) (t : Z) p : bool :=
  match evs with
  | [] => true
  | ev :: evs =>
      bool_decide (spares key b ev t p) &&
      match exec ev t p with Some (_, (t', p')) => spared_run key b evs t' p' | None => true end
  end.

Lemma spared_run_ok key b evs t p : spared_run key b evs t p = true → spared key b evs t p.
Proof.
  revert t p. induction evs as [|ev evs IH]; intros t p Hr; [done|]. simpl in Hr.
  apply andb_prop in Hr as [Hs%bool_decide_eq_true Hr]. split; [done|]. intros q t' p' He. rewrite He in Hr. by apply IH.
Qed.

(** ** What an event leaves *)

Definition entry (key : string) p : option UC.cacheEntry := UC.data (w_cache (Proxy.p_world p)) !! key.

Lemma authorize_world t r p : Proxy.p_world (Proxy.authorize params parse t r p).2 = Proxy.p_world p.
Proof.
  unfold Proxy.authorize. destruct (JWT.extractUserIDFromJWT _ _ _ _ _) as [[j|] c]; [|done].
  destruct (RL.Allow _ _ _) as [[] l]; [|done]. simpl. destruct (Proxy.p_poison p) as [d|]; [|done].
  by destruct (Poison.IsQuarantined _ d).
Qed.

Lemma public_entry t later ok sticky r key p a p' :
  Proxy.servePublic params parses t later ok sticky r p = Some (a, p') → sticky ≠ key →
  entry key p' = entry key p.
Proof.
  unfold Proxy.servePublic, entry. destruct (ActiveBackends _) as [[l err] s]. intros Hp Hne.
  destruct (_ || _); [by simplify_eq|]. apply bind_Some in Hp as (b & _ & Hp).
  destruct (Backends.ProxyRequest _ _ _ _ _ _) as [[resp ev] bm]. simplify_eq. case_bool_decide as Hh; [done|].
  unfold Proxy.bindStickyKey. cbn [Proxy.p_world Proxy.set_world].
  match goal with |- context [SendAssign ?c ?x ?ks ?w] => destruct (Proxy.SendAssign_frame c x ks w) as [_ ->] end.
  assert (Hc : ∀ w : world S, w_cache match Proxy.routingMode params with
      | Proxy.ModeAssignment => let '(_, s0) := BulkAssign later {[match resp with Backends.Forwarded => sticky | _ => ""%string end := mkEntry b 1]} (w_store w) in set_store s0 w
      | Proxy.ModeHash => w end = w_cache w).
  { intros w. destruct (Proxy.routingMode params); [|done]. by destruct (BulkAssign _ _ _) as [? ?]. }
  rewrite Hc. simpl. rewrite lookup_insert_ne; [done|]. by destruct resp.
Qed.

(** A request of the user itself. *)
Lemma request_hits t later ok r key b e p a p' :
  entry key p = Some e → UC.backend e = b → t ≤ UC.exp e → takes b t p →
  Proxy.route params parses t later ok r key p = Some (a, p') →
  Proxy.target a = Some (b, key) ∧ Proxy.p_world p' = Proxy.p_world p.
Proof.
  intros He Hb Ht [Hav Hdr] Hr. destruct (Proxy.cached_backend_hit t key b e p) as (p0 & Hc & Hw); [by split_and!|].
  unfold Proxy.route in Hr. rewrite Hc in Hr. injection Hr as Hf.
  pose proof (Proxy.forward_target parses t later ok r key b p0) as Hft.
  pose proof (Proxy.forward_world parses t later ok r key b p0) as Hfw. rewrite Hf in Hft, Hfw. simpl in *. by rewrite Hfw.
Qed.

Lemma exec_clock_mono ev t p q t' p' key b : exec ev t p = Some (q, (t', p')) → spares key b ev t p → t ≤ t'.
Proof. destruct ev; simpl; intros He Hs; repeat (apply bind_Some in He as ([? ?] & _ & He)); simplify_eq; lia. Qed.

Lemma exec_entry ev t p q t' p' key b e :
  exec ev t p = Some (q, (t', p')) → spares key b ev t p → entry key p = Some e → UC.backend e = b → t' ≤ UC.exp e →
  entry key p' = Some e ∧
  Forall (λ x, q_key x = key → Proxy.target (q_answer x) = Some (b, key) ∧ q_after x = q_before x) q.
Proof.
  intros He Hs Hent Hb Hx. destruct ev as [d|r|later ok r k|later ok sticky r|k|b'| |f]; simpl in He, Hs.
  - by simplify_eq.
  - simplify_eq. unfold entry in *. by rewrite authorize_world.
  - apply bind_Some in He as ([a p1] & Hr & He). simplify_eq. destruct (decide (k = key)) as [->|Hne].
    + destruct (request_hits _ _ _ _ _ _ e _ _ _ Hent eq_refl Hx (Hs eq_refl) Hr) as [Ht Hw].
      unfold entry in *. rewrite Hw. split; [done|]. by repeat constructor.
    + unfold entry in *. rewrite (Proxy.route_other _ _ _ _ _ _ _ _ _ _ _ Hr Hne). split; [done|].
      constructor; [|constructor]. by intros.
  - apply bind_Some in He as ([a p1] & Hp & He). simplify_eq. by rewrite (public_entry _ _ _ _ _ _ _ _ _ Hp Hs).
  - simplify_eq. unfold entry in *. simpl. by rewrite lookup_delete_ne.
  - simplify_eq. unfold entry in *. unfold on_cache. cbn [Proxy.p_world Proxy.set_world w_cache set_cache].
    rewrite UC.lookup_InvalidateBackend, Hent, bool_decide_false by done. done.
  - simplify_eq. unfold entry in *. unfold on_cache. cbn [Proxy.p_world Proxy.set_world w_cache set_cache].
    rewrite UC.lookup_cleanup, Hent. unfold After. by rewrite (proj2 (Z.ltb_ge _ _)) by lia.
  - simplify_eq. unfold entry in *. by rewrite Hs.
Qed.

Lemma run_clock evs t p qs t' p' key b : run evs t p = Some (qs, (t', p')) → spared key b evs t p → t ≤ t'.
Proof.
  revert t p qs. induction evs as [|ev evs IH]; intros t p qs Hr Hs; simpl in Hr; [by simplify_eq|].
  apply bind_Some in Hr as ([q [t1 p1]] & He & Hr). apply bind_Some in Hr as ([qs' [t2 p2]] & Hr & [= <- -> ->]).
  destruct Hs as [Hs Hrest]. apply (exec_clock_mono _ _ _ _ _ _ key b He) in Hs. apply Hrest in He.
  apply IH in Hr; [lia|done].
Qed.

Lemma run_entry evs t p qs t' p' key b e :
  run evs t p = Some (qs, (t', p')) → spared key b evs t p → entry key p = Some e → UC.backend e = b → t' ≤ UC.exp e →
  entry key p' = Some e ∧
  Forall (λ x, q_key x = key → Proxy.target (q_answer x) = Some (b, key) ∧ q_after x = q_before x) qs.
Proof.
  revert t p qs. induction evs as [|ev evs IH]; intros t p qs Hr Hs Hent Hb Hx; simpl in Hr; [by simplify_eq|].
  apply bind_Some in Hr as ([q [t1 p1]] & He & Hr). apply bind_Some in Hr as ([qs' [t2 p2]] & Hr & [= <- -> ->]).
  destruct Hs as [Hs Hrest]. specialize (Hrest _ _ _ He). pose proof (run_clock _ _ _ _ _ _ key b Hr Hrest).
  destruct (exec_entry _ _ _ _ _ _ key b e He Hs Hent Hb) as [Hent1 Hq]; [lia|].
  destruct (IH _ _ _ Hr Hrest Hent1 Hb Hx) as [Hent2 Hqs]. split; [done|]. by apply Forall_app.
Qed.

(** C2. Sessions are sticky: a request of a user that is forwarded to backend
    [b] leaves a cache entry of [b] for the user, the one it used or a new one
    that lives for the cache's time to live, and from then on every request of
    the user until that entry expires goes to [b] again without changing the
    store or the cache, whatever requests of other users, public requests,
    sweeps, invalidations of other users and backends and other activity of
    the proxy come in between.  The session ends early only by an invalidation
    of the user or of [b], a new binding of the user, or a request of the user
    while [b]'s breaker is open or [b] is draining. *)
Theorem sticky_session now later ok r key p a p1 b u evs qs t2 p2 :
  Proxy.route params parses now later ok r key p = Some (a, p1) → Proxy.target a = Some (b, u) →
  run evs now p1 = Some (qs, (t2, p2)) → spared key b evs now p1 →
  ∃ e, entry key p1 = Some e ∧ UC.backend e = b ∧
    (entry key p = Some e ∧ now ≤ UC.exp e ∨ UC.exp e = now + UC.ttl (w_cache (Proxy.p_world p))) ∧
    (t2 ≤ UC.exp e → entry key p2 = Some e ∧
       Forall (λ x, q_key x = key → Proxy.target (q_answer x) = Some (b, key) ∧ q_after x = q_before x) qs).
Proof.
  intros Hr Ht Hrun Hs. destruct (Proxy.route_entry _ _ _ _ _ _ _ _ _ _ _ _ Hr Ht) as (e & He & Hb & Hcase).
  exists e. split; [done|]. split; [done|]. split; [done|]. intros Hx. by eapply run_entry.
Qed.
End session.
End Session.
