(* ===== verification/Endpoints.v ===== *)
(** * admin.go, debug.go and health.go: the operator's endpoints

    [AdminAuth] guards the handlers that start, list and cancel drains and the
    one that explains where a user is routed; [Healthz] is open.  A handler
    returns the status and body it writes and the state it leaves. *)
From stdpp Require Import base gmap strings list fin_maps.
From Stdlib Require Import ZArith Lia.
From S2P Require Import Prelude Go Assignment Store UserCache World Drain HealthChecker Proxy.
Local Open Scope Z_scope.

Module Endpoints.

(** ** AdminAuth *)

Inductive verdict := Disabled (* 403 *) | Denied (* 401 *) | Next.

(** [strings.TrimPrefix] *)
Definition TrimPrefix (s prefix : string) : string :=
  if String.prefix prefix s
  then String.substring (String.length prefix) (String.length s - String.length prefix) s
  else s.

(** [subtle.ConstantTimeCompare(x, y) == 1] is equality of the contents. *)
Definition AdminAuth (token auth : string) : verdict :=
  if bool_decide (token = "") then Disabled
  else
    let provided := TrimPrefix auth "Bearer " in
    if bool_decide (provided = auth) || negb (bool_decide (provided = token)) then Denied else Next.

(** ** Handlers *)

Inductive reply :=
  | MethodNotAllowed                              (* 405 *)
  | BadRequest                                    (* 400, a parameter is missing *)
  | Unavailable                                   (* 503 *)
  | Accepted (status backend : string)            (* 202 *)
  | Ok (status backend : string)                  (* 200 *)
  | Draining (backends : list string)             (* 200 *)
  | Healthy (backends : nat).                     (* 200 *)

Section ops.
Context `{!MapIter} {S : Type} `{!Store S}.
Context (params : Proxy.params).
Implicit Types (p : Proxy.Proxy S).

Definition set_p_drain (d : option Drain.DrainManager) p : Proxy.Proxy S :=
  Proxy.mkProxy (Proxy.p_world p) (Proxy.p_backends p) d (Proxy.p_poison p) (Proxy.p_redis p)
    (Proxy.p_limiter p) (Proxy.p_jwt p).

(** POST /admin/drain?backend=... *)
Definition AdminDrainHandler (method backend : string) p : reply * Proxy.Proxy S :=
  if bool_decide (method ≠ "POST") then (MethodNotAllowed, p)
  else if bool_decide (backend = "") then (BadRequest, p)
  else
    match Proxy.p_drain p with
    | None => (Unavailable, p)
    | Some d => (Accepted "draining" backend, set_p_drain (Some (Drain.StartDrain backend d)) p)
    end.

(** GET /admin/drain *)
Definition AdminDrainStatusHandler p : reply :=
  match Proxy.p_drain p with
  | None => Draining []
  | Some d => Draining (Drain.DrainingBackends d)
  end.

(** DELETE /admin/drain?backend=... *)
Definition AdminCancelDrainHandler (method backend : string) p : reply * Proxy.Proxy S :=
  if bool_decide (method ≠ "DELETE") then (MethodNotAllowed, p)
  else if bool_decide (backend = "") then (BadRequest, p)
  else
    match Proxy.p_drain p with
    | None => (Unavailable, p)
    | Some d => (Ok "cancelled" backend, set_p_drain (Some (Drain.CancelDrain backend d)) p)
    end.

(** ** GET /debug/routing?user=... *)

Record debugRoutingResponse := mkDebug {
  User : string;
  d_Backend : string;
  d_AssignedAt : option Z;
  d_Source : string;
  CacheLayer : string
}.

(** [sticky] is the answer of [GET sticky:user] in hash mode.  [None] for the
    whole is a nil dereference: the store reported no error and no assignment. *)
Definition DebugRoutingHandler (now : Z) (user : string) (sticky : result string) p
    : option ((unit + debugRoutingResponse) * Proxy.Proxy S) :=
  if bool_decide (user = "") then Some (inl tt, p)
  else
    let w := Proxy.p_world p in
    let '((b, err), c) := UC.Get now user (w_cache w) in
    let w := set_cache c w in
    let p := Proxy.set_world w p in
    let none := mkDebug user "" None "unknown" "none" in
    match err with
    | None => Some (inr (mkDebug user b None "local_cache" "local"), p)
    | Some _ =>
        match Proxy.routingMode params with
        | Proxy.ModeAssignment =>
            let '((a, err), s) := GetAssignment user (w_store w) in
            let p := Proxy.set_world (set_store s w) p in
            match err with
            | Some _ => Some (inr none, p)
            | None =>
                a ← a;
                Some (inr (mkDebug user (Backend a) (Some (AssignedAt a)) (Source a) "store"), p)
            end
        | Proxy.ModeHash =>
            match Proxy.p_redis p, sticky.2 with
            | Some _, None => Some (inr (mkDebug user sticky.1 None "hash" "redis"), p)
            | _, _ => Some (inr none, p)
            end
        end
    end.

(** GET /healthz *)
Definition Healthz (hc : HC.HealthChecker S) p : reply * Proxy.Proxy S :=
  let '(err, s) := Ping (w_store (Proxy.p_world p)) in
  let p := Proxy.set_world (set_store s (Proxy.p_world p)) p in
  match err with
  | Some _ => (Unavailable, p)
  | None => (Healthy (HC.HealthyCount hc), p)
  end.
End ops.

(** ** Properties *)

Lemma substring_all s : String.substring 0 (String.length s) s = s.
Proof. induction s as [|c s IH]; simpl; [done|]. by rewrite IH. Qed.

Lemma prefix_split p s :
  String.prefix p s = true →
  s = p +:+ String.substring (String.length p) (String.length s - String.length p) s.
Proof.
  revert s. induction p as [|c p IH]; intros [|c' s]; simpl; try done.
  - intros _. by rewrite substring_all.
  - destruct (Ascii.ascii_dec c c') as [->|]; [|done]. intros Hp. rewrite (IH s Hp) at 1. done.
Qed.

Lemma prefix_app p s : String.prefix p (p +:+ s) = true.
Proof.
  induction p as [|c p IH]; simpl; [by destruct s|]. by destruct (Ascii.ascii_dec c c).
Qed.

Lemma length_string_app p s : String.length (p +:+ s) = (String.length p + String.length s)%nat.
Proof. induction p as [|c p IH]; simpl; [done|]. by rewrite IH. Qed.

Lemma TrimPrefix_app p s : TrimPrefix (p +:+ s) p = s.
Proof.
  unfold TrimPrefix. rewrite prefix_app, length_string_app, Nat.add_comm, Nat.add_sub.
  induction p as [|c p IH]; simpl; [apply substring_all|done].
Qed.

(** The operator's endpoints are open to the token's holder only: the
    guarded handler runs exactly when a token is configured and the
    Authorization header is "Bearer " followed by that token. *)
Theorem admin_auth_exact token auth :
  AdminAuth token auth = Next ↔ token ≠ "" ∧ auth = "Bearer " +:+ token.
Proof.
  unfold AdminAuth. case_bool_decide as Ht; [naive_solver|]. split.
  - destruct (String.prefix "Bearer " auth) eqn:Hp.
    + pose proof (prefix_split _ _ Hp) as Hs. unfold TrimPrefix. rewrite Hp.
      case_bool_decide as H1; [done|]. case_bool_decide as H2; [|done]. intros _. split; [done|].
      by rewrite H2 in Hs.
    + unfold TrimPrefix. rewrite Hp. by rewrite bool_decide_true.
  - intros [_ ->]. rewrite TrimPrefix_app. rewrite (bool_decide_true (token = token)) by done.
    rewrite bool_decide_false; [done|]. intros Heq. apply (f_equal String.length) in Heq.
    rewrite length_string_app in Heq. simpl in Heq. lia.
Qed.

(** The report is the router's view: a backend shown as locally cached is the
    one the cache holds for the user at that instant. *)
Lemma debug_local_agrees `{!MapIter} {S} `{!Store S} params now user sticky (p : Proxy.Proxy S) rep p1 :
  DebugRoutingHandler params now user sticky p = Some (inr rep, p1) → CacheLayer rep = "local" →
  UC.live now (UC.data (w_cache (Proxy.p_world p))) user = Some (d_Backend rep).
Proof.
  unfold DebugRoutingHandler. case_bool_decide; [done|]. unfold UC.Get, UC.live.
  destruct (UC.data (w_cache (Proxy.p_world p)) !! user) as [e|]; simpl;
    [destruct (After now (UC.exp e)); simpl; [|by intros [= <- _]]|];
    (destruct (Proxy.routingMode params);
     [destruct (GetAssignment _ _) as [[[] [err|]] s]; simpl; by intros [= <- _]
     |destruct (Proxy.p_redis p), sticky.2; by intros [= <- _]]).
Qed.

End Endpoints.
