(* ===== verification/Wiring.v ===== *)
(** * proxy.go: putting the proxy together

    [New] turns a configuration into the proxy: which store, notifier and lock
    it uses, which optional parts exist, and the initial state of each.  The
    constructors that reach outside (Postgres, the Kubernetes client) may
    fail; their outcome is an argument. *)
From stdpp Require Import base gmap strings list fin_maps.
From Stdlib Require Import ZArith Lia.
From S2P Require Import Prelude Go Assignment Store UserCache Poison Hold ConnTracker World.
From S2P Require Import Drain Backends HealthChecker RedisBreaker Config RateLimiter JWT Proxy.
Local Open Scope Z_scope.

Module Wiring.

Inductive store_kind := StMemory | StPostgres | StRedis.
Inductive source_kind := SrcRedis | SrcHTTP | SrcPostgres.
Inductive strategy_kind := LeastLoaded | ConsistentHash.
Inductive discoverer := ByDNS (host port : string) | ByKubernetes (namespace selector portName : string).

#[export] Instance store_kind_eq_dec : EqDecision store_kind.
Proof. solve_decision. Defined.

(** The errors of the constructors that reach outside. *)
Record outside := mkOutside {
  pg_store : option error;
  pg_source : option error;
  k8s_client : option error
}.

(** What [New] built; [None] is a nil pointer or interface. *)
Record wiring := mkWiring {
  kind : store_kind;
  w_redis : bool;
  notifier : option store_kind;
  locker : option store_kind;
  hook_client : option (Duration * Z);
  hold : option Duration;
  source : option source_kind;
  rebalancer : option (option strategy_kind * bool);   (* strategy, wsSwapOnRebalance *)
  backendDiscovery : option discoverer;
  health : HC.config;
  poison : option (Z * Duration)
}.

Inductive outcome := Panic | Failed (e : error) | Built (w : wiring).

Definition store_of (name : string) : store_kind :=
  if bool_decide (name = "memory") then StMemory
  else if bool_decide (name = "postgres") then StPostgres
  else StRedis.

(** The source of account discovery; a Redis source needs the Redis client,
    [inl None] is the nil dereference. *)
Definition source_of (out : outside) (k : store_kind) (name : string)
    : option error + option source_kind :=
  if bool_decide (name = "") then inr None
  else if bool_decide (name = "redis") then
    match k with StRedis => inr (Some SrcRedis) | _ => inl None end
  else if bool_decide (name = "http") then inr (Some SrcHTTP)
  else if bool_decide (name = "postgres") then
    match pg_source out with Some e => inl (Some e) | None => inr (Some SrcPostgres) end
  else inr None.

(** A strategy other than the two known leaves a nil strategy behind. *)
Definition strategy_of (name : string) (swap : bool) : option (option strategy_kind * bool) :=
  if bool_decide (name = "none") then None
  else Some (if bool_decide (name = "least-loaded") then Some LeastLoaded
             else if bool_decide (name = "consistent-hash") then Some ConsistentHash
             else None, swap).

Definition discoverer_of (out : outside) (m : Config.Modes) : error + option discoverer :=
  if bool_decide (Config.BackendDiscovery m = "dns")
  then inr (Some (ByDNS (Config.BackendDiscoveryHost m) (Config.BackendDiscoveryPort m)))
  else if bool_decide (Config.BackendDiscovery m = "kubernetes") then
    match k8s_client out with
    | Some e => inl e
    | None => inr (Some (ByKubernetes (Config.BackendDiscoveryNamespace m)
                           (Config.BackendDiscoverySelector m) (Config.BackendDiscoveryPortName m)))
    end
  else inr None.

(** A non-positive window makes [time.NewTicker] panic in [pruneLoop]. *)
Definition poison_of (x : Config.Extras) : option (option (Z * Duration)) :=
  if bool_decide (Config.PoisonPillAction x = "quarantine") then
    if Config.PoisonPillWindow x <=? 0 then None
    else Some (Some (Config.PoisonPillThreshold x, Config.PoisonPillWindow x))
  else Some None.

Definition New (out : outside) (c : Config.Config) : outcome :=
  let h := Config.hooks c in
  let m := Config.modes c in
  let x := Config.extras c in
  let hk := if Config.HooksEnabled h then Some (Config.HooksTimeout h, Config.HooksRetries h) else None in
  let k := store_of (Config.AssignmentStore m) in
  match k, pg_store out with
  | StPostgres, Some e => Failed e
  | _, _ =>
      (* Redis and Postgres come with a notifier and a lock, the memory store with neither *)
      let shared := match k with StMemory => None | _ => Some k end in
      let hold := if Config.HoldDuringTransition x then Some (Config.HoldTimeout x) else None in
      match source_of out k (Config.AccountsDiscovery m) with
      | inl None => Panic
      | inl (Some e) => Failed e
      | inr src =>
          let reb := strategy_of (Config.RebalanceStrategy m) (Config.WSSwapOnRebalance x) in
          let hc := HC.mkConfig (HC.unhealthyThreshold HC.defaults) (HC.healthyThreshold HC.defaults)
                      (bool_decide (k = StRedis)) (Config.DrainOnUnhealthy h)
                      (Config.RebalanceOnScale m && bool_decide (is_Some reb)) in
          match discoverer_of out m with
          | inl e => Failed e
          | inr disc =>
              match poison_of x with
              | None => Panic
              | Some pp => Built (mkWiring k (bool_decide (k = StRedis)) shared shared hk hold src reb disc hc pp)
              end
          end
      end
  end.

(** The collaborators the model of the proxy is given. *)
Definition params_of (c : Config.Config) (w : wiring) : Proxy.params :=
  Proxy.mkParams
    (if bool_decide (Config.RoutingMode (Config.modes c) = "assignment") then Proxy.ModeAssignment else Proxy.ModeHash)
    (Config.RoutingClaim (Config.hooks c)) (Config.PublicPaths (Config.extras c))
    (mkConfig (bool_decide (is_Some (hook_client w))) (bool_decide (is_Some (notifier w)))
       (bool_decide (is_Some (hold w))) true).

(** The proxy [New] returns, over the store it opened. *)
Definition initial {S : Type} (s : S) (c : Config.Config) (w : wiring) : Proxy.Proxy S :=
  let l := Config.limits c in
  Proxy.mkProxy
    (mkWorld s (UC.NewUserCache (Config.CacheTTL l)) (Hold.NewHoldManager (default 0 (hold w))) CT.NewConnTracker [])
    (Backends.NewBackendManager (Config.EvictionThreshold l) (Config.EvictionCooldown l))
    (Some Drain.NewDrainManager)
    ((λ p, Poison.NewPoisonPillDetector p.1 p.2) <$> poison w)
    (if w_redis w
     then Some (CB.NewRedis (Config.RedisAddr l) (Config.RedisPoolSize l) (Config.RedisMinIdleConns l)
                  (Config.RedisCBThreshold l) (Config.RedisCBCooldown l)).2
     else None)
    RL.proxy_limiter (JWT.NewJWTCache (Config.JWTCacheMaxSize l)).

(** ** Loaded configurations build *)

Lemma store_of_memory name : store_of name = StMemory ↔ name = "memory".
Proof. unfold store_of. repeat case_bool_decide; naive_solver. Qed.

Lemma source_of_loaded out c :
  Config.coherent c → source_of out (store_of (Config.AssignmentStore (Config.modes c)))
    (Config.AccountsDiscovery (Config.modes c)) ≠ inl None.
Proof.
  intros Hv. unfold source_of. repeat (case_bool_decide; [try done|]); [| |done].
  - rewrite (Config.coherent_redis_source c Hv) by done. done.
  - by case_match.
Qed.

(** Quarantine is on, with a window that is not positive. *)
Definition bad_window (c : Config.Config) : Prop :=
  Config.PoisonPillAction (Config.extras c) = "quarantine" ∧ Config.PoisonPillWindow (Config.extras c) ≤ 0.

Lemma poison_of_bad c : poison_of (Config.extras c) = None ↔ bad_window c.
Proof.
  unfold poison_of, bad_window. case_bool_decide; [|naive_solver].
  destruct (Z.leb_spec (Config.PoisonPillWindow (Config.extras c)) 0); [naive_solver|].
  split; [done|]. intros [_ ?]. lia.
Qed.

Lemma strategy_of_loaded c swap s swap' :
  Config.coherent c → strategy_of (Config.RebalanceStrategy (Config.modes c)) swap = Some (s, swap') →
  is_Some s ∧ Config.RoutingMode (Config.modes c) = "assignment".
Proof.
  intros Hv. unfold strategy_of. case_bool_decide as Hn; [done|]. intros [= <- <-].
  split; [|by apply (Config.coherent_rebalance c Hv)]. pose proof (Config.coherent_strategy c Hv) as Hs.
  repeat case_bool_decide; [by eexists..|]. set_solver.
Qed.

(** A configuration [Load] accepts builds a working proxy: [New] does not
    dereference a nil client, and it panics only for a quarantine window that
    is not positive, which [Load] lets pass.  What it builds fits together: in
    assignment mode the store keeps a table and comes with a notifier and a
    cross-replica lock, a rebalancer has a strategy and exists only there, and
    the Redis breaker is there exactly with the Redis store. *)
Theorem New_loaded env out c :
  Config.Load env = inr c →
  (New out c = Panic → bad_window c) ∧
  ∀ w, New out c = Built w →
    ¬ bad_window c ∧
    (Proxy.routingMode (params_of c w) = Proxy.ModeAssignment →
       kind w ≠ StMemory ∧ notifier w = Some (kind w) ∧ locker w = Some (kind w)) ∧
    (∀ s swap, rebalancer w = Some (s, swap) →
       is_Some s ∧ Proxy.routingMode (params_of c w) = Proxy.ModeAssignment) ∧
    (∀ {S} (s : S), is_Some (Proxy.p_redis (initial s c w)) ↔ kind w = StRedis).
Proof.
  intros Hload. pose proof (Config.Load_coherent env c Hload) as Hv.
  pose proof (source_of_loaded out c Hv) as Hsrc. unfold New.
  set (k := store_of (Config.AssignmentStore (Config.modes c))) in *.
  destruct (source_of out k (Config.AccountsDiscovery (Config.modes c))) as [[e|]|src]; [| done|].
  { split; [by repeat case_match|]. intros w. by repeat case_match. }
  destruct (discoverer_of out (Config.modes c)) as [e|disc].
  { split; [by repeat case_match|]. intros w. by repeat case_match. }
  pose proof (poison_of_bad c) as Hp.
  destruct (poison_of (Config.extras c)) as [pp|].
  - split; [by repeat case_match|]. intros w Hw. assert (Hb : ¬ bad_window c) by (by intros ?%Hp).
    assert (Hw' : w = mkWiring k (bool_decide (k = StRedis)) (match k with StMemory => None | _ => Some k end)
      (match k with StMemory => None | _ => Some k end) (hook_client w) (hold w) src
      (strategy_of (Config.RebalanceStrategy (Config.modes c)) (Config.WSSwapOnRebalance (Config.extras c)))
      disc (health w) pp). { destruct k, (pg_store out); by simplify_eq/=. }
    clear Hw. rewrite Hw'. clear Hw'. simpl. split; [done|]. split; [|split].
    + case_bool_decide as Hm; [|done]. intros _.
      assert (Hk : k ≠ StMemory). { unfold k. rewrite store_of_memory. by apply (Config.coherent_table c Hv). }
      by destruct k.
    + intros s swap Hs. apply (strategy_of_loaded c _ _ _ Hv) in Hs as [? Hmode]. by rewrite bool_decide_true.
    + intros S s. case_bool_decide; [naive_solver|]. split; [by intros [? ?]|done].
  - split; [intros _; by apply Hp|]. intros w. by repeat case_match.
Qed.

(** The minimal configuration, and the careless one with quarantine on. *)
Definition no_errors : outside := mkOutside None None None.

Definition quarantine_careless (key : string) : string :=
  if bool_decide (key = "POISON_PILL_ACTION") then "quarantine" else Config.careless key.

Lemma New_loaded_witness :
  (∃ c w, Config.Load Config.minimal = inr c ∧ New no_errors c = Built w ∧ kind w = StMemory ∧ ¬ bad_window c) ∧
  ∃ c, Config.Load quarantine_careless = inr c ∧ New no_errors c = Panic ∧ bad_window c.
Proof.
  split.
  - destruct (Config.Load Config.minimal) as [e|c] eqn:Hc; [by vm_compute in Hc|].
    destruct (New no_errors c) as [|e|w] eqn:Hw.
    1,2: vm_compute in Hc; injection Hc as <-; by vm_compute in Hw.
    exists c, w. split; [done|]. split; [done|].
    destruct (New_loaded Config.minimal no_errors c Hc) as [_ Hb].
    destruct (Hb w Hw) as (Hn & _). split; [|done].
    vm_compute in Hc. injection Hc as <-. vm_compute in Hw. by injection Hw as <-.
  - destruct (Config.Load quarantine_careless) as [e|c] eqn:Hc; [by vm_compute in Hc|].
    exists c. split; [done|]. assert (Hw : New no_errors c = Panic).
    { vm_compute in Hc. injection Hc as <-. by vm_compute. }
    split; [done|]. by apply (New_loaded quarantine_careless no_errors c Hc).
Defined.

End Wiring.
