(* ===== verification/Replicas.v ===== *)
(** * Several replicas over one store

    Every replica has its own cache; the table, or in hash mode the set of
    active backends, is shared.  A request is three steps of proxy.go, between
    which everything else may happen: the lookup in the cache
    ([Proxy.cached_backend]), the call of the store ([Proxy.assign]), the write
    to the cache with the forwarding.  Other steps are the passing of time,
    arbitrary changes of the store (drains, rebalances, discovery, the health
    checkers of other replicas), removals from a cache (invalidations, the
    cleanup loop), bindings by response headers, any change of the rest of a
    replica, and replicas that come and go.  A binding writes the cache of its
    replica whether or not the store then names its backend (the table keeps an
    assignment it has, and in hash mode nothing is stored): [strays] lists those
    it does not.

    [latency] bounds the time between the answer of the store and the write to
    the cache.  The theorems say how far a replica may be behind: the lifetime
    of a cache entry plus that latency, and no more. *)
From stdpp Require Import base gmap strings list fin_maps.
From Stdlib Require Import ZArith Lia.
From S2P Require Import Prelude Go Hashing Assignment Store UserCache World Backends RedisBreaker Proxy.
Local Open Scope Z_scope.

Module Replicas.

(** A request after its miss, and after the answer of the store at [t]. *)
Inductive req := Looked (r : nat) (key : string) | Got (r : nat) (key b : string) (t : Z).

(** A request forwarded, with the replica and the instant. *)
Record fwd := mkFwd { f_at : Z; f_rep : nat; f_key : string; f_backend : string }.

Record sys (S : Type) := mkSys {
  clock : Z;
  shared : S;
  reps : gmap nat (Proxy.Proxy S);
  reqs : gmap nat req;
  fwds : list fwd;
  strays : list fwd      (* bindings against the store *)
}.
Arguments mkSys {S}.
Arguments clock {S}.
Arguments shared {S}.
Arguments reps {S}.
Arguments reqs {S}.
Arguments fwds {S}.
Arguments strays {S}.

Section system.
Context `{!MapIter} {S : Type} `{!Store S, !BackendsSpec S}.
Context (params : Proxy.params) (ttl latency : Z).
Implicit Types (s : sys S) (p : Proxy.Proxy S).

(** A replica sees the shared store; what it does to it, all see. *)
Definition view s p : Proxy.Proxy S := Proxy.set_world (set_store (shared s) (Proxy.p_world p)) p.

Definition commit (r : nat) p s : sys S :=
  mkSys (clock s) (w_store (Proxy.p_world p)) (<[r := p]> (reps s)) (reqs s) (fwds s) (strays s).

Definition set_req (g : nat) (q : option req) s : sys S :=
  mkSys (clock s) (shared s) (reps s) (partial_alter (λ _, q) g (reqs s)) (fwds s) (strays s).

Definition forwarded (r : nat) (key b : string) s : sys S :=
  mkSys (clock s) (shared s) (reps s) (reqs s) (fwds s ++ [mkFwd (clock s) r key b]) (strays s).

Definition stray (r : nat) (key b : string) s : sys S :=
  mkSys (clock s) (shared s) (reps s) (reqs s) (fwds s) (strays s ++ [mkFwd (clock s) r key b]).

Definition cache p : UC.UserCache := w_cache (Proxy.p_world p).
Definition with_cache (c : UC.UserCache) p : Proxy.Proxy S := Proxy.set_world (set_cache c (Proxy.p_world p)) p.

(** What the store says about a key. *)
Definition says (st : S) (key b : string) : Prop :=
  match Proxy.routingMode params with
  | Proxy.ModeAssignment => ∃ a, tbl st !! key = Some a ∧ Backend a = b
  | Proxy.ModeHash => index_mod (sort_Strings (elements (act st))) (HashUser key) = Some b
  end.

#[global] Instance says_dec st key b : Decision (says st key b).
Proof.
  unfold says. destruct (Proxy.routingMode params); [|apply _].
  destruct (tbl st !! key) as [a|]; [|right; by intros (? & ? & _)].
  destruct (decide (Backend a = b)); [left; by exists a|right; by intros (a' & [= <-] & ?)].
Defined.

(** The store can be used by a replica: it answers, it has backends, and the
    replica does not take it for down. *)
Definition usable (now : Z) (st : S) p : Prop :=
  live st ∧ act st ≠ ∅ ∧
  match Proxy.routingMode params with
  | Proxy.ModeAssignment => total (tbl st) + 1 < two53 ∧ Proxy.breaker_closed now p
  | Proxy.ModeHash => Z.of_nat (size (act st)) < two32
  end.

Inductive step : sys S → sys S → Prop :=
  | step_time d s :
      0 ≤ d → step s (mkSys (clock s + d) (shared s) (reps s) (reqs s) (fwds s) (strays s))
  | step_hit g r key p b p' s :
      reps s !! r = Some p → reqs s !! g = None →
      Proxy.cached_backend (clock s) key (view s p) = (inr (Some b), p') →
      step s (forwarded r key b (commit r p' s))
  | step_quarantined g r key p a p' s :
      reps s !! r = Some p → reqs s !! g = None →
      Proxy.cached_backend (clock s) key (view s p) = (inl a, p') →
      step s (commit r p' s)
  | step_miss g r key p p' s :
      reps s !! r = Some p → reqs s !! g = None →
      Proxy.cached_backend (clock s) key (view s p) = (inr None, p') →
      step s (set_req g (Some (Looked r key)) (commit r p' s))
  | step_assign g r key p b p' s :
      reps s !! r = Some p → reqs s !! g = Some (Looked r key) →
      Proxy.assign params (clock s) key (view s p) = Some ((b, None), p') →
      step s (set_req g (Some (Got r key b (clock s))) (commit r p' s))
  | step_no_backend g r key p b e p' s :
      reps s !! r = Some p → reqs s !! g = Some (Looked r key) →
      Proxy.assign params (clock s) key (view s p) = Some ((b, Some e), p') →
      step s (set_req g None (commit r p' s))
  | step_set g r key b t p s :
      reps s !! r = Some p → reqs s !! g = Some (Got r key b t) → clock s ≤ t + latency →
      step s (forwarded r key b (set_req g None
        (commit r (with_cache (UC.Set_ (clock s) key b (cache p)) (view s p)) s)))
  | step_bind r key b p s :
      reps s !! r = Some p →
      says (w_store (Proxy.p_world (Proxy.bindStickyKey params (clock s) key b (view s p)))) key b →
      step s (commit r (Proxy.bindStickyKey params (clock s) key b (view s p)) s)
  | step_stray r key b p s :
      reps s !! r = Some p →
      ¬ says (w_store (Proxy.p_world (Proxy.bindStickyKey params (clock s) key b (view s p)))) key b →
      step s (stray r key b (commit r (Proxy.bindStickyKey params (clock s) key b (view s p)) s))
  | step_forget r p c s :
      reps s !! r = Some p → UC.ttl c = UC.ttl (cache p) → UC.data c ⊆ UC.data (cache p) →
      step s (commit r (with_cache c (view s p)) s)
  | step_local r p p' s :
      reps s !! r = Some p → cache p' = cache p →
      step s (mkSys (clock s) (shared s) (<[r := p']> (reps s)) (reqs s) (fwds s) (strays s))
  | step_store st s :
      step s (mkSys (clock s) st (reps s) (reqs s) (fwds s) (strays s))
  | step_join r p s :
      reps s !! r = None → cache p = UC.NewUserCache ttl →
      step s (mkSys (clock s) (shared s) (<[r := p]> (reps s)) (reqs s) (fwds s) (strays s))
  | step_leave r s :
      step s (mkSys (clock s) (shared s) (delete r (reps s)) (reqs s) (fwds s) (strays s)).

(** A run: all states so far, the current one last. *)
Inductive run : list (sys S) → sys S → Prop :=
  | run_start now st : run [mkSys now st ∅ ∅ [] []] (mkSys now st ∅ ∅ [] [])
  | run_step l s s' : run l s → step s s' → run (l ++ [s']) s'.

(** ** Running a schedule *)

Inductive event :=
  | Tick (d : Z)
  | Lookup (g r : nat) (key : string)
  | Ask (g : nat)
  | Finish (g : nat)
  | Bind (r : nat) (key b : string)
  | DropBackend (r : nat) (b : string)
  | Change (st : S)
  | Join (r : nat) (p : Proxy.Proxy S).

(** One event as a step, [None] where there is none. *)
Definition exec (ev : event) (s : sys S) : option (sys S) :=
  match ev with
  | Tick d => guard (0 ≤ d);; Some (mkSys (clock s + d) (shared s) (reps s) (reqs s) (fwds s) (strays s))
  | Lookup g r key =>
      guard (reqs s !! g = None);;
      p ← reps s !! r;
      match Proxy.cached_backend (clock s) key (view s p) with
      | (inr (Some b), p') => Some (forwarded r key b (commit r p' s))
      | (inr None, p') => Some (set_req g (Some (Looked r key)) (commit r p' s))
      | (inl _, p') => Some (commit r p' s)
      end
  | Ask g =>
      match reqs s !! g with
      | Some (Looked r key) =>
          p ← reps s !! r;
          '((b, err), p') ← Proxy.assign params (clock s) key (view s p);
          Some (set_req g (match err with None => Some (Got r key b (clock s)) | Some _ => None end) (commit r p' s))
      | _ => None
      end
  | Finish g =>
      match reqs s !! g with
      | Some (Got r key b t) =>
          guard (clock s ≤ t + latency);;
          p ← reps s !! r;
          Some (forwarded r key b (set_req g None
            (commit r (with_cache (UC.Set_ (clock s) key b (cache p)) (view s p)) s)))
      | _ => None
      end
  | Bind r key b =>
      p ← reps s !! r;
      let p := Proxy.bindStickyKey params (clock s) key b (view s p) in
      Some (if decide (says (w_store (Proxy.p_world p)) key b) then commit r p s else stray r key b (commit r p s))
  | DropBackend r b =>
      p ← reps s !! r; Some (commit r (with_cache (UC.InvalidateBackend b (cache p)) (view s p)) s)
  | Change st => Some (mkSys (clock s) st (reps s) (reqs s) (fwds s) (strays s))
  | Join r p =>
      guard (reps s !! r = None);;
      Some (mkSys (clock s) (shared s) (<[r := with_cache (UC.NewUserCache ttl) p]> (reps s)) (reqs s) (fwds s) (strays s))
  end.

Fixpoint exec_all (evs : list event) (l : list (sys S)) (s : sys S) : option (list (sys S) * sys S) :=
  match evs with
  | [] => Some (l, s)
  | ev :: evs => s' ← exec ev s; exec_all evs (l ++ [s']) s'
  end.

Lemma exec_step ev s s' : exec ev s = Some s' → step s s'.
Proof.
  destruct ev as [d|g r key|g|g|r key b|r b|st|r p]; simpl; intros He.
  - case_guard; simplify_eq/=. by constructor.
  - case_guard as Hg; simplify_eq/=. apply bind_Some in He as (p & Hp & He).
    destruct (Proxy.cached_backend _ _ _) as [[a|[b|]] p'] eqn:Hc; simplify_eq;
      [by eapply step_quarantined|by eapply step_hit|by eapply step_miss].
  - destruct (reqs s !! g) as [[r key|]|] eqn:Hg; [|done..]. apply bind_Some in He as (p & Hp & He).
    apply bind_Some in He as ([[b [e|]] p'] & Ha & He); simplify_eq; [by eapply step_no_backend|by eapply step_assign].
  - destruct (reqs s !! g) as [[|r key b t]|] eqn:Hg; [done| |done]. case_guard; simplify_eq/=.
    apply bind_Some in He as (p & Hp & He). simplify_eq. by eapply step_set.
  - apply bind_Some in He as (p & Hp & He). case_decide; simplify_eq; [by apply step_bind|by apply step_stray].
  - apply bind_Some in He as (p & Hp & He). simplify_eq. apply step_forget; [done|done|].
    apply map_subseteq_spec. intros k e. rewrite UC.lookup_InvalidateBackend. by repeat case_match.
  - simplify_eq. constructor.
  - case_guard; simplify_eq/=. by constructor.
Qed.

Lemma exec_all_run evs l s l' s' : run l s → exec_all evs l s = Some (l', s') → run l' s'.
Proof.
  revert l s. induction evs as [|ev evs IH]; intros l s Hr He; simpl in He; [by simplify_eq|].
  apply bind_Some in He as (s1 & Hs & He). eapply IH; [|done]. eapply run_step; [done|]. by apply (exec_step ev).
Qed.

(** The three steps of a request, with nothing in between, are [Proxy.route]. *)
Lemma route_is_steps parses now later ok r key p :
  Proxy.route params parses now later ok r key p =
    match Proxy.cached_backend now key p with
    | (inl a, p) => Some (a, p)
    | (inr (Some b), p) => Some (Proxy.forward parses now later ok r key b p)
    | (inr None, p) =>
        res ← Proxy.assign params now key p;
        match res with
        | ((_, Some _), p) => Some (Proxy.NoBackend, p)
        | ((b, None), p) =>
            let p := with_cache (UC.Set_ now key b (cache p)) p in
            Some (Proxy.forward parses now later ok r key b
                    (Proxy.set_world (SendAssign (Proxy.wcfg params) b [key] (Proxy.p_world p)) p))
        end
    end.
Proof.
  unfold Proxy.route. destruct (Proxy.cached_backend now key p) as [[a|[b|]] p1]; [done..|].
  destruct (Proxy.assign params now key p1) as [[[b [e|]] p2]|]; done.
Qed.
End system.

(** ** Staleness *)

Section staleness.
Context `{!MapIter} {S : Type} `{!Store S, !BackendsSpec S, !AssignSpec S}.
Context (params : Proxy.params) (ttl latency : Z).
Context (Httl : 0 ≤ ttl) (Hlat : 0 ≤ latency).
Implicit Types (s : sys S) (p : Proxy.Proxy S) (l : list (sys S)).
Local Abbreviation step := (step params ttl latency).
Local Abbreviation run := (run params ttl latency).
Local Abbreviation says := (says params).
Local Abbreviation usable := (usable params).

Definition adjacent l s0 s1 : Prop := ∃ i, l !! i = Some s0 ∧ l !! Datatypes.S i = Some s1.

Lemma adjacent_app l l' s0 s1 : adjacent l s0 s1 → adjacent (l ++ l') s0 s1.
Proof. intros (i & H0 & H1). exists i. split; by apply lookup_app_l_Some. Qed.

(** At [t] replica [r] got [b] from the store: if it could use the store then,
    the store said so. *)
Definition named l (r : nat) (key b : string) (t : Z) : Prop :=
  ∃ s0 s1 p, adjacent l s0 s1 ∧ clock s0 = t ∧ clock s1 = t ∧ reps s0 !! r = Some p ∧
    (usable t (shared s0) p → says (shared s1) key b).

(** At [t] replica [r] got [b] from the store, or bound to it against the
    store. *)
Definition source l (r : nat) (key b : string) (t : Z) : Prop :=
  named l r key b t ∨ ∃ s0, s0 ∈ l ∧ mkFwd t r key b ∈ strays s0.

Lemma named_app l l' r key b t : named l r key b t → named (l ++ l') r key b t.
Proof. intros (s0 & s1 & p & Ha & ?). exists s0, s1, p. split; [by apply adjacent_app|done]. Qed.

Lemma source_app l l' r key b t : source l r key b t → source (l ++ l') r key b t.
Proof.
  intros [?|(s0 & Hin & ?)]; [left; by apply named_app|right]. exists s0. rewrite elem_of_app. auto.
Qed.

Record inv l s : Prop := {
  i_last : last l = Some s;
  i_strays s0 : s0 ∈ l → strays s0 ⊆ strays s;
  i_ttl r p : reps s !! r = Some p → UC.ttl (cache p) = ttl;
  i_entry r p key e : reps s !! r = Some p → UC.data (cache p) !! key = Some e →
    ∃ t, source l r key (UC.backend e) t ∧ t ≤ clock s ∧ UC.exp e ≤ t + latency + ttl;
  i_got g r key b t : reqs s !! g = Some (Got r key b t) → source l r key b t ∧ t ≤ clock s;
  i_fwd f : f ∈ fwds s →
    ∃ t, source l (f_rep f) (f_key f) (f_backend f) t ∧ t ≤ f_at f ≤ t + latency + ttl
}.

(** The parts of a state the invariant looks at, grown. *)
Lemma last_adjacent l s s' : last l = Some s → adjacent (l ++ [s']) s s'.
Proof.
  rewrite last_lookup. intros Hl. assert (Hlen : (0 < length l)%nat) by (destruct l; [done|simpl; lia]).
  exists (pred (length l)). split; [by apply lookup_app_l_Some|].
  replace (Datatypes.S (pred (length l))) with (length l) by lia. by rewrite lookup_app_r, Nat.sub_diag.
Qed.

Lemma strays_snoc l s s' :
  (∀ s0, s0 ∈ l → strays s0 ⊆ strays s) → strays s ⊆ strays s' → ∀ s0, s0 ∈ l ++ [s'] → strays s0 ⊆ strays s'.
Proof. intros Hl Hs s0 [Hin| ->%list_elem_of_singleton]%elem_of_app; [|done]. etrans; [by apply Hl|done]. Qed.

(** A step that writes to no cache. *)
Lemma inv_shrink l s s' :
  inv l s → clock s ≤ clock s' → strays s' = strays s →
  (∀ f, f ∈ fwds s' → f ∈ fwds s ∨
     ∃ t, source l (f_rep f) (f_key f) (f_backend f) t ∧ t ≤ f_at f ≤ t + latency + ttl) →
  (∀ g r key b t, reqs s' !! g = Some (Got r key b t) →
     reqs s !! g = Some (Got r key b t) ∨ (source (l ++ [s']) r key b t ∧ t ≤ clock s')) →
  (∀ r p', reps s' !! r = Some p' →
     cache p' = UC.NewUserCache ttl ∨
     ∃ p, reps s !! r = Some p ∧ UC.ttl (cache p') = UC.ttl (cache p) ∧ UC.data (cache p') ⊆ UC.data (cache p)) →
  inv (l ++ [s']) s'.
Proof.
  intros [H1 H0 H2 H3 H4 H5] Hc Hst Hf Hq Hr. split.
  - by rewrite last_snoc.
  - apply (strays_snoc l s); [done|by rewrite Hst].
  - intros r p' Hp. destruct (Hr r p' Hp) as [->|(p & Hrp & -> & _)]; [done|by apply (H2 r)].
  - intros r p' key e Hp He. destruct (Hr r p' Hp) as [Hnew|(p & Hrp & _ & Hsub)]; [by rewrite Hnew in He|].
    destruct (H3 r p key e Hrp) as (t & Hs & Ht & Hx); [by eapply lookup_weaken|].
    exists t. split; [by apply source_app|]. split; [lia|done].
  - intros g r key b t Hg. destruct (Hq _ _ _ _ _ Hg) as [Hg'|?]; [|done].
    destruct (H4 _ _ _ _ _ Hg') as [Hs Ht]. split; [by apply source_app|lia].
  - intros f Hin. destruct (Hf f Hin) as [Hin'|(t & Hs & Ht)]; [destruct (H5 f Hin') as (t & Hs & Ht)|];
      (exists t; split; [by apply source_app|done]).
Qed.

(** Replica [r] writes an entry it has a source for. *)
Lemma inv_write l s s' r p p' key b t :
  inv l s → reps s !! r = Some p → reps s' = <[r := p']> (reps s) → clock s' = clock s → strays s ⊆ strays s' →
  cache p' = UC.Set_ (clock s) key b (cache p) →
  source (l ++ [s']) r key b t → t ≤ clock s ≤ t + latency →
  (∀ g q, reqs s' !! g = Some q → reqs s !! g = Some q) →
  (∀ f, f ∈ fwds s' → f ∈ fwds s ∨ f = mkFwd (clock s) r key b) →
  inv (l ++ [s']) s'.
Proof.
  intros [H1 H0 H2 H3 H4 H5] Hr Hrs Hclk Hst Hcache Hsrc Ht Hq Hf. split.
  - by rewrite last_snoc.
  - by apply (strays_snoc l s).
  - rewrite Hrs. intros r0 p0 [[<- <-]|[? ?]]%lookup_insert_Some; [rewrite Hcache; by apply (H2 r)|by eapply H2].
  - rewrite Hrs, Hclk. intros r0 p0 key0 e [[<- <-]|[? Hp0]]%lookup_insert_Some He.
    + rewrite Hcache in He. simpl in He. apply lookup_insert_Some in He as [[<- <-]|[? He]]; simpl.
      * exists t. split; [done|]. split; [lia|]. rewrite (H2 r p Hr). lia.
      * destruct (H3 r p key0 e Hr He) as (t0 & ? & ? & ?). exists t0. split; [by apply source_app|]. done.
    + destruct (H3 r0 p0 key0 e Hp0 He) as (t0 & ? & ? & ?). exists t0. split; [by apply source_app|]. done.
  - rewrite Hclk. intros g r0 key0 b0 t0 Hg%Hq. destruct (H4 _ _ _ _ _ Hg). split; [by apply source_app|done].
  - intros f Hin. destruct (Hf f Hin) as [Hin'| ->].
    + destruct (H5 f Hin') as (t0 & ? & ?). exists t0. split; [by apply source_app|done].
    + exists t. simpl. split; [done|]. lia.
Qed.

(** What a replica that can use the store gets from it, the store says. *)
Lemma assign_says s r key p b p' :
  Proxy.assign params (clock s) key (view s p) = Some ((b, None), p') → usable (clock s) (shared s) p →
  says (shared (commit r p' s)) key b.
Proof.
  intros Ha (Hlive & Hact & Hmode). unfold says, Replicas.says. simpl.
  destruct (Proxy.routingMode params) eqn:Hm.
  - destruct Hmode as [Htot Hcb]. destruct (Proxy.assign_spec params (clock s) key (view s p)) as (a & p1 & Ha' & _ & _ & _ & Ht & _); try done.
    rewrite Ha' in Ha. simplify_eq. rewrite Ht. exists a. by rewrite lookup_insert_eq.
  - destruct (Proxy.assign_hash_spec params (clock s) key (view s p)) as (b' & p1 & Ha' & _ & _ & Hact' & _ & _ & Hi); try done.
    rewrite Ha' in Ha. simplify_eq. by rewrite Hact'.
Qed.

Lemma source_assign l s s' r key p b p' g :
  last l = Some s → reps s !! r = Some p → Proxy.assign params (clock s) key (view s p) = Some ((b, None), p') →
  s' = set_req g (Some (Got r key b (clock s))) (commit r p' s) → source (l ++ [s']) r key b (clock s).
Proof.
  intros Hl Hr Ha ->. left. exists s, (set_req g (Some (Got r key b (clock s))) (commit r p' s)), p.
  split; [by apply last_adjacent|]. do 3 (split; [done|]). by apply assign_says.
Qed.

Lemma bindStickyKey_cache now key b p :
  cache (Proxy.bindStickyKey params now key b p) = UC.Set_ now key b (cache p).
Proof.
  unfold Proxy.bindStickyKey, cache. simpl.
  match goal with |- context [SendAssign ?c ?x ?ks ?w] => destruct (Proxy.SendAssign_frame c x ks w) as [_ ->] end.
  destruct (Proxy.routingMode params); [|done]. by destruct (BulkAssign _ _ _).
Qed.

(** A replica that looks up, or answers a refusal, only removes. *)
Lemma inv_commit l s s' r p p' :
  inv l s → reps s !! r = Some p → reps s' = <[r := p']> (reps s) → clock s' = clock s → strays s' = strays s →
  (∀ f, f ∈ fwds s' → f ∈ fwds s ∨
     ∃ t, source l (f_rep f) (f_key f) (f_backend f) t ∧ t ≤ f_at f ≤ t + latency + ttl) →
  (∀ g r key b t, reqs s' !! g = Some (Got r key b t) →
     reqs s !! g = Some (Got r key b t) ∨ (source (l ++ [s']) r key b t ∧ t ≤ clock s')) →
  UC.ttl (cache p') = UC.ttl (cache p) → UC.data (cache p') ⊆ UC.data (cache p) → inv (l ++ [s']) s'.
Proof.
  intros Hi Hr Hrs Hc Hst Hf Hq Ht Hd. apply (inv_shrink l s); [done|lia|done|done|done|].
  rewrite Hrs. intros r0 p0 [[<- <-]|[? Hp]]%lookup_insert_Some; right; eauto.
Qed.

(** A new request is written beside the others. *)
Lemma set_req_some g q s g0 q0 :
  reqs (set_req g q s) !! g0 = Some q0 → (g0 = g ∧ q = Some q0) ∨ reqs s !! g0 = Some q0.
Proof.
  simpl. intros Hg. destruct (decide (g0 = g)) as [->|Hn]; [rewrite lookup_partial_alter_eq in Hg; by left|].
  rewrite lookup_partial_alter_ne in Hg by done. by right.
Qed.

Lemma replicas_step_inv l s s' : inv l s → step s s' → inv (l ++ [s']) s'.
Proof.
  intros Hi Hst. pose proof Hi as [Hl _ _ _ _ _].
  destruct Hst as [d s Hd|g r key p b p' s Hr _ Hc|g r key p a p' s Hr _ Hc|g r key p p' s Hr _ Hc
    |g r key p b p' s Hr Hg Ha|g r key p b e p' s Hr Hg Ha|g r key b t p s Hr Hg Ht|r key b p s Hr Hsays|r key b p s Hr Hsays
    |r p c s Hr Ht Hc|r p p' s Hr Hc|st s|r p s Hr Hc|r s].
  - apply (inv_shrink l s); simpl; [done|lia|done|by left|by left|]. intros r p Hp. right. by exists p.
  - pose proof (Proxy.cached_backend_frame (clock s) key (view s p)) as (_ & Ht & Hd & Hhit). rewrite Hc in Ht, Hd, Hhit.
    destruct (Hhit b eq_refl) as (e & He & <- & Hx). destruct (i_entry _ _ Hi r p key e Hr He) as (t & Hs & Hts & Hte).
    apply (inv_commit l s _ r p p'); try done; [|by left].
    simpl. intros f [?| ->%list_elem_of_singleton]%elem_of_app; [by left|right]. exists t. simpl. split; [done|lia].
  - pose proof (Proxy.cached_backend_frame (clock s) key (view s p)) as (_ & Ht & Hd & _). rewrite Hc in Ht, Hd.
    apply (inv_commit l s _ r p p'); try done; by left.
  - pose proof (Proxy.cached_backend_frame (clock s) key (view s p)) as (_ & Ht & Hd & _). rewrite Hc in Ht, Hd.
    apply (inv_commit l s _ r p p'); try done; [by left|].
    intros g0 r0 key0 b0 t0 [[-> ?]|?]%set_req_some; [done|by left].
  - assert (Hcache : cache p' = cache p) by exact (Proxy.assign_cache _ _ _ _ _ _ Ha).
    apply (inv_commit l s _ r p p'); try done; [by left| |by rewrite Hcache..].
    intros g0 r0 key0 b0 t0 [[-> [= <- <- <- <-]]|?]%set_req_some; [right|by left].
    split; [by eapply source_assign|simpl; lia].
  - assert (Hcache : cache p' = cache p) by exact (Proxy.assign_cache _ _ _ _ _ _ Ha). apply (inv_commit l s _ r p p'); try done; [by left| |by rewrite Hcache..].
    intros g0 r0 key0 b0 t0 [[-> ?]|?]%set_req_some; [done|by left].
  - destruct (i_got _ _ Hi _ _ _ _ _ Hg) as [Hs Hle].
    eapply (inv_write l s _ r p _ key b t); try done; [by apply source_app| |].
    + intros g0 q0 [[-> ?]|?]%set_req_some; done.
    + simpl. intros f [?| ->%list_elem_of_singleton]%elem_of_app; [by left|by right].
  - eapply (inv_write l s _ r p _ key b (clock s)); try done; [by rewrite bindStickyKey_cache| |lia|by left].
    left. eexists s, _, p. split; [by apply last_adjacent|]. by do 3 (split; [done|]).
  - eapply (inv_write l s _ r p _ key b (clock s)); try done; [simpl; set_solver|by rewrite bindStickyKey_cache| |lia|by left].
    right. eexists. split; [apply elem_of_app; right; by apply list_elem_of_singleton|]. simpl. set_solver.
  - by apply (inv_commit l s _ r p (with_cache c (view s p))); try done; left.
  - apply (inv_commit l s _ r p p'); try done; [by left..|by rewrite Hc|by rewrite Hc].
  - apply (inv_shrink l s); simpl; [done|lia|done|by left|by left|]. intros r p Hp. right. by exists p.
  - apply (inv_shrink l s); simpl; [done|lia|done|by left|by left|].
    intros r0 p0 [[<- <-]|[? Hp]]%lookup_insert_Some; [by left|right; by exists p0].
  - apply (inv_shrink l s); simpl; [done|lia|done|by left|by left|].
    intros r0 p0 [? Hp]%lookup_delete_Some. right. by exists p0.
Qed.

Lemma replicas_run_inv l s : run l s → inv l s.
Proof.
  induction 1 as [now st|l s s' _ IH Hst]; [|by apply (replicas_step_inv l s)].
  split; simpl; [done| |by intros|by intros|by intros|by intros f ?%elem_of_nil].
  by intros s0 ->%list_elem_of_singleton.
Qed.

(** Request [f] was of the user, on the replica and to the backend of the
    binding [x]. *)
Definition bound_by (x f : fwd) : Prop := f_rep x = f_rep f ∧ f_key x = f_key f ∧ f_backend x = f_backend f.

(** C5. A routing decision is never older than the cache: whatever the replicas,
    the store and the other goroutines do, every request a replica forwards goes
    to a backend that the store named for its user within the last [ttl +
    latency] nanoseconds (the assignment in the table, or the hash over the
    active backends; unless the replica could not use the store then and fell
    back), or that a response header bound its user to on that replica, against
    the store, within that time.  A request writes its cache entry at most
    [latency] after the answer of the store. *)
Theorem bounded_staleness l s f :
  run l s → f ∈ fwds s →
  (∃ s0 s1 p, adjacent l s0 s1 ∧ clock s1 = clock s0 ∧ f_at f - ttl - latency ≤ clock s0 ≤ f_at f ∧
    reps s0 !! f_rep f = Some p ∧ (usable (clock s0) (shared s0) p → says (shared s1) (f_key f) (f_backend f))) ∨
  (∃ x, x ∈ strays s ∧ bound_by x f ∧ f_at f - ttl - latency ≤ f_at x ≤ f_at f).
Proof.
  intros Hr Hf. pose proof (replicas_run_inv l s Hr) as Hi.
  destruct (i_fwd _ _ Hi f Hf) as (t & [(s0 & s1 & p & Ha & <- & Hc & Hp & Hs)|(s0 & Hin & Hx)] & Ht).
  - left. exists s0, s1, p. split; [done|]. split; [done|]. split; [lia|done].
  - right. eexists. split; [by apply (i_strays _ _ Hi s0)|]. split; [done|]. simpl. lia.
Qed.

(** C6. The replicas converge: if from [T] on every replica can use the store,
    the store names only [b] for a user, and no response header binds the user
    against the store, every request of that user that is forwarded [ttl +
    latency] after [T] or later goes to [b], from every replica, also from one
    whose cache was written, bound or invalidated at any moment in between. *)
Theorem replicas_converge l s f T b :
  run l s →
  (∀ s0, s0 ∈ l → T ≤ clock s0 →
     (∀ r p, reps s0 !! r = Some p → usable (clock s0) (shared s0) p) ∧
     (∀ b', says (shared s0) (f_key f) b' → b' = b)) →
  (∀ x, x ∈ strays s → T ≤ f_at x → f_key x ≠ f_key f) →
  f ∈ fwds s → T + ttl + latency ≤ f_at f → f_backend f = b.
Proof.
  intros Hr Hstable Hno Hf HT. pose proof (replicas_run_inv l s Hr) as Hi.
  destruct (i_fwd _ _ Hi f Hf) as (t & [(s0 & s1 & p & (i & H0 & H1) & <- & Hc & Hp & Hs)|(s0 & Hin & Hx)] & Ht).
  - apply list_elem_of_lookup_2 in H0, H1.
    destruct (Hstable s1 H1) as [_ Hb]; [lia|]. destruct (Hstable s0 H0) as [Hu _]; [lia|].
    apply Hb, Hs, (Hu _ _ Hp).
  - apply (i_strays _ _ Hi s0 Hin) in Hx. destruct (Hno _ Hx); simpl; [lia|done].
Qed.

(** ** After an invalidation *)

(** No replica has an entry of [b], no request under way has got it. *)
Record clean (b : string) s : Prop := {
  c_ttl r p : reps s !! r = Some p → UC.ttl (cache p) = ttl;
  c_entry r p key e : reps s !! r = Some p → UC.data (cache p) !! key = Some e → UC.backend e ≠ b;
  c_got g r key b' t : reqs s !! g = Some (Got r key b' t) → b' ≠ b
}.

(** A step while the replicas can use the store and it names [b] for nobody. *)
Definition step_without (b : string) s s' : Prop :=
  step s s' ∧ (∀ r p, reps s !! r = Some p → usable (clock s) (shared s) p) ∧ ∀ key, ¬ says (shared s') key b.

(** A binding to [b], at or after position [n] of the strays, gives an entry of
    [b] its right until [exp]. *)
Definition excused (n : nat) (b : string) s (r : nat) (key : string) (exp : Z) : Prop :=
  ∃ i x, (n ≤ i)%nat ∧ strays s !! i = Some x ∧ f_rep x = r ∧ f_key x = key ∧ f_backend x = b ∧
    f_at x ≤ clock s ∧ exp = f_at x + ttl.

(** The same while bindings go on. *)
Record kept (n : nat) (b : string) s : Prop := {
  k_ttl r p : reps s !! r = Some p → UC.ttl (cache p) = ttl;
  k_entry r p key e : reps s !! r = Some p → UC.data (cache p) !! key = Some e → UC.backend e = b →
    excused n b s r key (UC.exp e);
  k_got g r key b' t : reqs s !! g = Some (Got r key b' t) → b' ≠ b
}.

Lemma excused_grow n b s s' r key x :
  strays s `prefix_of` strays s' → clock s ≤ clock s' → excused n b s r key x → excused n b s' r key x.
Proof.
  intros [k Hk] Hc (i & y & Hi & Hy & ? & ? & ? & ? & ?). exists i, y. split; [done|].
  split; [rewrite Hk; by apply lookup_app_l_Some|]. split_and!; try done. lia.
Qed.

(** A step that writes to no cache. *)
Lemma kept_shrink n b s s' :
  kept n b s → strays s' = strays s → clock s ≤ clock s' →
  (∀ g r key b' t, reqs s' !! g = Some (Got r key b' t) → reqs s !! g = Some (Got r key b' t) ∨ b' ≠ b) →
  (∀ r p', reps s' !! r = Some p' →
     cache p' = UC.NewUserCache ttl ∨
     ∃ p, reps s !! r = Some p ∧ UC.ttl (cache p') = UC.ttl (cache p) ∧ UC.data (cache p') ⊆ UC.data (cache p)) →
  kept n b s'.
Proof.
  intros [H0 H1 H2] Hst Hc Hq Hr. split.
  - intros r p' Hp. destruct (Hr r p' Hp) as [->|(p & Hrp & -> & _)]; [done|by apply (H0 r)].
  - intros r p' key e Hp He Hb. destruct (Hr r p' Hp) as [Hn|(p & Hrp & _ & Hsub)]; [by rewrite Hn in He|].
    apply (excused_grow n b s); [by rewrite Hst|done|]. apply (H1 r p); [done|by eapply lookup_weaken|done].
  - intros g r key b' t Hg. destruct (Hq _ _ _ _ _ Hg) as [?|?]; [by eapply H2|done].
Qed.

Lemma kept_commit n b s s' r p p' :
  kept n b s → reps s !! r = Some p → reps s' = <[r := p']> (reps s) → strays s' = strays s → clock s' = clock s →
  (∀ g r key b' t, reqs s' !! g = Some (Got r key b' t) → reqs s !! g = Some (Got r key b' t) ∨ b' ≠ b) →
  UC.ttl (cache p') = UC.ttl (cache p) → UC.data (cache p') ⊆ UC.data (cache p) → kept n b s'.
Proof.
  intros Hc Hr Hrs Hst Hclk Hq Ht Hd. apply (kept_shrink n b s); [done|done|lia|done|].
  rewrite Hrs. intros r0 p0 [[<- <-]|[? Hp]]%lookup_insert_Some; right; eauto.
Qed.

Lemma kept_write n b s s' r p p' key b' :
  kept n b s → reps s !! r = Some p → reps s' = <[r := p']> (reps s) → clock s' = clock s →
  strays s `prefix_of` strays s' → (b' = b → excused n b s' r key (clock s + ttl)) →
  cache p' = UC.Set_ (clock s) key b' (cache p) →
  (∀ g q, reqs s' !! g = Some q → reqs s !! g = Some q) → kept n b s'.
Proof.
  intros [H0 H1 H2] Hr Hrs Hclk Hst Hb Hcache Hq. split.
  - rewrite Hrs. intros r0 p0 [[<- <-]|[? ?]]%lookup_insert_Some; [rewrite Hcache; by apply (H0 r)|by eapply H0].
  - rewrite Hrs. intros r0 p0 key0 e [[<- <-]|[? Hp0]]%lookup_insert_Some He Hbe.
    + rewrite Hcache in He. simpl in He. apply lookup_insert_Some in He as [[<- <-]|[? He]].
      * simpl in *. rewrite (H0 r p Hr). by apply Hb.
      * apply (excused_grow n b s); [done|lia|]. by apply (H1 r p).
    + apply (excused_grow n b s); [done|lia|]. by apply (H1 r0 p0).
  - intros g r0 key0 b0 t0 Hg%Hq. by eapply H2.
Qed.

Lemma got_set_req g q s0 b s :
  reqs s0 = reqs s → (∀ r key b' t, q = Some (Got r key b' t) → b' ≠ b) →
  ∀ g' r key b' t, reqs (set_req g q s0) !! g' = Some (Got r key b' t) → reqs s !! g' = Some (Got r key b' t) ∨ b' ≠ b.
Proof. intros Hs Hq g' r key b' t [[_ ?]|Hg]%set_req_some; [right; by eapply Hq|left; by rewrite <- Hs]. Qed.

(** A request that was forwarded to [b] was of a user bound to [b] since. *)
Definition fwd_excused (n : nat) (b : string) s (f : fwd) : Prop :=
  f_backend f = b →
  ∃ i x, (n ≤ i)%nat ∧ strays s !! i = Some x ∧ bound_by x f ∧ f_at x ≤ f_at f ≤ f_at x + ttl.

Lemma kept_step n b s s' :
  (n ≤ length (strays s))%nat → kept n b s → step_without b s s' →
  kept n b s' ∧ strays s `prefix_of` strays s' ∧
  ∃ new, fwds s' = fwds s ++ new ∧ Forall (fwd_excused n b s') new.
Proof.
  intros Hn Hcl (Hst & Hu & Hno).
  assert (Hnew : ∃ new, fwds s = fwds s ++ new ∧ Forall (fwd_excused n b s') new) by (exists []; by rewrite app_nil_r).
  destruct Hst as [d s Hd|g r key p b' p' s Hr _ Hc|g r key p a p' s Hr _ Hc|g r key p p' s Hr _ Hc
    |g r key p b' p' s Hr Hg Ha|g r key p b' e p' s Hr Hg Ha|g r key b' t p s Hr Hg Ht|r key b' p s Hr Hsays|r key b' p s Hr Hsays
    |r p c s Hr Ht Hc|r p p' s Hr Hc|st s|r p s Hr Hc|r s];
    try (pose proof (Proxy.cached_backend_frame (clock s) key (view s p)) as (_ & Httl' & Hd & Hhit); rewrite Hc in Httl', Hd, Hhit).
  - split; [|done]. apply (kept_shrink n b s); simpl; [done|done|lia|by left|]. intros r p Hp. right. by exists p.
  - destruct (Hhit b' eq_refl) as (e & He & <- & Hx). split; [by apply (kept_commit n b s _ r p p'); try done; left|].
    split; [done|]. eexists. split; [done|]. constructor; [|constructor]. intros Hb. simpl in *.
    destruct (k_entry n b s Hcl r p key e Hr He Hb) as (i & x & Hi & Hxi & <- & <- & Hbx & Hle & Hex).
    exists i, x. split; [done|]. split; [done|]. split; [split_and!; simpl; congruence|simpl; lia].
  - split; [by apply (kept_commit n b s _ r p p'); try done; left|done].
  - split; [|done]. apply (kept_commit n b s _ r p p'); try done. by apply got_set_req.
  - split; [|done]. assert (Hcache : cache p' = cache p) by exact (Proxy.assign_cache _ _ _ _ _ _ Ha).
    apply (kept_commit n b s _ r p p'); try done; [|by rewrite Hcache..]. apply got_set_req; [done|].
    intros r0 key0 b0 t0 [= <- <- <- <-] ->. apply (Hno key). apply (assign_says s r key p b p' Ha), (Hu r p Hr).
  - split; [|done]. assert (Hcache : cache p' = cache p) by exact (Proxy.assign_cache _ _ _ _ _ _ Ha).
    apply (kept_commit n b s _ r p p'); try done; [|by rewrite Hcache..]. by apply got_set_req.
  - pose proof (k_got n b s Hcl _ _ _ _ _ Hg) as Hne. split; [|split; [done|]].
    + eapply (kept_write n b s _ r p _ key b'); try done. intros g0 q0 [[-> ?]|?]%set_req_some; done.
    + eexists. split; [done|]. constructor; [|constructor]. intros Hb. by destruct Hne.
  - split; [|done]. eapply (kept_write n b s _ r p _ key b'); try done; [|by rewrite bindStickyKey_cache].
    intros ->. by destruct (Hno key).
  - assert (Hpre : strays s `prefix_of` strays (stray r key b' (commit r (Proxy.bindStickyKey params (clock s) key b' (view s p)) s)))
      by (by eexists). split; [|done].
    eapply (kept_write n b s _ r p _ key b'); try done; [|by rewrite bindStickyKey_cache].
    intros ->. exists (length (strays s)), (mkFwd (clock s) r key b). split; [done|].
    split; [simpl; by rewrite lookup_app_r, Nat.sub_diag|]. split_and!; done.
  - split; [by apply (kept_commit n b s _ r p (with_cache c (view s p))); try done; left|done].
  - split; [apply (kept_commit n b s _ r p p'); try done; [by left|by rewrite Hc..]|done].
  - split; [|done]. apply (kept_shrink n b s); simpl; [done|done|lia|by left|]. intros r p Hp. right. by exists p.
  - split; [|done]. apply (kept_shrink n b s); simpl; [done|done|lia|by left|].
    intros r0 p0 [[<- <-]|[? Hp]]%lookup_insert_Some; [by left|right; by exists p0].
  - split; [|done]. apply (kept_shrink n b s); simpl; [done|done|lia|by left|].
    intros r0 p0 [? Hp]%lookup_delete_Some. right. by exists p0.
Qed.

Lemma fwd_excused_grow n b s s' f : strays s `prefix_of` strays s' → fwd_excused n b s f → fwd_excused n b s' f.
Proof.
  intros [k Hk] Hf Hb. destruct (Hf Hb) as (i & x & Hi & Hx & ?). exists i, x. split; [done|].
  split; [rewrite Hk; by apply lookup_app_l_Some|done].
Qed.

(** C7. An invalidation is final, up to response headers: once no replica has a
    cache entry of a backend and no request under way has been given it, and while
    every replica can use the store and the store names it for nobody, a replica
    forwards a request to it only for a user that a response header has since
    bound to it on that replica, against the store, and for no longer than the
    lifetime of that binding's entry, however the requests, the bindings, new
    replicas and changes of the store interleave. *)
Theorem invalidation_is_final b s s' :
  clean b s → rtc (step_without b) s s' →
  ∃ new since, fwds s' = fwds s ++ new ∧ strays s' = strays s ++ since ∧
    Forall (λ f, f_backend f = b → ∃ x, x ∈ since ∧ bound_by x f ∧ f_at x ≤ f_at f ≤ f_at x + ttl) new.
Proof.
  intros [Ht He Hg] Hrtc.
  assert (Hk : kept (length (strays s)) b s) by (split; [done| |done]; intros r p key e Hr Hke Hb; by destruct (He r p key e Hr Hke)).
  assert (Hgen : strays s `prefix_of` strays s' ∧
    ∃ new, fwds s' = fwds s ++ new ∧ Forall (fwd_excused (length (strays s)) b s') new).
  { assert (Hlen : (length (strays s) ≤ length (strays s))%nat) by done. clear Ht He Hg. revert Hlen Hk.
    generalize (length (strays s)) at 1 3 4 as n. intros n Hlen Hk.
    induction Hrtc as [s|s s1 s' Hst _ IH]; [split; [done|]; exists []; by rewrite app_nil_r|].
    destruct (kept_step n b s s1 Hlen Hk Hst) as (Hk1 & Hpre & new1 & Hf1 & Hn1).
    destruct IH as (Hpre2 & new2 & Hf2 & Hn2); [apply prefix_length in Hpre; lia|done|].
    split; [by etrans|]. exists (new1 ++ new2). rewrite Hf2, Hf1, <- app_assoc. split; [done|].
    apply Forall_app. split; [|done]. eapply Forall_impl; [exact Hn1|]. intros f. by apply fwd_excused_grow. }
  destruct Hgen as ([since Hs] & new & Hf & Hn). exists new, since. split; [done|]. split; [done|].
  eapply Forall_impl; [exact Hn|]. intros f Hex Hb. destruct (Hex Hb) as (i & x & Hi & Hx & ?). exists x.
  split; [|done]. rewrite Hs, lookup_app_r in Hx by done. by eapply list_elem_of_lookup_2.
Qed.
End staleness.
End Replicas.
