(* ===== verification/Failover.v ===== *)
(** * A failing backend and its users

    Three parts of the program react to a backend that fails: the breaker of
    backends.go refuses requests to it and clears its sticky mappings,
    proxy.go assigns its users afresh, poison.go counts how often that happens to a
    user.  In assignment mode the evicted backend stays in the active set until
    the health checker removes it, now without load: the table gives it its
    users back, and each request of such a user counts as a reassignment. *)
From stdpp Require Import base gmap strings list fin_maps.
From Stdlib Require Import ZArith Lia Sorting.Sorted.
From S2P Require Import Prelude Go Assignment Store UserCache Poison World Drain Backends RedisBreaker Proxy.
Local Open Scope Z_scope.

Module Failover.

(** ** The table after an eviction *)

Definition evicted (b : string) (m : gmap string Assignment) : gmap string Assignment :=
  filter (λ '(_, a), Backend a ≠ b) m.

Lemma evicted_eq b m m' :
  (∀ k, m' !! k = match m !! k with Some a => if decide (Backend a = b) then None else Some a | None => None end) →
  m' = evicted b m.
Proof.
  intros Hm. apply map_eq. intros k. rewrite Hm. unfold evicted. rewrite map_lookup_filter.
  destruct (m !! k) as [a|]; [|done]. simpl. by repeat case_decide.
Qed.

Lemma evicted_insert b m k a :
  m !! k = None →
  evicted b (<[k := a]> m) = if decide (Backend a = b) then evicted b m else <[k := a]> (evicted b m).
Proof.
  intros Hk. unfold evicted. case_decide.
  - rewrite map_filter_insert_False by auto. by rewrite delete_id.
  - by rewrite map_filter_insert_True.
Qed.

Lemma evicted_lookup_None b m k : m !! k = None → evicted b m !! k = None.
Proof. intros Hk. apply map_lookup_filter_None. by left. Qed.

Lemma load_evicted b m b' : load (evicted b m) b' = if decide (b' = b) then 0 else load m b'.
Proof.
  induction m as [|k a m Hk IH] using map_ind.
  { unfold evicted. rewrite map_filter_empty, load_empty. by case_decide. }
  rewrite evicted_insert, load_insert by done. unfold weight_on. destruct (decide (Backend a = b)) as [Ha|Ha].
  - rewrite IH. case_decide; [done|]. rewrite decide_False by congruence. lia.
  - rewrite load_insert, IH by by apply evicted_lookup_None. unfold weight_on.
    case_decide; [rewrite decide_False by congruence; lia|done].
Qed.

Lemma total_evicted b m : total (evicted b m) ≤ total m.
Proof.
  unfold total. induction m as [|k a m Hk IH] using map_ind.
  { unfold evicted. by rewrite map_filter_empty. }
  rewrite evicted_insert by done. pose proof (EffectiveWeight_pos a).
  case_decide; rewrite !msum_insert by (done || by apply evicted_lookup_None); lia.
Qed.

(** ** Requests of one user *)

Section outage.
Context `{!MapIter} {S : Type} `{!Store S, !BackendsSpec S, !AssignSpec S}.
Context (params : Proxy.params) (parses : string → bool).
Context (Hmode : Proxy.routingMode params = Proxy.ModeAssignment).
Context (Hstands : ∀ active a, Backend a ∈ active → stands S active a).
Context (key b : string) (T : Z).
Implicit Types (p : Proxy.Proxy S).

(** The requests of the user at the given instants, none of them a
    WebSocket. *)
Fixpoint requests (ts : list Z) (r : Proxy.request) p : option (list Proxy.answer * Proxy.Proxy S) :=
  match ts with
  | [] => Some ([], p)
  | t :: ts =>
      '(a, p) ← Proxy.route params parses t t true r key p;
      '(answers, p) ← requests ts r p;
      Some (a :: answers, p)
  end.

Lemma requests_cons t ts r p :
  requests (t :: ts) r p =
    ('(a, p) ← Proxy.route params parses t t true r key p;
     '(answers, p) ← requests ts r p; Some (a :: answers, p)).
Proof. done. Qed.

(** [b] is active, its breaker is open until [T], and the store can be used. *)
Record outage p : Prop := {
  o_live : live (w_store (Proxy.p_world p));
  o_active : b ∈ act (w_store (Proxy.p_world p));
  o_total : total (tbl (w_store (Proxy.p_world p))) + 1 < two53;
  o_open : ∃ f, Backends.failures (Proxy.p_backends p) !! b = Some f ∧ T ≤ Backends.until f;
  o_redis : match Proxy.p_redis p with Some r => CB.state r = CB.cbClosed | None => True end
}.

(** The user is on [b]. *)
Definition on_b p : Prop := ∃ a, tbl (w_store (Proxy.p_world p)) !! key = Some a ∧ Backend a = b.

(** The user is on [b], or goes there: no other active backend is as little
    loaded. *)
Definition drawn_to_b p : Prop :=
  on_b p ∨ tbl (w_store (Proxy.p_world p)) !! key = None ∧ total (tbl (w_store (Proxy.p_world p))) + 2 < two53 ∧
    ∀ b', b' ∈ act (w_store (Proxy.p_world p)) → b' ≠ b →
      load (tbl (w_store (Proxy.p_world p))) b < load (tbl (w_store (Proxy.p_world p))) b'.

Lemma outage_unavailable p now : outage p → now ≤ T → Backends.Available now b (Proxy.p_backends p) = (false, Proxy.p_backends p).
Proof.
  intros [_ _ _ (f & Hf & Hu) _] Hn. unfold Backends.Available. rewrite Hf. unfold After.
  by rewrite (proj2 (Z.ltb_ge _ _)) by lia.
Qed.

(** What an assignment leaves: everything but the store and the Redis breaker. *)
Lemma assign_outage now p :
  outage p → drawn_to_b p →
  ∃ p1, Proxy.assign params now key p = Some ((b, None), p1) ∧ outage p1 ∧ on_b p1 ∧
    w_cache (Proxy.p_world p1) = w_cache (Proxy.p_world p) ∧ Proxy.p_backends p1 = Proxy.p_backends p ∧
    Proxy.p_poison p1 = Proxy.p_poison p.
Proof.
  intros Ho Hd. pose proof Ho as [Hl Ha Ht Hop Hr].
  destruct (Proxy.assign_spec params now key p Hmode) as (a & p1 & Has & Hc & Hl1 & Ha1 & Ht1 & Hleast & Hp1 & Hr1);
    [|done|set_solver|done|].
  { unfold Proxy.breaker_closed. destruct (Proxy.p_redis p) as [r|]; [|done]. unfold CB.isCBOpen. by rewrite Hr. }
  assert (Backend a = b ∧ total (tbl (w_store (Proxy.p_world p1))) + 1 < two53) as [Hb Htot].
  { rewrite Ht1. destruct Hd as [(a0 & Hk & Hb)|(Hk & Hroom & Hless)], Hleast as [[Hk' _]|(Hin & Hn & Hw & Hmin)].
    - simplify_eq. split; [done|]. by rewrite insert_id.
    - destruct (Hn a0 Hk). apply Hstands. by rewrite Hb.
    - congruence.
    - rewrite delete_id in Hmin by done. split.
      + destruct (decide (Backend a = b)) as [|Hne]; [done|]. specialize (Hless _ Hin Hne). specialize (Hmin b Ha). lia.
      + pose proof (total_insert (tbl (w_store (Proxy.p_world p))) key a) as Hti. unfold EffectiveWeight in Hti.
        rewrite Hw in Hti. change (effective 1) with 1 in Hti. lia. }
  rewrite Hb in Has. exists p1. split; [done|].
  split; [|split; [exists a; by rewrite Ht1, lookup_insert_eq|by rewrite Hp1]].
  split; [done|by rewrite Ha1|done|by rewrite Hp1|done].
Qed.

(** What a request leaves of the world and the collaborators. *)
Lemma forward_outage now r q :
  Proxy.isWebSocket r = false → outage q → now ≤ T →
  Proxy.forward parses now now true r key b q = (Proxy.ToBackend b key Backends.Unavailable, q).
Proof.
  intros Hws Ho Hn. unfold Proxy.forward, Backends.ProxyRequest. rewrite Hws, (outage_unavailable q now Ho Hn).
  simpl. by destruct q.
Qed.

(** After the cache gave nothing, the user is sent to [b], which is refused. *)
Lemma missed_outage now r p q :
  Proxy.isWebSocket r = false → outage q → drawn_to_b q → now ≤ T →
  Proxy.cached_backend now key p = (inr None, q) →
  ∃ p', Proxy.route params parses now now true r key p = Some (Proxy.ToBackend b key Backends.Unavailable, p') ∧
    outage p' ∧ on_b p' ∧ Proxy.p_poison p' = Proxy.p_poison q ∧
    UC.ttl (w_cache (Proxy.p_world p')) = UC.ttl (w_cache (Proxy.p_world q)) ∧
    UC.data (w_cache (Proxy.p_world p')) !! key
    = Some (UC.mkCacheEntry b (now + UC.ttl (w_cache (Proxy.p_world p')))).
Proof.
  intros Hws Ho Hd Hn Hc. unfold Proxy.route. rewrite Hc.
  destruct (assign_outage now q Ho Hd) as (p1 & -> & Ho1 & Hon & Hca & Hbm & Hpo). simpl.
  set (w := SendAssign _ _ _ _).
  destruct (Proxy.SendAssign_frame (Proxy.wcfg params) b [key]
    (set_cache (UC.Set_ now key b (w_cache (Proxy.p_world p1))) (Proxy.p_world p1))) as [Hws1 Hwc1].
  fold w in Hws1, Hwc1. simpl in Hws1, Hwc1.
  assert (Ho2 : outage (Proxy.set_world w p1)).
  { destruct Ho1 as [H1 H2 H3 H4 H5]. split; simpl; rewrite ?Hws1; done. }
  rewrite forward_outage by done. eexists. split; [done|]. split; [done|].
  unfold on_b. simpl. rewrite Hws1, Hwc1, Hca. split; [done|]. split; [done|]. split; [done|]. apply lookup_insert_eq.
Qed.

(** ** The detector *)

(** [n] reassignments of the user since [t0]. *)
Record counted (t0 : Z) (n : nat) (d : Poison.PoisonPillDetector) : Prop := {
  n_free : key ∉ Poison.quarantine d;
  n_events : length (default [] (Poison.events d !! key)) = n;
  n_recent : Forall (λ t, t0 ≤ t) (default [] (Poison.events d !! key))
}.

Lemma drop_before_recent c ts : Forall (λ t, c ≤ t) ts → Poison.drop_before c ts = ts.
Proof. destruct 1 as [|t ts Ht _]; [done|]. simpl. unfold Before. by rewrite (proj2 (Z.ltb_ge _ _)) by lia. Qed.

Lemma record_counted t0 n d now :
  counted t0 n d → t0 ≤ now ≤ t0 + Poison.window d →
  let res := Poison.RecordReassignment now key d in
  res.1 = (Poison.threshold d <=? Z.of_nat n + 1) ∧
  (res.1 = false → counted t0 (Datatypes.S n) res.2 ∧ Poison.threshold res.2 = Poison.threshold d ∧
     Poison.window res.2 = Poison.window d).
Proof.
  intros [Hq Hlen Hrec] Hnow. unfold Poison.RecordReassignment. rewrite bool_decide_false by done.
  assert (Hall : Forall (λ t, t0 ≤ t) (default [] (Poison.events d !! key) ++ [now]))
    by (apply Forall_app; split; [done|]; constructor; [lia|constructor]).
  rewrite drop_before_recent by (eapply Forall_impl; [exact Hall|]; simpl; lia).
  rewrite length_app, Hlen. simpl. replace (Z.of_nat (n + 1)) with (Z.of_nat n + 1) by lia.
  destruct (Poison.threshold d <=? Z.of_nat n + 1); simpl; (split; [done|]); [done|]. intros _.
  split; [|done]. split; simpl; [done|rewrite lookup_insert_eq; simpl; rewrite length_app, Hlen; simpl; lia|].
  by rewrite lookup_insert_eq.
Qed.

(** A request of the user while its entry points to [b]: counted, and refused
    either way. *)
Lemma cached_outage now t0 n d r p e :
  Proxy.isWebSocket r = false → outage p → on_b p → now ≤ T →
  UC.data (w_cache (Proxy.p_world p)) !! key = Some e → UC.backend e = b → now ≤ UC.exp e →
  Proxy.p_poison p = Some d → counted t0 n d → t0 ≤ now ≤ t0 + Poison.window d →
  ∃ p', if Poison.threshold d <=? Z.of_nat n + 1
    then Proxy.route params parses now now true r key p = Some (Proxy.Quarantined, p')
    else Proxy.route params parses now now true r key p = Some (Proxy.ToBackend b key Backends.Unavailable, p') ∧
      outage p' ∧ on_b p' ∧ UC.ttl (w_cache (Proxy.p_world p')) = UC.ttl (w_cache (Proxy.p_world p)) ∧
      UC.data (w_cache (Proxy.p_world p')) !! key
      = Some (UC.mkCacheEntry b (now + UC.ttl (w_cache (Proxy.p_world p')))) ∧
      ∃ d', Proxy.p_poison p' = Some d' ∧ counted t0 (Datatypes.S n) d' ∧ Poison.threshold d' = Poison.threshold d ∧
        Poison.window d' = Poison.window d.
Proof.
  intros Hws Ho Hon Hn He Hb Hx Hd Hcnt Hwin.
  destruct (record_counted t0 n d now Hcnt Hwin) as [Hq Hd'].
  assert (Hc : Proxy.cached_backend now key p =
    let '(q, d') := Poison.RecordReassignment now key d in
    let p := Proxy.set_poison (Some d') p in
    if q : bool then (inl Proxy.Quarantined, p) else (inr None, Proxy.set_world (Invalidate key (Proxy.p_world p)) p)).
  { unfold Proxy.cached_backend, UC.Get. rewrite He. unfold After. rewrite (proj2 (Z.ltb_ge _ _)) by lia. rewrite Hb.
    simpl. rewrite (outage_unavailable p now Ho Hn). simpl. rewrite Hd.
    destruct (Poison.RecordReassignment now key d) as [q d']. destruct p as [[] ?]; done. }
  destruct (Poison.RecordReassignment now key d) as [q d']. simpl in Hq, Hd'. rewrite <- Hq. destruct q.
  - eexists. unfold Proxy.route. by rewrite Hc.
  - destruct (Hd' eq_refl) as (Hcnt' & Hth & Hwd).
    edestruct (missed_outage now r p) as (p' & Hr & Ho' & Hon' & Hpo & Httl & Hent); [done| | |done|exact Hc|].
    + destruct Ho as [H1 H2 H3 H4 H5]. by split.
    + by left.
    + exists p'. split; [done|]. split; [done|]. split; [done|]. split; [done|]. split; [done|]. by exists d'.
Qed.

Definition refusal : Proxy.answer := Proxy.ToBackend b key Backends.Unavailable.

(** As many requests as it takes: all but the last are refused by the
    breaker, the last one by the quarantine. *)
Lemma counted_requests t0 r ts p d n :
  Proxy.isWebSocket r = false → ts ≠ [] → Z.of_nat (n + length ts) = Poison.threshold d →
  outage p → on_b p →
  (∃ e, UC.data (w_cache (Proxy.p_world p)) !! key = Some e ∧ UC.backend e = b ∧
     t0 + UC.ttl (w_cache (Proxy.p_world p)) ≤ UC.exp e) →
  Proxy.p_poison p = Some d → counted t0 n d →
  Forall (λ t, t0 ≤ t ≤ T ∧ t ≤ t0 + UC.ttl (w_cache (Proxy.p_world p)) ∧ t ≤ t0 + Poison.window d) ts →
  ∃ p', requests ts r p = Some (replicate (length ts - 1) refusal ++ [Proxy.Quarantined], p').
Proof.
  intros Hws Hne. revert p d n. induction ts as [|t ts IH]; [done|].
  intros p d n Hlen Ho Hon (e & He & Hb & Hx) Hd Hcnt Hts. apply Forall_cons in Hts as [(Ht & Httl & Hwin) Hts].
  destruct (cached_outage t t0 n d r p e Hws Ho Hon) as [p1 Hr]; try done; [lia|lia|lia|]. simpl in Hlen.
  destruct ts as [|t' ts].
  - rewrite (proj2 (Z.leb_le _ _)) in Hr by (simpl in Hlen; lia). simpl. rewrite Hr. simpl. by eexists.
  - rewrite (proj2 (Z.leb_gt _ _)) in Hr by (simpl in Hlen; lia).
    destruct Hr as (Hr & Ho1 & Hon1 & Httl1 & He1 & d1 & Hd1 & Hcnt1 & Hth & Hwd).
    destruct (IH ltac:(done) p1 d1 (Datatypes.S n)) as [p' Hp']; try done.
    + rewrite Hth. simpl in Hlen |- *. lia.
    + eexists. split; [exact He1|]. split; [done|]. simpl. lia.
    + rewrite Httl1, Hwd. done.
    + exists p'. rewrite requests_cons, Hr. cbn [mbind option_bind]. rewrite Hp'. cbn [mbind option_bind].
      simpl. by rewrite Nat.sub_0_r.
Qed.
End outage.

(** ** From the eviction on *)

Section eviction.
Context `{!MapIter} {S : Type} `{!Store S, !Drain.Sticky S, !BackendsSpec S, !TableLimits S, !TableSpec S, !AssignSpec S}.
Context (params : Proxy.params) (parses : string → bool) (InvalidateSticky : string → S → option error * S).

Lemma eviction_ttl cfg now b (w : world S) :
  UC.ttl (w_cache (Backends.invalidateStickyMappings cfg Drain.Assignment_ InvalidateSticky now b w)) = UC.ttl (w_cache w).
Proof.
  unfold Backends.invalidateStickyMappings. cbv zeta.
  match goal with |- context [publishNotification ?c ?x ?w] => destruct (Drain.publish_frame c x w) as (_ & -> & _) end.
  simpl. unfold Backends.unassign_table. destruct (GetBackendUsers b (w_store w)) as [[[|u us] [e|]] s]; try done.
  unfold SendUnassign. destruct (has_hooks cfg), (BulkDeleteAssignments _ _); done.
Qed.

(** C20. A backend that fails takes its users with it: in assignment mode, when
    the breaker of [b] opens and its mappings are evicted while every other active
    backend has users, the next request of a user of [b] is assigned to [b]
    again and answered 503; each further one within the lifetime of its cache
    entry, the window of the detector and the cooldown of the breaker is answered
    503 and counted as a reassignment, and the one that reaches the threshold
    puts the user into quarantine, although other backends could serve it and the
    user never reached a backend. *)
Theorem outage_quarantines_user key b T t0 ts r (p : Proxy.Proxy S) d f a :
  Proxy.routingMode params = Proxy.ModeAssignment → (∀ active a, Backend a ∈ active → stands S active a) →
  let w := Proxy.p_world p in
  live (w_store w) → batch_ok S (size (tbl (w_store w))) → total (tbl (w_store w)) + 2 < two53 →
  NoDup (Drain.scanned b (w_store w)) →
  b ∈ act (w_store w) → tbl (w_store w) !! key = Some a → Backend a = b →
  (∀ b', b' ∈ act (w_store w) → b' ≠ b → 0 < load (tbl (w_store w)) b') →
  (∀ e, UC.data (w_cache w) !! key = Some e → UC.backend e = b) →
  Backends.failures (Proxy.p_backends p) !! b = Some f → T ≤ Backends.until f →
  match Proxy.p_redis p with Some r => CB.state r = CB.cbClosed | None => True end →
  Proxy.p_poison p = Some d → key ∉ Poison.quarantine d → Poison.events d !! key = None →
  Proxy.isWebSocket r = false → t0 ≤ T → 1 ≤ Poison.threshold d → Z.of_nat (length ts) = Poison.threshold d →
  Forall (λ t, t0 ≤ t ≤ T ∧ t ≤ t0 + UC.ttl (w_cache w) ∧ t ≤ t0 + Poison.window d) ts →
  let p1 := Proxy.set_world (Backends.invalidateStickyMappings (Proxy.wcfg params) Drain.Assignment_ InvalidateSticky t0 b w) p in
  ∃ p', requests params parses key (t0 :: ts) r p1
        = Some (replicate (length ts) (Proxy.ToBackend b key Backends.Unavailable) ++ [Proxy.Quarantined], p').
Proof.
  intros Hmode Hst w Hl Hbat Htot Hnd Hact Hk Ha Hothers Hcache Hf HT Hred Hd Hq Hev Hws Ht0 Hth Hlen Hts p1.
  destruct (Backends.eviction_clears_mappings (Proxy.wcfg params) InvalidateSticky t0 b w Hl Hbat ltac:(lia) Hnd)
    as (Hl1 & Ha1 & Ht1 & Hc1).
  set (w1 := Backends.invalidateStickyMappings _ _ _ _ _ _) in *.
  assert (Htbl : tbl (w_store w1) = evicted b (tbl (w_store w))) by by apply evicted_eq.
  assert (Ho : outage b T p1).
  { split; simpl; [done|by rewrite Ha1| |by exists f|done]. rewrite Htbl. pose proof (total_evicted b (tbl (w_store w))). lia. }
  assert (Hdrawn : drawn_to_b key b p1).
  { right. simpl. rewrite Ht1, Hk, decide_True by done. split; [done|]. rewrite Htbl, Ha1.
    pose proof (total_evicted b (tbl (w_store w))). split; [lia|]. intros b' Hb' Hne. rewrite !load_evicted.
    rewrite decide_True, decide_False by done. by apply Hothers. }
  assert (Hmiss : Proxy.cached_backend t0 key p1 = (inr None, p1)).
  { unfold Proxy.cached_backend, UC.Get. simpl. rewrite Hc1. destruct (UC.data (w_cache w) !! key) as [e|] eqn:He.
    - rewrite bool_decide_true by by apply Hcache. simpl. by destruct w1.
    - simpl. by destruct w1. }
  destruct (missed_outage params parses Hmode Hst key b T t0 r p1 p1 Hws Ho Hdrawn Ht0 Hmiss)
    as (p2 & Hr & Ho2 & Hon & Hpo & Httl & He).
  assert (Htt : UC.ttl (w_cache (Proxy.p_world p2)) = UC.ttl (w_cache w)) by (rewrite Httl; apply eviction_ttl).
  destruct (counted_requests params parses Hmode Hst key b T t0 r ts p2 d 0%nat Hws) as [p3 H3]; try done.
  - intros ->. simpl in Hlen. lia.
  - eexists. split; [exact He|]. done.
  - by rewrite Hpo.
  - split; [done|by rewrite Hev|by rewrite Hev].
  - by rewrite Htt.
  - exists p3. rewrite requests_cons, Hr. cbn [mbind option_bind]. rewrite H3. cbn [mbind option_bind].
    unfold refusal. destruct ts; [simpl in Hlen; lia|]. simpl. by rewrite Nat.sub_0_r.
Qed.
End eviction.
End Failover.
