(* ===== verification/System.v ===== *)
(** * The operations on one store, in any order

    Requests, public requests with their bindings, drains, rebalances,
    reconciliations, evictions and changes of the backend set act on one store,
    one after the other in an order nobody controls.  A schedule of them is run
    here on the state of a proxy; what the store promises is kept through all of
    them, and the active set is what the schedule made of it.  The hypotheses of
    the single operations on the weights become one: the budget of the schedule. *)
From stdpp Require Import base gmap strings list sorting fin_maps.
From Stdlib Require Import ZArith Lia.
From S2P Require Import Prelude Go Hashing Assignment RebalanceStrategy Store UserCache World Rebalancer Drain Discovery Backends RedisBreaker Proxy Failover.
Local Open Scope Z_scope.

Module System.

(** ** Total weights *)

Lemma total_weights m m' :
  (∀ k, EffectiveWeight <$> m !! k = EffectiveWeight <$> m' !! k) → total m = total m'.
Proof.
  intros Heq. assert (Hf : EffectiveWeight <$> m = EffectiveWeight <$> m').
  { apply map_eq. intros k. by rewrite !lookup_fmap. }
  pose proof (msum_fmap EffectiveWeight (λ _ w, w) m) as H1. pose proof (msum_fmap EffectiveWeight (λ _ w, w) m') as H2.
  unfold total. by rewrite <- H1, Hf, H2.
Qed.

(** A rebalance moves weight and adds none. *)
Lemma total_carried_out m active moves now :
  Forall (move_ok m active) moves → NoDup (RoutingKey <$> moves) →
  total (Rebalancer.carried_out m moves now) = total m.
Proof.
  intros Hok Hnd. apply total_weights. intros k. destruct (decide (k ∈ RoutingKey <$> moves)) as [Hk|Hk].
  - apply list_elem_of_fmap in Hk as (mv & -> & Hin).
    destruct (Rebalancer.move_assigned m active moves Hok mv Hin) as (a & Ha & _).
    rewrite (Rebalancer.lookup_carried_out m moves Hnd now mv a Hin Ha), Ha. simpl. f_equal. apply effective_idem.
  - by rewrite Rebalancer.lookup_carried_out_ne.
Qed.

(** Entries that are added to a table. *)
Lemma total_bulk now m entries :
  total ((entry_assignment now <$> fresh_entries m entries) ∪ m) ≤ total m + entries_weight entries.
Proof.
  unfold total. rewrite msum_union.
  - rewrite msum_fmap. assert (Hle : msum (λ _ e, EffectiveWeight (entry_assignment now e)) (fresh_entries m entries)
      ≤ entries_weight entries); [|lia].
    unfold entries_weight, EffectiveWeight, entry_assignment, fresh_entries. simpl.
    induction entries as [|k e entries Hk IH] using map_ind; [by rewrite map_filter_empty|].
    pose proof (effective_pos (e_Weight e)). rewrite msum_insert by done.
    destruct (decide (m !! k = None)) as [Hm|Hm].
    + rewrite map_filter_insert_True, msum_insert by (done || (apply map_lookup_filter_None; by left)).
      rewrite effective_idem. lia.
    + rewrite map_filter_insert_False, delete_id by done. lia.
  - apply map_disjoint_spec. intros k a a' Ha Ha'. rewrite lookup_fmap in Ha.
    apply fmap_Some in Ha as (e & He & _). unfold fresh_entries in He.
    apply map_lookup_filter_Some in He as [_ Hn]. congruence.
Qed.

Lemma total_reconciled now m active backends accounts :
  NoDup (Discovery.ID <$> accounts) →
  total (Discovery.reconciled now m active backends accounts)
  ≤ total m + zsum (λ acct, effective (Discovery.acct_weight acct)) accounts.
Proof.
  intros Hnd. unfold Discovery.reconciled.
  etrans; [apply total_bulk|]. pose proof (total_without m (Discovery.classify m active accounts).2).
  pose proof (Discovery.new_entries_weight m active backends accounts Hnd). lia.
Qed.

(** ** Schedules *)

Section system.
Context `{!MapIter} {S : Type} `{!Store S, !Drain.Sticky S, !BackendsSpec S, !TableLimits S, !TableSpec S, !AssignSpec S}.
Context (params : Proxy.params) (parses : string → bool) (strategy : RebalanceStrategy) `{!SoundStrategy strategy}.
Context (InvalidateSticky : string → S → option error * S).
Implicit Types (p : Proxy.Proxy S).

Inductive event :=
  | Request (now later : Z) (ok : bool) (r : Proxy.request) (key : string)
  | PublicRequest (now later : Z) (ok : bool) (stickyKey : string) (r : Proxy.request)
  | DrainBackend (answers : list Drain.attempt) (now : Z) (b : string)
  | Rebalance (wsSwap locked : bool) (now : Z) (active : list string)
  | Reconcile (now : Z) (accounts : list Discovery.DiscoveredAccount)
  | Evict (now : Z) (b : string)
  | Register (b : string)
  | Deregister (b : string).

Definition on_world (f : world S → world S) p : Proxy.Proxy S := Proxy.set_world (f (Proxy.p_world p)) p.

Definition exec (ev : event) p : option (Proxy.Proxy S) :=
  match ev with
  | Request now later ok r key => snd <$> Proxy.route params parses now later ok r key p
  | PublicRequest now later ok stickyKey r => snd <$> Proxy.servePublic params parses now later ok stickyKey r p
  | DrainBackend answers now b =>
      w ← Drain.drain (Proxy.wcfg params) Drain.Assignment_ answers now b (Proxy.p_world p); Some (Proxy.set_world w p)
  | Rebalance wsSwap locked now active =>
      w ← Rebalancer.rebalance strategy (Proxy.wcfg params) wsSwap locked now active (Proxy.p_world p);
      Some (Proxy.set_world w p)
  | Reconcile now accounts =>
      w ← Discovery.reconcile (Proxy.wcfg params) now (accounts, None) (Proxy.p_world p); Some (Proxy.set_world w p)
  | Evict now b =>
      Some (on_world (Backends.invalidateStickyMappings (Proxy.wcfg params) Drain.Assignment_ InvalidateSticky now b) p)
  | Register b => Some (on_world (λ w, set_store (AddBackend b (w_store w)).2 w) p)
  | Deregister b => Some (on_world (λ w, set_store (RemoveBackend b (w_store w)).2 w) p)
  end.

Definition exec_all (evs : list event) p : option (Proxy.Proxy S) := foldl (λ o ev, o ≫= exec ev) (Some p) evs.

Definition store_of p : S := w_store (Proxy.p_world p).

(** The weight an event may add. *)
Definition cost (ev : event) : Z :=
  match ev with
  | Request _ _ _ _ _ | PublicRequest _ _ _ _ _ => 1
  | Reconcile _ accounts => zsum (λ acct, effective (Discovery.acct_weight acct)) accounts
  | _ => 0
  end.

(** What an event makes of the active set. *)
Definition activates (ev : event) (A : gset string) : gset string :=
  match ev with
  | DrainBackend answers _ b => match Drain.acquire answers with Drain.Acquired => A ∖ {[b]} | _ => A end
  | Register b => {[b]} ∪ A
  | Deregister b => A ∖ {[b]}
  | _ => A
  end.

(** The list of backends a request may index has less than 2^32 elements: the
    fallback of the Redis client, or the active set. *)
Definition indexable p : Prop :=
  match Proxy.routingMode params with
  | Proxy.ModeAssignment =>
      match Proxy.p_redis p with Some r => Z.of_nat (length (CB.cachedBackends r)) < two32 | None => True end
  | Proxy.ModeHash => Z.of_nat (size (act (store_of p))) < two32
  end.

(** The event is within what the store can hold: instants and weights it can
    write, batches it accepts, targets it knows; the lock was answered; scans
    did not repeat a key. *)
Definition admissible (ev : event) p : Prop :=
  match ev with
  | Request _ _ _ _ _ => indexable p
  | PublicRequest _ later _ _ _ => instant_ok S later ∧ Z.of_nat (size (act (store_of p))) < two32
  | DrainBackend answers _ b =>
      Drain.acquire answers ≠ Drain.Waiting ∧ batch_ok S (size (tbl (store_of p))) ∧ NoDup (Drain.scanned b (store_of p))
  | Rebalance _ _ now active =>
      instant_ok S now ∧ batch_ok S (size (tbl (store_of p))) ∧ (∀ b, b ∈ active → target_ok S (act (store_of p)) b) ∧
      (""%string ∉ active) ∧ Z.of_nat (length active) < two32
  | Reconcile now accounts =>
      instant_ok S now ∧ NoDup (Discovery.ID <$> accounts) ∧
      (∀ acct, acct ∈ accounts → weight_ok S (Discovery.acct_weight acct)) ∧ batch_ok S (length accounts)
  | Evict _ b => batch_ok S (size (tbl (store_of p))) ∧ NoDup (Drain.scanned b (store_of p))
  | Register _ | Deregister _ => True
  end.

(** Every event is, in the state the events before it lead to, if they lead to
    one. *)
Fixpoint admissible_all (evs : list event) p : Prop :=
  match evs with
  | [] => True
  | ev :: evs => admissible ev p ∧ ∀ p', exec ev p = Some p' → admissible_all evs p'
  end.

(** The fallback never panics on such a list. *)
Lemma fallback_some (r : CB.Breaker) key :
  Z.of_nat (length (CB.cachedBackends r)) < two32 → ∃ fb, Proxy.fallback r key = Some fb.
Proof.
  intros Hr. destruct (decide (CB.cachedBackends r = [])) as [Hn|Hn].
  - exists ""%string. unfold Proxy.fallback, CB.hashFallback. by rewrite Hn.
  - destruct (CB.hashFallback_cached (Backends.Hash key) r Hn Hr) as (b & Hb & _). by exists b.
Qed.

(** What one event leaves. *)
Definition kept (ev : event) p p' : Prop :=
  live (store_of p') ∧ act (store_of p') = activates ev (act (store_of p)) ∧
  total (tbl (store_of p')) ≤ total (tbl (store_of p)) + cost ev.

(** A step of the request that keeps the store. *)
Definition keeps p p' : Prop :=
  live (store_of p') ∧ act (store_of p') = act (store_of p) ∧ total (tbl (store_of p')) ≤ total (tbl (store_of p)) + 1.

Lemma store_assign_kept now key p :
  live (store_of p) → total (tbl (store_of p)) + 1 < two53 →
  match Proxy.p_redis p with Some r => Z.of_nat (length (CB.cachedBackends r)) < two32 | None => True end →
  ∃ res p', Proxy.assign_from_store now key p = Some (res, p') ∧ keeps p p'.
Proof.
  intros Hl Ht Hfb. unfold Proxy.assign_from_store, keeps, store_of in *. destruct (decide (act (w_store (Proxy.p_world p)) = ∅)) as [He|He].
  - destruct (AssignLeastLoaded_empty now key _ Hl He Ht) as (e & s1 & -> & Hl1 & Ha1 & Ht1). simpl.
    assert (Htot : total (tbl s1) ≤ total (tbl (w_store (Proxy.p_world p))) + 1).
    { destruct Ht1 as [->| ->]; [lia|]. pose proof (total_without (tbl (w_store (Proxy.p_world p))) [key]) as Hw.
      rewrite without_cons, without_nil in Hw. lia. }
    destruct (Proxy.p_redis p) as [r|]; [|by eexists _, _].
    destruct (fallback_some (CB.recordCBFailure now r) key) as [fb ->]; [unfold CB.recordCBFailure; by case_match|].
    simpl. by eexists _, _.
  - destruct (AssignLeastLoaded_spec now key _ Hl He Ht) as (a & s1 & -> & Hl1 & Ha1 & Ht1 & Hleast).
    eexists _, _. split; [done|]. simpl. split; [done|]. split; [done|]. rewrite Ht1.
    destruct Hleast as [[Hk _]|(_ & _ & Hw & _)]; [rewrite insert_id by done; lia|].
    etrans; [apply total_insert|]. unfold EffectiveWeight. rewrite Hw. done.
Qed.

Lemma assign_kept now key p :
  live (store_of p) → total (tbl (store_of p)) + 1 < two53 → indexable p →
  ∃ res p', Proxy.assign params now key p = Some (res, p') ∧ keeps p p'.
Proof.
  intros Hl Ht Hm. unfold Proxy.assign. unfold indexable in Hm. destruct (Proxy.routingMode params) eqn:Hmode.
  - unfold Proxy.assignViaTable. destruct (Proxy.p_redis p) as [r|] eqn:Hr; [|apply store_assign_kept; by rewrite ?Hr].
    destruct (CB.isCBOpen now r) as [open r'] eqn:Ho.
    assert (Hc : CB.cachedBackends r' = CB.cachedBackends r)
      by (unfold CB.isCBOpen in Ho; repeat case_match; by simplify_eq).
    destruct (store_assign_kept now key (Proxy.set_redis (Some r') p)) as (res & p' & Has & Hk);
      [done|done|simpl; by rewrite Hc|].
    destruct open; [|by eexists _, _]. destruct (fallback_some r' key) as [fb ->]; [by rewrite Hc|]. simpl.
    case_bool_decide; [by eexists _, _|]. eexists _, _. split; [done|]. unfold keeps, store_of in *. simpl.
    split; [done|]. split; [done|lia].
  - destruct (decide (act (store_of p) = ∅)) as [He|He].
    + unfold Proxy.assignViaHash, keeps, store_of in *.
      destruct (ActiveBackends_spec _ Hl) as (l & s1 & -> & Hperm & Hl1 & Ha1 & Ht1).
      rewrite He, elements_empty in Hperm. apply Permutation_nil_r in Hperm as ->. simpl. eexists _, _.
      split; [done|]. simpl. rewrite Ht1. split; [done|]. split; [done|lia].
    + destruct (Proxy.assign_hash_spec params now key p Hmode Hl He Hm) as (b & p1 & Has & _ & Hl1 & Ha1 & Ht1 & _).
      unfold Proxy.assign in Has. rewrite Hmode in Has. eexists _, p1. split; [exact Has|].
      unfold keeps, store_of. rewrite Ht1. split; [done|]. split; [done|lia].
Qed.

Lemma request_kept now later ok r key p :
  live (store_of p) → total (tbl (store_of p)) + 1 < two53 → indexable p →
  ∃ p', exec (Request now later ok r key) p = Some p' ∧ kept (Request now later ok r key) p p'.
Proof.
  intros Hl Ht Hix. unfold exec, Proxy.route.
  pose proof (Proxy.cached_backend_frame now key p) as (Hst & _ & _ & _).
  pose proof (Proxy.cached_backend_redis now key p) as Hred.
  destruct (Proxy.cached_backend now key p) as [[a|[b|]] p1]; simpl in Hst, Hred.
  - exists p1. split; [done|]. unfold kept, store_of. rewrite Hst. split; [done|]. split; [done|simpl; lia].
  - eexists. split; [done|]. unfold kept, store_of. rewrite Proxy.forward_world, Hst. split; [done|]. split; [done|simpl; lia].
  - assert (store_of p1 = store_of p) as Hsp by exact Hst.
    destruct (assign_kept now key p1) as ([b [e|]] & p2 & -> & Hl2 & Ha2 & Ht2); rewrite ?Hsp in *;
      [done|done|unfold indexable in *; by rewrite Hred, Hsp| |].
    + simpl. exists p2. split; [done|]. by split.
    + simpl. eexists. split; [done|]. unfold kept, store_of. rewrite Proxy.forward_world. simpl.
      match goal with |- context [SendAssign ?c ?x ?ks ?w] => destruct (Proxy.SendAssign_frame c x ks w) as [-> _] end.
      done.
Qed.

Lemma bind_kept now key b p :
  live (store_of p) → instant_ok S now → b ∈ act (store_of p) → total (tbl (store_of p)) + 1 < two53 →
  let p' := Proxy.bindStickyKey params now key b p in
  live (store_of p') ∧ act (store_of p') = act (store_of p) ∧ total (tbl (store_of p')) ≤ total (tbl (store_of p)) + 1.
Proof.
  intros Hl Hy Hb Ht. unfold Proxy.bindStickyKey, store_of. simpl.
  match goal with |- context [SendAssign ?c ?x ?ks ?w] => destruct (Proxy.SendAssign_frame c x ks w) as [-> _] end.
  destruct (Proxy.routingMode params); [|simpl; split; [done|]; split; [done|unfold store_of in *; lia]].
  assert (Hw : entries_weight {[key := mkEntry b 1]} = 1).
  { unfold entries_weight. rewrite <- insert_empty, msum_insert, msum_empty by done. done. }
  destruct (BulkAssign_spec now {[key := mkEntry b 1]} (store_of p) Hl Hy) as (s1 & Hs & Hl1 & Ha1 & Ht1).
  { intros k e. rewrite lookup_singleton_Some. intros [_ <-]. apply weight_ok_1. }
  { intros k e. rewrite lookup_singleton_Some. intros [_ <-]. by apply target_ok_active. }
  { rewrite map_size_singleton. apply batch_ok_1. }
  { by rewrite Hw. }
  unfold store_of in *. simpl. rewrite Hs. simpl. split; [done|]. split; [done|]. rewrite Ht1.
  etrans; [apply total_bulk|]. by rewrite Hw.
Qed.

Lemma public_kept now later ok sticky r p :
  live (store_of p) → total (tbl (store_of p)) + 1 < two53 → admissible (PublicRequest now later ok sticky r) p →
  ∃ p', exec (PublicRequest now later ok sticky r) p = Some p' ∧ kept (PublicRequest now later ok sticky r) p p'.
Proof.
  intros Hl Ht [Hy Hsize]. unfold exec, Proxy.servePublic, kept, store_of in *.
  destruct (ActiveBackends_spec (w_store (Proxy.p_world p)) Hl) as (l & s1 & -> & Hperm & Hl1 & Ha1 & Ht1).
  rewrite (bool_decide_false (@None error ≠ None)) by (intros Hx; by apply Hx). cbn [orb].
  case_bool_decide as Hn.
  { eexists. split; [done|]. split; [done|]. split; [done|]. simpl. rewrite Ht1. lia. }
  destruct (index_mod_some (sort_Strings l) (HashUser (Proxy.RemoteAddr r))) as (b & -> & Hin).
  { by rewrite sort_Strings_nil. }
  { apply HashUser_u32. }
  { rewrite sort_Strings_length. by rewrite Hperm. }
  rewrite sort_Strings_elem, Hperm, elem_of_elements in Hin.
  cbn [mbind option_bind]. destruct (Backends.ProxyRequest _ _ _ _ _ _) as [[resp ev] bm]. simpl.
  case_bool_decide; (eexists; split; [done|]).
  - split; [done|]. split; [done|]. simpl. rewrite Ht1. lia.
  - destruct (bind_kept later (match resp with Backends.Forwarded => sticky | _ => "" end) b
      (Proxy.set_backends bm (Proxy.set_world (set_store s1 (Proxy.p_world p)) p))) as (Hl2 & Ha2 & Ht2); unfold store_of in *; simpl in *.
    + done.
    + done.
    + by rewrite Ha1.
    + by rewrite Ht1.
    + split; [done|]. rewrite Ha2, Ha1. split; [done|]. by rewrite Ht1 in Ht2.
Qed.

Lemma cost_nonneg ev : 0 ≤ cost ev.
Proof.
  destruct ev; simpl; try lia. apply zsum_nonneg. intros acct _. pose proof (effective_pos (Discovery.acct_weight acct)). lia.
Qed.

(** With no active backend a reconciliation does nothing. *)
Lemma reconcile_idle now accounts p :
  live (store_of p) → act (store_of p) = ∅ →
  ∃ w', Discovery.reconcile (Proxy.wcfg params) now (accounts, None) (Proxy.p_world p) = Some w' ∧
    live (w_store w') ∧ act (w_store w') = act (store_of p) ∧ tbl (w_store w') = tbl (store_of p).
Proof.
  intros Hl He. unfold Discovery.reconcile, store_of in *.
  destruct (GetAllAssignments_spec (w_store (Proxy.p_world p)) Hl) as (s0 & -> & Hl0 & Ha0 & Ht0). simpl.
  destruct (ActiveBackends_spec s0 Hl0) as (l & s1 & -> & Hperm & Hl1 & Ha1 & Ht1).
  rewrite Ha0, He, elements_empty in Hperm. apply Permutation_nil_r in Hperm as ->. simpl.
  eexists. split; [done|]. simpl. split; [done|]. split; congruence.
Qed.

Lemma event_kept ev p :
  live (store_of p) → total (tbl (store_of p)) + cost ev < two53 → admissible ev p →
  ∃ p', exec ev p = Some p' ∧ kept ev p p'.
Proof.
  destruct ev as [now later ok r key|now later ok sticky r|answers now b|wsSwap locked now active|now accounts|now b|b|b];
    intros Hl Ht Had.
  - by apply request_kept.
  - by apply public_kept.
  - destruct Had as (Hw & Hbat & Hnd). simpl in *. unfold Drain.drain, kept, store_of in *. simpl.
    destruct (Drain.acquire answers); [|simpl; eexists; split; [done|]; split; [done|]; split; [done|simpl; lia]|done].
    destruct (Drain.drain_run (Proxy.wcfg params) now b (Proxy.p_world p) Hl Hbat ltac:(lia) Hnd)
      as (users & _ & Hl' & Ha' & Ht' & _).
    eexists. split; [done|]. simpl. split; [done|]. split; [done|]. rewrite Ht'.
    pose proof (total_without (tbl (w_store (Proxy.p_world p))) users). lia.
  - destruct Had as (Hy & Hbat & Htgt & Hempty & Hlen). simpl in *. unfold kept, store_of in *.
    destruct locked; [|eexists; split; [done|]; simpl; split; [done|]; split; [done|lia]].
    destruct (Rebalancer.rebalance_sound strategy (Proxy.wcfg params) wsSwap now active (Proxy.p_world p))
      as (moves & w' & Hc & Hok & Hnd & -> & Hcase); try done; [lia|].
    eexists. split; [done|]. simpl.
    destruct Hcase as [(-> & s' & -> & Hl' & Ha' & Ht')|[Hl' Ha' Ht' _ _ _]]; simpl.
    + rewrite Ht'. split; [done|]. split; [done|lia].
    + split; [done|]. split; [done|]. rewrite Ht'. rewrite (total_carried_out _ (sort_Strings active)) by done. lia.
  - destruct Had as (Hy & Hnd & Hwt & Hbat). cbn [exec cost activates] in *. unfold kept, store_of in *.
    destruct (decide (act (w_store (Proxy.p_world p)) = ∅)) as [He|He].
    { destruct (reconcile_idle now accounts p Hl He) as (w' & -> & Hl' & Ha' & Ht').
      eexists. split; [done|]. simpl. rewrite Ht'. split; [done|]. split; [done|].
      pose proof (cost_nonneg (Reconcile now accounts)) as Hc. cbn [cost] in Hc. unfold store_of. lia. }
    destruct (Discovery.reconcile_run (Proxy.wcfg params) now accounts (Proxy.p_world p))
      as (backends & w' & _ & -> & Hl' & Ha' & Ht'); try done.
    eexists. split; [done|]. simpl. split; [done|]. split; [done|]. rewrite Ht'. by apply total_reconciled.
  - destruct Had as (Hbat & Hnd). simpl in *. unfold kept, store_of in *. eexists. split; [done|]. simpl.
    destruct (Backends.eviction_clears_mappings (Proxy.wcfg params) InvalidateSticky now b (Proxy.p_world p) Hl Hbat ltac:(lia) Hnd)
      as (Hl' & Ha' & Ht' & _).
    split; [done|]. split; [done|].
    assert (tbl (w_store (Backends.invalidateStickyMappings (Proxy.wcfg params) Drain.Assignment_ InvalidateSticky now b (Proxy.p_world p)))
      = Failover.evicted b (tbl (w_store (Proxy.p_world p)))) as -> by (by apply Failover.evicted_eq).
    pose proof (Failover.total_evicted b (tbl (w_store (Proxy.p_world p)))). lia.
  - unfold kept, store_of in *. simpl in *. eexists. split; [done|]. simpl.
    destruct (AddBackend_spec b _ Hl) as (s' & -> & Hl' & Ha' & Ht'). simpl. rewrite Ht'. split; [done|]. split; [done|lia].
  - unfold kept, store_of in *. simpl in *. eexists. split; [done|]. simpl.
    destruct (RemoveBackend_spec b _ Hl) as (s' & -> & Hl' & Ha' & Ht'). simpl. rewrite Ht'. split; [done|]. split; [done|lia].
Qed.

(** C8. The operations compose: whatever the order of requests, public
    requests, drains, rebalances, reconciliations, evictions and changes of the
    backend set, on a store that answers, also with an empty active set or the
    Redis breaker open, every event runs to its end without a panic; the store
    keeps its contract (with Redis and with PostgreSQL: the counts are the loads
    of the table), the active set is what the schedule made of it, and there is
    no more weight than its requests and accounts brought.  Required of the
    schedule: the weights stay below 2^53 in all, lists of backends below 2^32,
    instants, weights and batches are within what the store can write, every
    drain got an answer about the lock, a rebalance names backends the store
    may assign to, accounts are named once, and no scan of a backend's users
    returned a key twice. *)
Theorem schedule_keeps_store evs p :
  live (store_of p) → total (tbl (store_of p)) + zsum cost evs < two53 → admissible_all evs p →
  ∃ p', exec_all evs p = Some p' ∧ live (store_of p') ∧
    act (store_of p') = foldl (λ A ev, activates ev A) (act (store_of p)) evs ∧
    total (tbl (store_of p')) ≤ total (tbl (store_of p)) + zsum cost evs.
Proof.
  unfold exec_all. revert p. induction evs as [|ev evs IH]; intros p Hl Ht Had; simpl.
  { exists p. rewrite zsum_nil. split; [done|]. split; [done|]. split; [done|lia]. }
  rewrite zsum_cons in Ht. destruct Had as [Had Hrest].
  assert (0 ≤ zsum cost evs) by (apply zsum_nonneg; intros; apply cost_nonneg).
  destruct (event_kept ev p Hl ltac:(lia) Had) as (p1 & Hp1 & Hl1 & Ha1 & Ht1). apply Hrest in Hp1 as Hrest1. rewrite Hp1.
  destruct (IH p1 Hl1 ltac:(lia) Hrest1) as (p' & Hp' & Hl' & Ha' & Ht').
  exists p'. rewrite zsum_cons, <- Ha1. split; [done|]. split; [done|]. split; [done|lia].
Qed.
End system.
End System.
