(* ===== verification/RedisClient.v ===== *)
(** * The Redis client and server, as an interface

    go-redis and the Redis server are not part of the repository: they are a
    parameter of the model.  [RedisServer] is what redis.go calls (single
    commands, pipelines, scripts, the pages of a full HSCAN or SCAN);
    [RedisLaws] states the documented behaviour of the commands the program
    uses, for the calls that the server answered: nothing is assumed of a call
    that failed on the way.  [memory_redis] is a concrete server that satisfies
    the laws. *)
From stdpp Require Import base gmap strings list fin_maps.
From Stdlib Require Import ZArith Lia.
From S2P Require Import Prelude Go Assignment.
Local Open Scope Z_scope.

Module RC.

(** ** Data *)

(** The strings the program stores, by what they spell. *)
Inductive text :=
  | TJson (j : json)
  | TInt (z : Z)
  | TStr (s : string).

(** The keyspace, by type of value. *)
Record rdb := mkRdb {
  hashes : gmap string (gmap string text);
  sets : gmap string (gset string);
  strs : gmap string text
}.

Definition empty_db : rdb := mkRdb ∅ ∅ ∅.

(** An absent key is an empty hash or set. *)
Definition hash (d : rdb) (key : string) : gmap string text := default ∅ (hashes d !! key).
Definition members (d : rdb) (key : string) : gset string := default ∅ (sets d !! key).

Definition put_hash (d : rdb) (key : string) (h : gmap string text) : rdb :=
  mkRdb (<[key := h]> (hashes d)) (sets d) (strs d).
Definition put_set (d : rdb) (key : string) (s : gset string) : rdb :=
  mkRdb (hashes d) (<[key := s]> (sets d)) (strs d).

Inductive cmd :=
  | HGet (key field : string)
  | HSet (key field : string) (v : text)
  | HSetNX (key field : string) (v : text)
  | HDel (key : string) (fields : list string)
  | HIncrBy (key field : string) (n : Z)
  | HGetAll (key : string)
  | SAdd (key member : string)
  | SRem (key member : string)
  | SMembers (key : string)
  | GetS (key : string)
  | MGet (keys : list string)
  | DelS (key : string)
  | PingS.

Inductive reply :=
  | RNil
  | ROk
  | RText (t : text)
  | RInt (z : Z)
  | RBool (b : bool)
  | RStrings (l : list string)
  | RTexts (l : list (option text))
  | RHash (h : gmap string text).

(** The server answered: a value, or the nil reply go-redis reports as
    [redis.Nil]. *)
Definition answered (e : option error) : Prop := e = None ∨ e = Some RedisNil.

#[export] Instance answered_dec e : Decision (answered e).
Proof. unfold answered. apply _. Defined.

(** ** Documented behaviour of the commands *)

(** The order of a SMEMBERS reply is the server's choice. *)
Definition member_order := gset string → list string.

Definition cmd_exec (order : member_order) (c : cmd) (d : rdb) : result reply * rdb :=
  match c with
  | HGet key f =>
      match hash d key !! f with
      | Some v => ((RText v, None), d)
      | None => ((RNil, Some RedisNil), d)
      end
  | HSet key f v => ((ROk, None), put_hash d key (<[f := v]> (hash d key)))
  | HSetNX key f v =>
      match hash d key !! f with
      | Some _ => ((RBool false, None), d)
      | None => ((RBool true, None), put_hash d key (<[f := v]> (hash d key)))
      end
  | HDel key fs => ((ROk, None), put_hash d key (foldl (λ h f, delete f h) (hash d key) fs))
  | HIncrBy key f n =>
      match default (TInt 0) (hash d key !! f) with
      | TInt z =>
          if bool_decide (is_int (z + n))
          then ((RInt (z + n), None), put_hash d key (<[f := TInt (z + n)]> (hash d key)))
          else ((RNil, Some (ErrOther "increment or decrement would overflow")), d)
      | _ => ((RNil, Some (ErrOther "hash value is not an integer")), d)
      end
  | HGetAll key => ((RHash (hash d key), None), d)
  | SAdd key x => ((ROk, None), put_set d key ({[x]} ∪ members d key))
  | SRem key x => ((ROk, None), put_set d key (members d key ∖ {[x]}))
  | SMembers key => ((RStrings (order (members d key)), None), d)
  | GetS key =>
      match strs d !! key with
      | Some v => ((RText v, None), d)
      | None => ((RNil, Some RedisNil), d)
      end
  | MGet keys => ((RTexts ((λ key, strs d !! key) <$> keys), None), d)
  | DelS key =>
      ((ROk, None), mkRdb (delete key (hashes d)) (delete key (sets d)) (delete key (strs d)))
  | PingS => ((ROk, None), d)
  end.

(** A pipeline runs its commands in order. *)
Fixpoint cmds_exec (order : member_order) (cs : list cmd) (d : rdb) : list (result reply) * rdb :=
  match cs with
  | [] => ([], d)
  | c :: cs =>
      let '(r, d) := cmd_exec order c d in
      let '(rs, d) := cmds_exec order cs d in (r :: rs, d)
  end.

(** A script body: it runs atomically on the server. *)
Definition script := member_order → rdb → result reply * rdb.

Class RedisServer (R : Type) : Type := {
  db : R → rdb;
  order : member_order;
  do_cmd : cmd → R → result reply * R;
  pipeline : list cmd → R → list (result reply) * R;
  run_script : script → R → result reply * R;
  (* the replies to the successive HSCAN calls on a hash, from cursor 0 to
     cursor 0, each a page of fields and values or an error *)
  hscan : string → R → list (result (list (string * text)));
  (* the replies to the successive SCAN calls for the string keys with a
     prefix, each a page of keys or an error *)
  scan : string → R → list (result (list string));
  (* the server is reachable now and for the calls to come *)
  reliable : R → Prop
}.

Class RedisLaws (R : Type) `{!RedisServer R} : Prop := {
  order_perm s : order s ≡ₚ elements s;
  do_cmd_ok c r rep e r' :
    do_cmd c r = ((rep, e), r') → answered e → cmd_exec order c (db r) = ((rep, e), db r');
  pipeline_ok cs r rs r' :
    pipeline cs r = (rs, r') → Forall (λ x, answered x.2) rs → cmds_exec order cs (db r) = (rs, db r');
  run_script_ok f r rep e r' :
    run_script f r = ((rep, e), r') → answered e → f order (db r) = ((rep, e), db r');
  (* a full iteration returns every element of a hash that does not change,
     and only those; an element may come more than once *)
  hscan_ok key r :
    Forall (λ p, p.2 = None) (hscan key r) →
    ∀ f v, (f, v) ∈ concat (hscan key r).*1 ↔ hash (db r) key !! f = Some v;
  (* a full iteration returns every matching key that is there from its start
     until it is returned; a key may come more than once *)
  scan_ok prefix r :
    Forall (λ p, p.2 = None) (scan prefix r) →
    ∀ k, k ∈ concat (scan prefix r).*1 ↔ is_Some (strs (db r) !! k) ∧ String.prefix prefix k = true;
  reliable_scan prefix r : reliable r → Forall (λ p, p.2 = None) (scan prefix r);
  (* while the server is reachable, every call reaches it and is answered *)
  reliable_do c r res r' :
    reliable r → do_cmd c r = (res, r') → cmd_exec order c (db r) = (res, db r') ∧ reliable r';
  reliable_pipeline cs r rs r' :
    reliable r → pipeline cs r = (rs, r') → cmds_exec order cs (db r) = (rs, db r') ∧ reliable r';
  reliable_script f r res r' :
    reliable r → run_script f r = (res, r') → f order (db r) = (res, db r') ∧ reliable r';
  reliable_hscan key r : reliable r → Forall (λ p, p.2 = None) (hscan key r)
}.

(** The error of [pipe.Exec]: the first error of its commands. *)
Definition exec_err (rs : list (result reply)) : option error := head (omap snd rs).

Lemma exec_err_none rs : exec_err rs = None ↔ Forall (λ x, x.2 = None) rs.
Proof.
  unfold exec_err. induction rs as [|[rep [e|]] rs IH]; simpl.
  - split; [constructor|done].
  - split; [done|]. inversion_clear 1. done.
  - rewrite IH. split; [by constructor|by inversion_clear 1].
Qed.

Lemma exec_err_answered rs : exec_err rs = None → Forall (λ x, answered x.2) rs.
Proof.
  rewrite exec_err_none. intros H. eapply Forall_impl; [exact H|]. intros x. by left.
Qed.

Lemma hash_put_hash d key key' h :
  hash (put_hash d key h) key' = if decide (key = key') then h else hash d key'.
Proof. unfold hash, put_hash. simpl. rewrite lookup_insert. by case_decide. Qed.

Lemma members_put_hash d key h key' : members (put_hash d key h) key' = members d key'.
Proof. done. Qed.

Lemma hash_put_set d key s key' : hash (put_set d key s) key' = hash d key'.
Proof. done. Qed.

Lemma members_put_set d key s key' :
  members (put_set d key s) key' = if decide (key = key') then s else members d key'.
Proof. unfold members, put_set. simpl. rewrite lookup_insert. by case_decide. Qed.

#[export] Hint Rewrite hash_put_hash members_put_hash hash_put_set members_put_set : go_rw.

Lemma foldl_delete_lookup {A} (fs : list string) (h : gmap string A) k :
  foldl (λ h f, delete f h) h fs !! k = if decide (k ∈ fs) then None else h !! k.
Proof.
  revert h. induction fs as [|f fs IH]; intros h; [done|]. simpl. rewrite IH, lookup_delete.
  destruct (decide (k ∈ fs)); [by rewrite decide_True by set_solver|].
  destruct (decide (f = k)); [by rewrite decide_True by set_solver|].
  by rewrite decide_False by set_solver.
Qed.

(** ** A server that satisfies the laws *)

(** An in-memory server: [faults] says, call after call, whether the network
    drops the call before it reaches the server. *)
Record mem := mkMem { m_db : rdb; faults : list bool }.

Definition net_error : error := ErrOther "connection refused".

Definition with_fault {A} (fail : A) (run : rdb → A * rdb) (r : mem) : A * mem :=
  match faults r with
  | true :: fs => (fail, mkMem (m_db r) fs)
  | _ => let '(a, d) := run (m_db r) in (a, mkMem d (tail (faults r)))
  end.

#[export] Instance memory_redis : RedisServer mem := {|
  db := m_db;
  order := elements;
  do_cmd c := with_fault (RNil, Some net_error) (cmd_exec elements c);
  pipeline cs :=
    with_fault ((λ _, (RNil, Some net_error)) <$> cs) (cmds_exec elements cs);
  run_script f := with_fault (RNil, Some net_error) (f elements);
  hscan key r := [(map_to_list (hash (m_db r) key), None)];
  scan prefix r := [(filter (λ k, String.prefix prefix k = true) (map_to_list (strs (m_db r))).*1, None)];
  reliable r := Forall (λ f, f = false) (faults r)
|}.

Lemma with_fault_ok {A} (P : A → Prop) fail run r a r' :
  ¬ P fail → P a → @with_fault A fail run r = (a, r') → run (m_db r) = (a, m_db r').
Proof.
  unfold with_fault. intros Hf Ha.
  destruct (faults r) as [|[] fs]; [|intros; simplify_eq|]; destruct (run (m_db r)) eqn:Hr;
    intros; by simplify_eq.
Qed.

Lemma with_fault_reliable {A} fail run r (a : A) r' :
  Forall (λ f, f = false) (faults r) → with_fault fail run r = (a, r') →
  run (m_db r) = (a, m_db r') ∧ Forall (λ f, f = false) (faults r').
Proof.
  unfold with_fault. intros Hf.
  destruct (faults r) as [|f fs]; [|inversion_clear Hf; subst f];
    destruct (run (m_db r)) eqn:Hr; intros; simplify_eq; split; try done.
Qed.

#[export] Instance memory_redis_laws : RedisLaws mem.
Proof.
  assert (Hnet : ¬ answered (Some net_error)) by (intros [?|?]; done).
  split.
  - done.
  - intros c r rep e r' H He.
    by apply (with_fault_ok (λ x, answered x.2) (RNil, Some net_error)).
  - intros cs r rs r' H Hall. destruct cs as [|c cs].
    + simpl in *. unfold with_fault in H. destruct (faults r) as [|[] ?]; by simplify_eq.
    + eapply (with_fault_ok (Forall (λ x, answered x.2))); [|exact Hall|exact H].
      simpl. by inversion_clear 1.
  - intros f r rep e r' H He.
    by apply (with_fault_ok (λ x, answered x.2) (RNil, Some net_error)).
  - intros key r _ f v. simpl. rewrite app_nil_r. apply elem_of_map_to_list.
  - intros prefix r _ k. simpl. rewrite app_nil_r, list_elem_of_filter, list_elem_of_fmap. split.
    + intros [Hp ([k' v] & -> & Hin%elem_of_map_to_list)]. eauto.
    + intros [[v Hv] Hp]. split; [done|]. exists (k, v). by rewrite elem_of_map_to_list.
  - intros prefix r _. by repeat constructor.
  - intros c r res r' Hr H. by apply with_fault_reliable in H.
  - intros c r res r' Hr H. by apply with_fault_reliable in H.
  - intros c r res r' Hr H. by apply with_fault_reliable in H.
  - intros key r _. by repeat constructor.
Qed.

End RC.
