(* ===== verification/Redis.v ===== *)
(** * redis.go and assign.lua: the assignment table in Redis

    The assignment table is the hash [assignments] (routing key to JSON
    assignment), with the per-backend weight in the hash [assignment:counts]
    and the healthy backends in the set [backends:active].  Every operation of
    redis.go on the table is modelled over the client interface, the Lua
    script included; [table_inv] says that the counts are the loads of the
    table. *)
From stdpp Require Import base gmap strings list fin_maps.
From Stdlib Require Import ZArith Lia.
From S2P Require Import Prelude Go Assignment RedisClient.
Import RC.
Local Open Scope Z_scope.

Module Redis.

Definition k_assignments : string := "assignments".
Definition k_active : string := "backends:active".
Definition k_counts : string := "assignment:counts".

(** ** assign.lua *)

(** Lua numbers are doubles, which hold the integers up to 2^53 exactly; the
    script is modelled on exact integers, and the theorems about it bound the
    total weight by 2^53. *)

(** [data.name] of a decoded object: the last member of that name. *)
Definition lua_field (name : string) (fs : list (string * json)) : option json :=
  foldl (λ acc '(k, v), if bool_decide (k = name) then Some v else acc) None fs.

(** The members the script reads: a weight it can use; a positive number that is
    no integer, which HINCRBY refuses; one that cannot be compared with zero,
    which raises an error before anything is written. *)
Inductive lua_weight := LuaInt (w : Z) | LuaFrac | LuaBad.

Definition lua_decode (t : text) : option (string * lua_weight) :=
  match t with
  | TJson (JObj fs) =>
      match lua_field "backend" fs with
      | Some (JStr b) =>
          match lua_field "weight" fs with
          | None | Some (JBool false) => Some (b, LuaInt 1)
          | Some (JNum w) => Some (b, LuaInt w)
          | Some (JFrac true) => Some (b, LuaFrac)
          | Some (JFrac false) => Some (b, LuaInt 0)
          | Some _ => Some (b, LuaBad)
          end
      | _ => None
      end
  | _ => None
  end.

Definition lua_error : result reply := (RNil, Some (ErrOther "ERR user_script")).

(** [tonumber(redis.call("HGET", KEYS[3], b) or "0") or 0] *)
Definition lua_count (d : rdb) (b : string) : Z :=
  match hash d k_counts !! b with Some (TInt z) => z | _ => 0 end.

(** The least-loaded loop: [minCount] starts at [math.huge] ([None]). *)
Definition lua_select (d : rdb) (backends : list string) (first : string) : string :=
  snd (foldl (λ '(minCount, selected) b,
         let c := lua_count d b in
         if match minCount with None => true | Some m => c <? m end
         then (Some c, b) else (minCount, selected))
       (None, first) backends).

Definition lua_value (selected : string) (assigned_at : Z) : text :=
  TJson (JObj [("backend", JStr selected); ("assigned_at", JTime assigned_at);
               ("source", JStr "assignment"); ("weight", JNum 1)]).

(** Sections 2 to 4 of the script. *)
Definition lua_assign_new (routingKey : string) (at_ : Z) : script := λ order d,
  match cmd_exec order (SMembers k_active) d with
  | ((RStrings (first :: rest), _), d) =>
      let selected := lua_select d (first :: rest) first in
      let value := lua_value selected at_ in
      let '(_, d) := cmd_exec order (HSet k_assignments routingKey value) d in
      match cmd_exec order (HIncrBy k_counts selected 1) d with
      | ((_, None), d) => ((RText value, None), d)
      | ((_, Some _), d) => (lua_error, d)
      end
  | (_, d) => ((RNil, Some RedisNil), d)
  end.

Definition assign_lua (routingKey : string) (at_ : Z) : script := λ order d,
  match hash d k_assignments !! routingKey with
  | None => lua_assign_new routingKey at_ order d
  | Some existing =>
      match lua_decode existing with
      | None => (lua_error, d)
      | Some (b, w) =>
          if bool_decide (b ∈ members d k_active) then ((RText existing, None), d)
          else
            match w with
            | LuaBad => (lua_error, d)
            | LuaFrac => (lua_error, (cmd_exec order (HDel k_assignments [routingKey]) d).2)
            | LuaInt w =>
                let stale_weight := if w <=? 0 then 1 else w in
                let '(_, d) := cmd_exec order (HDel k_assignments [routingKey]) d in
                match cmd_exec order (HIncrBy k_counts b (- stale_weight)) d with
                | ((_, None), d) => lua_assign_new routingKey at_ order d
                | ((_, Some _), d) => (lua_error, d)
                end
            end
      end
  end.

Section ops.
Context `{!MapIter} {R : Type} `{!RedisServer R}.

(** ** Table operations of redis.go *)

Definition unmarshal_text (t : text) : option Assignment :=
  match t with TJson j => unmarshalAssignment j | _ => None end.

Definition json_error : error := ErrOther "json".

(** [time.Now().UTC().Format(time.RFC3339)] keeps whole seconds. *)
Definition to_second (now : Z) : Z := now / Second * Second.

Definition AssignViaTable (now : Z) (routingKey : string) (r : R)
    : result (option Assignment) * R :=
  let '((res, err), r) := run_script (assign_lua routingKey (to_second now)) r in
  match err, res with
  | Some e, _ => ((None, Some e), r)
  | None, RNil => ((None, None), r)
  | None, RText t =>
      match unmarshal_text t with
      | Some a => ((Some a, None), r)
      | None => ((None, Some json_error), r)
      end
  | None, _ => ((None, Some (ErrOther "unexpected redis response type")), r)
  end.

Definition GetAssignment (routingKey : string) (r : R) : result (option Assignment) * R :=
  let '((res, err), r) := do_cmd (HGet k_assignments routingKey) r in
  match err, res with
  | Some e, _ => ((None, Some e), r)
  | None, RText t =>
      match unmarshal_text t with
      | Some a => ((Some a, None), r)
      | None => ((None, Some json_error), r)
      end
  | None, _ => ((None, Some json_error), r)
  end.

(** DeleteAssignment removes an assignment and decrements the backend count. *)
Definition DeleteAssignment (routingKey : string) (r : R) : option error * R :=
  let '((a, err), r) := GetAssignment routingKey r in
  match err, a with
  | Some e, _ => (Some e, r)
  | None, None => (Some json_error, r)
  | None, Some a =>
      let '(rs, r) := pipeline [HDel k_assignments [routingKey];
                                HIncrBy k_counts (Backend a) (- EffectiveWeight a)] r in
      (exec_err rs, r)
  end.

(** The entries that decode, as GetAllAssignments collects them. *)
Definition GetAllAssignments (r : R) : result (gmap string Assignment) * R :=
  let '((res, err), r) := do_cmd (HGetAll k_assignments) r in
  match err, res with
  | Some e, _ => ((∅, Some e), r)
  | None, RHash vals =>
      ((foldl (λ result '(k, v),
                 match unmarshal_text v with Some a => <[k := a]> result | None => result end)
          ∅ (range 30 vals), None), r)
  | None, _ => ((∅, Some json_error), r)
  end.

(** The HSCAN loop: stops at the first page that fails. *)
Fixpoint scan_pages (b : string) (pages : list (result (list (string * text))))
    (users : list string) : result (list string) :=
  match pages with
  | [] => (users, None)
  | (_, Some e) :: _ => (users, Some e)
  | (kvs, None) :: pages =>
      scan_pages b pages
        (users ++ omap (λ '(k, v), a ← unmarshal_text v;
                          if bool_decide (Backend a = b) then Some k else None) kvs)
  end.

Definition GetBackendUsersFromTable (b : string) (r : R) : result (list string) :=
  scan_pages b (hscan k_assignments r) [].

(** One pending HSETNX of BulkAssign. *)
Record pending := mkPending { p_key : string; p_backend : string; p_weight : Z; p_val : text }.

Definition pending_of (now : Z) (kv : string * BulkAssignEntry) : option pending :=
  let '(routingKey, entry) := kv in
  let w := effective (e_Weight entry) in
  val ← marshalAssignment (mkAssignment (e_Backend entry) now "assignment" w);
  Some (mkPending routingKey (e_Backend entry) w (TJson val)).

Definition is_true (rep : result reply) : bool :=
  match rep with (RBool true, None) => true | _ => false end.

(** ReconcileAssignmentCounts recomputes assignment:counts from the table. *)
Definition sum_counts (l : list (string * Assignment)) : gmap string Z :=
  madd_all (λ p, Backend p.2) (λ p, EffectiveWeight p.2) ∅ l.

Definition ReconcileAssignmentCounts (r : R) : option error * R :=
  let '((assignments, err), r) := GetAllAssignments r in
  match err with
  | Some e => (Some e, r)
  | None =>
      let counts := sum_counts (range 31 assignments) in
      let '(rs, r) := pipeline (DelS k_counts ::
          ((λ p, HSet k_counts p.1 (TInt p.2)) <$> range 32 counts)) r in
      (exec_err rs, r)
  end.

(** Phase 2 of BulkAssign: the successful items. *)
Definition assigned_of (items : list (pending * result reply)) : gmap string string :=
  foldl (λ m p, <[p_key p := p_backend p]> m) ∅
    (omap (λ '(p, rep), if is_true rep then Some p else None) items).

Definition counts_of (items : list (pending * result reply)) : gmap string Z :=
  madd_all p_backend p_weight ∅
    (omap (λ '(p, rep), if is_true rep then Some p else None) items).

Definition BulkAssign (now : Z) (assignments : gmap string BulkAssignEntry) (r : R)
    : result (gmap string string) * R :=
  if bool_decide (assignments = ∅) then ((∅, None), r)
  else
    let items := omap (pending_of now) (range 33 assignments) in
    let '(rs, r) := pipeline ((λ p, HSetNX k_assignments (p_key p) (p_val p)) <$> items) r in
    match exec_err rs with
    | Some e => ((∅, Some e), r)
    | None =>
        let assigned := assigned_of (zip items rs) in
        let counts := counts_of (zip items rs) in
        if bool_decide (counts = ∅) then ((assigned, None), r)
        else
          let '(rs', r) :=
            pipeline ((λ p, HIncrBy k_counts p.1 p.2) <$> range 34 counts) r in
          match exec_err rs' with
          | Some e => let '(_, r) := ReconcileAssignmentCounts r in ((assigned, Some e), r)
          | None => ((assigned, None), r)
          end
    end.

(** The keys BulkDeleteAssignments found, with their assignments. *)
Definition found_of (keys : list string) (rs : list (result reply)) : list (string * Assignment) :=
  omap (λ '(k, rep), match rep with
                     | (RText t, None) => a ← unmarshal_text t; Some (k, a)
                     | _ => None
                     end) (zip keys rs).

Definition BulkDeleteAssignments (routingKeys : list string) (r : R) : option error * R :=
  match routingKeys with
  | [] => (None, r)
  | _ =>
      let '(rs, r) := pipeline (HGet k_assignments <$> routingKeys) r in
      match found_of routingKeys rs with
      | [] => (None, r)
      | found =>
          let counts := sum_counts found in
          let '(rs', r) := pipeline (HDel k_assignments found.*1 ::
              ((λ p, HIncrBy k_counts p.1 (- p.2)) <$> range 35 counts)) r in
          (exec_err rs', r)
      end
  end.

Definition ActiveBackends (r : R) : result (list string) * R :=
  let '((res, err), r) := do_cmd (SMembers k_active) r in
  match res with
  | RStrings l => ((l, err), r)
  | _ => (([], err), r)
  end.

Definition AddBackend (b : string) (r : R) : option error * R :=
  let '((_, err), r) := do_cmd (SAdd k_active b) r in (err, r).

Definition RemoveBackend (b : string) (r : R) : option error * R :=
  let '((_, err), r) := do_cmd (SRem k_active b) r in (err, r).

Definition Ping (r : R) : option error * R :=
  let '((_, err), r) := do_cmd PingS r in (err, r).
End ops.

(** ** What the database holds *)

(** The assignment table: the entries that decode. *)
Definition table (d : rdb) : gmap string Assignment := omap unmarshal_text (hash d k_assignments).

Definition active (d : rdb) : gset string := members d k_active.

(** The text is the JSON form of [a] for Go, and the script reads the same
    backend and effective weight from it. *)
Definition encodes (t : text) (a : Assignment) : Prop :=
  unmarshal_text t = Some a ∧
  ∃ w, lua_decode t = Some (Backend a, LuaInt w) ∧ effective w = EffectiveWeight a.

(** Every entry decodes, and every count is the load of its backend. *)
Record table_inv (d : rdb) : Prop := {
  ti_enc : ∀ k t, hash d k_assignments !! k = Some t → ∃ a, encodes t a;
  ti_int : ∀ b t, hash d k_counts !! b = Some t → ∃ z, t = TInt z;
  ti_counts : ∀ b, lua_count d b = load (table d) b
}.

Lemma lookup_table d k : table d !! k = hash d k_assignments !! k ≫= unmarshal_text.
Proof. apply lookup_omap. Qed.

Lemma table_lookup_enc d k t :
  table_inv d → hash d k_assignments !! k = Some t →
  ∃ a, encodes t a ∧ table d !! k = Some a.
Proof.
  intros Hi Ht. destruct (ti_enc _ Hi k t Ht) as [a Ha]. exists a. split; [done|].
  rewrite lookup_table, Ht. apply Ha.
Qed.

Lemma table_lookup_inv d k a :
  table_inv d → table d !! k = Some a →
  ∃ t, hash d k_assignments !! k = Some t ∧ encodes t a.
Proof.
  intros Hi Ha. rewrite lookup_table in Ha. destruct (hash d k_assignments !! k) as [t|] eqn:Ht; [|done].
  exists t. split; [done|]. destruct (ti_enc _ Hi k t Ht) as [a' Ha']. simpl in Ha.
  assert (a' = a) as <-; [|done]. destruct Ha' as [Hu _]. congruence.
Qed.

Lemma table_lookup_none d k :
  table_inv d → table d !! k = None ↔ hash d k_assignments !! k = None.
Proof.
  intros Hi. rewrite lookup_table. destruct (hash d k_assignments !! k) as [t|] eqn:Ht; [|done].
  destruct (ti_enc _ Hi k t Ht) as [a [Ha _]]. simpl. by rewrite Ha.
Qed.

(** *** What Go and the script write *)

Lemma encodes_lua b at_ : encodes (lua_value b at_) (mkAssignment b at_ "assignment" 1).
Proof. split; [done|]. exists 1. done. Qed.

Lemma encodes_marshal b now w j :
  1 ≤ w → is_int w → marshalAssignment (mkAssignment b now "assignment" w) = Some j →
  encodes (TJson j) (mkAssignment b now "assignment" w).
Proof.
  intros Hw Hi Hm. split; [simpl; by eapply unmarshal_marshal|].
  unfold marshalAssignment in Hm. simpl in Hm. destruct (year_ok now); [|done].
  rewrite (proj2 (Z.eqb_neq w 0)) in Hm by lia. injection Hm as <-.
  exists w. split; [done|]. reflexivity.
Qed.

(** *** Primitive updates of the database *)

Definition set_entry (d : rdb) (k : string) (t : text) : rdb :=
  put_hash d k_assignments (<[k := t]> (hash d k_assignments)).

Definition del_entries (d : rdb) (ks : list string) : rdb :=
  put_hash d k_assignments (foldl (λ h f, delete f h) (hash d k_assignments) ks).

Definition incr (d : rdb) (b : string) (n : Z) : rdb :=
  put_hash d k_counts (<[b := TInt (lua_count d b + n)]> (hash d k_counts)).

Definition counts_int (d : rdb) : Prop :=
  ∀ b t, hash d k_counts !! b = Some t → ∃ z, t = TInt z.

Lemma exec_hincrby order d b n :
  counts_int d → is_int (lua_count d b + n) →
  cmd_exec order (HIncrBy k_counts b n) d = ((RInt (lua_count d b + n), None), incr d b n).
Proof.
  intros Hi Hn. unfold incr, lua_count in *. simpl.
  destruct (hash d k_counts !! b) as [t|] eqn:Hb; simpl.
  - destruct (Hi b t Hb) as [z ->]. by rewrite bool_decide_true.
  - by rewrite bool_decide_true.
Qed.

Lemma lua_count_incr d b n b' :
  lua_count (incr d b n) b' = lua_count d b' + if decide (b = b') then n else 0.
Proof.
  unfold lua_count at 1, incr. rewrite hash_put_hash, decide_True, lookup_insert by done.
  case_decide; subst; [lia|]. unfold lua_count. lia.
Qed.

Lemma counts_int_incr d b n : counts_int d → counts_int (incr d b n).
Proof.
  intros Hi b' t. unfold incr. rewrite hash_put_hash, decide_True, lookup_insert by done.
  case_decide; [|apply Hi]. intros [= <-]. eauto.
Qed.

Lemma assignments_incr d b n : hash (incr d b n) k_assignments = hash d k_assignments.
Proof. unfold incr. by rewrite hash_put_hash, decide_False. Qed.

Lemma table_incr d b n : table (incr d b n) = table d.
Proof. unfold table. by rewrite assignments_incr. Qed.

Lemma counts_set_entry d k t : hash (set_entry d k t) k_counts = hash d k_counts.
Proof. unfold set_entry. by rewrite hash_put_hash, decide_False. Qed.

Lemma counts_del_entries d ks : hash (del_entries d ks) k_counts = hash d k_counts.
Proof. unfold del_entries. by rewrite hash_put_hash, decide_False. Qed.

Lemma lua_count_set_entry d k t b : lua_count (set_entry d k t) b = lua_count d b.
Proof. unfold lua_count. by rewrite counts_set_entry. Qed.

Lemma lua_count_del_entries d ks b : lua_count (del_entries d ks) b = lua_count d b.
Proof. unfold lua_count. by rewrite counts_del_entries. Qed.

Lemma assignments_set_entry d k t :
  hash (set_entry d k t) k_assignments = <[k := t]> (hash d k_assignments).
Proof. unfold set_entry. by rewrite hash_put_hash, decide_True. Qed.

Lemma table_set_entry d k t a :
  unmarshal_text t = Some a → table (set_entry d k t) = <[k := a]> (table d).
Proof.
  intros Ha. unfold table. rewrite assignments_set_entry. by apply omap_insert_Some.
Qed.

Lemma lookup_table_del d ks k :
  table (del_entries d ks) !! k = if decide (k ∈ ks) then None else table d !! k.
Proof.
  rewrite !lookup_table. unfold del_entries. rewrite hash_put_hash, decide_True by done.
  rewrite foldl_delete_lookup. by case_decide.
Qed.

#[export] Hint Rewrite table_incr lua_count_incr lua_count_set_entry lua_count_del_entries : go_rw.

End Redis.
