(* ===== verification/RedisTable.v ===== *)
(** * Correctness of the Redis assignment table

    The counts hash is kept equal to the loads of the table by every
    operation of redis.go and by the Lua script; the script picks a
    least-loaded active backend; a bulk assignment never overwrites; the
    reconciliation rebuilds the counts from any table. *)
From stdpp Require Import base gmap strings list fin_maps.
From Stdlib Require Import ZArith Lia.
From S2P Require Import Prelude Go Assignment Store RedisClient Redis.
Import RC Redis.
Local Open Scope Z_scope.

Module RedisTable.

(** ** Single updates preserve the invariant *)

Lemma inv_add d k t a :
  table_inv d → hash d k_assignments !! k = None → encodes t a →
  let d' := incr (set_entry d k t) (Backend a) (EffectiveWeight a) in
  table_inv d' ∧ table d' = <[k := a]> (table d).
Proof.
  intros Hi Hk Ha. pose proof Ha as [Hu _]. simpl.
  assert (Ht : table (incr (set_entry d k t) (Backend a) (EffectiveWeight a)) = <[k := a]> (table d)).
  { rewrite table_incr. by apply table_set_entry. }
  split; [|done]. split.
  - intros k' t'. rewrite assignments_incr, assignments_set_entry, lookup_insert.
    case_decide; [intros [= <-]; eauto|apply Hi].
  - apply counts_int_incr. intros b t'. rewrite counts_set_entry. apply Hi.
  - intros b. rewrite lua_count_incr, lua_count_set_entry, Ht, (ti_counts _ Hi), load_insert.
    + unfold weight_on. lia.
    + by apply table_lookup_none.
Qed.

Lemma inv_remove d k a :
  table_inv d → table d !! k = Some a →
  let d' := incr (del_entries d [k]) (Backend a) (- EffectiveWeight a) in
  table_inv d' ∧ table d' = delete k (table d).
Proof.
  intros Hi Hk. simpl.
  assert (Ht : table (incr (del_entries d [k]) (Backend a) (- EffectiveWeight a)) = delete k (table d)).
  { rewrite table_incr. apply map_eq. intros k'. rewrite lookup_table_del, lookup_delete.
    destruct (decide (k = k')) as [->|Hne]; [by rewrite decide_True by set_solver|].
    by rewrite decide_False by set_solver. }
  split; [|done]. split.
  - intros k' t'. rewrite assignments_incr. unfold del_entries.
    rewrite hash_put_hash, decide_True, foldl_delete_lookup by done. case_decide; [done|apply Hi].
  - apply counts_int_incr. intros b t'. rewrite counts_del_entries. apply Hi.
  - intros b. rewrite lua_count_incr, lua_count_del_entries, Ht, (ti_counts _ Hi).
    rewrite (load_delete _ k a) by done. unfold weight_on. case_decide; lia.
Qed.

(** ** assign.lua *)

Lemma lua_select_spec d backends first :
  backends ≠ [] →
  let s := lua_select d backends first in
  s ∈ backends ∧ ∀ b, b ∈ backends → lua_count d s ≤ lua_count d b.
Proof.
  unfold lua_select. set (f := λ '(minCount, selected) b, _).
  enough (Hgen : ∀ l mn s0, let r := foldl f (mn, s0) l in
    match mn with
    | None => l ≠ [] → r.2 ∈ l ∧ r.1 = Some (lua_count d r.2) ∧ ∀ b, b ∈ l → lua_count d r.2 ≤ lua_count d b
    | Some m => m = lua_count d s0 →
        r.1 = Some (lua_count d r.2) ∧ (r.2 = s0 ∨ r.2 ∈ l) ∧ lua_count d r.2 ≤ m ∧
        ∀ b, b ∈ l → lua_count d r.2 ≤ lua_count d b
    end).
  { intros Hne. destruct (Hgen backends None first Hne) as (? & _ & ?). done. }
  induction l as [|b l IH]; intros mn s0; simpl.
  { destruct mn; [|done]. intros ->. split; [done|]. split; [by left|]. split; [lia|set_solver]. }
  destruct mn as [m|]; simpl.
  - intros ->. destruct (Z.ltb_spec (lua_count d b) (lua_count d s0)).
    + destruct (IH (Some (lua_count d b)) b eq_refl) as (? & Hin & Hle & Hmin).
      split; [done|]. split; [right; set_solver|]. split; [lia|].
      intros b' [->|Hb']%elem_of_cons; [done|by apply Hmin].
    + destruct (IH (Some (lua_count d s0)) s0 eq_refl) as (? & Hin & Hle & Hmin).
      split; [done|]. split; [set_solver|]. split; [done|].
      intros b' [->|Hb']%elem_of_cons; [lia|by apply Hmin].
  - intros _. destruct (IH (Some (lua_count d b)) b eq_refl) as (? & Hin & Hle & Hmin).
    split; [set_solver|]. split; [done|].
    intros b' [->|Hb']%elem_of_cons; [done|by apply Hmin].
Qed.

Section script.
Context (order : member_order) (Horder : ∀ s, order s ≡ₚ elements s).

(** The fresh part of the script: a least-loaded active backend. *)
Lemma lua_assign_new_spec d k at_ :
  table_inv d → hash d k_assignments !! k = None → active d ≠ ∅ → total (table d) + 1 < two53 →
  ∃ b d', lua_assign_new k at_ order d = ((RText (lua_value b at_), None), d') ∧
    b ∈ active d ∧ (∀ b', b' ∈ active d → load (table d) b ≤ load (table d) b') ∧
    table d' = <[k := mkAssignment b at_ "assignment" 1]> (table d) ∧
    active d' = active d ∧ table_inv d'.
Proof.
  intros Hi Hk Hact Htot. unfold lua_assign_new.
  change (cmd_exec order (SMembers k_active) d)
    with ((RStrings (order (active d)), @None error), d).
  assert (Hmem : ∀ b, b ∈ order (active d) ↔ b ∈ active d).
  { intros b. by rewrite Horder, elem_of_elements. }
  destruct (order (active d)) as [|first rest] eqn:Hl.
  { destruct Hact. apply set_eq. intros b. rewrite <- Hmem. set_solver. }
  set (b := lua_select d (first :: rest) first).
  destruct (lua_select_spec d (first :: rest) first) as [Hin Hmin]; [done|]. fold b in Hin, Hmin.
  change (cmd_exec order (HSet k_assignments k (lua_value b at_)) d)
    with ((ROk, @None error), set_entry d k (lua_value b at_)).
  destruct (inv_add d k _ _ Hi Hk (encodes_lua b at_)) as [Hi' Ht'].
  rewrite exec_hincrby.
  - eexists b, _. split; [done|]. split; [by apply Hmem|]. split; [|done].
    intros b' Hb'%Hmem%Hmin. by rewrite <- !(ti_counts _ Hi).
  - intros b' t. rewrite counts_set_entry. apply Hi.
  - rewrite lua_count_set_entry, (ti_counts _ Hi).
    pose proof (load_nonneg (table d) b). pose proof (load_le_total (table d) b).
    unfold is_int, two53, two63 in *. lia.
Qed.

(** The script answers with the assignment of an active backend, or drops the
    stale one and assigns afresh. *)
Lemma assign_lua_cases d k at_ :
  table_inv d → total (table d) < two53 →
  (∃ t a, assign_lua k at_ order d = ((RText t, None), d) ∧ encodes t a ∧
     table d !! k = Some a ∧ Backend a ∈ active d) ∨
  (∃ d1, assign_lua k at_ order d = lua_assign_new k at_ order d1 ∧ table_inv d1 ∧
     table d1 = delete k (table d) ∧ active d1 = active d ∧
     (∀ a0, table d !! k = Some a0 → Backend a0 ∉ active d)).
Proof.
  intros Hi Htot. unfold assign_lua. destruct (hash d k_assignments !! k) as [t|] eqn:Hk.
  2: { apply table_lookup_none in Hk; [|done]. right. exists d. rewrite delete_id by done.
       repeat (split; [done|]). by rewrite Hk. }
  destruct (table_lookup_enc d k t Hi Hk) as (a & Henc & Ha).
  pose proof Henc as (Hu & w & Hdec & Hw). rewrite Hdec. case_bool_decide as Hb.
  { left. by exists t, a. }
  right. change (if w <=? 0 then 1 else w) with (effective w). rewrite Hw.
  change (cmd_exec order (HDel k_assignments [k]) d)
    with ((ROk, @None error), del_entries d [k]). cbv beta iota.
  destruct (inv_remove d k a Hi Ha) as [Hi1 Ht1]. rewrite exec_hincrby.
  - eexists. split; [done|]. split; [done|]. split; [done|]. split; [done|].
    intros a0 Ha0. by simplify_eq.
  - intros b' t'. rewrite counts_del_entries. apply Hi.
  - rewrite lua_count_del_entries, (ti_counts _ Hi).
    pose proof (load_delete (table d) k a (Backend a) Ha) as Hl.
    unfold weight_on in Hl. rewrite decide_True in Hl by done.
    pose proof (load_nonneg (delete k (table d)) (Backend a)). pose proof (EffectiveWeight_pos a).
    pose proof (load_le_total (table d) (Backend a)). unfold is_int, two53, two63 in *. lia.
Qed.

(** The whole script, on a table whose counts are right. *)
Lemma assign_lua_spec d k at_ :
  table_inv d → active d ≠ ∅ → total (table d) + 1 < two53 →
  ∃ t a d', assign_lua k at_ order d = ((RText t, None), d') ∧ encodes t a ∧
    table_inv d' ∧ active d' = active d ∧ table d' = <[k := a]> (table d) ∧
    assigned_least (λ active a, Backend a ∈ active) (table d) (active d) k a.
Proof.
  intros Hi Hact Htot.
  destruct (assign_lua_cases d k at_ Hi) as [(t & a & Hs & Henc & Ha & Hb)|(d1 & Hs & Hi1 & Ht1 & Hact1 & Hold)];
    [lia| |].
  { exists t, a, d. rewrite insert_id by done. split; [done|]. split; [done|]. split; [done|].
    split; [done|]. split; [done|]. by left. }
  destruct (lua_assign_new_spec d1 k at_) as (b & d' & Hs' & Hin & Hmin & Ht' & Hact' & Hi').
  - done.
  - apply table_lookup_none; [done|]. rewrite Ht1. apply lookup_delete_eq.
  - by rewrite Hact1.
  - rewrite Ht1, <- (without_nil (table d)), <- without_cons.
    pose proof (total_without (table d) [k]). lia.
  - rewrite Hact1 in *. rewrite Ht1 in *. rewrite insert_delete_eq in Ht'.
    eexists _, _, d'. rewrite Hs, Hs'. split; [done|]. split; [apply encodes_lua|].
    split; [done|]. split; [done|]. split; [done|]. right. done.
Qed.

(** With no active backend a stale assignment is dropped all the same. *)
Lemma assign_lua_empty d k at_ :
  table_inv d → active d = ∅ → total (table d) < two53 →
  ∃ d', assign_lua k at_ order d = ((RNil, Some RedisNil), d') ∧
    table_inv d' ∧ active d' = active d ∧ table d' = delete k (table d).
Proof.
  intros Hi Hact Htot.
  destruct (assign_lua_cases d k at_ Hi Htot) as [(t & a & _ & _ & _ & Hb)|(d1 & Hs & Hi1 & Ht1 & Hact1 & _)];
    [rewrite Hact in Hb; set_solver|].
  exists d1. rewrite Hs. split; [|done]. unfold lua_assign_new.
  change (cmd_exec order (SMembers k_active) d1)
    with ((RStrings (order (active d1)), @None error), d1). cbv beta iota.
  destruct (order (active d1)) as [|first rest] eqn:Ho; [done|].
  exfalso. assert (Hf : first ∈ order (active d1)) by (rewrite Ho; left).
  rewrite Horder, elem_of_elements, Hact1, Hact in Hf. set_solver.
Qed.
End script.

(** ** Pipelines *)

Section pipelines.
Context (order : member_order).

Lemma exec_hsetnx items d :
  NoDup (p_key <$> items) →
  cmds_exec order ((λ p, HSetNX k_assignments (p_key p) (p_val p)) <$> items) d =
    ((λ p, (RBool (bool_decide (hash d k_assignments !! p_key p = None)), None)) <$> items,
     foldl (λ d p, set_entry d (p_key p) (p_val p)) d
       (filter (λ p, hash d k_assignments !! p_key p = None) items)).
Proof.
  revert d. induction items as [|p items IH]; intros d Hnd; [done|].
  apply NoDup_cons in Hnd as [Hp Hnd].
  assert (Hsame : ∀ t q, q ∈ items →
    hash (set_entry d (p_key p) t) k_assignments !! p_key q = hash d k_assignments !! p_key q).
  { intros t q Hq. rewrite assignments_set_entry, lookup_insert_ne; [done|].
    intros Heq. apply Hp. rewrite Heq. by apply list_elem_of_fmap_2. }
  rewrite filter_cons. simpl. destruct (hash d k_assignments !! p_key p) as [v|] eqn:Hv.
  - rewrite IH by done. rewrite bool_decide_false, decide_False by done. done.
  - fold (set_entry d (p_key p) (p_val p)). rewrite IH by done.
    rewrite bool_decide_true, decide_True by done. simpl. f_equal.
    + f_equal. apply list_fmap_ext. intros i q Hq%list_elem_of_lookup_2. by rewrite Hsame.
    + f_equal. clear IH Hnd Hp. induction items as [|q items IH]; [done|].
      rewrite !filter_cons, Hsame by set_solver. rewrite IH; [done|].
      intros t q' Hq'. apply Hsame. by right.
Qed.

Lemma exec_hincrbys (l : list (string * Z)) d :
  NoDup l.*1 → counts_int d → Forall (λ p, is_int (lua_count d p.1 + p.2)) l →
  ∃ rs, cmds_exec order ((λ p, HIncrBy k_counts p.1 p.2) <$> l) d =
    (rs, foldl (λ d p, incr d p.1 p.2) d l) ∧ Forall (λ x : result reply, x.2 = None) rs.
Proof.
  revert d. induction l as [|[b n] l IH]; intros d Hnd Hc Hok; [eexists; done|].
  apply NoDup_cons in Hnd as [Hb Hnd]. inversion_clear Hok as [|? ? Hbn Hok'].
  cbn [fmap list_fmap cmds_exec fst snd]. rewrite exec_hincrby by done.
  destruct (IH (incr d b n)) as (rs & -> & Hrs); [done|by apply counts_int_incr| |].
  - rewrite Forall_forall in Hok' |- *. intros [b' n'] Hin. rewrite lua_count_incr.
    rewrite decide_False; [rewrite Z.add_0_r; by apply Hok'|].
    intros ->. apply Hb. by apply (list_elem_of_fmap_2 fst) in Hin.
  - eexists. split; [done|]. by constructor.
Qed.
End pipelines.

Lemma incrs_spec (l : list (string * Z)) d :
  let d' := foldl (λ d p, incr d p.1 p.2) d l in
  hash d' k_assignments = hash d k_assignments ∧ active d' = active d ∧
  (counts_int d → counts_int d') ∧
  ∀ b, lua_count d' b = lua_count d b + zsum (λ p, if decide (p.1 = b) then p.2 else 0) l.
Proof.
  revert d. induction l as [|[b n] l IH]; intros d; simpl.
  { repeat split; auto. intros b. rewrite zsum_nil. lia. }
  destruct (IH (incr d b n)) as (Ha & Hact & Hc & Hn).
  rewrite Ha, Hact. split; [apply assignments_incr|]. split; [done|]. split.
  - intros Hd. by apply Hc, counts_int_incr.
  - intros b'. rewrite Hn, lua_count_incr, zsum_cons. simpl. lia.
Qed.

Lemma zsum_pick (l : list (string * Z)) b n :
  NoDup l.*1 → (b, n) ∈ l → zsum (λ p, if decide (p.1 = b) then p.2 else 0) l = n.
Proof.
  induction l as [|[b' n'] l IH]; intros Hnd Hin; [by apply not_elem_of_nil in Hin|].
  apply NoDup_cons in Hnd as [Hb' Hnd]. rewrite zsum_cons. simpl in *.
  apply elem_of_cons in Hin as [Heq|Hin].
  - simplify_eq. rewrite decide_True by done. rewrite zsum_zero; [lia|].
    intros [b1 n1] H1. rewrite decide_False; [done|]. simpl. intros ->. apply Hb'.
    by apply (list_elem_of_fmap_2 fst) in H1.
  - rewrite decide_False; [by apply IH|]. intros ->. apply Hb'.
    by apply (list_elem_of_fmap_2 fst) in Hin.
Qed.

(** Pipelined HINCRBYs that bring every count to the load of its backend. *)
Lemma settle_counts order (l : list (string * Z)) d :
  NoDup l.*1 → counts_int d →
  (∀ k t, hash d k_assignments !! k = Some t → ∃ a, encodes t a) →
  (∀ b, lua_count d b + zsum (λ p, if decide (p.1 = b) then p.2 else 0) l = load (table d) b) →
  total (table d) < two63 →
  ∃ rs d', cmds_exec order ((λ p, HIncrBy k_counts p.1 p.2) <$> l) d = (rs, d') ∧
    exec_err rs = None ∧ table_inv d' ∧ table d' = table d ∧ active d' = active d.
Proof.
  intros Hnd Hc Henc Hsum Htot.
  destruct (exec_hincrbys order l d) as (rs & Hex & Hnone); [done|done| |].
  { apply Forall_forall. intros [b n] Hbn. simpl.
    rewrite <- (zsum_pick l b n) by done. rewrite Hsum. by apply load_int. }
  destruct (incrs_spec l d) as (Ha & Hact & Hci & Hcnt).
  eexists rs, _. split; [exact Hex|]. split; [by apply exec_err_none|].
  assert (Ht : table (foldl (λ d p, incr d p.1 p.2) d l) = table d) by (unfold table; by rewrite Ha).
  split; [|done]. split.
  - intros k t. rewrite Ha. apply Henc.
  - by apply Hci.
  - intros b. by rewrite Hcnt, Ht.
Qed.

Lemma set_entries_spec (items : list pending) d :
  let d' := foldl (λ d p, set_entry d (p_key p) (p_val p)) d items in
  hash d' k_counts = hash d k_counts ∧ active d' = active d.
Proof.
  revert d. induction items as [|p items IH]; intros d; simpl; [done|].
  destruct (IH (set_entry d (p_key p) (p_val p))) as [-> ->]. by rewrite counts_set_entry.
Qed.

(** Inserting decodable entries under fresh, distinct keys adds their weights. *)
Lemma set_entries_table (dec : pending → Assignment) items d :
  (∀ k t, hash d k_assignments !! k = Some t → ∃ a, encodes t a) →
  NoDup (p_key <$> items) →
  (∀ p, p ∈ items → hash d k_assignments !! p_key p = None ∧ encodes (p_val p) (dec p)) →
  let d' := foldl (λ d p, set_entry d (p_key p) (p_val p)) d items in
  (∀ k t, hash d' k_assignments !! k = Some t → ∃ a, encodes t a) ∧
  table d' = list_to_map ((λ p, (p_key p, dec p)) <$> items) ∪ table d ∧
  (∀ b, load (table d') b = load (table d) b + zsum (λ p, weight_on b (dec p)) items) ∧
  total (table d') = total (table d) + zsum (λ p, EffectiveWeight (dec p)) items.
Proof.
  revert d. induction items as [|p items IH]; intros d Henc Hnd Hok; simpl.
  { rewrite (left_id_L ∅ (∪)). setoid_rewrite zsum_nil. repeat split; try done; intros; lia. }
  apply NoDup_cons in Hnd as [Hp Hnd]. destruct (Hok p) as [Hnone Hpe]; [left|].
  assert (Htp : table d !! p_key p = None) by (rewrite lookup_table, Hnone; done).
  assert (Hts : table (set_entry d (p_key p) (p_val p)) = <[p_key p := dec p]> (table d)).
  { apply table_set_entry, Hpe. }
  destruct (IH (set_entry d (p_key p) (p_val p))) as (He & Ht & Hl & Htot); [|done| |].
  - intros k t. rewrite assignments_set_entry, lookup_insert.
    case_decide; [intros [= <-]; eauto|apply Henc].
  - intros q Hq. destruct (Hok q) as [Hqn Hqe]; [by right|]. split; [|done].
    rewrite assignments_set_entry, lookup_insert_ne; [done|].
    intros Heq. apply Hp. rewrite Heq. by apply list_elem_of_fmap_2.
  - split; [done|]. split; [|split].
    + rewrite Ht, Hts. rewrite <- insert_union_l. rewrite <- insert_union_r; [done|].
      apply not_elem_of_list_to_map_1. rewrite <- list_fmap_compose. done.
    + intros b. rewrite Hl, Hts, load_insert, zsum_cons by done. lia.
    + rewrite Htot, Hts, zsum_cons. unfold total. rewrite msum_insert by done. lia.
Qed.

(** ** Bulk assignment *)

Definition pending_assignment (now : Z) (p : pending) : Assignment :=
  mkAssignment (p_backend p) now "assignment" (p_weight p).

Lemma pending_of_some now k e :
  year_ok now = true →
  ∃ j, pending_of now (k, e) = Some (mkPending k (e_Backend e) (effective (e_Weight e)) (TJson j)) ∧
    marshalAssignment (entry_assignment now e) = Some j.
Proof.
  intros Hy. unfold pending_of, entry_assignment, marshalAssignment. simpl. rewrite Hy. simpl.
  eexists. done.
Qed.

Lemma pending_keys now (l : list (string * BulkAssignEntry)) :
  year_ok now = true → p_key <$> omap (pending_of now) l = l.*1.
Proof.
  intros Hy. induction l as [|[k e] l IH]; [done|].
  destruct (pending_of_some now k e Hy) as (j & Hp & _).
  cbn [omap list_omap]. rewrite Hp. cbn [fmap list_fmap p_key fst]. by rewrite IH.
Qed.

Lemma elem_of_pending now (l : list (string * BulkAssignEntry)) p :
  year_ok now = true → (∀ k e, (k, e) ∈ l → is_int (e_Weight e)) → p ∈ omap (pending_of now) l →
  ∃ e, (p_key p, e) ∈ l ∧ pending_assignment now p = entry_assignment now e ∧
    encodes (p_val p) (pending_assignment now p).
Proof.
  intros Hy Hint ([k e] & Hin & Hp)%list_elem_of_omap.
  destruct (pending_of_some now k e Hy) as (j & Hp' & Hm). rewrite Hp in Hp'. simplify_eq.
  exists e. split; [done|]. split; [done|]. apply encodes_marshal; [apply effective_pos| |done].
  specialize (Hint k e Hin). simpl. unfold effective. destruct (e_Weight e <=? 0); [|done].
  done.
Qed.

Lemma accepted_zip (P : pending → Prop) `{!∀ p, Decision (P p)} items :
  omap (λ '(p, rep), if is_true rep then Some p else None)
    (zip items ((λ p, (RBool (bool_decide (P p)), None)) <$> items)) = filter P items.
Proof.
  induction items as [|p items IH]; [done|]. rewrite filter_cons.
  cbn [fmap list_fmap zip_with omap list_omap]. rewrite IH.
  destruct (decide (P p)); [by rewrite bool_decide_true|by rewrite bool_decide_false].
Qed.

Section theorems.
Context `{!MapIter} {R : Type} `{!RedisServer R, !RedisLaws R}.
Implicit Types (r : R).

(** [AssignViaTable] on a reachable server: the assignment the table then
    holds for the key, with the counts kept equal to the loads. *)
Lemma AssignViaTable_ok now k r :
  reliable r → table_inv (db r) → active (db r) ≠ ∅ → total (table (db r)) + 1 < two53 →
  ∃ a r', AssignViaTable now k r = ((Some a, None), r') ∧
    reliable r' ∧ table_inv (db r') ∧ active (db r') = active (db r) ∧
    table (db r') = <[k := a]> (table (db r)) ∧
    assigned_least (λ active a, Backend a ∈ active) (table (db r)) (active (db r)) k a.
Proof.
  intros Hr Hi Hact Htot. unfold AssignViaTable.
  destruct (run_script _ r) as [res r'] eqn:Hs.
  apply reliable_script in Hs as [Hs Hr']; [|done].
  destruct (assign_lua_spec order order_perm (db r) k (to_second now) Hi Hact Htot)
    as (t & a & d' & Hlua & Henc & Hi' & Hact' & Ht' & Hin).
  rewrite Hlua in Hs. simplify_eq. pose proof Henc as [Hu _]. rewrite Hu.
  exists a, r'. split; [done|]. split; [done|]. subst. by rewrite Hact'.
Qed.

Lemma AssignViaTable_empty now k r :
  reliable r → table_inv (db r) → active (db r) = ∅ → total (table (db r)) < two53 →
  ∃ r', AssignViaTable now k r = ((None, Some RedisNil), r') ∧
    reliable r' ∧ table_inv (db r') ∧ active (db r') = active (db r) ∧
    table (db r') = delete k (table (db r)).
Proof.
  intros Hr Hi Hact Htot. unfold AssignViaTable.
  destruct (run_script _ r) as [res r'] eqn:Hs.
  apply reliable_script in Hs as [Hs Hr']; [|done].
  destruct (assign_lua_empty order order_perm (db r) k (to_second now) Hi Hact Htot)
    as (d' & Hlua & Hi' & Hact' & Ht').
  rewrite Hlua in Hs. simplify_eq. exists r'. split; [done|]. split; [done|]. subst. done.
Qed.

(** The items HSETNX accepted. *)
Definition accepted (now : Z) (d : rdb) (entries : gmap string BulkAssignEntry) : list pending :=
  filter (λ p, hash d k_assignments !! p_key p = None) (omap (pending_of now) (range 33 entries)).

Section bulk.
Context (now : Z) (d : rdb) (entries : gmap string BulkAssignEntry).
Context (Hy : year_ok now = true) (Hi : table_inv d).
Context (Hint : ∀ k e, entries !! k = Some e → is_int (e_Weight e)).

Lemma pending_nodup : NoDup (p_key <$> omap (pending_of now) (range 33 entries)).
Proof. rewrite pending_keys by done. apply NoDup_range_keys. Qed.

Lemma accepted_nodup : NoDup (p_key <$> accepted now d entries).
Proof. apply NoDup_fmap_filter, pending_nodup. Qed.

Lemma elem_of_accepted p :
  p ∈ accepted now d entries →
  hash d k_assignments !! p_key p = None ∧
  ∃ e, entries !! p_key p = Some e ∧ pending_assignment now p = entry_assignment now e ∧
    encodes (p_val p) (pending_assignment now p).
Proof.
  intros [Hn Hin]%list_elem_of_filter. split; [done|].
  destruct (elem_of_pending now (range 33 entries) p Hy) as (e & He & Hrest); [|done|].
  - intros k e Hk%elem_of_range. by apply (Hint k).
  - exists e. by apply elem_of_range in He.
Qed.

(** As a map, the accepted items are the fresh entries. *)
Lemma accepted_map {B} (f : Assignment → B) :
  list_to_map ((λ p, (p_key p, f (pending_assignment now p))) <$> accepted now d entries)
  = (λ e, f (entry_assignment now e)) <$> fresh_entries (table d) entries :> gmap string B.
Proof.
  apply map_eq. intros k. rewrite lookup_fmap, lookup_fresh_entries.
  destruct (list_to_map _ !! k) as [x|] eqn:Hk.
  - apply elem_of_list_to_map_2, list_elem_of_fmap in Hk as (p & Hp & Hin). simplify_eq.
    destruct (elem_of_accepted p Hin) as (Hn & e & He & Heq & _).
    apply table_lookup_none in Hn; [|done]. by rewrite decide_True, He, Heq.
  - apply not_elem_of_list_to_map_2 in Hk. case_decide as Hn; [|done].
    destruct (entries !! k) as [e|] eqn:He; [|done]. destruct Hk.
    rewrite <- list_fmap_compose. unfold compose. simpl.
    destruct (pending_of_some now k e Hy) as (j & Hp & _).
    apply (list_elem_of_fmap_2' p_key _
      (mkPending k (e_Backend e) (effective (e_Weight e)) (TJson j))); [|done].
    apply list_elem_of_filter. split; [by apply table_lookup_none|].
    apply list_elem_of_omap. exists (k, e). split; [by apply elem_of_range|done].
Qed.

Lemma accepted_weight :
  zsum (λ p, EffectiveWeight (pending_assignment now p)) (accepted now d entries)
  ≤ msum (λ _ e, effective (e_Weight e)) entries.
Proof.
  rewrite (msum_range _ 33). etransitivity.
  { apply zsum_filter_le. intros p _. pose proof (EffectiveWeight_pos (pending_assignment now p)). lia. }
  apply Z.eq_le_incl. induction (range 33 entries) as [|[k e] l IH]; [done|].
  destruct (pending_of_some now k e Hy) as (j & Hp & _).
  cbn [omap list_omap]. rewrite Hp, !zsum_cons, IH. unfold EffectiveWeight. simpl.
  by rewrite effective_idem.
Qed.

Lemma counts_of_accepted :
  let counts := madd_all p_backend p_weight ∅ (accepted now d entries) in
  ∀ b, mget counts b = zsum (λ p, weight_on b (pending_assignment now p)) (accepted now d entries).
Proof.
  intros counts b. unfold counts. rewrite mget_madd_all, mget_empty. apply zsum_ext.
  intros p Hp. destruct (elem_of_accepted p Hp) as (_ & e & _ & Heq & _).
  assert (Hw : p_weight p = effective (e_Weight e)) by (by injection Heq).
  unfold weight_on, EffectiveWeight. simpl. case_decide; [|done].
  by rewrite Hw, effective_idem.
Qed.

(** The database after the accepted HSETNXs: only the counts are behind. *)
Lemma bulk_inserted :
  let acc := accepted now d entries in
  let d1 := foldl (λ d p, set_entry d (p_key p) (p_val p)) d acc in
  let counts := madd_all p_backend p_weight ∅ acc in
  (∀ k t, hash d1 k_assignments !! k = Some t → ∃ a, encodes t a) ∧
  table d1 = (entry_assignment now <$> fresh_entries (table d) entries) ∪ table d ∧
  (∀ b, lua_count d1 b + mget counts b = load (table d1) b) ∧
  counts_int d1 ∧ active d1 = active d ∧
  total (table d1) ≤ total (table d) + msum (λ _ e, effective (e_Weight e)) entries ∧
  foldl (λ m p, <[p_key p := p_backend p]> m) ∅ acc
    = e_Backend <$> fresh_entries (table d) entries.
Proof.
  intros acc d1 counts.
  destruct (set_entries_table (pending_assignment now) acc d) as (Henc & Ht & Hl & Htt).
  { apply Hi. }
  { apply accepted_nodup. }
  { intros p (Hn & e & _ & _ & Hp)%elem_of_accepted; done. }
  destruct (set_entries_spec acc d) as [Hc1 Hact1]. fold d1 in Henc, Ht, Hl, Htt, Hc1, Hact1.
  split; [done|]. split.
  { rewrite Ht. f_equal. apply (accepted_map id). }
  split.
  { intros b. rewrite Hl. unfold counts, acc. rewrite (counts_of_accepted b).
    unfold lua_count. rewrite Hc1. by rewrite <- (ti_counts _ Hi). }
  split; [intros b t; rewrite Hc1; apply Hi|]. split; [done|]. split.
  { rewrite Htt. pose proof accepted_weight as Hw. fold acc in Hw. lia. }
  apply map_eq. intros k. rewrite lookup_foldl_insert by apply accepted_nodup.
  change (λ x, (p_key x, p_backend x)) with (λ p, (p_key p, Backend (pending_assignment now p))).
  unfold acc. rewrite (accepted_map Backend). by destruct (_ !! k).
Qed.
End bulk.

(** [BulkAssign] on a reachable server: it assigns exactly the keys that
    had no assignment, never overwriting one, reports exactly those keys with
    their backends, and keeps the counts equal to the loads. *)
Lemma BulkAssign_ok now entries r :
  reliable r → table_inv (db r) → year_ok now = true →
  (∀ k e, entries !! k = Some e → is_int (e_Weight e)) →
  total (table (db r)) + msum (λ _ e, effective (e_Weight e)) entries < two63 →
  let fresh := fresh_entries (table (db r)) entries in
  ∃ r', BulkAssign now entries r = ((e_Backend <$> fresh, None), r') ∧
    reliable r' ∧ table_inv (db r') ∧ active (db r') = active (db r) ∧
    table (db r') = (entry_assignment now <$> fresh) ∪ table (db r).
Proof.
  intros Hr Hi Hy Hint Htot fresh. unfold BulkAssign. case_bool_decide as He.
  { subst entries. exists r. unfold fresh, fresh_entries.
    rewrite map_filter_empty, !fmap_empty, (left_id_L ∅ (∪)). done. }
  destruct (pipeline _ r) as [rs r1] eqn:Hp.
  apply reliable_pipeline in Hp as [Hp Hr1]; [|done].
  rewrite exec_hsetnx in Hp by by apply pending_nodup. injection Hp as <- Hdb1.
  fold (accepted now (db r) entries) in Hdb1.
  assert (exec_err ((λ p, (RBool (bool_decide (hash (db r) k_assignments !! p_key p = None)), None))
    <$> omap (pending_of now) (range 33 entries)) = None) as ->.
  { apply exec_err_none, Forall_fmap, Forall_true. done. }
  unfold assigned_of, counts_of. rewrite accepted_zip. fold (accepted now (db r) entries).
  destruct (bulk_inserted now (db r) entries Hy Hi Hint)
    as (Henc & Ht & Hc & Hci & Hact & Htot1 & Hassigned).
  rewrite Hdb1 in *. rewrite Hassigned. fold fresh in Ht |- *.
  set (counts := madd_all p_backend p_weight ∅ (accepted now (db r) entries)) in *.
  case_bool_decide as Hce.
  { exists r1. do 2 (split; [done|]). split; [|done]. split; [done|done|].
    intros b. by rewrite <- Hc, Hce, mget_empty, Z.add_0_r. }
  destruct (pipeline _ r1) as [rs' r2] eqn:Hp2.
  apply reliable_pipeline in Hp2 as [Hp2 Hr2]; [|done].
  destruct (settle_counts order (range 34 counts) (db r1)) as (rs2 & d2 & Hex & Hnone & Hi2 & Ht2 & Hact2);
    [apply NoDup_range_keys|done|done| |lia|].
  { intros b. rewrite <- Hc, <- msum_pick, (msum_range _ 34). done. }
  rewrite Hex in Hp2. injection Hp2 as <- ->. rewrite Hnone.
  exists r2. do 2 (split; [done|]). split; [done|]. split; congruence.
Qed.
End theorems.

End RedisTable.
