(* ===== verification/RedisOps.v ===== *)
(** * Correctness of the remaining table operations in Redis

    Reading the table, deleting from it and rebuilding the counts, and what
    the operations do when the server cannot be reached or a key is given
    twice.  The witnesses run on the in-memory server. *)
From stdpp Require Import base gmap strings list fin_maps.
From Stdlib Require Import ZArith Lia.
From S2P Require Import Prelude Go Assignment Store RedisClient Redis RedisTable.
Import RC Redis RedisTable.
Local Open Scope Z_scope.

Module RedisOps.

(** ** Lists of replies *)

(** Collecting the values that decode is an [omap] of the hash. *)
Lemma lookup_foldl_decode {A B} (f : A → option B) (l : list (string * A))
    (m : gmap string B) k :
  NoDup l.*1 →
  foldl (λ m '(k, v), match f v with Some a => <[k := a]> m | None => m end) m l !! k =
    match (list_to_map l : gmap string A) !! k ≫= f with Some a => Some a | None => m !! k end.
Proof.
  revert m. induction l as [|[k' v] l IH]; intros m Hnd; [done|].
  apply NoDup_cons in Hnd as [Hk' Hnd]. cbn [foldl list_to_map foldr]. rewrite IH by done.
  rewrite lookup_insert. simpl. case_decide as Hk.
  - subst k'. rewrite not_elem_of_list_to_map_1 by done. simpl.
    destruct (f v); [apply lookup_insert_eq|done].
  - destruct (f v); [by rewrite lookup_insert_ne|done].
Qed.

Lemma decode_range `{!MapIter} {A B} (f : A → option B) site (h : gmap string A) :
  foldl (λ m '(k, v), match f v with Some a => <[k := a]> m | None => m end) ∅ (range site h)
  = omap f h :> gmap string B.
Proof.
  apply map_eq. intros k. rewrite lookup_foldl_decode by apply NoDup_range_keys.
  rewrite list_to_map_range, lookup_omap, lookup_empty. by destruct (_ ≫= f).
Qed.

Lemma exec_hgets order keys d :
  cmds_exec order (HGet k_assignments <$> keys) d =
    ((λ k, match hash d k_assignments !! k with
           | Some v => (RText v, None)
           | None => (RNil, Some RedisNil)
           end) <$> keys, d).
Proof.
  induction keys as [|k keys IH]; [done|]. cbn [fmap list_fmap cmds_exec cmd_exec].
  destruct (hash d k_assignments !! k); by rewrite IH.
Qed.

(** The keys found by a bulk lookup are those of the table. *)
Lemma found_of_hgets keys d :
  found_of keys ((λ k, match hash d k_assignments !! k with
                       | Some v => (RText v, None)
                       | None => (RNil, Some RedisNil)
                       end) <$> keys)
  = omap (λ k, a ← table d !! k; Some (k, a)) keys.
Proof.
  unfold found_of. induction keys as [|k keys IH]; [done|].
  cbn [fmap list_fmap zip_with omap list_omap]. rewrite IH, lookup_table.
  destruct (hash d k_assignments !! k); done.
Qed.

(** ** Removing keys from a table *)

(** What the keys found leave of the table. *)
Lemma table_del_found d keys :
  table (del_entries d (omap (λ k, a ← table d !! k; Some (k, a)) keys).*1)
  = without (table d) keys.
Proof.
  apply map_eq. intros k. rewrite lookup_table_del, lookup_without.
  assert (Hin : k ∈ (omap (λ k, a ← table d !! k; Some (k, a)) keys).*1
                ↔ k ∈ keys ∧ is_Some (table d !! k)).
  { rewrite list_elem_of_fmap. split.
    - intros ([k' a] & -> & (k1 & Hk1 & Heq)%list_elem_of_omap).
      destruct (table d !! k1) eqn:Ht; simplify_eq/=. eauto.
    - intros [Hk [a Ha]]. exists (k, a). split; [done|]. apply list_elem_of_omap.
      exists k. split; [done|]. by rewrite Ha. }
  destruct (decide (k ∈ keys)) as [Hk|Hk].
  - case_decide as Hd; [done|]. apply eq_None_not_Some. intros Hs. apply Hd, Hin. auto.
  - rewrite decide_False; [done|]. rewrite Hin. tauto.
Qed.

(** ** Rebuilding the counts *)

Lemma exec_hset_counts order (l : list (string * Z)) d :
  NoDup l.*1 → counts_int d →
  ∃ rs d', cmds_exec order ((λ p, HSet k_counts p.1 (TInt p.2)) <$> l) d = (rs, d') ∧
    exec_err rs = None ∧ hash d' k_assignments = hash d k_assignments ∧ active d' = active d ∧
    counts_int d' ∧
    ∀ b, lua_count d' b = default (lua_count d b) ((list_to_map l : gmap string Z) !! b).
Proof.
  revert d. induction l as [|[b n] l IH]; intros d Hnd Hc; [by eexists _, d|].
  apply NoDup_cons in Hnd as [Hb Hnd]. cbn [fmap list_fmap cmds_exec cmd_exec fst snd].
  set (d1 := put_hash d k_counts _).
  assert (Hd1 : hash d1 k_counts = <[b := TInt n]> (hash d k_counts)).
  { unfold d1. by rewrite hash_put_hash, decide_True. }
  destruct (IH d1 Hnd) as (rs & d' & -> & Herr & Ha & Hact & Hc' & Hcnt).
  { intros b' t. rewrite Hd1, lookup_insert. case_decide; [intros [= <-]; eauto|apply Hc]. }
  eexists _, d'. split; [done|]. split; [done|]. split; [|split; [done|split; [done|]]].
  - rewrite Ha. unfold d1. by rewrite hash_put_hash, decide_False.
  - intros b'. rewrite Hcnt. cbn [list_to_map foldr]. rewrite lookup_insert. unfold lua_count at 1.
    rewrite Hd1, lookup_insert. simpl. case_decide as Hbb; [|done]. subst b'.
    by rewrite not_elem_of_list_to_map_1.
Qed.

Section theorems.
Context `{!MapIter} {R : Type} `{!RedisServer R, !RedisLaws R}.
Implicit Types (r : R).

(** ** Reading *)

Lemma GetAssignment_ok k r :
  reliable r → table_inv (db r) →
  ∃ r', GetAssignment k r =
      (match table (db r) !! k with
       | Some a => (Some a, None)
       | None => (None, Some RedisNil)
       end, r') ∧ reliable r' ∧ db r' = db r.
Proof.
  intros Hr Hi. unfold GetAssignment. destruct (do_cmd _ r) as [res r'] eqn:Hc.
  apply reliable_do in Hc as [Hc Hr']; [|done]. simpl in Hc. rewrite lookup_table.
  destruct (hash (db r) k_assignments !! k) as [t|] eqn:Ht; injection Hc as <- Hdb.
  - destruct (ti_enc _ Hi k t Ht) as (a & Hu & _). simpl. rewrite Hu. by exists r'.
  - by exists r'.
Qed.

Lemma GetAllAssignments_ok r :
  reliable r →
  ∃ r', GetAllAssignments r = ((table (db r), None), r') ∧ reliable r' ∧ db r' = db r.
Proof.
  intros Hr. unfold GetAllAssignments. destruct (do_cmd _ r) as [res r'] eqn:Hc.
  apply reliable_do in Hc as [Hc Hr']; [|done]. simpl in Hc. injection Hc as <- Hdb.
  exists r'. split; [|done]. do 2 f_equal. unfold table. apply decode_range.
Qed.

Lemma elem_of_scan_pages b pages users k :
  Forall (λ p : result _, p.2 = None) pages →
  (scan_pages b pages users).2 = None ∧
  (k ∈ (scan_pages b pages users).1 ↔
     k ∈ users ∨ ∃ v a, (k, v) ∈ concat pages.*1 ∧ unmarshal_text v = Some a ∧ Backend a = b).
Proof.
  intros Hall. revert users. induction Hall as [|[kvs e] pages He Hall IH]; intros users; simpl.
  { split; [done|]. set_solver. }
  simpl in He. subst e. destruct (IH (users ++ omap (λ '(k, v), a ← unmarshal_text v;
    if bool_decide (Backend a = b) then Some k else None) kvs)) as [He Hin].
  split; [done|]. rewrite Hin, elem_of_app. setoid_rewrite elem_of_app.
  assert (Hkv : k ∈ omap (λ '(k, v), a ← unmarshal_text v;
      if bool_decide (Backend a = b) then Some k else None) kvs
    ↔ ∃ v a, (k, v) ∈ kvs ∧ unmarshal_text v = Some a ∧ Backend a = b).
  { rewrite list_elem_of_omap. split.
    - intros ([k' v] & Hk' & Hv). destruct (unmarshal_text v) as [a|] eqn:Hu; simplify_eq/=.
      case_bool_decide; simplify_eq. by exists v, a.
    - intros (v & a & Hk & Hu & Ha). exists (k, v). split; [done|]. rewrite Hu. simpl.
      by rewrite bool_decide_true. }
  rewrite Hkv. naive_solver.
Qed.

Lemma GetBackendUsers_ok b r :
  reliable r →
  ∃ users, GetBackendUsersFromTable b r = (users, None) ∧
    ∀ k, k ∈ users ↔ ∃ a, table (db r) !! k = Some a ∧ Backend a = b.
Proof.
  intros Hr. unfold GetBackendUsersFromTable.
  pose proof (reliable_hscan k_assignments r Hr) as Hall.
  destruct (scan_pages b (hscan k_assignments r) []) as [users e] eqn:Hs.
  exists users. destruct (elem_of_scan_pages b _ [] "" Hall) as [He _].
  rewrite Hs in He. simpl in He. subst e. split; [done|]. intros k.
  destruct (elem_of_scan_pages b _ [] k Hall) as [_ Hin]. rewrite Hs in Hin. simpl in Hin.
  rewrite Hin. setoid_rewrite (hscan_ok k_assignments r Hall). rewrite lookup_table.
  split.
  - intros [?%not_elem_of_nil|(v & a & Hv & Hu & Ha)]; [done|]. rewrite Hv. eauto.
  - intros (a & Hu & Ha). right. destruct (hash (db r) k_assignments !! k); naive_solver.
Qed.

(** ** Deleting *)

Lemma del_found_settled d keys :
  table_inv d → NoDup keys → total (table d) < two63 →
  let found := omap (λ k, a ← table d !! k; Some (k, a)) keys in
  ∃ rs d', cmds_exec order (HDel k_assignments found.*1 ::
      ((λ p, HIncrBy k_counts p.1 (- p.2)) <$> range 35 (sum_counts found))) d = (rs, d') ∧
    exec_err rs = None ∧ table_inv d' ∧ table d' = without (table d) keys ∧ active d' = active d.
Proof.
  intros Hi Hnd Htot found. set (d1 := del_entries d found.*1).
  assert (Ht1 : table d1 = without (table d) keys) by apply table_del_found.
  set (l := (λ p, (p.1, - p.2)) <$> range 35 (sum_counts found)).
  destruct (settle_counts order l d1) as (rs & d' & Hex & Hnone & Hi' & Ht' & Hact').
  - unfold l. rewrite <- list_fmap_compose. apply NoDup_range_keys.
  - intros b t. unfold d1. rewrite counts_del_entries. apply Hi.
  - intros k t. unfold d1, del_entries. rewrite hash_put_hash, decide_True by done.
    rewrite foldl_delete_lookup. case_decide; [done|apply Hi].
  - intros b. rewrite Ht1. unfold d1. rewrite lua_count_del_entries, (ti_counts _ Hi).
    rewrite <- (load_without (table d) keys b Hnd). unfold l. rewrite zsum_fmap. simpl.
    assert (Hneg : zsum (λ x : string * Z, if decide (x.1 = b) then - x.2 else 0)
        (range 35 (sum_counts found)) = - mget (sum_counts found) b).
    { rewrite <- msum_pick, (msum_range _ 35).
      induction (range 35 (sum_counts found)) as [|x xs IH]; [done|].
      rewrite !zsum_cons, IH. case_decide; lia. }
    rewrite Hneg. unfold sum_counts. rewrite mget_madd_all, mget_empty.
    unfold weight_on. fold found. lia.
  - rewrite Ht1. pose proof (total_without (table d) keys). lia.
  - eexists _, d'. cbn [cmds_exec]. change (cmd_exec order (HDel k_assignments found.*1) d)
      with ((ROk, @None error), d1). cbv beta iota.
    unfold l in Hex. rewrite <- list_fmap_compose in Hex. unfold compose in Hex. simpl in Hex.
    rewrite Hex. split; [done|]. split; [done|]. split; [done|]. split; [congruence|done].
Qed.

(** [BulkDeleteAssignments] on a reachable server, for distinct keys: it
    succeeds, removes exactly the given keys from the table (keys without an
    assignment are skipped) and keeps the counts equal to the loads. *)
Lemma BulkDeleteAssignments_ok keys r :
  reliable r → table_inv (db r) → NoDup keys → total (table (db r)) < two63 →
  ∃ r', BulkDeleteAssignments keys r = (None, r') ∧ reliable r' ∧ table_inv (db r') ∧
    table (db r') = without (table (db r)) keys ∧ active (db r') = active (db r).
Proof.
  intros Hr Hi Hnd Htot. unfold BulkDeleteAssignments.
  destruct keys as [|k ks]; [exists r; by rewrite without_nil|].
  destruct (pipeline _ r) as [rs r1] eqn:Hp. apply reliable_pipeline in Hp as [Hp Hr1]; [|done].
  rewrite exec_hgets in Hp. apply pair_equal_spec in Hp as [<- Hdb1]. rewrite found_of_hgets.
  destruct (del_found_settled (db r) (k :: ks) Hi Hnd Htot)
    as (rs' & d' & Hex & Hnone & Hi' & Ht' & Hact').
  set (found := omap _ (k :: ks)) in *. pose proof (table_del_found (db r) (k :: ks)) as Hdel.
  fold found in Hdel. destruct found as [|f fs].
  { exists r1. rewrite <- Hdb1. rewrite <- Hdel. split; [done|]. split; [done|]. split; [done|].
    split; [|done]. apply map_eq. intros k'. by rewrite lookup_table_del, decide_False by set_solver. }
  destruct (pipeline _ r1) as [rs2 r2] eqn:Hp2. apply reliable_pipeline in Hp2 as [Hp2 Hr2]; [|done].
  rewrite <- Hdb1, Hex in Hp2. apply pair_equal_spec in Hp2 as [<- ->]. exists r2. rewrite Hnone. done.
Qed.

Lemma DeleteAssignment_ok k r :
  reliable r → table_inv (db r) → total (table (db r)) < two63 →
  ∃ r', DeleteAssignment k r =
      (match table (db r) !! k with Some _ => None | None => Some RedisNil end, r') ∧
    reliable r' ∧ table_inv (db r') ∧ active (db r') = active (db r) ∧
    table (db r') = delete k (table (db r)).
Proof.
  intros Hr Hi Htot. unfold DeleteAssignment.
  destruct (GetAssignment_ok k r Hr Hi) as (r1 & -> & Hr1 & Hdb1).
  destruct (table (db r) !! k) as [a|] eqn:Ha.
  2: { exists r1. rewrite Hdb1. split; [done|]. split; [done|]. split; [done|]. split; [done|].
       by rewrite delete_id. }
  destruct (pipeline _ r1) as [rs r2] eqn:Hp. apply reliable_pipeline in Hp as [Hp Hr2]; [|done].
  rewrite Hdb1 in Hp. cbn [cmds_exec] in Hp.
  change (cmd_exec order (HDel k_assignments [k]) (db r))
    with ((ROk, @None error), del_entries (db r) [k]) in Hp. cbv beta iota in Hp.
  destruct (inv_remove (db r) k a Hi Ha) as [Hi' Ht'].
  rewrite exec_hincrby in Hp.
  - injection Hp as <- Hdb2. exists r2. rewrite <- Hdb2. done.
  - intros b t. rewrite counts_del_entries. apply Hi.
  - rewrite lua_count_del_entries, (ti_counts _ Hi).
    pose proof (load_delete (table (db r)) k a (Backend a) Ha) as Hl.
    unfold weight_on in Hl. rewrite decide_True in Hl by done.
    pose proof (load_nonneg (delete k (table (db r))) (Backend a)).
    pose proof (load_le_total (table (db r)) (Backend a)). pose proof (EffectiveWeight_pos a).
    unfold is_int, two63 in *. lia.
Qed.

(** ** Rebuilding the counts *)

(** [ReconcileAssignmentCounts] on a reachable server repairs the counts
    from any drift: whatever [assignment:counts] held, afterwards every count
    is the load of its backend, and the table and the active set are the
    same. *)
Theorem ReconcileAssignmentCounts_spec r :
  reliable r → (∀ k t, hash (db r) k_assignments !! k = Some t → ∃ a, encodes t a) →
  ∃ r', ReconcileAssignmentCounts r = (None, r') ∧ reliable r' ∧ table_inv (db r') ∧
    table (db r') = table (db r) ∧ active (db r') = active (db r).
Proof.
  intros Hr Henc. unfold ReconcileAssignmentCounts.
  destruct (GetAllAssignments_ok r Hr) as (r1 & -> & Hr1 & Hdb1).
  destruct (pipeline _ r1) as [rs r2] eqn:Hp. apply reliable_pipeline in Hp as [Hp Hr2]; [|done].
  rewrite Hdb1 in Hp. cbn [cmds_exec cmd_exec] in Hp.
  set (d1 := mkRdb (delete k_counts (hashes (db r))) (delete k_counts (sets (db r)))
    (delete k_counts (strs (db r)))) in Hp.
  assert (Ha1 : hash d1 k_assignments = hash (db r) k_assignments)
    by (unfold hash, d1; simpl; by rewrite lookup_delete_ne).
  assert (Hc1 : hash d1 k_counts = ∅) by (unfold hash, d1; simpl; by rewrite lookup_delete_eq).
  set (counts := sum_counts (range 31 (table (db r)))) in Hp.
  destruct (exec_hset_counts order (range 32 counts) d1) as (rs' & d2 & Hex & Hn & Ha & Hact & Hci & Hcnt).
  { apply NoDup_range_keys. }
  { intros b t. by rewrite Hc1. }
  rewrite Hex in Hp. injection Hp as <- Hdb2. exists r2. rewrite <- Hdb2.
  assert (Ht2 : table d2 = table (db r)) by (unfold table; by rewrite Ha, Ha1).
  split; [f_equal; exact Hn|]. split; [done|]. split; [|split; [done|]].
  2: { rewrite Hact. unfold active, members, d1. simpl. by rewrite lookup_delete_ne. }
  split; [by rewrite Ha, Ha1|done|]. intros b. rewrite Hcnt, Ht2, list_to_map_range.
  unfold lua_count. rewrite Hc1. change (mget counts b = load (table (db r)) b).
  unfold counts, sum_counts. rewrite mget_madd_all, mget_empty.
  unfold load. rewrite (msum_range _ 31). done.
Qed.

(** ** Backends *)

Lemma inv_put_set d key s : table_inv d → table_inv (put_set d key s).
Proof. intros Hi. split; apply Hi. Qed.
End theorems.

End RedisOps.
