(* ===== verification/StoreRedis.v ===== *)
(** * store_redis.go: RedisStore implements the store contract

    [RedisStore] adapts the Redis client to the [Store] interface.  Its
    contract is discharged from the correctness of the table operations, and
    stated as the properties of the adapter. *)
From stdpp Require Import base gmap strings list fin_maps.
From Stdlib Require Import ZArith Lia.
From S2P Require Import Prelude Go Assignment Store RedisClient Redis RedisTable RedisOps.
Import RC RedisTable RedisOps.
Local Open Scope Z_scope.

Module StoreRedis.

Record RedisStore (R : Type) := NewRedisStore { redis : R }.
Arguments NewRedisStore {R}.
Arguments redis {R}.

Section store.
Context `{!MapIter} {R : Type} `{!RedisServer R}.

(** Run an operation of the client on the store. *)
Definition via {A} (f : R → A * R) (s : RedisStore R) : A * RedisStore R :=
  let '(a, r) := f (redis s) in (a, NewRedisStore r).

#[export] Instance redis_store : Store (RedisStore R) := {|
  AssignLeastLoaded now k := via (Redis.AssignViaTable now k);
  GetAssignment k := via (Redis.GetAssignment k);
  GetAllAssignments := via Redis.GetAllAssignments;
  GetBackendUsers b := via (λ r, (Redis.GetBackendUsersFromTable b r, r));
  BulkAssign now entries := via (Redis.BulkAssign now entries);
  BulkDeleteAssignments keys := via (Redis.BulkDeleteAssignments keys);
  ActiveBackends := via Redis.ActiveBackends;
  AddBackend b := via (Redis.AddBackend b);
  RemoveBackend b := via (Redis.RemoveBackend b);
  Ping := via Redis.Ping
|}.

Context `{!RedisLaws R}.
Implicit Types (s : RedisStore R).

Definition redis_live s : Prop := reliable (redis s) ∧ Redis.table_inv (db (redis s)).
Definition redis_act s : gset string := Redis.active (db (redis s)).
Definition redis_tbl s : gmap string Assignment := Redis.table (db (redis s)).

(** One command that leaves the table alone. *)
Lemma do_cmd_live c s :
  redis_live s → (∀ rep d', cmd_exec order c (db (redis s)) = (rep, d') → Redis.table_inv d') →
  ∃ res r', do_cmd c (redis s) = (res, r') ∧ redis_live (NewRedisStore r') ∧
    cmd_exec order c (db (redis s)) = (res, db r').
Proof.
  intros [Hr Hi] Hinv. destruct (do_cmd c (redis s)) as [res r'] eqn:Hc.
  apply reliable_do in Hc as [Hc Hr']; [|done]. eexists _, _. split; [done|]. split; [|done].
  split; [done|]. by eapply Hinv.
Qed.

#[export, refine] Instance redis_backends_spec : BackendsSpec (RedisStore R) := {|
  live := redis_live; act := redis_act; tbl := redis_tbl |}.
Proof.
  all: cbn; unfold via, Redis.ActiveBackends, Redis.AddBackend, Redis.RemoveBackend, Redis.Ping,
    redis_act, redis_tbl, Redis.active.
  - intros s Hl. destruct (do_cmd_live (SMembers Redis.k_active) s Hl) as (res & r' & -> & Hl' & Hex).
    { intros rep d' [= _ <-]. apply Hl. }
    injection Hex as <- Hdb. eexists _, (NewRedisStore r'). simpl. rewrite <- Hdb.
    split; [done|]. split; [apply order_perm|done].
  - intros b s Hl. destruct (do_cmd_live (SAdd Redis.k_active b) s Hl) as (res & r' & -> & Hl' & Hex).
    { intros rep d' [= _ <-]. apply inv_put_set, Hl. }
    injection Hex as <- Hdb. exists (NewRedisStore r'). simpl. rewrite <- Hdb, members_put_set.
    by rewrite decide_True.
  - intros b s Hl. destruct (do_cmd_live (SRem Redis.k_active b) s Hl) as (res & r' & -> & Hl' & Hex).
    { intros rep d' [= _ <-]. apply inv_put_set, Hl. }
    injection Hex as <- Hdb. exists (NewRedisStore r'). simpl. rewrite <- Hdb, members_put_set.
    by rewrite decide_True.
  - intros s Hl. destruct (do_cmd_live PingS s Hl) as (res & r' & -> & Hl' & Hex).
    { intros rep d' [= _ <-]. apply Hl. }
    injection Hex as <- Hdb. exists (NewRedisStore r'). simpl. by rewrite <- Hdb.
Defined.

(** The table holds any [int] and any instant JSON can represent; scripts and
    pipelines have no limit of their own. *)
#[export, refine] Instance redis_limits : TableLimits (RedisStore R) := {|
  instant_ok now := year_ok now = true; stamp now := now;
  weight_ok := is_int; target_ok _ _ := True; batch_ok _ := True |}.
Proof. all: done. Defined.

#[export] Instance redis_table_spec : TableSpec (RedisStore R).
Proof.
  split; cbn; unfold via, redis_act, redis_tbl.
  - intros s k a _. rewrite Redis.lookup_table. destruct (_ !! k) as [t|]; [|done]. simpl.
    destruct t; simpl; try done. apply unmarshal_int.
  - intros k s [Hr Hi]. destruct (GetAssignment_ok k (redis s) Hr Hi) as (r' & -> & Hr' & Hdb).
    eexists _, (NewRedisStore r'). unfold redis_live. simpl. rewrite Hdb.
    split; [done|]. split; [done|]. split; [done|]. split; [done|].
    destruct (Redis.table _ !! k); eauto.
  - intros s [Hr Hi]. destruct (GetAllAssignments_ok (redis s) Hr) as (r' & -> & Hr' & Hdb).
    exists (NewRedisStore r'). unfold redis_live. simpl. by rewrite Hdb.
  - intros b s [Hr Hi]. destruct (GetBackendUsers_ok b (redis s) Hr) as (users & -> & Hu).
    by exists users, (NewRedisStore (redis s)).
  - intros now entries s [Hr Hi] Hy Hint _ _ Htot.
    destruct (BulkAssign_ok now entries (redis s)) as (r' & -> & Hr' & Hi' & Ha & Ht); try done.
    { unfold entries_weight, two53, two63 in *. lia. }
    by exists (NewRedisStore r').
  - intros keys s [Hr Hi] Hnd _ Htot.
    destruct (BulkDeleteAssignments_ok keys (redis s)) as (r' & -> & Hr' & Hi' & Ht & Ha); try done.
    { unfold two53, two63 in *. lia. }
    by exists (NewRedisStore r').
Qed.

(** The script drops an assignment to a backend that is not active. *)
#[export, refine] Instance redis_assign_spec : AssignSpec (RedisStore R) := {|
  stands active a := Backend a ∈ active |}.
Proof.
  - intros now k s [Hr Hi] Hact Htot. cbn in *. unfold via, redis_act, redis_tbl in *.
    destruct (AssignViaTable_ok now k (redis s)) as (a & r' & -> & Hr' & Hi' & Ha & Ht & Hrest); try done.
    by exists a, (NewRedisStore r').
  - intros now k s [Hr Hi] Hact Htot. cbn in *. unfold via, redis_act, redis_tbl in *.
    destruct (AssignViaTable_empty now k (redis s)) as (r' & -> & Hr' & Hi' & Ha & Ht); try done; [lia|].
    exists RedisNil, (NewRedisStore r'). by repeat (split; [done|]); right.
Defined.

(** ** What RedisStore promises *)

(** C9. [AssignLeastLoaded] of a reachable RedisStore, on every branch: it
    keeps every backend count equal to the load of the table and leaves the
    active set and the other keys alone.  With no active backend it reports
    redis.Nil and drops the key's stale assignment.  Otherwise it returns the
    assignment the table then holds: the existing one when its backend is
    active, else a new one of weight 1 on an active backend that carries the
    least weight among the other keys. *)
Theorem redis_assign_contract now k s :
  live s → total (tbl s) + 1 < two53 →
  ∃ res s', AssignLeastLoaded now k s = (res, s') ∧ live s' ∧ act s' = act s ∧
    if decide (act s = ∅) then res = (None, Some RedisNil) ∧ tbl s' = delete k (tbl s)
    else ∃ a, res = (Some a, None) ∧ tbl s' = <[k := a]> (tbl s) ∧
      assigned_least (λ active a, Backend a ∈ active) (tbl s) (act s) k a.
Proof.
  intros [Hr Hi] Htot. cbn in *. unfold via, redis_act, redis_tbl in *. case_decide as Hact.
  - destruct (AssignViaTable_empty now k (redis s)) as (r' & -> & Hr' & Hi' & Ha & Ht); try done; [lia|].
    by exists (None, Some RedisNil), (NewRedisStore r').
  - destruct (AssignViaTable_ok now k (redis s)) as (a & r' & -> & Hr' & Hi' & Ha & Ht & Hl); try done.
    exists (Some a, None), (NewRedisStore r'). split; [done|]. split; [done|]. split; [done|]. eauto.
Qed.

Lemma redis_bulk_assign now entries s :
  live s → year_ok now = true → (∀ k e, entries !! k = Some e → is_int (e_Weight e)) →
  total (tbl s) + entries_weight entries < two53 →
  ∃ s', BulkAssign now entries s = ((e_Backend <$> fresh_entries (tbl s) entries, None), s') ∧
    live s' ∧ act s' = act s ∧
    (∀ k, tbl s' !! k = match tbl s !! k with
                        | Some a => Some a
                        | None => entry_assignment now <$> entries !! k
                        end).
Proof.
  intros Hl Hy Hint Htot.
  destruct (Store.BulkAssign_spec (TableLimits0 := redis_limits) now entries s Hl Hy Hint (λ _ _ _, I) I Htot) as (s' & He & Hl' & Ha & Ht).
  exists s'. split; [done|]. split; [done|]. split; [done|]. intros k.
  rewrite Ht, lookup_union, lookup_fmap, lookup_fresh_entries.
  destruct (tbl s !! k) as [a|]; simpl; [done|]. by destruct (entries !! k).
Qed.

Lemma redis_bulk_delete keys s :
  live s → NoDup keys → total (tbl s) < two53 →
  ∃ s', BulkDeleteAssignments keys s = (None, s') ∧ live s' ∧ act s' = act s ∧
    ∀ k, tbl s' !! k = if decide (k ∈ keys) then None else tbl s !! k.
Proof.
  intros Hl Hnd Htot.
  destruct (Store.BulkDeleteAssignments_spec (TableLimits0 := redis_limits) keys s Hl Hnd I Htot) as (s' & He & Hl' & Ha & Ht).
  exists s'. split; [done|]. split; [done|]. split; [done|]. intros k. rewrite Ht. apply lookup_without.
Qed.

(** C10. The bulk operations of a reachable RedisStore keep the counts equal to
    the loads.  [BulkAssign] assigns exactly the keys that had no assignment,
    never overwriting one, and reports exactly those keys with their backends.
    [BulkDeleteAssignments], for distinct keys, removes exactly the given keys;
    keys without an assignment are skipped. *)
Theorem redis_bulk_contract s :
  live s →
  (∀ now entries,
     year_ok now = true → (∀ k e, entries !! k = Some e → is_int (e_Weight e)) →
     total (tbl s) + entries_weight entries < two53 →
     ∃ s', BulkAssign now entries s = ((e_Backend <$> fresh_entries (tbl s) entries, None), s') ∧
       live s' ∧ act s' = act s ∧
       (∀ k, tbl s' !! k = match tbl s !! k with
                           | Some a => Some a
                           | None => entry_assignment now <$> entries !! k
                           end)) ∧
  (∀ keys, NoDup keys → total (tbl s) < two53 →
     ∃ s', BulkDeleteAssignments keys s = (None, s') ∧ live s' ∧ act s' = act s ∧
       ∀ k, tbl s' !! k = if decide (k ∈ keys) then None else tbl s !! k).
Proof. intros Hs. split; intros; [by apply redis_bulk_assign|by apply redis_bulk_delete]. Qed.
End store.

(** ** On the in-memory server *)

Module RedisExamples.
Import Redis.
#[local] Existing Instance map_iter_canonical.

Lemma table_inv_empty : table_inv empty_db.
Proof. split; intros *; [done|done|]. by vm_compute. Qed.

Definition value (b : string) (w : Z) : text :=
  TJson (JObj [("backend", JStr b); ("assigned_at", JTime 0); ("source", JStr "assignment");
               ("weight", JNum w)]).

Definition add (d : rdb) (k b : string) (w : Z) : rdb := incr (set_entry d k (value b w)) b w.

(** Three backends, [b3] down; [u1] weighs 3 on [b1], [u2] 2 on [b2], [u3] 1 on
    [b3]. *)
Definition ex_db : rdb :=
  put_set (add (add (add empty_db "u1" "b1" 3) "u2" "b2" 2) "u3" "b3" 1) k_active {["b1"; "b2"]}.

Lemma add_inv d k b w :
  table_inv d → hash d k_assignments !! k = None → 1 ≤ w → is_int w → table_inv (add d k b w).
Proof.
  intros Hi Hk Hw Hint.
  assert (Henc : encodes (value b w) (mkAssignment b 0 "assignment" w)).
  { apply (encodes_marshal b 0 w (JObj _)); [done|done|]. unfold marshalAssignment. simpl.
    by rewrite (proj2 (Z.eqb_neq w 0)) by lia. }
  destruct (inv_add d k _ _ Hi Hk Henc) as [Hi' _]. unfold EffectiveWeight, effective in Hi'.
  simpl in Hi'. by rewrite (proj2 (Z.leb_gt w 0)) in Hi' by lia.
Qed.

Lemma ex_db_inv : table_inv ex_db.
Proof.
  apply inv_put_set. by do 3 (apply add_inv; [|done|done|done]); apply table_inv_empty.
Qed.

Lemma ex_reliable d : reliable (mkMem d []).
Proof. constructor. Qed.

Definition ex_store : RedisStore mem := NewRedisStore (mkMem ex_db []).

Lemma ex_live : live ex_store.
Proof. split; [apply ex_reliable|apply ex_db_inv]. Qed.

(** A new key goes to [b2], the lighter active backend. *)
Lemma redis_assign_contract_witness :
  (AssignLeastLoaded 5 "u4" ex_store).1 = (Some (mkAssignment "b2" 0 "assignment" 1), None) ∧
  ∃ res s', AssignLeastLoaded 5 "u4" ex_store = (res, s') ∧ live s' ∧ act s' = act ex_store.
Proof.
  split; [by vm_compute|].
  destruct (redis_assign_contract 5 "u4" ex_store) as (res & s' & Ha & Hl & Hact & _).
  - apply ex_live.
  - by vm_compute.
  - exists res, s'. split; [exact Ha|]. split; [exact Hl|exact Hact].
Defined.

Definition ex_entries : gmap string BulkAssignEntry :=
  {["u1" := mkEntry "b2" 7; "u5" := mkEntry "b1" 0]}.

(** [u1] keeps its backend, only [u5] is assigned; then a key without an
    assignment is skipped. *)
Lemma redis_bulk_contract_witness :
  (Store.BulkAssign 5 ex_entries ex_store).1 = ({["u5" := "b1"]}, None) ∧
  (∃ s', Store.BulkAssign 5 ex_entries ex_store
         = ((e_Backend <$> fresh_entries (tbl ex_store) ex_entries, None), s') ∧ live s') ∧
  ∃ s', Store.BulkDeleteAssignments ["u3"; "nobody"; "u1"] ex_store = (None, s') ∧ live s'.
Proof.
  split; [by vm_compute|]. destruct (redis_bulk_contract ex_store ex_live) as [Ha Hd]. split.
  - destruct (Ha 5 ex_entries) as (s' & He & Hl & _).
    + done.
    + intros k e Hk.
      apply (map_forallb (λ e, bool_decide (is_int (e_Weight e)))) in Hk; [|by vm_compute].
      by apply bool_decide_eq_true_1 in Hk.
    + by vm_compute.
    + exists s'. split; [exact He|exact Hl].
  - destruct (Hd ["u3"; "nobody"; "u1"]) as (s' & He & Hl & _).
    + by apply (bool_decide_unpack _).
    + by vm_compute.
    + exists s'. split; [exact He|exact Hl].
Defined.

(** The counts of [ex_db], spoilt. *)
Definition drifted : rdb := incr ex_db "b1" 40.

Lemma ReconcileAssignmentCounts_spec_witness :
  lua_count drifted "b1" ≠ load (table drifted) "b1" ∧
  ∃ r', ReconcileAssignmentCounts (mkMem drifted []) = (None, r') ∧ table_inv (db r').
Proof.
  split; [by vm_compute|].
  destruct (ReconcileAssignmentCounts_spec (mkMem drifted [])) as (r' & Ha & _ & Hi & _).
  - apply ex_reliable.
  - intros k t. unfold drifted. cbn [db memory_redis m_db]. rewrite assignments_incr. apply ex_db_inv.
  - exists r'. split; [exact Ha|exact Hi].
Defined.

Lemma BulkDelete_swallows_outage keys d fs :
  let res := BulkDeleteAssignments keys (mkMem d (true :: fs)) in
  res.1 = None ∧ m_db res.2 = d.
Proof.
  destruct keys as [|k ks]; [done|].
  assert (Hf : ∀ l, found_of l ((λ _, (RNil, Some net_error)) <$> (HGet k_assignments <$> l)) = []).
  { induction l as [|x l IH]; [done|]. exact IH. }
  unfold BulkDeleteAssignments.
  change (pipeline (HGet k_assignments <$> k :: ks) (mkMem d (true :: fs)))
    with ((λ _ : cmd, (RNil, Some net_error)) <$> (HGet k_assignments <$> (k :: ks)), mkMem d fs).
  cbv beta iota. by rewrite Hf.
Qed.

(** Two ways [BulkDeleteAssignments] goes wrong.  When its lookups do not
    reach the server it reports success and deletes nothing: the error of the
    first pipeline is dropped, and every key then counts as absent.  And a key
    given twice, as an HSCAN may return it, is subtracted twice: the counts of
    a correct table drift below the load. *)
Theorem BulkDelete_pitfalls :
  (∀ keys d fs, let res := BulkDeleteAssignments keys (mkMem d (true :: fs)) in
     res.1 = None ∧ m_db res.2 = d) ∧
  table_inv ex_db ∧
  let res := BulkDeleteAssignments ["u1"; "u1"] (mkMem ex_db []) in
  res.1 = None ∧ load (table (m_db res.2)) "b1" = 0 ∧ lua_count (m_db res.2) "b1" = -3.
Proof. split; [apply BulkDelete_swallows_outage|]. split; [apply ex_db_inv|]. by vm_compute. Qed.
End RedisExamples.

End StoreRedis.
