(* ===== verification/RedisSticky.v ===== *)
(** * redis.go and sticky.lua: the sticky keys of hash mode

    A sticky key [sticky:user] holds the backend of a user.  [AssignBackend]
    creates it through the Lua script, behind the circuit breaker; a drain or
    an eviction finds the users of a backend by scanning the keys and deletes
    them. *)
From stdpp Require Import base gmap strings list fin_maps.
From Stdlib Require Import ZArith Lia.
From S2P Require Import Prelude Go Assignment Store Drain RedisBreaker RedisClient Redis StoreRedis.
Import RC.
Local Open Scope Z_scope.

Module RedisSticky.

Definition sticky_prefix : string := "sticky:".

(** A sticky key holds a plain string. *)
Definition text_is (t : text) (b : string) : bool :=
  match t with TStr s => bool_decide (s = b) | _ => false end.

(** [key[len("sticky:"):]] of a key with that prefix. *)
Definition user_of (key : string) : string := String.substring 7 (String.length key - 7) key.

(** ** sticky.lua *)

(** The expiry of the key is not part of the model of the keyspace: an expired
    key is one the server has dropped. *)
Definition sticky_lua (key : string) (hash : Z) : script := λ order d,
  match strs d !! key with
  | Some existing => ((RText existing, None), d)
  | None =>
      match order (members d Redis.k_active) with
      | [] => ((RNil, Some RedisNil), d)
      | backends =>
          match backends !! Z.to_nat (hash mod Z.of_nat (length backends)) with
          | Some b => ((RText (TStr b), None), mkRdb (hashes d) (sets d) (<[key := TStr b]> (strs d)))
          | None => ((RNil, Some RedisNil), d)
          end
      end
  end.

Section ops.
Context {R : Type} `{!RedisServer R}.

(** AssignBackend, with the circuit breaker of the client; [None] is an index
    out of range. *)
Definition AssignBackend (now : Z) (userID : string) (hash : Z) (st : CB.Breaker * R)
    : option (result string * (CB.Breaker * R)) :=
  let '(cb, r) := st in
  let '(open, cb) := CB.isCBOpen now cb in
  let run :=
    let '((res, err), r) := run_script (sticky_lua (sticky_prefix +:+ userID) hash) r in
    match err, res with
    | None, RText (TStr b) => Some ((b, None), (CB.recordCBSuccess cb, r))
    | None, RText _ => Some (("", Some (ErrOther "unexpected redis response type")), (CB.recordCBSuccess cb, r))
    | _, _ =>
        let cb := CB.recordCBFailure now cb in
        fb ← CB.hashFallback hash cb;
        Some (if bool_decide (fb = "") then ("", err) else (fb, None), (cb, r))
    end in
  if open then
    fb ← CB.hashFallback hash cb;
    if bool_decide (fb = "") then run else Some ((fb, None), (cb, r))
  else run.

(** The users of backend [b] among the keys of a page. *)
Fixpoint users_page (b : string) (keys : list string) (users : list string) (r : R)
    : list string * R :=
  match keys with
  | [] => (users, r)
  | key :: keys =>
      let '((val, err), r) := do_cmd (GetS key) r in
      match err, val with
      | None, RText t => users_page b keys (if text_is t b then users ++ [user_of key] else users) r
      | _, _ => users_page b keys users r
      end
  end.

Fixpoint users_pages (b : string) (pages : list (result (list string))) (users : list string) (r : R)
    : result (list string) * R :=
  match pages with
  | [] => ((users, None), r)
  | (_, Some e) :: _ => ((users, Some e), r)
  | (keys, None) :: pages => let '(users, r) := users_page b keys users r in users_pages b pages users r
  end.

Definition GetUsersForBackend (b : string) (r : R) : result (list string) * R :=
  users_pages b (scan sticky_prefix r) [] r.

(** Delete the keys of a page whose value is [b]; errors are skipped. *)
Fixpoint invalidate_page (b : string) (keys : list string) (r : R) : R :=
  match keys with
  | [] => r
  | key :: keys =>
      let '((val, err), r) := do_cmd (GetS key) r in
      match err, val with
      | None, RText t =>
          if text_is t b then let '(_, r) := do_cmd (DelS key) r in invalidate_page b keys r
          else invalidate_page b keys r
      | _, _ => invalidate_page b keys r
      end
  end.

Fixpoint invalidate_pages (b : string) (pages : list (result (list string))) (r : R) : option error * R :=
  match pages with
  | [] => (None, r)
  | (_, Some e) :: _ => (Some e, r)
  | (keys, None) :: pages => invalidate_pages b pages (invalidate_page b keys r)
  end.

Definition InvalidateBackend (b : string) (r : R) : option error * R :=
  invalidate_pages b (scan sticky_prefix r) r.

Definition BulkDeleteSticky (userIDs : list string) (r : R) : option error * R :=
  match userIDs with
  | [] => (None, r)
  | _ =>
      let '(rs, r) := pipeline ((λ id, DelS (sticky_prefix +:+ id)) <$> userIDs) r in
      (exec_err rs, r)
  end.

(** The sticky operations of a RedisStore. *)
#[export] Instance redis_sticky : Drain.Sticky (StoreRedis.RedisStore R) := {|
  Drain.GetUsersForBackend b := StoreRedis.via (GetUsersForBackend b);
  Drain.BulkDeleteSticky users := StoreRedis.via (BulkDeleteSticky users)
|}.
End ops.

(** ** Correctness *)

Section theorems.
Context {R : Type} `{!RedisServer R, !RedisLaws R}.
Implicit Types (r : R).

(** A GET of a sticky key on a reachable server. *)
Lemma get_sticky key r :
  reliable r →
  ∃ r', do_cmd (GetS key) r =
      (match strs (db r) !! key with Some t => (RText t, None) | None => (RNil, Some RedisNil) end, r') ∧
    reliable r' ∧ db r' = db r.
Proof.
  intros Hr. destruct (do_cmd (GetS key) r) as [res r'] eqn:Hc.
  apply reliable_do in Hc as [Hc Hr']; [|done]. simpl in Hc.
  destruct (strs (db r) !! key); injection Hc as <- Hdb; by exists r'.
Qed.

Lemma del_key key r :
  reliable r →
  ∃ r', (do_cmd (DelS key) r).2 = r' ∧ reliable r' ∧
    db r' = mkRdb (delete key (hashes (db r))) (delete key (sets (db r))) (delete key (strs (db r))).
Proof.
  intros Hr. destruct (do_cmd (DelS key) r) as [res r'] eqn:Hc.
  apply reliable_do in Hc as [Hc Hr']; [|done]. simpl in Hc. injection Hc as _ Hdb. by exists r'.
Qed.

(** What a page of deletions leaves. *)
Lemma invalidate_page_spec b keys r :
  reliable r →
  reliable (invalidate_page b keys r) ∧
  ∀ k, strs (db (invalidate_page b keys r)) !! k =
    match strs (db r) !! k with
    | Some t => if decide (k ∈ keys ∧ text_is t b = true) then None else Some t
    | None => None
    end.
Proof.
  revert r. induction keys as [|key keys IH]; intros r Hr; cbn [invalidate_page].
  { split; [done|]. intros k. destruct (strs (db r) !! k); [|done]. rewrite decide_False; [done|]. set_solver. }
  destruct (get_sticky key r Hr) as (r1 & -> & Hr1 & Hdb1).
  destruct (strs (db r) !! key) as [t|] eqn:Hk.
  - destruct (text_is t b) eqn:Ht.
    + destruct (del_key key r1 Hr1) as (r2 & Hd & Hr2 & Hdb2).
      destruct (do_cmd (DelS key) r1) as [res r2'] eqn:Hc. simpl in Hd. subst r2'.
      destruct (IH r2 Hr2) as [Hr3 Hs3]. split; [done|]. intros k. rewrite Hs3, Hdb2. simpl.
      rewrite Hdb1, lookup_delete. destruct (decide (key = k)) as [->|Hne].
      * rewrite Hk. rewrite decide_True; [done|]. split; [left|done].
      * destruct (strs (db r) !! k) as [t'|]; [|done].
        destruct (decide (k ∈ keys ∧ text_is t' b = true)); [rewrite decide_True; set_solver|].
        rewrite decide_False; [done|]. intros [[->|?]%elem_of_cons ?]; [done|tauto].
    + destruct (IH r1 Hr1) as [Hr3 Hs3]. split; [done|]. intros k. rewrite Hs3, Hdb1.
      destruct (strs (db r) !! k) as [t'|] eqn:Hk'; [|done].
      destruct (decide (k ∈ keys ∧ text_is t' b = true)); [rewrite decide_True; set_solver|].
      rewrite decide_False; [done|]. intros [[->|?]%elem_of_cons ?]; [congruence|tauto].
  - destruct (IH r1 Hr1) as [Hr3 Hs3]. split; [done|]. intros k. rewrite Hs3, Hdb1.
    destruct (strs (db r) !! k) as [t'|] eqn:Hk'; [|done].
    destruct (decide (k ∈ keys ∧ text_is t' b = true)); [rewrite decide_True; set_solver|].
    rewrite decide_False; [done|]. intros [[->|?]%elem_of_cons ?]; [congruence|tauto].
Qed.

Lemma invalidate_pages_spec b pages r :
  reliable r → Forall (λ p : result (list string), p.2 = None) pages →
  ∃ r', invalidate_pages b pages r = (None, r') ∧ reliable r' ∧
    ∀ k, strs (db r') !! k =
      match strs (db r) !! k with
      | Some t => if decide (k ∈ concat pages.*1 ∧ text_is t b = true) then None else Some t
      | None => None
      end.
Proof.
  intros Hr Hall. revert r Hr. induction Hall as [|[keys e] pages He Hall IH]; intros r Hr.
  { exists r. split; [done|]. split; [done|]. intros k. destruct (strs (db r) !! k); [|done].
    rewrite decide_False; [done|]. set_solver. }
  simpl in He. subst e. cbn [invalidate_pages].
  destruct (invalidate_page_spec b keys r Hr) as [Hr1 Hs1].
  destruct (IH _ Hr1) as (r' & -> & Hr' & Hs'). exists r'. split; [done|]. split; [done|].
  intros k. rewrite Hs', Hs1. destruct (strs (db r) !! k) as [t|]; [|done].
  cbn [fmap list_fmap fst concat]. destruct (decide (k ∈ keys ∧ text_is t b = true)) as [[Hk Ht]|Hn].
  - rewrite decide_True; [done|]. rewrite elem_of_app. auto.
  - destruct (decide (k ∈ concat pages.*1 ∧ text_is t b = true)) as [[Hk Ht]|Hn'].
    + rewrite decide_True; [done|]. rewrite elem_of_app. auto.
    + rewrite decide_False; [done|]. rewrite elem_of_app. tauto.
Qed.

(** [InvalidateBackend] on a reachable server deletes exactly the sticky
    keys that name the backend: afterwards no user is stuck to it, every
    other string key is as before, and the call reports no error. *)
Theorem InvalidateBackend_clears b r :
  reliable r →
  ∃ r', InvalidateBackend b r = (None, r') ∧ reliable r' ∧
    ∀ k, strs (db r') !! k =
      match strs (db r) !! k with
      | Some t => if decide (String.prefix sticky_prefix k = true ∧ text_is t b = true)
                  then None else Some t
      | None => None
      end.
Proof.
  intros Hr. pose proof (reliable_scan sticky_prefix r Hr) as Hall.
  destruct (invalidate_pages_spec b _ r Hr Hall) as (r' & He & Hr' & Hs). exists r'.
  split; [done|]. split; [done|]. intros k. rewrite Hs. destruct (strs (db r) !! k) as [t|] eqn:Hk; [|done].
  assert (Hin : k ∈ concat (scan sticky_prefix r).*1 ↔ String.prefix sticky_prefix k = true).
  { rewrite (scan_ok sticky_prefix r Hall), Hk. naive_solver. }
  destruct (decide (String.prefix sticky_prefix k = true ∧ text_is t b = true));
    [rewrite decide_True; [done|]|rewrite decide_False; [done|]]; rewrite Hin; done.
Qed.
End theorems.

Definition ex_sticky : rdb :=
  mkRdb ∅ ∅ {["sticky:u1" := TStr "b1"; "sticky:u2" := TStr "b2"; "other" := TStr "b1"]}.

Lemma InvalidateBackend_clears_witness :
  strs (m_db (InvalidateBackend "b1" (mkMem ex_sticky [])).2)
    = {["sticky:u2" := TStr "b2"; "other" := TStr "b1"]} ∧
  ∃ r', InvalidateBackend "b1" (mkMem ex_sticky []) = (None, r') ∧ reliable r'.
Proof.
  split; [by vm_compute|].
  destruct (InvalidateBackend_clears "b1" (mkMem ex_sticky [])) as (r' & He & Hr & _); [constructor|].
  exists r'. split; [exact He|exact Hr].
Defined.

End RedisSticky.
