(* ===== verification/Ownership.v ===== *)
(** * pkg/ownership/checker.go: does this backend still own its users?

    The library a backend runs beside the proxy: it tracks users and, on every
    tick, reads their sticky keys in batches of one MGET each; a user whose key
    is missing or names another backend is dropped and reported. *)
From stdpp Require Import base gmap strings list fin_maps.
From Stdlib Require Import ZArith Lia.
From S2P Require Import Prelude Go RedisClient RedisSticky.
Import RC.

Module Ownership.

(** [evicted] records the calls of [OnEvict]; [notify] says whether it is set. *)
Record Checker := mkChecker {
  myAddr : string;
  notify : bool;
  batchSize : nat;
  users : gset string;
  evicted : list string
}.

Definition New (myAddr : string) (notify : bool) : Checker := mkChecker myAddr notify 1000 ∅ [].

Definition set_users (us : gset string) (c : Checker) : Checker :=
  mkChecker (myAddr c) (notify c) (batchSize c) us (evicted c).

Definition Track (userID : string) (c : Checker) : Checker := set_users ({[userID]} ∪ users c) c.

Definition Untrack (userID : string) (c : Checker) : Checker := set_users (users c ∖ {[userID]}) c.

Definition TrackedCount (c : Checker) : nat := size (users c).

(** [owner, _ := val.(string); owner == c.myAddr]: a missing key is the empty
    string. *)
Definition owned (addr : string) (val : option text) : bool :=
  match val with Some t => RedisSticky.text_is t addr | None => bool_decide (addr = "") end.

Definition judge (c : Checker) (p : string * option text) : Checker :=
  let '(uid, val) := p in
  if owned (myAddr c) val then c
  else mkChecker (myAddr c) (notify c) (batchSize c) (users c ∖ {[uid]})
         (if notify c then evicted c ++ [uid] else evicted c).

Definition sticky_key (uid : string) : string := RedisSticky.sticky_prefix +:+ uid.

Section ops.
Context `{!MapIter} {R : Type} `{!RedisServer R}.

(** One MGET; it answers one value per key. *)
Definition checkBatch (userIDs : list string) (st : Checker * R) : Checker * R :=
  let '(c, r) := st in
  let '((rep, err), r) := do_cmd (MGet (sticky_key <$> userIDs)) r in
  match err, rep with
  | None, RTexts vals => (foldl judge c (zip userIDs vals), r)
  | _, _ => (c, r)
  end.

(** [for i := 0; i < len(userIDs); i += c.batchSize]; each round consumes at
    least one user, so [length userIDs] rounds are enough. *)
Fixpoint check_loop (fuel : nat) (userIDs : list string) (st : Checker * R) : Checker * R :=
  match fuel, userIDs with
  | S fuel, _ :: _ =>
      let n := batchSize st.1 in
      check_loop fuel (drop n userIDs) (checkBatch (take n userIDs) st)
  | _, _ => st
  end.

Definition check (st : Checker * R) : Checker * R :=
  let userIDs := range_set 110 (users st.1) in
  check_loop (length userIDs) userIDs st.
End ops.

(** ** What a pass decides *)

(** The users of [ids] whose key does not name [addr]. *)
Definition lost (addr : string) (d : rdb) (ids : list string) : list string :=
  filter (λ uid, owned addr (strs d !! sticky_key uid) = false) ids.

Definition drop_users (gone : list string) (c : Checker) : Checker :=
  mkChecker (myAddr c) (notify c) (batchSize c) (users c ∖ list_to_set gone)
    (if notify c then evicted c ++ gone else evicted c).

Lemma drop_users_nil c : drop_users [] c = c.
Proof.
  destruct c as [a n b us ev]. unfold drop_users. simpl. f_equal; [set_solver|].
  destruct n; [apply app_nil_r|done].
Qed.

Lemma drop_users_app g1 g2 c : drop_users g2 (drop_users g1 c) = drop_users (g1 ++ g2) c.
Proof.
  destruct c as [a n b us ev]. unfold drop_users. simpl. f_equal; [set_solver|].
  destruct n; [by rewrite app_assoc|done].
Qed.

Lemma judge_all (d : rdb) ids c :
  foldl judge c (zip ids ((λ key, strs d !! key) <$> (sticky_key <$> ids)))
  = drop_users (lost (myAddr c) d ids) c.
Proof.
  revert c. induction ids as [|uid ids IH]; intros c; simpl; [by rewrite drop_users_nil|].
  rewrite IH. unfold lost. rewrite filter_cons. destruct (owned (myAddr c) _) eqn:Ho.
  - by rewrite decide_False by done.
  - rewrite decide_True by done. simpl. unfold drop_users. simpl. f_equal; [set_solver|].
    destruct (notify c); [|done]. by rewrite <- app_assoc.
Qed.

Section correct.
Context `{!MapIter} {R : Type} `{!RedisServer R, !RedisLaws R}.

Lemma checkBatch_spec ids c r :
  reliable r →
  ∃ r', checkBatch ids (c, r) = (drop_users (lost (myAddr c) (db r) ids) c, r') ∧
    reliable r' ∧ db r' = db r.
Proof.
  intros Hr. unfold checkBatch. destruct (do_cmd (MGet (sticky_key <$> ids)) r) as [[rep err] r'] eqn:Hd.
  destruct (reliable_do _ _ _ _ Hr Hd) as [He Hr']. simpl in He. injection He as <- <- Hdb.
  exists r'. by rewrite judge_all.
Qed.

Lemma check_loop_spec fuel ids c r :
  reliable r → length ids ≤ fuel → 1 ≤ batchSize c →
  ∃ r', check_loop fuel ids (c, r) = (drop_users (lost (myAddr c) (db r) ids) c, r') ∧
    reliable r' ∧ db r' = db r.
Proof.
  revert ids c r. induction fuel as [|fuel IH]; intros ids c r Hr Hl Hb; destruct ids as [|uid ids];
    cbn [check_loop fst]; try (exists r; by rewrite drop_users_nil); simpl in Hl; [lia|].
  destruct (checkBatch_spec (take (batchSize c) (uid :: ids)) c r Hr) as (r1 & Hc & Hr1 & Hdb1).
  rewrite Hc.
  destruct (IH (drop (batchSize c) (uid :: ids)) (drop_users (lost (myAddr c) (db r) (take (batchSize c) (uid :: ids))) c) r1)
    as (r2 & Hc2 & Hr2 & Hdb2); [done|rewrite length_drop; simpl; lia|done|].
  exists r2. rewrite Hc2. split; [|by rewrite Hdb2]. f_equal. rewrite drop_users_app. simpl. f_equal.
  rewrite Hdb1. unfold lost. rewrite <- filter_app, take_drop. done.
Qed.

(** A pass of the ownership checker with a reachable Redis drops exactly
    the tracked users whose sticky key does not name this backend, whatever
    the batch size, and reports each of them once; the others stay tracked.
    When an MGET fails, nobody of that batch is dropped or reported.  In
    particular, where no sticky key is ever written every user is dropped. *)
Theorem ownership_check_exact c r :
  reliable r → 1 ≤ batchSize c →
  ∃ c' r' gone, check (c, r) = (c', r') ∧ db r' = db r ∧ NoDup gone ∧
    evicted c' = (if notify c then evicted c ++ gone else evicted c) ∧
    (∀ u, u ∈ users c' ↔ u ∈ users c ∧ owned (myAddr c) (strs (db r) !! sticky_key u) = true) ∧
    (∀ u, u ∈ gone ↔ u ∈ users c ∧ u ∉ users c') ∧
    (∀ ids r1 rep e r2, do_cmd (MGet (sticky_key <$> ids)) r1 = ((rep, Some e), r2) →
       checkBatch ids (c, r1) = (c, r2)).
Proof.
  intros Hr Hb. unfold check. simpl.
  destruct (check_loop_spec (length (range_set 110 (users c))) (range_set 110 (users c)) c r Hr)
    as (r' & Hc & _ & Hdb); [done|done|].
  exists (drop_users (lost (myAddr c) (db r) (range_set 110 (users c))) c), r',
    (lost (myAddr c) (db r) (range_set 110 (users c))).
  assert (Hlost : ∀ u, u ∈ lost (myAddr c) (db r) (range_set 110 (users c)) ↔
    u ∈ users c ∧ owned (myAddr c) (strs (db r) !! sticky_key u) = false).
  { intros u. unfold lost. rewrite list_elem_of_filter, elem_of_range_set. tauto. }
  assert (Hus : ∀ u, u ∈ users (drop_users (lost (myAddr c) (db r) (range_set 110 (users c))) c) ↔
    u ∈ users c ∧ owned (myAddr c) (strs (db r) !! sticky_key u) = true).
  { intros u. unfold drop_users. simpl. rewrite elem_of_difference, elem_of_list_to_set, Hlost.
    destruct (owned _ _); naive_solver. }
  do 2 (split; [done|]). split; [apply NoDup_filter, NoDup_range_set|]. do 2 (split; [done|]). split.
  - intros u. rewrite Hus, Hlost. destruct (owned _ _); naive_solver.
  - intros ids r1 rep e r2 Hd. unfold checkBatch. by rewrite Hd.
Qed.
End correct.

(** ** An example: two users of three are still ours. *)

#[local] Existing Instance map_iter_canonical.

Definition ex_checker : Checker :=
  Track "carol" (Track "bob" (Track "alice" (mkChecker "http://b1" true 2 ∅ []))).

Definition ex_redis : mem :=
  mkMem (mkRdb ∅ ∅ {["sticky:alice" := TStr "http://b1"; "sticky:bob" := TStr "http://b2";
                      "sticky:carol" := TStr "http://b1"]}) [].

Lemma ownership_check_exact_witness :
  evicted (check (ex_checker, ex_redis)).1 = ["bob"] ∧
  "alice" ∈ users (check (ex_checker, ex_redis)).1.
Proof.
  split; [by vm_compute|].
  destruct (ownership_check_exact ex_checker ex_redis) as (c' & r' & gone & Hc & _ & _ & _ & Hu & _);
    [by constructor|simpl; lia|].
  rewrite Hc. apply Hu. split; [by apply (bool_decide_unpack _); vm_compute|by vm_compute].
Defined.

End Ownership.
