(* ===== verification/PgClient.v ===== *)
(** * The PostgreSQL client and server, as an interface

    database/sql, pgx and the PostgreSQL server are not part of the repository:
    they are a parameter of the model.  [sql] is one constructor per statement
    of store_postgres.go, with the columns and conflict clause of its text, and
    [sql_exec] its documented effect on the three tables of the schema.
    [PgServer] is what the store calls (statements, transactions); [PgLaws]
    says what a server promises: a statement it answered had its effect, the
    changes of a transaction become visible all together at the commit or not
    at all.  [memory_pg] is a concrete server that satisfies the laws, with
    faults. *)
From stdpp Require Import base gmap strings list fin_maps.
From Stdlib Require Import ZArith Lia.
From S2P Require Import Prelude Go Assignment.
Local Open Scope Z_scope.

Module PG.

(** ** Data *)

(** The values of parameters and columns: TEXT, INTEGER or BIGINT, TIMESTAMPTZ. *)
Inductive value :=
  | VText (s : string)
  | VInt (z : Z)
  | VTime (t : Z).

Abbreviation row := (list value).

(** The tables [backends] (url to healthy), [assignments] and
    [assignment_counts]. *)
Record pgdb := mkPg {
  t_backends : gmap string bool;
  t_assignments : gmap string Assignment;
  t_counts : gmap string Z
}.

Definition empty_pg : pgdb := mkPg ∅ ∅ ∅.

Definition set_backends (t : gmap string bool) (d : pgdb) : pgdb :=
  mkPg t (t_assignments d) (t_counts d).
Definition set_assignments (t : gmap string Assignment) (d : pgdb) : pgdb :=
  mkPg (t_backends d) t (t_counts d).
Definition set_counts (t : gmap string Z) (d : pgdb) : pgdb :=
  mkPg (t_backends d) (t_assignments d) t.

(** Ranges of INTEGER, BIGINT and TIMESTAMPTZ; a TIMESTAMPTZ keeps
    microseconds. *)
Definition int4 (z : Z) : bool := (-2147483648 <=? z) && (z <? 2147483648).
Definition int8 (z : Z) : bool := (- two63 <=? z) && (z <? two63).
Definition timestamptz (t : Z) : bool :=
  (-210866803200 * Second <=? t) && (t <? 9224318016000 * Second).
Definition micros (t : Z) : Z := t / 1000 * 1000.

(** The wire protocol counts the parameters of a statement in 16 bits. *)
Definition max_params : Z := 65535.

(** ** Statements *)

Inductive locking := SkipLocked | ForUpdate.

#[export] Instance locking_eq_dec : EqDecision locking.
Proof. solve_decision. Defined.

Inductive sql :=
  (* SELECT ac.backend ... ORDER BY ac.total_weight ASC LIMIT 1 FOR UPDATE [SKIP LOCKED] *)
  | SelectLeast (lk : locking)
  (* INSERT INTO assignments (routing_key, backend, source, weight)
     VALUES ($1, $2, 'assignment', 1) ON CONFLICT (routing_key) DO NOTHING
     RETURNING backend, assigned_at, source, weight *)
  | InsertOne
  (* UPDATE assignment_counts SET total_weight = total_weight + 1 WHERE backend = $1 *)
  | IncrCount
  (* SELECT backend, assigned_at, source, weight FROM assignments WHERE routing_key = $1 *)
  | SelectOne
  (* SELECT routing_key, backend, assigned_at, source, weight FROM assignments *)
  | SelectAll
  (* SELECT routing_key FROM assignments WHERE backend = $1 *)
  | SelectUsers
  (* INSERT INTO assignments (routing_key, backend, assigned_at, source, weight)
     VALUES ($i, $j, $1, 'assignment', $k), ... ON CONFLICT (routing_key) DO NOTHING
     RETURNING routing_key, backend *)
  | InsertMany (values : list (nat * nat * nat))
  (* DELETE FROM assignments WHERE routing_key IN ($i, ...) RETURNING backend, weight *)
  | DeleteMany (placeholders : list nat)
  (* UPDATE assignment_counts SET total_weight = total_weight + $1 WHERE backend = $2 *)
  | AddCount
  (* UPDATE assignment_counts SET total_weight = total_weight - $1 WHERE backend = $2 *)
  | SubCount
  (* SELECT url FROM backends WHERE healthy = true *)
  | SelectHealthy
  (* INSERT INTO backends (url, healthy) VALUES ($1, true)
     ON CONFLICT (url) DO UPDATE SET healthy = true *)
  | UpsertBackend
  (* INSERT INTO assignment_counts (backend, total_weight) VALUES ($1, 0)
     ON CONFLICT (backend) DO NOTHING *)
  | InsertCount
  (* UPDATE backends SET healthy = false WHERE url = $1 *)
  | MarkUnhealthy
  (* the schema, then the counts of the healthy backends rebuilt *)
  | Migrate.

(** ** Their effect *)

Definition bad_param {A} : A + error := inr (ErrOther "invalid input for parameter").

(** Parameters are numbered from 1. *)
Definition param (args : list value) (n : nat) : option value :=
  match n with O => None | S i => args !! i end.

Definition text_param (args : list value) (n : nat) : option string :=
  match param args n with Some (VText s) => Some s | _ => None end.
Definition int_param (args : list value) (n : nat) : option Z :=
  match param args n with Some (VInt z) => Some z | _ => None end.
Definition time_param (args : list value) (n : nat) : option Z :=
  match param args n with
  | Some (VTime t) => if timestamptz t then Some (micros t) else None
  | _ => None
  end.

(** ORDER BY total_weight ASC LIMIT 1, on rows in the order they are read. *)
Definition least (rows : list (string * Z)) : option (string * Z) :=
  foldl (λ best r,
    match best with
    | None => Some r
    | Some b => if r.2 <? b.2 then Some r else best
    end) None rows.

Definition healthy (d : pgdb) (b : string) : bool := default false (t_backends d !! b).

(** One row of the VALUES list. *)
Definition value_row (args : list value) (v : nat * nat * nat) : option (string * Assignment) :=
  let '(i, j, k) := v in
  key ← text_param args i;
  b ← text_param args j;
  at_ ← time_param args 1;
  w ← int_param args k;
  if int4 w then Some (key, mkAssignment b at_ "assignment" w) else None.

(** INSERT of several rows, ON CONFLICT DO NOTHING: the table and the rows
    inserted. *)
Definition insert_rows (t : gmap string Assignment) (rs : list (string * Assignment))
    : gmap string Assignment * list (string * Assignment) :=
  foldl (λ '(t, ins) r,
    match t !! r.1 with
    | Some _ => (t, ins)
    | None => (<[r.1 := r.2]> t, ins ++ [r])
    end) (t, []) rs.

Section sql_exec.
Context `{!MapIter}.

(** The rows of the join the assignment picks from; [locked] are the rows other
    transactions hold. *)
Definition candidates (lk : locking) (locked : gset string) (d : pgdb) : list (string * Z) :=
  filter (λ r, healthy d r.1 = true ∧ (lk = ForUpdate ∨ r.1 ∉ locked)) (range 80 (t_counts d)).

Definition add_count (b : string) (n : Z) (d : pgdb) : (list row + error) * pgdb :=
  match t_counts d !! b with
  | None => (inl [], d)
  | Some c =>
      if int8 (c + n) then (inl [], set_counts (<[b := c + n]> (t_counts d)) d)
      else (inr (ErrOther "bigint out of range"), d)
  end.

(** Counts of the healthy backends, recomputed. *)
Definition sum_weights (t : gmap string Assignment) (b : string) : Z :=
  msum (λ _ a, if decide (Backend a = b) then Weight a else 0) t.

Definition rebuild (d : pgdb) : gmap string Z :=
  map_imap (λ b (h : bool), if h then Some (sum_weights (t_assignments d) b) else None) (t_backends d)
  ∪ t_counts d.

(** A statement on the tables.  A TEXT parameter is any string here; the server
    refuses one with NUL bytes or invalid UTF-8, or a key too long for an index,
    with an error like any other. *)
Definition sql_exec (now : Z) (locked : gset string) (q : sql) (args : list value) (d : pgdb)
    : (list row + error) * pgdb :=
  if max_params <? Z.of_nat (length args) then (inr (ErrOther "too many parameters"), d) else
  match q with
  | SelectLeast lk =>
      (inl (match least (candidates lk locked d) with Some r => [[VText r.1]] | None => [] end), d)
  | InsertOne =>
      match text_param args 1, text_param args 2 with
      | Some key, Some b =>
          match t_assignments d !! key with
          | Some _ => (inl [], d)
          | None =>
              let a := mkAssignment b (micros now) "assignment" 1 in
              (inl [[VText (Backend a); VTime (AssignedAt a); VText (Source a); VInt (Weight a)]],
               set_assignments (<[key := a]> (t_assignments d)) d)
          end
      | _, _ => (bad_param, d)
      end
  | IncrCount =>
      match text_param args 1 with Some b => add_count b 1 d | None => (bad_param, d) end
  | SelectOne =>
      match text_param args 1 with
      | Some key =>
          (inl (match t_assignments d !! key with
                | Some a => [[VText (Backend a); VTime (AssignedAt a); VText (Source a); VInt (Weight a)]]
                | None => []
                end), d)
      | None => (bad_param, d)
      end
  | SelectAll =>
      (inl ((λ '(key, a), [VText key; VText (Backend a); VTime (AssignedAt a); VText (Source a);
                            VInt (Weight a)]) <$> range 81 (t_assignments d)), d)
  | SelectUsers =>
      match text_param args 1 with
      | Some b =>
          (inl ((λ r, [VText r.1]) <$> filter (λ r, Backend r.2 = b) (range 82 (t_assignments d))), d)
      | None => (bad_param, d)
      end
  | InsertMany vs =>
      match mapM (value_row args) vs with
      | Some rs =>
          let '(t, ins) := insert_rows (t_assignments d) rs in
          (inl ((λ r, [VText r.1; VText (Backend r.2)]) <$> ins), set_assignments t d)
      | None => (bad_param, d)
      end
  | DeleteMany ps =>
      match mapM (text_param args) ps with
      | Some keys =>
          (inl ((λ r, [VText (Backend r.2); VInt (Weight r.2)])
                  <$> filter (λ r, r.1 ∈ keys) (range 83 (t_assignments d))),
           set_assignments (filter (λ '(k, _), k ∉ keys) (t_assignments d)) d)
      | None => (bad_param, d)
      end
  | AddCount =>
      match int_param args 1, text_param args 2 with
      | Some n, Some b => add_count b n d
      | _, _ => (bad_param, d)
      end
  | SubCount =>
      match int_param args 1, text_param args 2 with
      | Some n, Some b => add_count b (- n) d
      | _, _ => (bad_param, d)
      end
  | SelectHealthy =>
      (inl ((λ r, [VText r.1]) <$> filter (λ r, r.2 = true) (range 84 (t_backends d))), d)
  | UpsertBackend =>
      match text_param args 1 with
      | Some b => (inl [], set_backends (<[b := true]> (t_backends d)) d)
      | None => (bad_param, d)
      end
  | InsertCount =>
      match text_param args 1 with
      | Some b =>
          (inl [], match t_counts d !! b with
                   | Some _ => d
                   | None => set_counts (<[b := 0]> (t_counts d)) d
                   end)
      | None => (bad_param, d)
      end
  | MarkUnhealthy =>
      match text_param args 1 with
      | Some b =>
          (inl [], match t_backends d !! b with
                   | Some _ => set_backends (<[b := false]> (t_backends d)) d
                   | None => d
                   end)
      | None => (bad_param, d)
      end
  | Migrate => (inl [], set_counts (rebuild d) d)
  end.
End sql_exec.

(** ** The server *)

(** Rows read and the error that stopped the reading. *)
Definition answer (r : list row + error) : result (list row) :=
  match r with inl rows => (rows, None) | inr e => ([], Some e) end.

(** One replica's view of the server: the committed tables, the tables as its
    open transaction sees them, and the rows of [assignment_counts] and
    [backends] that transactions of other replicas hold. *)
Class PgServer (P : Type) : Type := {
  db : P → pgdb;
  working : P → option pgdb;
  locked : P → gset string;
  exec : Z → sql → list value → P → result (list row) * P;
  begin_tx : P → option error * P;
  tx_exec : Z → sql → list value → P → result (list row) * P;
  commit : P → option error * P;
  rollback : P → P;
  ping : P → option error * P;
  (* the server is reachable, and nobody else holds locks, now and for the
     calls to come *)
  reliable : P → Prop
}.

Class PgLaws (P : Type) `{!MapIter, !PgServer P} : Prop := {
  exec_ok now q args p rows p' :
    exec now q args p = ((rows, None), p') →
    sql_exec now (locked p) q args (db p) = (inl rows, db p');
  (* the answer may be lost after the statement took effect *)
  exec_err now q args p rows e p' :
    exec now q args p = ((rows, Some e), p') →
    db p' = db p ∨ ∃ rows', sql_exec now (locked p) q args (db p) = (inl rows', db p');
  begin_ok p p' : begin_tx p = (None, p') → db p' = db p ∧ working p' = Some (db p);
  begin_err p e p' : begin_tx p = (Some e, p') → db p' = db p;
  tx_ok now q args p d rows p' :
    tx_exec now q args p = ((rows, None), p') → working p = Some d →
    db p' = db p ∧ ∃ d', sql_exec now (locked p) q args d = (inl rows, d') ∧ working p' = Some d';
  tx_err now q args p rows e p' : tx_exec now q args p = ((rows, Some e), p') → db p' = db p;
  commit_ok p d p' : commit p = (None, p') → working p = Some d → db p' = d ∧ working p' = None;
  (* the connection may break after the server committed *)
  commit_err p e p' : commit p = (Some e, p') → db p' = db p ∨ working p = Some (db p');
  rollback_db p : db (rollback p) = db p;
  rollback_working p : working (rollback p) = None;
  ping_db p : db (ping p).2 = db p ∧ working (ping p).2 = working p;
  (* while the server is reachable, every call is answered *)
  reliable_exec now q args p r p' :
    reliable p → exec now q args p = (r, p') →
    reliable p' ∧ working p' = working p ∧
    ∃ o, sql_exec now ∅ q args (db p) = (o, db p') ∧ r = answer o;
  reliable_begin p : reliable p → ∃ p', begin_tx p = (None, p') ∧ reliable p';
  reliable_tx now q args p d r p' :
    reliable p → working p = Some d → tx_exec now q args p = (r, p') →
    reliable p' ∧ ∃ o d', sql_exec now ∅ q args d = (o, d') ∧ r = answer o ∧
      (o = inl r.1 → working p' = Some d');
  reliable_commit p d : reliable p → working p = Some d → ∃ p', commit p = (None, p') ∧ reliable p';
  reliable_rollback p : reliable p → reliable (rollback p);
  reliable_locked p : reliable p → locked p = ∅;
  reliable_ping p : reliable p → ∃ p', ping p = (None, p') ∧ reliable p'
}.

(** ** A server that satisfies the laws *)

(** What becomes of a call: it is served, lost on the way, or served with the
    answer lost. *)
Inductive fate := Served | Lost | AnswerLost.

Record mem := mkMem {
  m_db : pgdb;
  m_tx : option pgdb;
  m_locked : gset string;
  m_fates : list fate
}.

Definition net_error : error := ErrOther "connection reset by peer".

(** The fate of the next call. *)
Definition next_fate (p : mem) : fate * mem :=
  (hd Served (m_fates p), mkMem (m_db p) (m_tx p) (m_locked p) (tail (m_fates p))).

Section memory.
Context {iter : MapIter}.

Definition mem_exec (now : Z) (q : sql) (args : list value) (p : mem) : result (list row) * mem :=
  let '(f, p) := next_fate p in
  let '(o, d) := sql_exec now (m_locked p) q args (m_db p) in
  let done := mkMem d (m_tx p) (m_locked p) (m_fates p) in
  match f, o with
  | Lost, _ => (([], Some net_error), p)
  | Served, inl _ => (answer o, done)
  | AnswerLost, inl _ => (([], Some net_error), done)
  | _, inr e => (([], Some e), p)
  end.

Definition mem_begin (p : mem) : option error * mem :=
  let '(f, p) := next_fate p in
  match f with
  | Served => (None, mkMem (m_db p) (Some (m_db p)) (m_locked p) (m_fates p))
  | _ => (Some net_error, mkMem (m_db p) None (m_locked p) (m_fates p))
  end.

(** An error inside a transaction aborts it. *)
Definition mem_tx_exec (now : Z) (q : sql) (args : list value) (p : mem) : result (list row) * mem :=
  let '(f, p) := next_fate p in
  let aborted := mkMem (m_db p) None (m_locked p) (m_fates p) in
  match m_tx p with
  | None => (([], Some (ErrOther "current transaction is aborted")), p)
  | Some d =>
      match f, sql_exec now (m_locked p) q args d with
      | Served, (inl rows, d') =>
          ((rows, None), mkMem (m_db p) (Some d') (m_locked p) (m_fates p))
      | Served, (inr e, _) => (([], Some e), aborted)
      | _, _ => (([], Some net_error), aborted)
      end
  end.

Definition mem_commit (p : mem) : option error * mem :=
  let '(f, p) := next_fate p in
  match m_tx p with
  | None => (Some (ErrOther "sql: transaction has already been committed or rolled back"), p)
  | Some d =>
      match f with
      | Served => (None, mkMem d None (m_locked p) (m_fates p))
      | AnswerLost => (Some net_error, mkMem d None (m_locked p) (m_fates p))
      | Lost => (Some net_error, mkMem (m_db p) None (m_locked p) (m_fates p))
      end
  end.

Definition mem_rollback (p : mem) : mem := mkMem (m_db p) None (m_locked p) (m_fates p).

Definition mem_ping (p : mem) : option error * mem :=
  let '(f, p) := next_fate p in
  match f with Served => (None, p) | _ => (Some net_error, p) end.

#[export] Instance memory_pg : PgServer mem := {|
  db := m_db; working := m_tx; locked := m_locked;
  exec := mem_exec; begin_tx := mem_begin; tx_exec := mem_tx_exec; commit := mem_commit;
  rollback := mem_rollback; ping := mem_ping;
  reliable p := m_fates p = [] ∧ m_locked p = ∅
|}.

(** Failing statements change nothing. *)
Lemma sql_exec_err now lk q args d e d' : sql_exec now lk q args d = (inr e, d') → d' = d.
Proof.
  unfold sql_exec, add_count, bad_param. intros H. destruct q; simpl in H;
    repeat (case_match; simpl in H; simplify_eq); done.
Qed.

#[export] Instance memory_pg_laws : PgLaws mem.
Proof.
  split; cbn; unfold mem_exec, mem_begin, mem_tx_exec, mem_commit, mem_ping, next_fate; simpl.
  - intros now q args p rows p' H. destruct (sql_exec _ _ _ _ _) as [o d] eqn:Hs.
    destruct (hd Served (m_fates p)), o; by simplify_eq/=.
  - intros now q args p rows e p' H. destruct (sql_exec _ _ _ _ _) as [o d] eqn:Hs.
    destruct (hd Served (m_fates p)), o; simplify_eq/=; eauto.
  - intros p p' H. destruct (hd Served (m_fates p)); by simplify_eq/=.
  - intros p e p' H. destruct (hd Served (m_fates p)); by simplify_eq/=.
  - intros now q args p d rows p' H Hd. rewrite Hd in H.
    destruct (hd Served (m_fates p)); [|by simplify_eq..].
    destruct (sql_exec _ _ _ _ _) as [[o|e] d'] eqn:Hs; simplify_eq/=; eauto.
  - intros now q args p rows e p' H. destruct (m_tx p) as [d|]; [|by simplify_eq/=].
    destruct (hd Served (m_fates p)); [|by simplify_eq..].
    destruct (sql_exec _ _ _ _ _) as [[o|e'] d'] eqn:Hs; by simplify_eq/=.
  - intros p d p' H Hd. rewrite Hd in H. destruct (hd Served (m_fates p)); by simplify_eq/=.
  - intros p e p' H. destruct (m_tx p) as [d|]; [|simplify_eq/=; by left].
    destruct (hd Served (m_fates p)); simplify_eq/=; auto.
  - done.
  - done.
  - intros p. by destruct (hd Served (m_fates p)).
  - intros now q args p r p' [Hf Hl] H. rewrite Hf, Hl in H. simpl in H.
    destruct (sql_exec now ∅ q args (m_db p)) as [o d] eqn:Hs.
    destruct o as [rows|e]; simplify_eq/=; (split; [done|split; [done|]]).
    + by exists (inl rows).
    + apply sql_exec_err in Hs as Hd. subst d. by exists (inr e).
  - intros p [Hf Hl]. rewrite Hf, Hl. by eexists.
  - intros now q args p d r p' [Hf Hl] Hd H. rewrite Hd, Hf, Hl in H. simpl in H.
    destruct (sql_exec now ∅ q args d) as [[rows|e] d'] eqn:Hs; simplify_eq/=; (split; [done|]).
    + by exists (inl rows), d'.
    + exists (inr e), d'. done.
  - intros p d [Hf Hl] Hd. rewrite Hd, Hf. simpl. eexists. done.
  - done.
  - by intros p [_ ?].
  - intros p [Hf Hl]. rewrite Hf. simpl. eexists. done.
Qed.
End memory.

End PG.
