(* ===== verification/Postgres.v ===== *)
(** * store_postgres.go: the operations of PostgresStore

    Each method of PostgresStore, statement by statement, over the server
    interface of PgClient.  The body of a transaction is a [prog]: statements
    whose rows decide what comes next, with a Go [if err != nil { return nil,
    err }] after every one.  [transaction] runs it between [BeginTx] and
    [Commit], with the deferred [Rollback]; [denote] is what the body does to
    the tables when nothing fails. *)
From stdpp Require Import base gmap strings list fin_maps.
From Stdlib Require Import ZArith Lia.
From S2P Require Import Prelude Go Assignment Store PgClient.
Import PG.
Local Open Scope Z_scope.

Module Postgres.

(** ** Transaction bodies *)

Inductive prog (A : Type) : Type :=
  | Done (a : A)
  | Throw (e : error)
  | Stmt (q : sql) (args : list value) (k : list row → prog A).
Arguments Done {_} _ : assert.
Arguments Throw {_} _ : assert.
Arguments Stmt {_} _ _ _ : assert.

#[export] Instance prog_ret : MRet prog := @Done.

#[export] Instance prog_bind : MBind prog := λ A B f,
  fix bind pr :=
    match pr with
    | Done a => f a
    | Throw e => Throw e
    | Stmt q args k => Stmt q args (λ rows, bind (k rows))
    end.

Section ops.
Context `{!MapIter} {P : Type} `{!PgServer P}.
Implicit Types (p : P).

(** ** Calls inside a transaction *)

(** [tx.QueryContext] with its rows read to the end, or [tx.ExecContext]. *)
Definition query (q : sql) (args : list value) : prog (list row) := Stmt q args Done.

Fixpoint run {A} (now : Z) (pr : prog A) p : (A + error) * P :=
  match pr with
  | Done a => (inl a, p)
  | Throw e => (inr e, p)
  | Stmt q args k =>
      match tx_exec now q args p with
      | ((rows, None), p') => run now (k rows) p'
      | ((_, Some e), p') => (inr e, p')
      end
  end.

(** [BeginTx], the body, [Commit], and the deferred [Rollback] (a no-op after
    the commit). *)
Definition transaction {A} (now : Z) (body : prog A) p : (A + error) * P :=
  match begin_tx p with
  | (Some e, p') => (inr e, p')
  | (None, p') =>
      match run now body p' with
      | (inr e, p') => (inr e, rollback p')
      | (inl a, p') =>
          match commit p' with
          | (Some e, p') => (inr e, rollback p')
          | (None, p') => (inl a, rollback p')
          end
      end
  end.

Definition scan_error : error := ErrOther "sql: Scan error".

(** [rows.Scan] of the columns a statement returns. *)
Definition scan_text (r : row) : option string :=
  match r with [VText s] => Some s | _ => None end.
Definition scan_assignment (r : row) : option Assignment :=
  match r with
  | [VText b; VTime t; VText src; VInt w] => Some (mkAssignment b t src w)
  | _ => None
  end.
Definition scan_keyed (r : row) : option (string * Assignment) :=
  match r with
  | VText key :: r => a ← scan_assignment r; Some (key, a)
  | _ => None
  end.
Definition scan_pair (r : row) : option (string * string) :=
  match r with [VText key; VText b] => Some (key, b) | _ => None end.
Definition scan_weight (r : row) : option (string * Z) :=
  match r with [VText b; VInt w] => Some (b, w) | _ => None end.

Definition scan {A} (f : row → option A) (r : row) : prog A :=
  match f r with Some a => mret a | None => Throw scan_error end.

(** [QueryRowContext(...).Scan(...)]: the first row, [sql.ErrNoRows] if none. *)
Definition scan_row {A} (f : row → option A) (rows : list row) : prog A :=
  match rows with [] => Throw ErrNoRows | r :: _ => scan f r end.

(** Scanning every row; the first that does not scan ends the loop. *)
Definition scan_all {A} (f : row → option A) (rows : list row) : prog (list A) :=
  match mapM f rows with Some l => mret l | None => Throw scan_error end.

(** A failed call as Go returns it: a zero value and the error. *)
Definition returned {A} (zero : A) (r : A + error) : result A :=
  match r with inl a => (a, None) | inr e => (zero, Some e) end.

(** ** Reading *)

(** A query outside a transaction whose rows are scanned in a loop; what was
    read before [rows.Err()] is returned with the error. *)
Definition query_all {A} (q : sql) (args : list value) (f : row → option A) (p : P)
    : result (list A) * P :=
  let '((rows, err), p') := exec 0 q args p in
  match mapM f rows with
  | None => (([], Some scan_error), p')
  | Some l => ((l, err), p')
  end.

Definition GetAssignment (routingKey : string) p : result (option Assignment) * P :=
  match exec 0 SelectOne [VText routingKey] p with
  | ((_, Some e), p') => ((None, Some e), p')
  | (([], None), p') => ((None, Some ErrNoRows), p')
  | ((r :: _, None), p') =>
      (match scan_assignment r with Some a => (Some a, None) | None => (None, Some scan_error) end, p')
  end.

Definition GetAllAssignments p : result (gmap string Assignment) * P :=
  let '((l, err), p') := query_all SelectAll [] scan_keyed p in
  ((foldl (λ m r, <[r.1 := r.2]> m) ∅ l, err), p').

Definition GetBackendUsers (backend : string) p : result (list string) * P :=
  query_all SelectUsers [VText backend] scan_text p.

Definition ActiveBackends p : result (list string) * P :=
  query_all SelectHealthy [] scan_text p.

(** ** AssignLeastLoaded *)

(** The least loaded backend whose row nobody holds; when every row is held,
    the least loaded one, waiting for its lock. *)
Definition pick_backend : prog string :=
  rows ← query (SelectLeast SkipLocked) [];
  match rows with
  | [] => rows ← query (SelectLeast ForUpdate) []; scan_row scan_text rows
  | r :: _ => scan scan_text r
  end.

(** [None]: the key already has an assignment, which is read after the commit. *)
Definition assign_tx (routingKey : string) : prog (option Assignment) :=
  backend ← pick_backend;
  rows ← query InsertOne [VText routingKey; VText backend];
  match rows with
  | [] => mret None
  | r :: _ =>
      a ← scan scan_assignment r;
      _ ← query IncrCount [VText backend];
      mret (Some a)
  end.

Definition AssignLeastLoaded (now : Z) (routingKey : string) p : result (option Assignment) * P :=
  match transaction now (assign_tx routingKey) p with
  | (inr e, p') => ((None, Some e), p')
  | (inl None, p') => GetAssignment routingKey p'
  | (inl (Some a), p') => ((Some a, None), p')
  end.

(** ** BulkAssign *)

(** The VALUES list and the parameters, built in one loop over the map. *)
Definition add_values (acc : list (nat * nat * nat) * list value * nat)
    (kv : string * BulkAssignEntry) : list (nat * nat * nat) * list value * nat :=
  let '(values, args, idx) := acc in
  let '(routingKey, entry) := kv in
  let w := if e_Weight entry <=? 0 then 1 else e_Weight entry in
  (values ++ [(idx, S idx, S (S idx))],
   args ++ [VText routingKey; VText (e_Backend entry); VInt w], (idx + 3)%nat).

Definition build_insert (now : Z) (assignments : gmap string BulkAssignEntry)
    : list (nat * nat * nat) * list value :=
  (foldl add_values ([], [VTime now], 2%nat) (range 85 assignments)).1.

(** [countDeltas[backend] += w] for the rows the INSERT returned. *)
Definition inserted_weight (assignments : gmap string BulkAssignEntry) (kb : string * string) : Z :=
  let w := default 0 (e_Weight <$> assignments !! kb.1) in
  if w <=? 0 then 1 else w.

Fixpoint update_counts (q : sql) (deltas : list (string * Z)) : prog unit :=
  match deltas with
  | [] => mret tt
  | (backend, delta) :: rest =>
      _ ← query q [VInt delta; VText backend];
      update_counts q rest
  end.

Definition bulk_assign_tx (now : Z) (assignments : gmap string BulkAssignEntry)
    : prog (gmap string string) :=
  let '(values, args) := build_insert now assignments in
  rows ← query (InsertMany values) args;
  inserted ← scan_all scan_pair rows;
  let assigned := foldl (λ m kb, <[kb.1 := kb.2]> m) ∅ inserted in
  let countDeltas := madd_all snd (inserted_weight assignments) ∅ inserted in
  _ ← update_counts AddCount (range 86 countDeltas);
  mret assigned.

Definition BulkAssign (now : Z) (assignments : gmap string BulkAssignEntry) p
    : result (gmap string string) * P :=
  if bool_decide (size assignments = 0%nat) then ((∅, None), p) else
  let '(r, p') := transaction now (bulk_assign_tx now assignments) p in (returned ∅ r, p').

(** ** BulkDeleteAssignments *)

Definition bulk_delete_tx (routingKeys : list string) : prog unit :=
  let placeholders := imap (λ i _, S i) routingKeys in
  rows ← query (DeleteMany placeholders) (VText <$> routingKeys);
  deleted ← scan_all scan_weight rows;
  let countDeltas := madd_all fst snd ∅ deleted in
  update_counts SubCount (range 87 countDeltas).

Definition BulkDeleteAssignments (routingKeys : list string) p : option error * P :=
  match routingKeys with
  | [] => (None, p)
  | _ =>
      let '(r, p') := transaction 0 (bulk_delete_tx routingKeys) p in
      (match r with inl _ => None | inr e => Some e end, p')
  end.

(** ** Backends *)

Definition AddBackend (backend : string) p : option error * P :=
  match exec 0 UpsertBackend [VText backend] p with
  | ((_, Some e), p') => (Some e, p')
  | ((_, None), p') =>
      let '((_, err), p'') := exec 0 InsertCount [VText backend] p' in (err, p'')
  end.

Definition RemoveBackend (backend : string) p : option error * P :=
  let '((_, err), p') := exec 0 MarkUnhealthy [VText backend] p in (err, p').

Definition Ping p : option error * P := ping p.

(** ** Opening *)

Definition migrate p : option error * P :=
  let '((_, err), p') := exec 0 Migrate [] p in (err, p').

(** [opened] is the result of [sql.Open]. *)
Definition NewPostgresStore (opened : P + error) : result (option P) :=
  match opened with
  | inr e => (None, Some e)
  | inl p =>
      match migrate p with
      | (Some e, _) => (None, Some e)
      | (None, p') => (Some p', None)
      end
  end.
End ops.

End Postgres.
