(* ===== verification/PgTable.v ===== *)
(** * What the transactions of PostgresStore do to the tables

    [runs] relates a transaction body to its effect on the tables; a server
    that keeps its laws makes a transaction take that effect as a whole or not
    at all.  Then the effect of each body: the rows the generated INSERT
    denotes, the keys the DELETE removes, and the counts that follow. *)
From stdpp Require Import base gmap strings list fin_maps.
From Stdlib Require Import ZArith Lia.
From S2P Require Import Prelude Go Assignment Store PgClient Postgres.
Import PG Postgres.
Local Open Scope Z_scope.

Module PgTable.

Section transactions.
Context `{!MapIter}.

(** ** Bodies as relations between tables *)

(** [runs now pr d a d']: from tables [d] the body returns [a] and leaves
    [d'], whichever rows other transactions hold. *)
Inductive runs {A} (now : Z) : prog A → pgdb → A → pgdb → Prop :=
  | runs_done a d : runs now (Done a) d a d
  | runs_stmt q args k d lk rows d1 a d' :
      sql_exec now lk q args d = (inl rows, d1) →
      runs now (k rows) d1 a d' →
      runs now (Stmt q args k) d a d'.

(** The same as a function, when nobody else holds a row. *)
Fixpoint denote {A} (now : Z) (pr : prog A) (d : pgdb) : (A + error) * pgdb :=
  match pr with
  | Done a => (inl a, d)
  | Throw e => (inr e, d)
  | Stmt q args k =>
      match sql_exec now ∅ q args d with
      | (inl rows, d') => denote now (k rows) d'
      | (inr e, d') => (inr e, d')
      end
  end.

Lemma runs_bind {A B} now (pr : prog A) (f : A → prog B) d b d' :
  runs now (pr ≫= f) d b d' ↔ ∃ a d1, runs now pr d a d1 ∧ runs now (f a) d1 b d'.
Proof.
  split.
  - revert d. induction pr as [a|e|q args k IH]; intros d Hr; cbn in Hr.
    + eexists _, _. split; [constructor|done].
    + inversion Hr.
    + inversion Hr as [|? ? ? ? ? ? ? ? ? Hs Hk]; subst.
      destruct (IH _ _ Hk) as (a & d2 & H1 & H2). exists a, d2. split; [|done]. by econstructor.
  - intros (a & d1 & H1 & H2). induction H1 as [a d|q args k d lk rows d1 a d2 Hs _ IH]; [done|].
    cbn. econstructor; [exact Hs|]. by apply IH.
Qed.

Lemma runs_query now q args d rows d' :
  runs now (query q args) d rows d' ↔ ∃ lk, sql_exec now lk q args d = (inl rows, d').
Proof.
  split.
  - inversion 1 as [|? ? ? ? ? ? ? ? ? Hs Hk]; subst. inversion Hk; subst. eauto.
  - intros [lk Hs]. econstructor; [exact Hs|]. constructor.
Qed.

Lemma runs_ret {A} now (a b : A) d d' : runs now (mret a) d b d' ↔ b = a ∧ d' = d.
Proof. split; [inversion 1; by subst|]. intros [-> ->]. constructor. Qed.

Lemma runs_throw {A} now e d (b : A) d' : ¬ runs now (Throw e) d b d'.
Proof. inversion 1. Qed.

Lemma runs_scan {A} now (f : row → option A) r d a d' :
  runs now (scan f r) d a d' ↔ f r = Some a ∧ d' = d.
Proof.
  unfold scan. destruct (f r) as [a'|]; [rewrite runs_ret; naive_solver|].
  split; [intros []%runs_throw|naive_solver].
Qed.

Lemma runs_scan_all {A} now (f : row → option A) rows d l d' :
  runs now (scan_all f rows) d l d' ↔ mapM f rows = Some l ∧ d' = d.
Proof.
  unfold scan_all. destruct (mapM f rows) as [l'|]; [rewrite runs_ret; naive_solver|].
  split; [intros []%runs_throw|naive_solver].
Qed.

Lemma denote_runs {A} now (pr : prog A) d a d' : denote now pr d = (inl a, d') → runs now pr d a d'.
Proof.
  revert d. induction pr as [b|e|q args k IH]; intros d; simpl; [by intros [= -> ->]; constructor|done|].
  destruct (sql_exec now ∅ q args d) as [[rows|e] d1] eqn:Hs; [|done]. intros Hk.
  econstructor; [exact Hs|by apply IH].
Qed.

Lemma denote_bind {A B} now (pr : prog A) (f : A → prog B) d :
  denote now (pr ≫= f) d =
    match denote now pr d with
    | (inl a, d') => denote now (f a) d'
    | (inr e, d') => (inr e, d')
    end.
Proof.
  revert d. induction pr as [a|e|q args k IH]; intros d; [done|done|]. cbn.
  destruct (sql_exec now ∅ q args d) as [[rows|e] d1]; [apply IH|done].
Qed.

(** ** All or nothing *)

Context {P : Type} `{!PgServer P, !PgLaws P}.
Implicit Types (p : P).

Lemma run_sound {A} now (pr : prog A) p d :
  working p = Some d →
  match run now pr p with
  | (inl a, p') => db p' = db p ∧ ∃ d', working p' = Some d' ∧ runs now pr d a d'
  | (inr _, p') => db p' = db p
  end.
Proof.
  revert p d. induction pr as [a|e|q args k IH]; intros p d Hd; simpl; [|done|].
  { split; [done|]. exists d. split; [done|constructor]. }
  destruct (tx_exec now q args p) as [[rows [e|]] p1] eqn:Hx; [by eapply tx_err|].
  destruct (tx_ok now q args p d rows p1 Hx Hd) as (Hdb & d1 & Hs & Hd1).
  specialize (IH rows p1 d1 Hd1). destruct (run now (k rows) p1) as [[a|e] p2]; rewrite <- Hdb; [|done].
  destruct IH as (Hdb2 & d2 & Hd2 & Hr). split; [done|]. exists d2. split; [done|]. by econstructor.
Qed.

(** A transaction takes its whole effect when it reports success, and its
    whole effect or none when it reports an error. *)
Lemma transaction_atomic {A} now (body : prog A) p r p' :
  transaction now body p = (r, p') →
  match r with
  | inl a => runs now body (db p) a (db p')
  | inr _ => db p' = db p ∨ ∃ a, runs now body (db p) a (db p')
  end.
Proof.
  unfold transaction. destruct (begin_tx p) as [[e|] p0] eqn:Hb.
  { intros [= <- <-]. left. by eapply begin_err. }
  apply begin_ok in Hb as [Hdb0 Hw0]. pose proof (run_sound now body p0 (db p) Hw0) as Hrun.
  destruct (run now body p0) as [[a|e] p1].
  - destruct Hrun as (Hdb1 & d' & Hw1 & Hr). destruct (commit p1) as [[e|] p2] eqn:Hc.
    + intros [= <- <-]. rewrite rollback_db. apply commit_err in Hc as [Hc|Hc].
      * left. congruence.
      * right. exists a. rewrite Hw1 in Hc. by injection Hc as <-.
    + intros [= <- <-]. rewrite rollback_db. apply (commit_ok _ d') in Hc as [-> _]; done.
  - intros [= <- <-]. left. rewrite rollback_db. congruence.
Qed.

Lemma run_reliable {A} now (pr : prog A) p d :
  reliable p → working p = Some d →
  let '(r, p') := run now pr p in
  reliable p' ∧ r = (denote now pr d).1 ∧
  (∀ a, r = inl a → working p' = Some (denote now pr d).2).
Proof.
  revert p d. induction pr as [a|e|q args k IH]; intros p d Hrel Hd; simpl; [naive_solver..|].
  destruct (tx_exec now q args p) as [[rows err] p1] eqn:Hx.
  destruct (reliable_tx now q args p d _ p1 Hrel Hd Hx) as (Hrel1 & o & d1 & Hs & Hans & Hw).
  rewrite Hs. destruct o as [rows'|e]; simpl in Hans; simplify_eq/=.
  - specialize (Hw eq_refl). by apply IH.
  - naive_solver.
Qed.

(** On a reachable server a transaction does what its body denotes. *)
Lemma transaction_reliable {A} now (body : prog A) p :
  reliable p →
  ∃ p', reliable p' ∧ working p' = None ∧
    match denote now body (db p) with
    | (inl a, d') => transaction now body p = (inl a, p') ∧ db p' = d'
    | (inr e, _) => transaction now body p = (inr e, p') ∧ db p' = db p
    end.
Proof.
  intros Hrel. unfold transaction. destruct (reliable_begin p Hrel) as (p0 & Hb & Hrel0).
  rewrite Hb. apply begin_ok in Hb as [Hdb0 Hw0].
  pose proof (run_reliable now body p0 (db p) Hrel0 Hw0) as Hrun.
  pose proof (run_sound now body p0 (db p) Hw0) as Hsound.
  destruct (run now body p0) as [r p1]. destruct Hrun as (Hrel1 & Hr & Hw1).
  destruct (denote now body (db p)) as [[a|e] d'] eqn:Hden; simpl in *; subst r.
  - specialize (Hw1 a eq_refl). destruct (reliable_commit p1 d' Hrel1 Hw1) as (p2 & Hc & Hrel2).
    rewrite Hc. apply (commit_ok _ d') in Hc as [Hdb2 _]; [|done].
    exists (rollback p2). rewrite rollback_db, rollback_working.
    split; [by apply reliable_rollback|done].
  - exists (rollback p1). rewrite rollback_db, rollback_working.
    split; [by apply reliable_rollback|]. split; [done|]. split; [done|]. congruence.
Qed.
End transactions.

(** ** The generated INSERT *)

Section insert.
Context `{!MapIter}.

(** The row an entry stands for; [None] if the server refuses a parameter. *)
Definition entry_row (now : Z) (kv : string * BulkAssignEntry) : option (string * Assignment) :=
  if timestamptz now && int4 (effective (e_Weight kv.2))
  then Some (kv.1, entry_assignment (micros now) kv.2) else None.

Lemma param_app args more n v : param args n = Some v → param (args ++ more) n = Some v.
Proof. destruct n as [|i]; [done|]. apply lookup_app_l_Some. Qed.

Definition in_params (args : list value) (v : nat * nat * nat) : Prop :=
  let '(i, j, k) := v in is_Some (param args i) ∧ is_Some (param args j) ∧ is_Some (param args k).

Lemma value_row_app args more v :
  is_Some (param args 1) → in_params args v → value_row (args ++ more) v = value_row args v.
Proof.
  destruct v as [[i j] k]. intros [t Ht] ([x Hx] & [y Hy] & [z Hz]).
  unfold value_row, text_param, time_param, int_param.
  by rewrite (param_app _ _ _ _ Ht), (param_app _ _ _ _ Hx), (param_app _ _ _ _ Hy),
    (param_app _ _ _ _ Hz), Ht, Hx, Hy, Hz.
Qed.

Lemma param_last args x y z :
  param (args ++ [x; y; z]) (S (length args)) = Some x ∧
  param (args ++ [x; y; z]) (S (S (length args))) = Some y ∧
  param (args ++ [x; y; z]) (S (S (S (length args)))) = Some z.
Proof.
  simpl. rewrite !lookup_app_r by lia.
  replace (length args - length args)%nat with 0%nat by lia.
  replace (S (length args) - length args)%nat with 1%nat by lia.
  by replace (S (S (length args)) - length args)%nat with 2%nat by lia.
Qed.

Lemma mapM_singleton {A B} (f : A → option B) x : mapM f [x] = (λ y, [y]) <$> f x.
Proof. cbn. by destruct (f x). Qed.

(** The placeholders and the parameters the loop builds denote exactly the
    entries, in the order of the loop. *)
Lemma build_values now l :
  ∃ values args idx, foldl add_values ([], [VTime now], 2%nat) l = (values, args, idx) ∧
    idx = S (length args) ∧ length args = (1 + 3 * length l)%nat ∧
    param args 1 = Some (VTime now) ∧ Forall (in_params args) values ∧
    mapM (value_row args) values = mapM (entry_row now) l.
Proof.
  induction l as [|[k e] l IH] using rev_ind.
  { eexists [], [VTime now], 2%nat. repeat split. constructor. }
  destruct IH as (values & args & idx & Hf & -> & Hlen & H1 & Hin & Hm).
  rewrite foldl_app, Hf. cbn [foldl add_values].
  change (if e_Weight e <=? 0 then 1 else e_Weight e) with (effective (e_Weight e)).
  destruct (param_last args (VText k) (VText (e_Backend e)) (VInt (effective (e_Weight e))))
    as (Hx & Hy & Hz).
  set (new := [VText k; VText (e_Backend e); VInt _]) in *.
  eexists _, _, _. split; [done|]. rewrite !length_app. simpl length. split; [lia|]. split; [lia|].
  assert (H1' : param (args ++ new) 1 = Some (VTime now)) by (by apply param_app).
  split; [done|]. split.
  - apply Forall_app. split.
    + eapply Forall_impl; [exact Hin|]. intros [[i j] n] ([? ?] & [? ?] & [? ?]).
      repeat split; eexists; by apply param_app.
    + constructor; [|constructor]. repeat split; eexists; [exact Hx|exact Hy|exact Hz].
  - rewrite !mapM_app, <- Hm.
    assert (Hold : mapM (value_row (args ++ new)) values = mapM (value_row args) values).
    { apply Forall_mapM_ext. eapply Forall_impl; [exact Hin|]. intros v Hv. apply value_row_app; eauto. }
    assert (Hnew : value_row (args ++ new) (S (length args), S (S (length args)), S (S (S (length args))))
      = entry_row now (k, e)).
    { unfold value_row, text_param, time_param, int_param, entry_row. rewrite Hx, Hy, Hz, H1'. simpl.
      by destruct (timestamptz now). }
    by rewrite Hold, !mapM_singleton, Hnew.
Qed.

(** Rows with distinct keys: those whose key is free are inserted. *)
Lemma insert_rows_fresh (t : gmap string Assignment) rs :
  NoDup rs.*1 →
  insert_rows t rs = (list_to_map (filter (λ r, t !! r.1 = None) rs) ∪ t, filter (λ r, t !! r.1 = None) rs).
Proof.
  intros Hnd. unfold insert_rows.
  enough (Hgen : ∀ rs, NoDup rs.*1 → ∀ (t : gmap string Assignment) ins,
    foldl (λ '(t, ins) (r : string * Assignment),
      match t !! r.1 with Some _ => (t, ins) | None => (<[r.1 := r.2]> t, ins ++ [r]) end) (t, ins) rs
    = (list_to_map (filter (λ r, t !! r.1 = None) rs) ∪ t, ins ++ filter (λ r, t !! r.1 = None) rs)).
  { by rewrite Hgen. }
  clear. induction rs as [|[k a] rs IH]; intros Hnd t ins; simpl.
  { by rewrite (left_id_L ∅ (∪)), app_nil_r. }
  apply NoDup_cons in Hnd as [Hk Hnd]. simpl in Hk. rewrite filter_cons. simpl.
  destruct (t !! k) as [a'|] eqn:Ht; [by rewrite IH|]. rewrite IH by done. rewrite decide_True by done.
  assert (Hf : filter (λ r, <[k := a]> t !! r.1 = None) rs = filter (λ r, t !! r.1 = None) rs).
  { apply list_filter_iff_elem. intros [k' a'] Hin. simpl. rewrite lookup_insert_ne; [done|].
    intros ->. apply Hk. by apply (list_elem_of_fmap_2 fst _ (k', a')). }
  rewrite Hf, <- app_assoc. f_equal. simpl. rewrite <- insert_union_l. symmetry. apply insert_union_r.
  apply not_elem_of_list_to_map_1. intros (r & -> & Hin%list_elem_of_filter)%list_elem_of_fmap.
  apply Hk. apply list_elem_of_fmap_2, Hin.
Qed.

(** The rows of a bulk assignment that are new. *)
Definition new_rows (now : Z) (t : gmap string Assignment) (entries : gmap string BulkAssignEntry)
    : list (string * Assignment) :=
  filter (λ r, t !! r.1 = None) ((λ kv, (kv.1, entry_assignment (micros now) kv.2)) <$> range 85 entries).

Lemma row_keys now (entries : gmap string BulkAssignEntry) :
  ((λ kv, (kv.1, entry_assignment (micros now) kv.2)) <$> range 85 entries).*1 = (range 85 entries).*1.
Proof. rewrite <- list_fmap_compose. by apply list_fmap_ext. Qed.

Lemma NoDup_new_rows now t entries : NoDup (new_rows now t entries).*1.
Proof. apply NoDup_fmap_filter. rewrite row_keys. apply NoDup_range_keys. Qed.

Lemma elem_of_new_rows now t entries k a :
  (k, a) ∈ new_rows now t entries ↔
  ∃ e, fresh_entries t entries !! k = Some e ∧ a = entry_assignment (micros now) e.
Proof.
  unfold new_rows. rewrite list_elem_of_filter, list_elem_of_fmap. simpl. split.
  - intros (Hf & [k' e] & Heq & Hin%elem_of_range). simplify_eq/=. exists e.
    by rewrite lookup_fresh_entries, decide_True.
  - intros (e & He & ->). rewrite lookup_fresh_entries in He. case_decide; [|done].
    split; [done|]. exists (k, e). by rewrite elem_of_range.
Qed.

Lemma new_rows_map now t entries :
  list_to_map (new_rows now t entries) = entry_assignment (micros now) <$> fresh_entries t entries.
Proof.
  apply map_eq. intros k. apply option_eq. intros a.
  rewrite <- elem_of_list_to_map by apply NoDup_new_rows. rewrite elem_of_new_rows, lookup_fmap, fmap_Some.
  naive_solver.
Qed.

(** What the server does with the generated statement. *)
Lemma exec_insert now lk entries d o d' :
  let '(values, args) := build_insert now entries in
  sql_exec now lk (InsertMany values) args d = (o, d') →
  match o with
  | inl rows =>
      rows = (λ r, [VText r.1; VText (Backend r.2)]) <$> new_rows now (t_assignments d) entries ∧
      d' = set_assignments ((entry_assignment (micros now) <$> fresh_entries (t_assignments d) entries)
                            ∪ t_assignments d) d
  | inr _ =>
      max_params < 1 + 3 * Z.of_nat (size entries) ∨ timestamptz now = false ∨
      ∃ k e, entries !! k = Some e ∧ int4 (effective (e_Weight e)) = false
  end.
Proof.
  unfold build_insert. destruct (build_values now (range 85 entries))
    as (values & args & idx & -> & _ & Hlen & _ & _ & Hm). simpl. rewrite length_range in Hlen.
  unfold sql_exec. rewrite Hlen. destruct (Z.ltb_spec max_params (Z.of_nat (1 + 3 * size entries))).
  { intros [= <- <-]. left. lia. }
  rewrite Hm. destruct (mapM (entry_row now) (range 85 entries)) as [rs|] eqn:Hrs.
  - assert (Heq : rs = (λ kv, (kv.1, entry_assignment (micros now) kv.2)) <$> range 85 entries).
    { apply mapM_Some_1 in Hrs. clear Hm Hlen. induction Hrs as [|kv r l rs Hr _ IH]; [done|].
      cbn [fmap list_fmap]. f_equal; [|done]. unfold entry_row in Hr. by destruct (timestamptz now && _);
        simplify_eq. }
    rewrite insert_rows_fresh by (by rewrite Heq, row_keys; apply NoDup_range_keys).
    rewrite Heq. fold (new_rows now (t_assignments d) entries). rewrite new_rows_map.
    by intros [= <- <-].
  - intros [= <- <-]. right. apply mapM_None_1, Exists_exists in Hrs as ([k e] & Hin%elem_of_range & He).
    unfold entry_row in He. simpl in He. destruct (timestamptz now); [right|by left].
    exists k, e. split; [done|]. by destruct (int4 _).
Qed.
End insert.

(** ** The counts *)

Section counts.
Context `{!MapIter}.

(** The two statements that change a count, and the sign they give the delta. *)
Inductive updates : sql → Z → Prop :=
  | updates_add : updates AddCount 1
  | updates_sub : updates SubCount (-1).

Lemma exec_update now lk q sg n b d :
  updates q sg → sql_exec now lk q [VInt n; VText b] d = add_count b (sg * n) d.
Proof. destruct 1; unfold sql_exec; simpl; f_equal; lia. Qed.

Lemma mget_list_to_map_cons (l : list (string * Z)) b n b' :
  mget (list_to_map ((b, n) :: l)) b' = if decide (b = b') then n else mget (list_to_map l) b'.
Proof. simpl. apply mget_insert. Qed.

(** Every row of the counts moves by its delta; a backend without a row has
    none to move. *)
Definition counts_moved (sg : Z) (delta : gmap string Z) (d d' : pgdb) : Prop :=
  t_backends d' = t_backends d ∧ t_assignments d' = t_assignments d ∧
  ∀ b, t_counts d' !! b = (λ c, c + sg * mget delta b) <$> t_counts d !! b.

Lemma add_count_inv b n d rows d' :
  add_count b n d = (inl rows, d') →
  t_backends d' = t_backends d ∧ t_assignments d' = t_assignments d ∧
  ∀ b', t_counts d' !! b' = (λ c, c + if decide (b = b') then n else 0) <$> t_counts d !! b'.
Proof.
  unfold add_count. destruct (t_counts d !! b) as [c|] eqn:Hc.
  - destruct (int8 _); [|done]. intros [= _ <-]. split; [done|]. split; [done|]. intros b'. simpl.
    rewrite lookup_insert. case_decide; [subst; by rewrite Hc|].
    destruct (t_counts d !! b'); simpl; [|done]. f_equal. lia.
  - intros [= _ <-]. split; [done|]. split; [done|]. intros b'. case_decide; [subst; by rewrite Hc|].
    destruct (t_counts d !! b'); simpl; [|done]. f_equal. lia.
Qed.

Lemma runs_update_counts now q sg l d u d' :
  updates q sg → NoDup l.*1 → runs now (update_counts q l) d u d' →
  counts_moved sg (list_to_map l) d d'.
Proof.
  intros Hq. revert d. induction l as [|[b n] l IH]; intros d Hnd Hr.
  { apply runs_ret in Hr as [_ ->]. split; [done|]. split; [done|]. intros b.
    destruct (t_counts d !! b); simpl; [|done]. f_equal. rewrite mget_empty. lia. }
  apply NoDup_cons in Hnd as [Hb Hnd]. cbn [update_counts] in Hr. simpl in Hb.
  apply runs_bind in Hr as (rows & d1 & Hs & Hr). apply runs_query in Hs as [lk Hs].
  rewrite (exec_update now lk q sg) in Hs by done. apply add_count_inv in Hs as (Hb1 & Ha1 & Hc1).
  apply IH in Hr as (Hb2 & Ha2 & Hc2); [|done]. split; [congruence|]. split; [congruence|].
  intros b'. rewrite Hc2, Hc1, mget_list_to_map_cons. destruct (t_counts d !! b'); simpl; [|done].
  f_equal. case_decide; [|lia]. subst b'. unfold mget.
  rewrite not_elem_of_list_to_map_1 by done. simpl. lia.
Qed.

Lemma denote_update_counts now q sg l d :
  updates q sg → NoDup l.*1 →
  (∀ b c, t_counts d !! b = Some c → int8 (c + sg * mget (list_to_map l) b) = true) →
  ∃ d', denote now (update_counts q l) d = (inl tt, d').
Proof.
  intros Hq. revert d. induction l as [|[b n] l IH]; intros d Hnd Hok; [by eexists|].
  apply NoDup_cons in Hnd as [Hb Hnd]. simpl in Hb. cbn [update_counts]. rewrite denote_bind.
  cbn [denote query]. rewrite (exec_update now ∅ q sg) by done.
  destruct (add_count b (sg * n) d) as [[rows|e] d1] eqn:Hadd.
  - apply IH; [done|]. apply add_count_inv in Hadd as (_ & _ & Hc1). intros b' c'. rewrite Hc1.
    destruct (t_counts d !! b') as [c|] eqn:Hc; [|done]. intros [= <-].
    specialize (Hok b' c Hc). rewrite mget_list_to_map_cons in Hok. case_decide as Hd.
    + subst b'. unfold mget. rewrite not_elem_of_list_to_map_1 by done. simpl.
      by replace (c + sg * n + sg * 0) with (c + sg * n) by lia.
    + by replace (c + 0) with c by lia.
  - exfalso. unfold add_count in Hadd. destruct (t_counts d !! b) as [c|] eqn:Hc; [|done].
    specialize (Hok b c Hc). rewrite mget_list_to_map_cons, decide_True in Hok by done.
    by rewrite Hok in Hadd.
Qed.
End counts.

(** ** BulkAssign *)

Section bulk.
Context `{!MapIter}.
Implicit Types (d : pgdb) (entries : gmap string BulkAssignEntry).

(** The weight a set of entries brings to a backend. *)
Definition entries_on (b : string) entries : Z :=
  msum (λ _ e, if decide (e_Backend e = b) then effective (e_Weight e) else 0) entries.

(** The effect of a bulk assignment on the tables. *)
Definition bulk_assigned (now : Z) entries d d' : Prop :=
  t_backends d' = t_backends d ∧
  t_assignments d' = (entry_assignment (micros now) <$> fresh_entries (t_assignments d) entries)
                     ∪ t_assignments d ∧
  ∀ b, t_counts d' !! b =
    (λ c, c + entries_on b (fresh_entries (t_assignments d) entries)) <$> t_counts d !! b.

Lemma mapM_rows {A B} (f : row → option B) (g : A → row) (h : A → B) (l : list A) :
  (∀ x, f (g x) = Some (h x)) → mapM f (g <$> l) = Some (h <$> l).
Proof.
  intros Hf. induction l as [|x l IH]; [done|]. cbn [fmap list_fmap].
  change (mapM f (g x :: (g <$> l))) with (y ← f (g x); k ← mapM f (g <$> l); mret (y :: k)).
  rewrite Hf, IH. done.
Qed.

Lemma assigned_pairs now t entries :
  foldl (λ m kb, <[kb.1 := kb.2]> m) ∅ ((λ r, (r.1, Backend r.2)) <$> new_rows now t entries)
  = e_Backend <$> fresh_entries t entries.
Proof.
  set (l := (λ r, (r.1, Backend r.2)) <$> new_rows now t entries).
  assert (Hk : l.*1 = (new_rows now t entries).*1)
    by (unfold l; rewrite <- list_fmap_compose; by apply list_fmap_ext).
  rewrite (foldl_insert_list_to_map fst snd) by (rewrite Hk; apply NoDup_new_rows).
  assert (Hid : (λ x : string * string, (x.1, x.2)) <$> l = l).
  { rewrite <- (list_fmap_id l) at 2. apply list_fmap_ext. by intros ? [? ?] _. }
  rewrite Hid. apply map_eq. intros k. apply option_eq. intros b.
  rewrite <- elem_of_list_to_map by (rewrite Hk; apply NoDup_new_rows).
  rewrite lookup_fmap, fmap_Some. unfold l. rewrite list_elem_of_fmap. split.
  - intros ([k' a] & Heq & (e & He & ->)%elem_of_new_rows). simplify_eq/=. eauto.
  - intros (e & He & ->). exists (k, entry_assignment (micros now) e). split; [done|].
    apply elem_of_new_rows. eauto.
Qed.

Lemma deltas_entries now t entries b :
  mget (madd_all snd (inserted_weight entries) ∅ ((λ r, (r.1, Backend r.2)) <$> new_rows now t entries)) b
  = entries_on b (fresh_entries t entries).
Proof.
  rewrite mget_madd_all, mget_empty, zsum_fmap, Z.add_0_l.
  pose proof (msum_list_to_map (λ k a, if decide (Backend a = b)
    then inserted_weight entries (k, Backend a) else 0) (new_rows now t entries)
    (NoDup_new_rows now t entries)) as Hsum.
  etrans; [symmetry; exact Hsum|]. clear Hsum. rewrite new_rows_map, msum_fmap. apply msum_ext. intros k e He. simpl. case_decide; [|done].
  unfold inserted_weight. simpl. rewrite lookup_fresh_entries in He. case_decide; [|done].
  by rewrite He.
Qed.

Lemma runs_bulk_assign now entries d m d' :
  runs now (bulk_assign_tx now entries) d m d' →
  m = e_Backend <$> fresh_entries (t_assignments d) entries ∧ bulk_assigned now entries d d'.
Proof.
  unfold bulk_assign_tx. pose proof (exec_insert now) as Hins. specialize (Hins) with (entries := entries).
  destruct (build_insert now entries) as [values args].
  intros (rows & d1 & [lk Hs]%runs_query & Hr)%runs_bind. apply Hins in Hs as [-> ->].
  apply runs_bind in Hr as (l & d2 & [Hl ->]%runs_scan_all & Hr).
  rewrite (mapM_rows _ _ (λ r, (r.1, Backend r.2))) in Hl by done. injection Hl as <-.
  apply runs_bind in Hr as ([] & d3 & Hu & [-> ->]%runs_ret).
  split; [apply assigned_pairs|].
  apply (runs_update_counts now AddCount 1) in Hu as (Hb & Ha & Hc); [|constructor|apply NoDup_range_keys].
  split; [done|]. split; [done|]. intros b. rewrite Hc, list_to_map_range, deltas_entries. simpl.
  destruct (t_counts d !! b); simpl; [|done]. f_equal. lia.
Qed.

(** The body succeeds unless a parameter is refused or a count overflows. *)
Lemma denote_bulk_assign now entries d :
  1 + 3 * Z.of_nat (size entries) ≤ max_params → timestamptz now = true →
  (∀ k e, entries !! k = Some e → int4 (effective (e_Weight e)) = true) →
  (∀ b c, t_counts d !! b = Some c →
     int8 (c + entries_on b (fresh_entries (t_assignments d) entries)) = true) →
  ∃ m d', denote now (bulk_assign_tx now entries) d = (inl m, d').
Proof.
  intros Hn Ht Hw Hc. unfold bulk_assign_tx.
  pose proof (exec_insert now) as Hins. specialize (Hins) with (entries := entries).
  destruct (build_insert now entries) as [values args]. rewrite denote_bind. cbn [denote query].
  destruct (sql_exec now ∅ (InsertMany values) args d) as [[rows|e] d1] eqn:Hs; apply Hins in Hs.
  - destruct Hs as [-> ->]. cbn [denote]. rewrite denote_bind. unfold scan_all.
    rewrite (mapM_rows _ _ (λ r, (r.1, Backend r.2))) by done. cbn [denote mret prog_ret].
    rewrite denote_bind.
    destruct (denote_update_counts now AddCount 1 (range 86 (madd_all snd (inserted_weight entries) ∅
      ((λ r, (r.1, Backend r.2)) <$> new_rows now (t_assignments d) entries)))
      (set_assignments ((entry_assignment (micros now) <$> fresh_entries (t_assignments d) entries)
        ∪ t_assignments d) d)) as [d2 Hd2].
    + constructor.
    + apply NoDup_range_keys.
    + intros b c Hb. rewrite list_to_map_range, deltas_entries, Z.mul_1_l. by apply Hc.
    + rewrite Hd2. by eexists _, _.
  - exfalso. destruct Hs as [?|[?|(k & e' & He & ?)]]; [lia|congruence|].
    specialize (Hw k e' He). congruence.
Qed.

(** ** BulkDeleteAssignments *)

(** The weight, as stored, of the given keys on a backend. *)
Definition keys_on (b : string) (keys : list string) (t : gmap string Assignment) : Z :=
  msum (λ k a, if decide (k ∈ keys) then if decide (Backend a = b) then Weight a else 0 else 0) t.

Definition bulk_deleted (keys : list string) d d' : Prop :=
  t_backends d' = t_backends d ∧ t_assignments d' = without (t_assignments d) keys ∧
  ∀ b, t_counts d' !! b = (λ c, c - keys_on b keys (t_assignments d)) <$> t_counts d !! b.

(** The placeholders [$1, ..., $n] denote the keys. *)
Lemma delete_params keys :
  mapM (text_param (VText <$> keys)) (imap (λ i _, S i) keys) = Some keys.
Proof.
  apply mapM_Some_2. apply Forall2_same_length_lookup_2; [by rewrite length_imap|].
  intros i n k Hn Hk. rewrite list_lookup_imap, Hk in Hn. simpl in Hn. injection Hn as <-.
  unfold text_param. simpl. by rewrite list_lookup_fmap, Hk.
Qed.

Lemma exec_delete now lk keys d o d' :
  sql_exec now lk (DeleteMany (imap (λ i _, S i) keys)) (VText <$> keys) d = (o, d') →
  match o with
  | inl rows =>
      rows = (λ r, [VText (Backend r.2); VInt (Weight r.2)])
               <$> filter (λ r, r.1 ∈ keys) (range 83 (t_assignments d)) ∧
      d' = set_assignments (without (t_assignments d) keys) d
  | inr _ => max_params < Z.of_nat (length keys)
  end.
Proof.
  unfold sql_exec. rewrite length_fmap. destruct (Z.ltb_spec max_params (Z.of_nat (length keys))).
  - by intros [= <- <-].
  - rewrite delete_params. by intros [= <- <-].
Qed.

Lemma deltas_deleted keys t b :
  mget (madd_all fst snd ∅ ((λ r, (Backend r.2, Weight r.2)) <$> filter (λ r, r.1 ∈ keys) (range 83 t))) b
  = keys_on b keys t.
Proof.
  rewrite mget_madd_all, mget_empty, zsum_fmap, Z.add_0_l. unfold keys_on. rewrite (msum_range _ 83).
  generalize (range 83 t). induction l as [|[k a] l IH]; [done|].
  rewrite filter_cons, zsum_cons. cbn [fst snd]. destruct (decide (k ∈ keys)).
  - rewrite zsum_cons, <- IH. done.
  - rewrite <- IH. done.
Qed.

Lemma runs_bulk_delete now keys d u d' :
  runs now (bulk_delete_tx keys) d u d' → bulk_deleted keys d d'.
Proof.
  unfold bulk_delete_tx.
  intros (rows & d1 & [lk Hs]%runs_query & Hr)%runs_bind. apply exec_delete in Hs as [-> ->].
  apply runs_bind in Hr as (l & d2 & [Hl ->]%runs_scan_all & Hr).
  rewrite (mapM_rows _ _ (λ r, (Backend r.2, Weight r.2))) in Hl by done. injection Hl as <-.
  apply (runs_update_counts now SubCount (-1)) in Hr as (Hb & Ha & Hc); [|constructor|apply NoDup_range_keys].
  split; [done|]. split; [done|]. intros b. rewrite Hc, list_to_map_range, deltas_deleted. simpl.
  by destruct (t_counts d !! b).
Qed.

Lemma denote_bulk_delete now keys d :
  Z.of_nat (length keys) ≤ max_params →
  (∀ b c, t_counts d !! b = Some c → int8 (c - keys_on b keys (t_assignments d)) = true) →
  ∃ d', denote now (bulk_delete_tx keys) d = (inl tt, d').
Proof.
  intros Hn Hc. unfold bulk_delete_tx. rewrite denote_bind. cbn [denote query].
  destruct (sql_exec _ _ _ _ _) as [[rows|e] d1] eqn:Hs; apply exec_delete in Hs; [|lia].
  destruct Hs as [-> ->]. cbn [denote]. rewrite denote_bind. unfold scan_all.
  rewrite (mapM_rows _ _ (λ r, (Backend r.2, Weight r.2))) by done. cbn [denote mret prog_ret].
  apply (denote_update_counts now SubCount (-1)); [constructor|apply NoDup_range_keys|].
  intros b c Hb. rewrite list_to_map_range, deltas_deleted. simpl in Hb.
  replace (c + -1 * _) with (c - keys_on b keys (t_assignments d)) by lia. by apply Hc.
Qed.
End bulk.

(** ** AssignLeastLoaded *)

Section assign.
Context `{!MapIter}.
Implicit Types (d : pgdb).

Lemma least_spec rows :
  match least rows with
  | Some r => r ∈ rows ∧ ∀ r', r' ∈ rows → r.2 ≤ r'.2
  | None => rows = []
  end.
Proof.
  induction rows as [|r rows IH] using rev_ind; [done|]. unfold least in *. rewrite foldl_app. simpl.
  destruct (foldl _ None rows) as [b|].
  - destruct IH as [Hin Hmin]. destruct (Z.ltb_spec r.2 b.2).
    + split; [set_solver|]. intros r' [Hr'|Hr']%elem_of_app; [specialize (Hmin r' Hr'); lia|set_solver].
    + split; [set_solver|]. intros r' [Hr'|Hr']%elem_of_app; [by apply Hmin|].
      apply list_elem_of_singleton in Hr' as ->. lia.
  - subst. split; [set_solver|]. intros r' ->%list_elem_of_singleton. done.
Qed.

Lemma elem_of_candidates lk locked d b c :
  (b, c) ∈ candidates lk locked d ↔
  healthy d b = true ∧ (lk = ForUpdate ∨ b ∉ locked) ∧ t_counts d !! b = Some c.
Proof. unfold candidates. rewrite list_elem_of_filter, elem_of_range. naive_solver. Qed.

(** A backend that can be picked. *)
Definition pickable d (b : string) : Prop := healthy d b = true ∧ is_Some (t_counts d !! b).

Lemma runs_select now lk d rows d' :
  runs now (query (SelectLeast lk) []) d rows d' →
  d' = d ∧ (rows = [] ∨ ∃ b, rows = [[VText b]] ∧ pickable d b).
Proof.
  intros [lk' Hs]%runs_query. injection Hs as <- <-. split; [done|].
  pose proof (least_spec (candidates lk lk' d)) as Hl.
  destruct (least _) as [[b c]|]; [right|by left]. exists b. split; [done|].
  destruct Hl as [(Hh & _ & Hc)%elem_of_candidates _]. split; [done|]. by exists c.
Qed.

Lemma runs_pick now d b d' : runs now pick_backend d b d' → d' = d ∧ pickable d b.
Proof.
  intros (rows & d1 & [-> Hrows]%runs_select & Hr)%runs_bind.
  destruct Hrows as [->|(b' & -> & Hb)].
  - apply runs_bind in Hr as (rows & d2 & [-> Hrows]%runs_select & Hr).
    destruct Hrows as [->|(b' & -> & Hb)]; [by apply runs_throw in Hr|].
    apply runs_scan in Hr as [[= <-] ->]. done.
  - apply runs_scan in Hr as [[= <-] ->]. done.
Qed.

(** The least loaded backend, when nobody else holds a row. *)
Lemma denote_pick now d :
  denote now pick_backend d =
    (match least (candidates SkipLocked ∅ d) with Some r => inl r.1 | None => inr ErrNoRows end, d).
Proof.
  assert (Hsel : ∀ lk, sql_exec now ∅ (SelectLeast lk) [] d =
    (inl (match least (candidates lk ∅ d) with Some r => [[VText r.1]] | None => [] end), d)) by done.
  unfold pick_backend. rewrite denote_bind. cbn [denote query]. rewrite Hsel.
  destruct (least (candidates SkipLocked ∅ d)) as [r|] eqn:Hl; [done|].
  rewrite denote_bind. cbn [denote query]. rewrite Hsel. assert (Hc : candidates ForUpdate ∅ d = []).
  { pose proof (least_spec (candidates SkipLocked ∅ d)) as Hs. rewrite Hl in Hs.
    apply elem_of_nil_inv. intros [b c] (Hh & _ & Hc)%elem_of_candidates.
    assert (Hin : (b, c) ∈ candidates SkipLocked ∅ d) by (apply elem_of_candidates; set_solver).
    rewrite Hs in Hin. by apply not_elem_of_nil in Hin. }
  by rewrite Hc.
Qed.

(** What an on-demand assignment does to the tables: nothing when the key has
    an assignment, otherwise one more key, of weight 1, on the backend. *)
Definition assigned_on (now : Z) (k b : string) (r : option Assignment) d d' : Prop :=
  t_backends d' = t_backends d ∧
  match t_assignments d !! k with
  | Some _ => r = None ∧ d' = d
  | None =>
      let a := mkAssignment b (micros now) "assignment" 1 in
      r = Some a ∧ t_assignments d' = <[k := a]> (t_assignments d) ∧
      ∀ b', t_counts d' !! b' = (λ c, c + if decide (b = b') then 1 else 0) <$> t_counts d !! b'
  end.

Lemma runs_assign now k d r d' :
  runs now (assign_tx k) d r d' → ∃ b, pickable d b ∧ assigned_on now k b r d d'.
Proof.
  intros (b & d1 & [-> Hb]%runs_pick & Hr)%runs_bind. exists b. split; [done|].
  apply runs_bind in Hr as (rows & d2 & [lk Hs]%runs_query & Hr). unfold assigned_on.
  unfold sql_exec in Hs. simpl in Hs. destruct (t_assignments d !! k) as [a|].
  - injection Hs as <- <-. by apply runs_ret in Hr as [-> ->].
  - injection Hs as <- <-. apply runs_bind in Hr as (a & d3 & [Ha ->]%runs_scan & Hr).
    injection Ha as <-. apply runs_bind in Hr as (rows & d4 & [lk' Hs]%runs_query & Hr).
    apply runs_ret in Hr as [-> ->]. apply add_count_inv in Hs as (Hb4 & Ha4 & Hc4).
    split; [done|]. split; [done|]. split; [done|exact Hc4].
Qed.

Lemma denote_assign now k d :
  (∀ b c, t_counts d !! b = Some c → int8 (c + 1) = true) →
  match least (candidates SkipLocked ∅ d) with
  | Some (b, c) => ∃ r d', denote now (assign_tx k) d = (inl r, d') ∧ assigned_on now k b r d d'
  | None => denote now (assign_tx k) d = (inr ErrNoRows, d)
  end.
Proof.
  intros Hint. unfold assign_tx. rewrite denote_bind, denote_pick.
  pose proof (least_spec (candidates SkipLocked ∅ d)) as Hl.
  destruct (least _) as [[b c]|]; [|done]. destruct Hl as [(_ & _ & Hc)%elem_of_candidates _].
  cbn [fst]. rewrite denote_bind. cbn [denote query]. unfold sql_exec. simpl. unfold assigned_on.
  destruct (t_assignments d !! k) as [a|]; [by eexists _, _|]. cbn. unfold sql_exec, add_count. simpl.
  rewrite Hc, (Hint b c Hc). eexists _, _. split; [done|]. split; [done|]. split; [done|].
  split; [done|]. intros b'. simpl. rewrite lookup_insert. case_decide; [subst; by rewrite Hc|].
  destruct (t_counts d !! b'); simpl; [|done]. f_equal. lia.
Qed.
End assign.

End PgTable.
