(* ===== verification/StorePostgres.v ===== *)
(** * PostgresStore implements the store contract

    The invariant of the tables ([exact]: every count is the load of its
    backend, every backend in use has a count), its preservation by every
    operation, and the store contract of Store discharged from it.  Then what
    PostgresStore promises beyond the contract: transactions that fail leave
    nothing half done. *)
From stdpp Require Import base gmap strings list fin_maps.
From Stdlib Require Import ZArith Lia.
From S2P Require Import Prelude Go Assignment Store PgClient Postgres PgTable.
Import PG PgTable.
Local Open Scope Z_scope.

Module StorePostgres.

(** ** The invariant of the tables *)

Record exact (d : pgdb) : Prop := {
  ex_weight k a : t_assignments d !! k = Some a → 1 ≤ Weight a ∧ int4 (Weight a) = true;
  ex_count b c : t_counts d !! b = Some c → c = load (t_assignments d) b;
  ex_known k a : t_assignments d !! k = Some a → is_Some (t_counts d !! Backend a);
  ex_healthy b : healthy d b = true → is_Some (t_counts d !! b)
}.

Lemma load_unknown d b : exact d → t_counts d !! b = None → load (t_assignments d) b = 0.
Proof.
  intros Hex Hb. apply zsum_zero. intros [k a] Hin%elem_of_map_to_list. simpl. unfold weight_on.
  case_decide; [|done]. subst b. destruct (ex_known d Hex k a Hin) as [c Hc]. congruence.
Qed.

Lemma exact_empty : exact empty_pg.
Proof. split; intros *; by rewrite ?lookup_empty. Qed.

Section preserve.
Context `{!MapIter}.
Implicit Types (d : pgdb) (entries : gmap string BulkAssignEntry).

Lemma load_fresh_union t entries now b :
  load ((entry_assignment now <$> fresh_entries t entries) ∪ t) b
  = load t b + entries_on b (fresh_entries t entries).
Proof.
  unfold load. rewrite msum_union.
  - rewrite msum_fmap. rewrite Z.add_comm. f_equal. apply msum_ext. intros k e _.
    unfold weight_on, EffectiveWeight. simpl. by rewrite effective_idem.
  - apply map_disjoint_spec. intros k a a'. rewrite lookup_fmap, lookup_fresh_entries.
    case_decide as Hk; [|done]. by rewrite Hk.
Qed.

Lemma exact_bulk_assigned now entries d d' :
  exact d → bulk_assigned now entries d d' →
  (∀ k e, entries !! k = Some e → int4 (effective (e_Weight e)) = true) →
  (∀ k e, entries !! k = Some e → is_Some (t_counts d !! e_Backend e)) →
  exact d'.
Proof.
  intros Hex (Hb & Ha & Hc) Hw Ht.
  assert (Hsome : ∀ b, is_Some (t_counts d !! b) → is_Some (t_counts d' !! b)).
  { intros b. by rewrite Hc, fmap_is_Some. }
  assert (Hcase : ∀ k a, t_assignments d' !! k = Some a → t_assignments d !! k = Some a ∨
    ∃ e, entries !! k = Some e ∧ a = entry_assignment (micros now) e).
  { intros k a. rewrite Ha, lookup_union_Some_raw, lookup_fmap, lookup_fresh_entries.
    intros [He|[_ ?]]; [right|by left]. case_decide; [|done]. apply fmap_Some in He as (e & ? & ->). eauto. }
  split.
  - intros k a [Hk|(e & He & ->)]%Hcase; [by apply (ex_weight d Hex k)|]. simpl.
    split; [apply effective_pos|by eapply Hw].
  - intros b c. rewrite Hc. intros (c0 & Hc0 & ->)%fmap_Some.
    rewrite Ha, load_fresh_union. f_equal. by apply (ex_count d).
  - intros k a [Hk|(e & He & ->)]%Hcase; apply Hsome; [by apply (ex_known d Hex k)|].
    by apply (Ht k e).
  - intros b Hh. apply Hsome, (ex_healthy d Hex). unfold healthy in *. by rewrite <- Hb.
Qed.

Lemma load_without_keys d keys b :
  exact d → load (without (t_assignments d) keys) b
            = load (t_assignments d) b - keys_on b keys (t_assignments d).
Proof.
  intros Hex. enough (Hs : load (t_assignments d) b =
    load (without (t_assignments d) keys) b + keys_on b keys (t_assignments d)) by lia.
  assert (Hw : ∀ k a, t_assignments d !! k = Some a → EffectiveWeight a = Weight a).
  { intros k a Hk. destruct (ex_weight d Hex k a Hk) as [H1 _]. unfold EffectiveWeight, effective.
    by rewrite (proj2 (Z.leb_gt _ _)) by lia. }
  clear Hex. revert Hw. generalize (t_assignments d). unfold load, keys_on, without. intros m.
  induction m as [|k a m Hk IH] using map_ind; intros Hw.
  { by rewrite map_filter_empty, !msum_empty. }
  assert (Hw' : ∀ k a, m !! k = Some a → EffectiveWeight a = Weight a).
  { intros k' a' Hk'. apply (Hw k'). rewrite lookup_insert_ne; [done|congruence]. }
  rewrite !msum_insert, (IH Hw') by done. unfold weight_on at 1. rewrite (Hw k a) by apply lookup_insert_eq.
  destruct (decide (k ∈ keys)) as [Hin|Hin].
  - rewrite map_filter_insert_False by (intros Hx; by apply Hx). rewrite delete_id by done. lia.
  - rewrite map_filter_insert_True by done. rewrite msum_insert by (apply map_lookup_filter_None; by left).
    unfold weight_on at 2. rewrite (Hw k a) by apply lookup_insert_eq. lia.
Qed.

Lemma exact_bulk_deleted keys d d' : exact d → bulk_deleted keys d d' → exact d'.
Proof.
  intros Hex (Hb & Ha & Hc).
  assert (Hsome : ∀ b, is_Some (t_counts d !! b) → is_Some (t_counts d' !! b)).
  { intros b. by rewrite Hc, fmap_is_Some. }
  assert (Hsub : ∀ k a, t_assignments d' !! k = Some a → t_assignments d !! k = Some a).
  { intros k a. rewrite Ha, lookup_without. by case_decide. }
  split.
  - intros k a Hk%Hsub. by apply (ex_weight d Hex k).
  - intros b c. rewrite Hc. intros (c0 & Hc0 & ->)%fmap_Some. rewrite Ha, load_without_keys by done.
    f_equal. by apply (ex_count d).
  - intros k a Hk%Hsub. by apply Hsome, (ex_known d Hex k).
  - intros b Hh. apply Hsome, (ex_healthy d Hex). unfold healthy in *. by rewrite <- Hb.
Qed.

Lemma exact_assigned_on now k b r d d' :
  exact d → pickable d b → assigned_on now k b r d d' → exact d'.
Proof.
  intros Hex [_ Hpick] [Hb Hcase]. destruct (t_assignments d !! k) as [a|] eqn:Hk; [by destruct Hcase as [_ ->]|].
  destruct Hcase as (_ & Ha & Hc). set (new := mkAssignment b (micros now) "assignment" 1) in *.
  assert (Hsome : ∀ b, is_Some (t_counts d !! b) → is_Some (t_counts d' !! b)).
  { intros b'. by rewrite Hc, fmap_is_Some. }
  split.
  - intros k' a. rewrite Ha, lookup_insert. case_decide; [by intros [= <-]|by apply (ex_weight d)].
  - intros b' c. rewrite Hc. intros (c0 & Hc0 & ->)%fmap_Some. rewrite Ha. unfold load.
    rewrite msum_insert by done. rewrite (ex_count d Hex b' c0 Hc0). unfold load, weight_on at 2. simpl.
    case_decide; [|lia]. change (EffectiveWeight new) with 1. lia.
  - intros k' a. rewrite Ha, lookup_insert. case_decide; [intros [= <-]; by apply Hsome|].
    intros Hk'. by apply Hsome, (ex_known d Hex k').
  - intros b' Hh. apply Hsome, (ex_healthy d Hex). unfold healthy in *. by rewrite <- Hb.
Qed.

Lemma exact_add_backend b d :
  exact d →
  let d1 := set_backends (<[b := true]> (t_backends d)) d in
  exact (match t_counts d1 !! b with
         | Some _ => d1
         | None => set_counts (<[b := 0]> (t_counts d1)) d1
         end).
Proof.
  intros Hex. simpl. destruct (t_counts d !! b) as [c|] eqn:Hb; split; simpl.
  - apply Hex.
  - apply Hex.
  - apply Hex.
  - unfold healthy. simpl. intros b'. rewrite lookup_insert. case_decide; [subst; by exists c|].
    apply (ex_healthy d Hex).
  - apply Hex.
  - intros b' c'. rewrite lookup_insert. case_decide; [|by apply (ex_count d)].
    intros [= <-]. subst. symmetry. by apply load_unknown.
  - intros k a Hk. apply lookup_insert_is_Some'. right. by apply (ex_known d Hex k).
  - unfold healthy. simpl. intros b'. rewrite lookup_insert, lookup_insert_is_Some'.
    case_decide; [by left|]. right. by apply (ex_healthy d Hex).
Qed.

Lemma exact_mark_unhealthy b d :
  exact d → exact (set_backends (<[b := false]> (t_backends d)) d).
Proof.
  intros Hex. split; [apply Hex..|]. unfold healthy. simpl. intros b'. rewrite lookup_insert.
  case_decide; [done|]. apply (ex_healthy d Hex).
Qed.
End preserve.

(** ** The store *)

Record PostgresStore (P : Type) := mkStore { pg : P }.
Arguments mkStore {P}.
Arguments pg {P}.

Section store.
Context `{!MapIter} {P : Type} `{!PgServer P}.

Definition via {A} (f : P → A * P) (s : PostgresStore P) : A * PostgresStore P :=
  let '(a, p) := f (pg s) in (a, mkStore p).

#[export] Instance postgres_store : Store (PostgresStore P) := {|
  AssignLeastLoaded now k := via (Postgres.AssignLeastLoaded now k);
  GetAssignment k := via (Postgres.GetAssignment k);
  GetAllAssignments := via Postgres.GetAllAssignments;
  GetBackendUsers b := via (Postgres.GetBackendUsers b);
  BulkAssign now entries := via (Postgres.BulkAssign now entries);
  BulkDeleteAssignments keys := via (Postgres.BulkDeleteAssignments keys);
  ActiveBackends := via Postgres.ActiveBackends;
  AddBackend b := via (Postgres.AddBackend b);
  RemoveBackend b := via (Postgres.RemoveBackend b);
  Ping := via Postgres.Ping
|}.

Context `{!PgLaws P}.
Implicit Types (s : PostgresStore P) (p : P).

Definition pg_live s : Prop := reliable (pg s) ∧ exact (db (pg s)).

Definition active (d : pgdb) : gset string := dom (filter (λ '(_, h), h = true) (t_backends d)).

Lemma elem_of_active d b : b ∈ active d ↔ healthy d b = true.
Proof.
  unfold active, healthy. rewrite elem_of_dom. split.
  - intros [h [Hb Hh]%map_lookup_filter_Some]. by rewrite Hb.
  - destruct (t_backends d !! b) as [[]|] eqn:Hb; simpl; [|done..]. intros _. exists true.
    by apply map_lookup_filter_Some.
Qed.

(** A statement on a reachable server outside a transaction. *)
Lemma exec_live now q args p o d' :
  reliable p → sql_exec now ∅ q args (db p) = (o, d') →
  ∃ p', exec now q args p = (answer o, p') ∧ reliable p' ∧ db p' = d'.
Proof.
  intros Hr Hs. destruct (exec now q args p) as [r p'] eqn:He.
  destruct (reliable_exec now q args p r p' Hr He) as (Hr' & _ & o' & Hs' & ->).
  rewrite Hs in Hs'. injection Hs' as <- ->. by exists p'.
Qed.

(** A query whose rows all scan. *)
Lemma query_all_live {A} q args (f : row → option A) p rows l :
  reliable p → sql_exec 0 ∅ q args (db p) = (inl rows, db p) → mapM f rows = Some l →
  ∃ p', Postgres.query_all q args f p = ((l, None), p') ∧ reliable p' ∧ db p' = db p.
Proof.
  intros Hr Hs Hm. destruct (exec_live 0 q args p _ _ Hr Hs) as (p' & He & Hr' & Hd).
  exists p'. unfold Postgres.query_all. rewrite He. simpl. by rewrite Hm.
Qed.

Lemma AddBackend_live b p :
  reliable p → exact (db p) →
  ∃ p', Postgres.AddBackend b p = (None, p') ∧ reliable p' ∧ exact (db p') ∧
    active (db p') = {[b]} ∪ active (db p) ∧ t_assignments (db p') = t_assignments (db p).
Proof.
  intros Hr Hex. unfold Postgres.AddBackend.
  destruct (exec_live 0 UpsertBackend [VText b] p _ _ Hr eq_refl) as (p1 & -> & Hr1 & Hd1).
  destruct (exec_live 0 InsertCount [VText b] p1 _ _ Hr1 eq_refl) as (p2 & -> & Hr2 & Hd2).
  simpl in *. exists p2. split; [done|]. split; [done|]. rewrite Hd2, Hd1.
  split; [by apply (exact_add_backend b)|].
  assert (Hbk : ∀ d, t_backends (match t_counts d !! b with
    | Some _ => d | None => set_counts (<[b:=0]> (t_counts d)) d end) = t_backends d ∧
    t_assignments (match t_counts d !! b with
    | Some _ => d | None => set_counts (<[b:=0]> (t_counts d)) d end) = t_assignments d).
  { intros d. by destruct (t_counts d !! b). }
  destruct (Hbk (set_backends (<[b := true]> (t_backends (db p))) (db p))) as [H1 H2].
  split; [|done]. apply set_eq. intros b'. rewrite elem_of_active. unfold healthy. rewrite H1. simpl.
  rewrite elem_of_union, elem_of_singleton, elem_of_active, lookup_insert. unfold healthy.
  case_decide; [naive_solver|]. split; [by right|]. by intros [->|].
Qed.

Lemma RemoveBackend_live b p :
  reliable p → exact (db p) →
  ∃ p', Postgres.RemoveBackend b p = (None, p') ∧ reliable p' ∧ exact (db p') ∧
    active (db p') = active (db p) ∖ {[b]} ∧ t_assignments (db p') = t_assignments (db p).
Proof.
  intros Hr Hex. unfold Postgres.RemoveBackend.
  destruct (exec_live 0 MarkUnhealthy [VText b] p _ _ Hr eq_refl) as (p1 & -> & Hr1 & Hd1).
  simpl in *. exists p1. split; [done|]. split; [done|]. rewrite Hd1.
  destruct (t_backends (db p) !! b) as [h|] eqn:Hb.
  - split; [by apply exact_mark_unhealthy|]. split; [|done]. apply set_eq. intros b'.
    rewrite elem_of_difference, elem_of_singleton, !elem_of_active. unfold healthy. simpl.
    rewrite lookup_insert. case_decide; naive_solver.
  - split; [done|]. split; [|done]. apply set_eq. intros b'.
    rewrite elem_of_difference, elem_of_singleton, elem_of_active. split; [|by intros [? _]].
    intros Hh. split; [done|]. intros ->. unfold healthy in Hh. by rewrite Hb in Hh.
Qed.

Lemma ActiveBackends_live p :
  reliable p →
  ∃ l p', Postgres.ActiveBackends p = ((l, None), p') ∧ l ≡ₚ elements (active (db p)) ∧
    reliable p' ∧ db p' = db p.
Proof.
  intros Hr. destruct (query_all_live SelectHealthy [] Postgres.scan_text p _
    ((filter (λ r, r.2 = true) (range 84 (t_backends (db p)))).*1) Hr eq_refl) as (p' & He & Hr' & Hd).
  { by apply mapM_rows. }
  eexists _, p'. split; [exact He|]. split; [|done]. apply NoDup_Permutation.
  - apply NoDup_fmap_filter, NoDup_range_keys.
  - apply NoDup_elements.
  - intros b. rewrite elem_of_elements, elem_of_active, list_elem_of_fmap. unfold healthy. split.
    + intros ([b' h] & -> & [Hh Hin%elem_of_range]%list_elem_of_filter). simpl in *. by rewrite Hin, Hh.
    + destruct (t_backends (db p) !! b) as [h|] eqn:Hb; simpl; [|done]. intros ->.
      exists (b, true). rewrite list_elem_of_filter, elem_of_range. done.
Qed.

#[export, refine] Instance postgres_backends_spec : BackendsSpec (PostgresStore P) := {|
  live := pg_live; act s := active (db (pg s)); tbl s := t_assignments (db (pg s)) |}.
Proof.
  all: cbn; unfold via, pg_live.
  - intros s [Hr Hex]. destruct (ActiveBackends_live (pg s) Hr) as (l & p' & -> & Hl & Hr' & Hd).
    exists l, (mkStore p'). simpl. by rewrite Hd.
  - intros b s [Hr Hex]. destruct (AddBackend_live b (pg s) Hr Hex) as (p' & -> & ? & ? & ? & ?).
    by exists (mkStore p').
  - intros b s [Hr Hex]. destruct (RemoveBackend_live b (pg s) Hr Hex) as (p' & -> & ? & ? & ? & ?).
    by exists (mkStore p').
  - intros s [Hr Hex]. destruct (reliable_ping (pg s) Hr) as (p' & Hp & Hr').
    unfold Postgres.Ping. rewrite Hp. exists (mkStore p'). simpl.
    destruct (ping_db (pg s)) as [Hd _]. rewrite Hp in Hd. simpl in Hd. by rewrite Hd.
Defined.

(** ** The table *)

#[export, refine] Instance postgres_limits : TableLimits (PostgresStore P) := {|
  instant_ok now := timestamptz now = true;
  stamp := micros;
  weight_ok w := int4 (effective w) = true;
  target_ok active b := b ∈ active;
  batch_ok n := 1 + 3 * Z.of_nat n ≤ max_params |}.
Proof.
  - done.
  - done.
  - done.
  - intros n m. lia.
Defined.

Lemma int8_small z : - two53 < z < two53 → int8 z = true.
Proof. unfold int8, two53, two63. intros ?. apply andb_true_iff. rewrite Z.leb_le, Z.ltb_lt. lia. Qed.

Lemma effective_int4 w : w < 2147483648 → int4 (effective w) = true.
Proof.
  intros Hw. unfold int4, effective. apply andb_true_iff. rewrite Z.leb_le, Z.ltb_lt.
  destruct (Z.leb_spec w 0); lia.
Qed.

Lemma entries_on_bounds b (entries : gmap string BulkAssignEntry) :
  0 ≤ entries_on b entries ≤ entries_weight entries.
Proof.
  split.
  - apply msum_nonneg. intros k e _. pose proof (effective_pos (e_Weight e)). case_decide; lia.
  - apply zsum_le. intros [k e] _. simpl. pose proof (effective_pos (e_Weight e)). case_decide; lia.
Qed.

Lemma fresh_weight_le t (entries : gmap string BulkAssignEntry) :
  entries_weight (fresh_entries t entries) ≤ entries_weight entries.
Proof.
  unfold entries_weight. rewrite <- (map_filter_union_complement (λ '(k, _), t !! k = None) entries) at 2.
  rewrite msum_union by apply map_disjoint_filter_complement.
  pose proof (msum_nonneg (λ _ e, effective (e_Weight e)) (filter (λ v, ¬ (let '(k, _) := v in t !! k = None)) entries))
    as Hn. unfold fresh_entries.
  enough (0 ≤ msum (λ _ e, effective (e_Weight e)) (filter (λ v, ¬ (let '(k, _) := v in t !! k = None)) entries))
    by lia.
  apply Hn. intros k e _. pose proof (effective_pos (e_Weight e)). lia.
Qed.

Lemma GetAssignment_live k p :
  reliable p →
  ∃ p', Postgres.GetAssignment k p =
    (match t_assignments (db p) !! k with Some a => (Some a, None) | None => (None, Some ErrNoRows) end, p') ∧
    reliable p' ∧ db p' = db p.
Proof.
  intros Hr. unfold Postgres.GetAssignment.
  destruct (exec_live 0 SelectOne [VText k] p _ _ Hr eq_refl) as (p' & -> & Hr' & Hd).
  exists p'. simpl. by destruct (t_assignments (db p) !! k) as [[]|].
Qed.

Lemma BulkAssign_live now entries p :
  reliable p → exact (db p) → timestamptz now = true →
  (∀ k e, entries !! k = Some e → int4 (effective (e_Weight e)) = true) →
  (∀ k e, entries !! k = Some e → e_Backend e ∈ active (db p)) →
  1 + 3 * Z.of_nat (size entries) ≤ max_params →
  total (t_assignments (db p)) + entries_weight entries < two53 →
  ∃ p', Postgres.BulkAssign now entries p
        = ((e_Backend <$> fresh_entries (t_assignments (db p)) entries, None), p') ∧
    reliable p' ∧ exact (db p') ∧ bulk_assigned now entries (db p) (db p').
Proof.
  intros Hr Hex Hts Hw Htgt Hn Htot. unfold Postgres.BulkAssign. case_bool_decide as Hsz.
  { apply map_size_empty_inv in Hsz. fold_leibniz. subst entries. unfold bulk_assigned, fresh_entries.
    rewrite map_filter_empty, !fmap_empty, (left_id_L ∅ (∪)). exists p. do 5 (split; [done|]).
    intros b. unfold entries_on. rewrite msum_empty.
    destruct (t_counts (db p) !! b); simpl; [|done]. f_equal. lia. }
  assert (Hknown : ∀ k e, entries !! k = Some e → is_Some (t_counts (db p) !! e_Backend e)).
  { intros k e He. apply (ex_healthy _ Hex), elem_of_active. by eapply Htgt. }
  destruct (denote_bulk_assign now entries (db p)) as (m & d' & Hden); [done..| |].
  { intros b c Hc. apply int8_small. rewrite (ex_count _ Hex b c Hc).
    pose proof (load_nonneg (t_assignments (db p)) b). pose proof (load_le_total (t_assignments (db p)) b).
    pose proof (entries_on_bounds b (fresh_entries (t_assignments (db p)) entries)).
    pose proof (fresh_weight_le (t_assignments (db p)) entries). lia. }
  destruct (transaction_reliable now (Postgres.bulk_assign_tx now entries) p Hr) as (p' & Hr' & _ & Hcase).
  rewrite Hden in Hcase. destruct Hcase as [-> Hd].
  apply denote_runs, runs_bulk_assign in Hden as [-> Heff]. exists p'. rewrite Hd. split; [done|].
  split; [done|]. split; [by eapply exact_bulk_assigned|done].
Qed.

Lemma keys_on_bounds b keys d : exact d → 0 ≤ keys_on b keys (t_assignments d) ≤ load (t_assignments d) b.
Proof.
  intros Hex. split.
  - apply msum_nonneg. intros k a Hk. destruct (ex_weight d Hex k a Hk). repeat case_decide; lia.
  - pose proof (load_without_keys d keys b Hex) as Hl.
    pose proof (load_nonneg (without (t_assignments d) keys) b). lia.
Qed.

Lemma BulkDelete_live keys p :
  reliable p → exact (db p) → Z.of_nat (length keys) ≤ max_params →
  total (t_assignments (db p)) < two53 →
  ∃ p', Postgres.BulkDeleteAssignments keys p = (None, p') ∧ reliable p' ∧ exact (db p') ∧
    bulk_deleted keys (db p) (db p').
Proof.
  intros Hr Hex Hn Htot. unfold Postgres.BulkDeleteAssignments. destruct keys as [|k ks].
  { exists p. do 3 (split; [done|]). unfold bulk_deleted. rewrite without_nil.
    split; [done|]. split; [done|]. intros b. unfold keys_on. rewrite (msum_ext _ (λ _ _, 0)).
    - unfold msum. rewrite zsum_zero by done. destruct (t_counts (db p) !! b); simpl; [|done]. f_equal. lia.
    - intros k a _. by rewrite decide_False by set_solver. }
  set (keys := k :: ks) in *.
  destruct (denote_bulk_delete 0 keys (db p)) as (d' & Hden); [done| |].
  { intros b c Hc. apply int8_small. rewrite (ex_count _ Hex b c Hc).
    pose proof (keys_on_bounds b keys (db p) Hex). pose proof (load_nonneg (t_assignments (db p)) b).
    pose proof (load_le_total (t_assignments (db p)) b). lia. }
  destruct (transaction_reliable 0 (Postgres.bulk_delete_tx keys) p Hr) as (p' & Hr' & _ & Hcase).
  rewrite Hden in Hcase. destruct Hcase as [-> Hd].
  apply denote_runs, runs_bulk_delete in Hden as Heff. exists p'. rewrite Hd. do 2 (split; [done|]).
  split; [by eapply exact_bulk_deleted|done].
Qed.

Lemma active_backends_eq d d' : t_backends d' = t_backends d → active d' = active d.
Proof. unfold active. by intros ->. Qed.

#[export] Instance postgres_table_spec : TableSpec (PostgresStore P).
Proof.
  split; cbn; unfold via, pg_live.
  - intros s k a [_ Hex] Hk. destruct (ex_weight _ Hex k a Hk) as [H1 H4]. unfold effective.
    by rewrite (proj2 (Z.leb_gt _ _)) by lia.
  - intros k s [Hr Hex]. destruct (GetAssignment_live k (pg s) Hr) as (p' & -> & Hr' & Hd).
    eexists _, (mkStore p'). simpl. rewrite Hd. split; [done|]. split; [done|]. split; [done|].
    split; [done|]. destruct (t_assignments _ !! k); eauto.
  - intros s [Hr Hex]. unfold Postgres.GetAllAssignments.
    destruct (query_all_live SelectAll [] Postgres.scan_keyed (pg s) _ (range 81 (t_assignments (db (pg s))))
      Hr eq_refl) as (p' & -> & Hr' & Hd).
    { rewrite <- (list_fmap_id (range 81 _)) at 2. apply mapM_rows. by intros [k []]. }
    exists (mkStore p'). simpl. rewrite Hd. split; [|done]. f_equal. f_equal.
    rewrite (foldl_insert_list_to_map fst snd) by apply NoDup_range_keys.
    rewrite <- (list_to_map_range 81 (t_assignments (db (pg s)))) at 2. f_equal.
    rewrite <- (list_fmap_id (range 81 _)) at 2. apply list_fmap_ext. by intros ? [? ?] _.
  - intros b s [Hr Hex]. unfold Postgres.GetBackendUsers.
    destruct (query_all_live SelectUsers [VText b] Postgres.scan_text (pg s) _
      ((filter (λ r, Backend r.2 = b) (range 82 (t_assignments (db (pg s))))).*1) Hr eq_refl)
      as (p' & -> & Hr' & Hd).
    { by apply mapM_rows. }
    eexists _, (mkStore p'). simpl. rewrite Hd. split; [done|]. split; [done|]. split; [done|].
    split; [done|]. intros k. rewrite list_elem_of_fmap. split.
    + intros ([k' a] & -> & [Hb Hin%elem_of_range]%list_elem_of_filter). eauto.
    + intros (a & Ha & Hb). exists (k, a). by rewrite list_elem_of_filter, elem_of_range.
  - intros now entries s [Hr Hex] Hts Hw Htgt Hn Htot.
    destruct (BulkAssign_live now entries (pg s)) as (p' & -> & Hr' & Hex' & Hb & Ha & _); try done.
    exists (mkStore p'). simpl. do 2 (split; [done|]). split; [by apply active_backends_eq|done].
  - intros keys s [Hr Hex] _ Hn Htot.
    destruct (BulkDelete_live keys (pg s)) as (p' & -> & Hr' & Hex' & Hb & Ha & _); try done; [lia|].
    exists (mkStore p'). simpl. do 2 (split; [done|]). split; [by apply active_backends_eq|done].
Qed.

(** ** On-demand assignment *)

(** The rows the assignment picks from are the active backends with their
    loads. *)
Lemma candidates_active d b c :
  exact d → (b, c) ∈ candidates SkipLocked ∅ d ↔ b ∈ active d ∧ c = load (t_assignments d) b.
Proof.
  intros Hex. rewrite elem_of_candidates, elem_of_active. split.
  - intros (Hh & _ & Hc). split; [done|]. by apply (ex_count d).
  - intros [Hh ->]. split; [done|]. split; [right; set_solver|].
    destruct (ex_healthy d Hex b Hh) as [c Hc]. rewrite Hc. f_equal. by apply (ex_count d).
Qed.

Lemma AssignLeastLoaded_live now k p :
  reliable p → exact (db p) → total (t_assignments (db p)) + 1 < two53 →
  ∃ res p', Postgres.AssignLeastLoaded now k p = (res, p') ∧ reliable p' ∧ exact (db p') ∧
    t_backends (db p') = t_backends (db p) ∧
    if decide (active (db p) = ∅)
    then res = (None, Some ErrNoRows) ∧ t_assignments (db p') = t_assignments (db p)
    else ∃ a, res = (Some a, None) ∧ t_assignments (db p') = <[k := a]> (t_assignments (db p)) ∧
      assigned_least (λ _ _, True) (t_assignments (db p)) (active (db p)) k a.
Proof.
  intros Hr Hex Htot. set (d := db p) in *. unfold Postgres.AssignLeastLoaded.
  assert (Hint : ∀ b c, t_counts d !! b = Some c → int8 (c + 1) = true).
  { intros b c Hc. apply int8_small. rewrite (ex_count _ Hex b c Hc).
    pose proof (load_nonneg (t_assignments d) b). pose proof (load_le_total (t_assignments d) b). lia. }
  pose proof (denote_assign now k d Hint) as Hden. pose proof (least_spec (candidates SkipLocked ∅ d)) as Hl.
  destruct (transaction_reliable now (Postgres.assign_tx k) p Hr) as (p' & Hr' & _ & Hcase). fold d in Hcase.
  destruct (least _) as [[b c]|].
  - destruct Hl as [[Hb ->]%candidates_active Hmin]; [|done].
    destruct Hden as (r & d' & Hd & Heff). rewrite Hd in Hcase. destruct Hcase as [-> Hdb].
    assert (Hex' : exact d').
    { eapply exact_assigned_on; [done| |done]. by apply elem_of_active in Hb as Hh; split; [|apply (ex_healthy d)]. }
    assert (Hne : active d ≠ ∅) by set_solver. destruct Heff as [Hbk Heff].
    destruct (t_assignments d !! k) as [a|] eqn:Hk.
    + destruct Heff as [-> ->]. destruct (GetAssignment_live k p' Hr') as (p2 & -> & Hr2 & Hd2).
      rewrite Hdb, Hk. eexists _, p2. split; [done|]. rewrite Hd2, Hdb. do 3 (split; [done|]).
      rewrite decide_False by done. exists a. split; [done|]. split; [by rewrite insert_id|]. by left.
    + destruct Heff as (-> & Ha & _). eexists _, p'. split; [done|]. rewrite Hdb. do 3 (split; [done|]).
      rewrite decide_False by done. eexists. split; [done|]. split; [done|]. right. split; [done|]. split; [by rewrite Hk|].
      split; [done|]. intros b' Hb'. rewrite !delete_id by done. simpl.
      apply (Hmin (b', load (t_assignments d) b')). by apply candidates_active.
  - rewrite Hden in Hcase. destruct Hcase as [-> Hdb].
    assert (He : active d = ∅).
    { apply set_eq. intros b. split; [|set_solver]. intros Hb.
      assert (Hin : (b, load (t_assignments d) b) ∈ candidates SkipLocked ∅ d) by (by apply candidates_active).
      rewrite Hl in Hin. by apply not_elem_of_nil in Hin. }
    eexists _, p'. split; [done|]. rewrite Hdb. do 3 (split; [done|]). by rewrite decide_True.
Qed.

(** An existing assignment stands whether or not its backend is active. *)
#[export, refine] Instance postgres_assign_spec : AssignSpec (PostgresStore P) := {| stands _ _ := True |}.
Proof.
  - intros now k s [Hr Hex] Hact Htot. cbn in *. unfold via, pg_live.
    destruct (AssignLeastLoaded_live now k (pg s) Hr Hex Htot) as (res & p' & -> & Hr' & Hex' & Hb & Hcase).
    rewrite decide_False in Hcase by done. destruct Hcase as (a & -> & Ht & Hleast).
    exists a, (mkStore p'). simpl. do 2 (split; [done|]). split; [by apply active_backends_eq|done].
  - intros now k s [Hr Hex] Hact Htot. cbn in *. unfold via, pg_live.
    destruct (AssignLeastLoaded_live now k (pg s) Hr Hex Htot) as (res & p' & -> & Hr' & Hex' & Hb & Hcase).
    rewrite decide_True in Hcase by done. destruct Hcase as (-> & Ht).
    exists ErrNoRows, (mkStore p'). simpl. do 2 (split; [done|]). split; [by apply active_backends_eq|by left].
Defined.

(** ** What PostgresStore promises *)

(** C11. [AssignLeastLoaded] of a reachable PostgresStore, on every branch: it
    keeps every count equal to the load of its backend and leaves the active
    set and the other keys alone.  With no active backend it reports
    sql.ErrNoRows, also for a key that has an assignment.  Otherwise it returns the
    assignment the table then holds: the existing one, wherever it points, or
    a new one of weight 1 on an active backend with the least load. *)
Theorem postgres_assign_contract now k s :
  live s → total (tbl s) + 1 < two53 →
  ∃ res s', AssignLeastLoaded now k s = (res, s') ∧ live s' ∧ act s' = act s ∧
    if decide (act s = ∅) then res = (None, Some ErrNoRows) ∧ tbl s' = tbl s
    else ∃ a, res = (Some a, None) ∧ tbl s' = <[k := a]> (tbl s) ∧
      assigned_least (λ _ _, True) (tbl s) (act s) k a.
Proof.
  intros [Hr Hex] Htot. cbn in *. unfold via, pg_live.
  destruct (AssignLeastLoaded_live now k (pg s) Hr Hex Htot) as (res & p' & -> & Hr' & Hex' & Hb & Hcase).
  exists res, (mkStore p'). simpl. do 2 (split; [done|]). split; [by apply active_backends_eq|done].
Qed.

(** C39. The bulk operations of PostgresStore are atomic, on a server that may
    fail at any statement: a bulk assignment or deletion that reports success
    has taken its whole effect on assignments and counts; one that reports an
    error has taken its whole effect (the answer to the commit was lost) or
    none, and then reports no key as assigned. *)
Theorem postgres_bulk_atomic s :
  (∀ now entries m err s', BulkAssign now entries s = ((m, err), s') →
     let '(d, d') := (db (pg s), db (pg s')) in
     match err with
     | None => m = e_Backend <$> fresh_entries (t_assignments d) entries ∧
               (entries = ∅ ∧ d' = d ∨ bulk_assigned now entries d d')
     | Some _ => m = ∅ ∧ (d' = d ∨ bulk_assigned now entries d d')
     end) ∧
  (∀ keys err s', BulkDeleteAssignments keys s = (err, s') →
     let '(d, d') := (db (pg s), db (pg s')) in
     match err with
     | None => keys = [] ∧ d' = d ∨ bulk_deleted keys d d'
     | Some _ => d' = d ∨ bulk_deleted keys d d'
     end).
Proof.
  split.
  - intros now entries m err s'. cbn. unfold via, Postgres.BulkAssign. case_bool_decide as Hsz.
    { intros [= <- <- <-]. apply map_size_empty_inv in Hsz. fold_leibniz. subst entries.
      unfold fresh_entries. rewrite map_filter_empty, fmap_empty. auto. }
    destruct (Postgres.transaction now _ (pg s)) as [r p'] eqn:Htx. apply transaction_atomic in Htx.
    destruct r as [m'|e]; intros [= <- <- <-]; simpl.
    + apply runs_bulk_assign in Htx as [-> ?]. auto.
    + split; [done|]. destruct Htx as [?|(m' & [_ ?]%runs_bulk_assign)]; auto.
  - intros keys err s'. cbn. unfold via, Postgres.BulkDeleteAssignments.
    destruct keys as [|k ks]; [intros [= <- <-]; auto|].
    destruct (Postgres.transaction 0 _ (pg s)) as [r p'] eqn:Htx. apply transaction_atomic in Htx.
    destruct r as [u|e]; intros [= <- <-]; simpl.
    + right. by eapply runs_bulk_delete.
    + destruct Htx as [?|(u & ?%runs_bulk_delete)]; auto.
Qed.

(** C12. The bulk operations of a reachable PostgresStore keep every count equal
    to the load of its backend.  [BulkAssign], for active backends and up to
    21844 entries whose weights fit an INTEGER, assigns exactly the keys that had
    no assignment and reports exactly those.  [BulkDeleteAssignments] removes exactly the
    given keys, whatever keys are repeated or unassigned. *)
Theorem postgres_bulk_contract s :
  live s →
  (∀ now entries,
     timestamptz now = true → Z.of_nat (size entries) ≤ 21844 →
     (∀ k e, entries !! k = Some e → e_Weight e < 2147483648 ∧ e_Backend e ∈ act s) →
     total (tbl s) + entries_weight entries < two53 →
     ∃ s', BulkAssign now entries s = ((e_Backend <$> fresh_entries (tbl s) entries, None), s') ∧
       live s' ∧ act s' = act s ∧
       (∀ k, tbl s' !! k = match tbl s !! k with
                           | Some a => Some a
                           | None => entry_assignment (micros now) <$> entries !! k
                           end)) ∧
  (∀ keys, Z.of_nat (length keys) ≤ 65535 → total (tbl s) < two53 →
     ∃ s', BulkDeleteAssignments keys s = (None, s') ∧ live s' ∧ act s' = act s ∧
       ∀ k, tbl s' !! k = if decide (k ∈ keys) then None else tbl s !! k).
Proof.
  intros [Hr Hex]. cbn. unfold via, pg_live. split.
  - intros now entries Hts Hn He Htot.
    destruct (BulkAssign_live now entries (pg s)) as (p' & -> & Hr' & Hex' & Hb & Ha & _); try done.
    + intros k e Hk. apply effective_int4. by apply (He k).
    + intros k e Hk. by apply (He k).
    + unfold max_params. lia.
    + exists (mkStore p'). simpl. do 2 (split; [done|]). split; [by apply active_backends_eq|].
      intros k. rewrite Ha, lookup_union, lookup_fmap, lookup_fresh_entries.
      destruct (t_assignments (db (pg s)) !! k); simpl; [done|]. by destruct (entries !! k).
  - intros keys Hn Htot.
    destruct (BulkDelete_live keys (pg s)) as (p' & -> & Hr' & Hex' & Hb & Ha & _); try done.
    exists (mkStore p'). simpl. do 2 (split; [done|]). split; [by apply active_backends_eq|].
    intros k. rewrite Ha. apply lookup_without.
Qed.

(** A backend that is removed keeps its users in PostgresStore: an
    on-demand assignment of a user who is on it still answers with it, while
    other backends are active. *)
Theorem postgres_keeps_removed now k a s :
  live s → total (tbl s) + 1 < two53 → tbl s !! k = Some a → (act s ∖ {[Backend a]}) ≠ ∅ →
  ∃ s1 s2, RemoveBackend (Backend a) s = (None, s1) ∧ (Backend a ∉ act s1) ∧
    AssignLeastLoaded now k s1 = ((Some a, None), s2) ∧ tbl s2 = tbl s.
Proof.
  intros Hl Htot Ha Hact. destruct (RemoveBackend_spec (Backend a) s Hl) as (s1 & Hr & Hl1 & Ha1 & Ht1).
  exists s1. destruct (AssignLeastLoaded_spec now k s1) as (a' & s2 & Has & _ & _ & Ht2 & Hleast);
    [done|by rewrite Ha1|by rewrite Ht1|]. exists s2. rewrite Ht1 in *.
  assert (a' = a) as ->.
  { destruct Hleast as [[Hk _]|(_ & Hno & _)]; [congruence|]. by destruct (Hno a Ha). }
  rewrite Ha1. split; [done|]. split; [set_solver|]. split; [done|]. rewrite Ht2. by rewrite insert_id.
Qed.
End store.

(** ** On the in-memory server *)

Module PostgresExamples.
#[local] Existing Instance map_iter_canonical.

Definition on (b : string) (w : Z) : Assignment := mkAssignment b 0 "assignment" w.

(** Three backends, [b3] down; [u1] weighs 3 on [b1], [u2] 2 on [b2], [u3] 1 on
    [b3]. *)
Definition ex_tables : pgdb :=
  mkPg {["b1" := true; "b2" := true; "b3" := false]}
       {["u1" := on "b1" 3; "u2" := on "b2" 2; "u3" := on "b3" 1]}
       {["b1" := 3; "b2" := 2; "b3" := 1]}.

Definition ex_pg (fates : list fate) : PostgresStore mem := mkStore (mkMem ex_tables None ∅ fates).

(** Deciding the invariant on concrete tables. *)
Definition exactb (d : pgdb) : bool :=
  forallb (λ p, (1 <=? Weight p.2) && int4 (Weight p.2) && bool_decide (is_Some (t_counts d !! Backend p.2)))
    (map_to_list (t_assignments d)) &&
  forallb (λ p, p.2 =? load (t_assignments d) p.1) (map_to_list (t_counts d)) &&
  forallb (λ p, negb p.2 || bool_decide (is_Some (t_counts d !! p.1))) (map_to_list (t_backends d)).

Lemma exactb_ok d : exactb d = true → exact d.
Proof.
  unfold exactb. rewrite !andb_true_iff, !forallb_forall. intros [[Ha Hc] Hb].
  assert (Hrow : ∀ k a, t_assignments d !! k = Some a →
    1 ≤ Weight a ∧ int4 (Weight a) = true ∧ is_Some (t_counts d !! Backend a)).
  { intros k a Hk%elem_of_map_to_list%list_elem_of_In. specialize (Ha _ Hk). simpl in Ha.
    bool_prop. done. }
  split.
  - intros k a Hk. destruct (Hrow k a Hk) as (? & ? & _). done.
  - intros b c Hk%elem_of_map_to_list%list_elem_of_In. specialize (Hc _ Hk). simpl in Hc. by bool_prop.
  - intros k a Hk. by apply (Hrow k a Hk).
  - intros b. unfold healthy. destruct (t_backends d !! b) as [[]|] eqn:Hk; simpl; [|done..].
    intros _. apply elem_of_map_to_list, list_elem_of_In in Hk. specialize (Hb _ Hk). simpl in Hb.
    by bool_prop.
Qed.

Lemma ex_pg_live : live (ex_pg []).
Proof. split; [done|]. apply exactb_ok. by vm_compute. Qed.

Lemma postgres_assign_contract_witness :
  (AssignLeastLoaded 5000 "u4" (ex_pg [])).1 = (Some (mkAssignment "b2" 5000 "assignment" 1), None) ∧
  (AssignLeastLoaded 5000 "u3" (ex_pg [])).1 = (Some (on "b3" 1), None) ∧
  ∃ res s', AssignLeastLoaded 5000 "u4" (ex_pg []) = (res, s') ∧ live s' ∧ act s' = act (ex_pg []).
Proof.
  split; [by vm_compute|]. split; [by vm_compute|].
  destruct (postgres_assign_contract 5000 "u4" (ex_pg [])) as (res & s' & Ha & Hl & Hact & _).
  - apply ex_pg_live.
  - by vm_compute.
  - exists res, s'. split; [exact Ha|]. split; [exact Hl|exact Hact].
Defined.

(** The third call, the first UPDATE of a count, fails: nothing is left of the
    INSERT. *)
Lemma postgres_bulk_atomic_witness :
  ∃ err s', BulkAssign 0 {["u7" := mkEntry "b1" 4]} (ex_pg [Served; Served; Lost]) = ((∅, Some err), s') ∧
    db (pg s') = ex_tables.
Proof.
  destruct (BulkAssign 0 {["u7" := mkEntry "b1" 4]} (ex_pg [Served; Served; Lost])) as [[m [err|]] s'] eqn:Hb.
  - destruct (postgres_bulk_atomic (ex_pg [Served; Served; Lost])) as [Hbulk _].
    apply Hbulk in Hb as Hm. simpl in Hm. destruct Hm as [-> _]. exists err, s'. split; [done|].
    transitivity (db (pg (BulkAssign 0 {["u7" := mkEntry "b1" 4]} (ex_pg [Served; Served; Lost])).2));
      [by rewrite Hb|by vm_compute].
  - exfalso. apply (f_equal (λ x, x.1.2)) in Hb. by vm_compute in Hb.
Defined.

Lemma postgres_bulk_contract_witness :
  (BulkAssign 5000 {["u3" := mkEntry "b1" 2; "u8" := mkEntry "b1" 0]} (ex_pg [])).1
    = ({["u8" := "b1"]}, None) ∧
  ∃ s', BulkDeleteAssignments ["u1"; "u1"; "u9"] (ex_pg []) = (None, s') ∧ live s' ∧
    ∀ k, tbl s' !! k = if decide (k ∈ ["u1"; "u1"; "u9"]) then None else tbl (ex_pg []) !! k.
Proof.
  split; [by vm_compute|].
  destruct (postgres_bulk_contract (ex_pg [])) as [_ Hdel]; [apply ex_pg_live|].
  destruct (Hdel ["u1"; "u1"; "u9"]) as (s' & Hd & Hl & _ & Ht).
  - by vm_compute.
  - by vm_compute.
  - exists s'. split; [exact Hd|]. split; [exact Hl|exact Ht].
Defined.

Lemma postgres_keeps_removed_witness :
  ∃ s1 s2, RemoveBackend "b1" (ex_pg []) = (None, s1) ∧ ("b1" ∉ act s1) ∧
    AssignLeastLoaded 5000 "u1" s1 = ((Some (on "b1" 3), None), s2) ∧ tbl s2 = tbl (ex_pg []).
Proof.
  apply (postgres_keeps_removed 5000 "u1" (on "b1" 3) (ex_pg [])).
  - apply ex_pg_live.
  - by vm_compute.
  - by vm_compute.
  - by vm_compute.
Defined.
End PostgresExamples.

End StorePostgres.
