(* ===== verification/PgConcurrency.v ===== *)
(** * Concurrent transactions of PostgresStore

    The replicas of the proxy run the transactions of store_postgres.go against
    one database, at PostgreSQL's default level (READ COMMITTED).  This file
    interleaves them statement by statement, a multi-row statement row by row,
    with the locks the server takes until the end of the transaction: [rowlock]
    for the rows of [assignment_counts] that FOR UPDATE and UPDATE lock, [belock]
    for the rows of [backends] that FOR UPDATE locks with them, [keylock] for the
    keys a transaction has inserted or deleted, on which an INSERT of the same key
    waits, and a DELETE that sees the row.  Uncommitted writes are kept with their
    transaction; a DELETE sees the rows that were committed when it began.  The
    counts stay equal to the loads in every interleaving, except for a backend
    that a bulk assignment named while it had no row of counts; on-demand
    assignments alone never deadlock; bulk assignments can.  No replica starts
    meanwhile: migrate rebuilds the counts. *)
From stdpp Require Import base gmap strings list fin_maps relations.
From Stdlib Require Import ZArith Lia.
From S2P Require Import Prelude Go PgClient.
Import PG.
Local Open Scope Z_scope.

Module PgConcurrency.

(** ** Data *)

(** A row of [assignments]: its backend and its weight. *)
Abbreviation arow := (string * Z)%type.

Definition on_backend (b : string) (r : arow) : Z := if decide (r.1 = b) then r.2 else 0.

Definition loadc (m : gmap string arow) (b : string) : Z := msum (λ _ r, on_backend b r) m.

(** One row of a statement still to be done. *)
Inductive op :=
  | Ins (k b : string) (w : Z)     (* INSERT ... ON CONFLICT DO NOTHING *)
  | Del (k : string) (at_ : nat).  (* DELETE ... WHERE routing_key IN (...), with its snapshot *)

(** What a transaction has written: inserted rows, deleted rows (as they were),
    new values of counts. *)
Record writes := mkWrites {
  w_put : gmap string arow;
  w_del : gmap string arow;
  w_cnt : gmap string Z
}.

Definition no_writes : writes := mkWrites ∅ ∅ ∅.

(** [countDeltas] of a transaction. *)
Definition delta (w : writes) (b : string) : Z := loadc (w_put w) b - loadc (w_del w) b.

Inductive tx :=
  | Pick (k : string)                              (* before SELECT ... FOR UPDATE SKIP LOCKED *)
  | Wait (k : string) (bs : list string)           (* in SELECT ... FOR UPDATE, at the first of bs *)
  | Writing (ops : list op) (w : writes)           (* in the INSERT or DELETE *)
  | Counting (adds : list (string * Z)) (w : writes).  (* UPDATEs of the counts left *)

(** [commits] counts the commits, and [born] says after which one a row of
    [assigns] came.  [early] is not part of the database: it collects the backends
    that a bulk assignment named while they had no row of counts. *)
Record sys := mkSys {
  assigns : gmap string arow;      (* committed *)
  counts : gmap string Z;          (* committed *)
  ok : gset string;                (* healthy backends *)
  born : gmap string nat;
  commits : nat;
  keylock : gmap string nat;
  rowlock : gmap string nat;
  belock : gmap string nat;
  txs : gmap nat tx;
  early : gset string
}.

Definition set_tx (t : nat) (x : tx) (s : sys) : sys :=
  mkSys (assigns s) (counts s) (ok s) (born s) (commits s) (keylock s) (rowlock s) (belock s) (<[t := x]> (txs s)) (early s).

Definition set_ok (o : gset string) (s : sys) : sys :=
  mkSys (assigns s) (counts s) o (born s) (commits s) (keylock s) (rowlock s) (belock s) (txs s) (early s).

Definition set_counts (c : gmap string Z) (s : sys) : sys :=
  mkSys (assigns s) c (ok s) (born s) (commits s) (keylock s) (rowlock s) (belock s) (txs s) (early s).

Definition name_early (bs : list string) (s : sys) : sys :=
  mkSys (assigns s) (counts s) (ok s) (born s) (commits s) (keylock s) (rowlock s) (belock s) (txs s)
    (list_to_set (filter (λ b, counts s !! b = None) bs) ∪ early s).

Definition lock_key (k : string) (t : nat) (s : sys) : sys :=
  mkSys (assigns s) (counts s) (ok s) (born s) (commits s) (<[k := t]> (keylock s)) (rowlock s) (belock s) (txs s) (early s).

(** UPDATE assignment_counts *)
Definition lock_row (b : string) (t : nat) (s : sys) : sys :=
  mkSys (assigns s) (counts s) (ok s) (born s) (commits s) (keylock s) (<[b := t]> (rowlock s)) (belock s) (txs s) (early s).

(** SELECT ... JOIN ... FOR UPDATE: the rows of both tables *)
Definition lock_both (b : string) (t : nat) (s : sys) : sys :=
  mkSys (assigns s) (counts s) (ok s) (born s) (commits s) (keylock s) (<[b := t]> (rowlock s)) (<[b := t]> (belock s)) (txs s) (early s).

(** The end of a transaction: its locks are released. *)
Definition finish (t : nat) (s : sys) : sys :=
  mkSys (assigns s) (counts s) (ok s) (born s) (commits s) (filter (λ p, p.2 ≠ t) (keylock s))
    (filter (λ p, p.2 ≠ t) (rowlock s)) (filter (λ p, p.2 ≠ t) (belock s)) (delete t (txs s)) (early s).

(** COMMIT: its writes become visible. *)
Definition publish (w : writes) (s : sys) : sys :=
  mkSys (w_put w ∪ (assigns s ∖ w_del w)) (w_cnt w ∪ counts s) (ok s)
    (((λ _, S (commits s)) <$> w_put w) ∪ born s) (S (commits s)) (keylock s) (rowlock s) (belock s) (txs s) (early s).

(** ** Steps *)

(** The rows the SELECT orders: healthy backends, without those locked. *)
Definition rows `{!MapIter} (skip_locked : bool) (s : sys) : list (string * Z) :=
  filter (λ r, r.1 ∈ ok s ∧ (skip_locked = false ∨ rowlock s !! r.1 = None ∧ belock s !! r.1 = None)) (range 80 (counts s)).

(** ORDER BY ac.total_weight ASC *)
Definition by_weight (r r' : string * Z) : Prop := r.2 ≤ r'.2.

#[export] Instance by_weight_dec r r' : Decision (by_weight r r').
Proof. unfold by_weight. apply _. Defined.

#[export] Instance by_weight_total : Total by_weight.
Proof. intros r r'. unfold by_weight. lia. Qed.

(** The committed row of [k], if a statement that began after [n] commits sees
    it. *)
Definition visible (n : nat) (k : string) (s : sys) : option arow :=
  if (default 0%nat (born s !! k) <=? n)%nat then assigns s !! k else None.

(** May [t] take a lock whose holder is [o]? *)
Definition free (t : nat) (o : option nat) : Prop := o = None ∨ o = Some t.

Section steps.
Context `{!MapIter}.

(** The steps of transactions that are under way. *)
Inductive run : sys → sys → Prop :=
  (* SELECT ... SKIP LOCKED found a row *)
  | run_pick t k b c s :
      txs s !! t = Some (Pick k) → least (rows true s) = Some (b, c) →
      run s (set_tx t (Writing [Ins k b 1] no_writes) (lock_both b t s))
  (* none: the second SELECT goes through the rows in order *)
  | run_pick_locked t k rs s :
      txs s !! t = Some (Pick k) → least (rows true s) = None →
      rs ≡ₚ rows false s → Sorted by_weight rs →
      run s (set_tx t (Wait k rs.*1) s)
  (* no row left: sql.ErrNoRows *)
  | run_no_rows t k s :
      txs s !! t = Some (Wait k []) →
      run s (finish t s)
  (* the locks are free and the row is still healthy *)
  | run_locked t k b bs s :
      txs s !! t = Some (Wait k (b :: bs)) → rowlock s !! b = None → belock s !! b = None → b ∈ ok s →
      run s (set_tx t (Writing [Ins k b 1] no_writes) (lock_both b t s))
  (* it is no longer healthy: the next one, with this one locked *)
  | run_gone t k b bs s :
      txs s !! t = Some (Wait k (b :: bs)) → rowlock s !! b = None → belock s !! b = None → b ∉ ok s →
      run s (set_tx t (Wait k bs) (lock_both b t s))
  | run_insert t k b n ops w s :
      txs s !! t = Some (Writing (Ins k b n :: ops) w) → keylock s !! k = None → assigns s !! k = None →
      run s (set_tx t (Writing ops (mkWrites (<[k := (b, n)]> (w_put w)) (w_del w) (w_cnt w)))
               (lock_key k t s))
  (* ON CONFLICT DO NOTHING *)
  | run_conflict t k b n ops w s :
      txs s !! t = Some (Writing (Ins k b n :: ops) w) →
      (keylock s !! k = None ∧ is_Some (assigns s !! k)) ∨ keylock s !! k = Some t →
      run s (set_tx t (Writing ops w) s)
  | run_delete t k n r ops w s :
      txs s !! t = Some (Writing (Del k n :: ops) w) → visible n k s = Some r → keylock s !! k = None →
      run s (set_tx t (Writing ops (mkWrites (w_put w) (<[k := r]> (w_del w)) (w_cnt w)))
               (lock_key k t s))
  (* no row, one that is not committed or came later, or one it has deleted *)
  | run_delete_none t k n ops w s :
      txs s !! t = Some (Writing (Del k n :: ops) w) → visible n k s = None ∨ keylock s !! k = Some t →
      run s (set_tx t (Writing ops w) s)
  (* the loop over the rows returned, then over [countDeltas] in some order *)
  | run_deltas t w adds s :
      txs s !! t = Some (Writing [] w) → NoDup adds.*1 →
      (∀ b, mget (list_to_map adds) b = delta w b) →
      (∀ b, b ∈ adds.*1 ↔ ∃ k r, (w_put w !! k = Some r ∨ w_del w !! k = Some r) ∧ r.1 = b) →
      run s (set_tx t (Counting adds w) s)
  | run_update t b n c adds w s :
      txs s !! t = Some (Counting ((b, n) :: adds) w) → counts s !! b = Some c →
      free t (rowlock s !! b) →
      run s (set_tx t (Counting adds (mkWrites (w_put w) (w_del w) (<[b := c + n]> (w_cnt w))))
               (lock_row b t s))
  (* WHERE backend = $2 matches no row *)
  | run_update_none t b n adds w s :
      txs s !! t = Some (Counting ((b, n) :: adds) w) → counts s !! b = None →
      run s (set_tx t (Counting adds w) s)
  | run_commit t w s :
      txs s !! t = Some (Counting [] w) →
      run s (finish t (publish w s)).

(** Everything that happens to the database: transactions begin, run, and may
    fail at any point; backends come and go. *)
Inductive step : sys → sys → Prop :=
  | step_run s s' : run s s' → step s s'
  | step_abort t x s : txs s !! t = Some x → step s (finish t s)
  | step_assign t k s : txs s !! t = None → step s (set_tx t (Pick k) s)
  | step_bulk t (entries : list (string * arow)) s :
      txs s !! t = None →
      step s (set_tx t (Writing ((λ e, Ins e.1 e.2.1 e.2.2) <$> entries) no_writes) (name_early entries.*2.*1 s))
  | step_delete t keys s :
      txs s !! t = None → step s (set_tx t (Writing ((λ k, Del k (commits s)) <$> keys) no_writes) s)
  (* AddBackend: two statements *)
  | step_upsert b s :
      belock s !! b = None → step s (set_ok ({[b]} ∪ ok s) s)
  | step_insert_count b s :
      counts s !! b = None → step s (set_counts (<[b := 0]> (counts s)) s)
  (* RemoveBackend *)
  | step_remove b s :
      belock s !! b = None → step s (set_ok (ok s ∖ {[b]}) s).
End steps.

(** ** The invariant *)

Definition knows (s : sys) (b : string) : Prop := is_Some (counts s !! b).

(** Its rows are counted, or a bulk assignment was too early. *)
Definition booked (s : sys) (b : string) : Prop := knows s b ∨ b ∈ early s.

(** What [t] has written is under its locks, and the new counts are the
    committed ones moved by its deltas. *)
Record writes_ok (s : sys) (t : nat) (w : writes) : Prop := {
  wo_put k r : w_put w !! k = Some r → keylock s !! k = Some t ∧ assigns s !! k = None ∧ booked s r.1;
  wo_del k r : w_del w !! k = Some r → keylock s !! k = Some t ∧ assigns s !! k = Some r;
  wo_cnt b v : w_cnt w !! b = Some v →
    rowlock s !! b = Some t ∧ ∃ c, counts s !! b = Some c ∧ v = c + delta w b
}.

Definition tx_ok (s : sys) (t : nat) (x : tx) : Prop :=
  match x with
  | Pick _ => True
  | Wait _ bs => ∀ b, b ∈ bs → knows s b
  | Writing ops w =>
      writes_ok s t w ∧ w_cnt w = ∅ ∧ (∀ k b n, Ins k b n ∈ ops → booked s b)
  | Counting adds w =>
      writes_ok s t w ∧ (∀ b n, (b, n) ∈ adds → n = delta w b ∧ booked s b) ∧
      (∀ b, delta w b ≠ 0 → b ∈ adds.*1 ∨ is_Some (w_cnt w !! b) ∨ b ∈ early s)
  end.

(** The committed counts are the loads. *)
Definition counts_exact (s : sys) : Prop :=
  ∀ b c, b ∉ early s → counts s !! b = Some c → c = loadc (assigns s) b.

Record inv (s : sys) : Prop := {
  inv_exact : counts_exact s;
  inv_known k r : assigns s !! k = Some r → booked s r.1;
  inv_txs t x : txs s !! t = Some x → tx_ok s t x
}.

(** What a step of others leaves alone. *)
Record frame (t : nat) (s s' : sys) : Prop := {
  fr_key k : keylock s !! k = Some t → keylock s' !! k = Some t ∧ assigns s' !! k = assigns s !! k;
  fr_row b : rowlock s !! b = Some t →
    rowlock s' !! b = Some t ∧ ∀ c, counts s !! b = Some c → counts s' !! b = Some c;
  fr_knows b : knows s b → knows s' b;
  fr_early b : b ∈ early s → b ∈ early s'
}.

Lemma fr_booked t s s' b : frame t s s' → booked s b → booked s' b.
Proof. intros Hf [Hb|Hb]; [left; by apply (fr_knows t s)|right; by apply (fr_early t s)]. Qed.

Lemma writes_ok_frame s s' t w : frame t s s' → writes_ok s t w → writes_ok s' t w.
Proof.
  intros Hf Hw. split.
  - intros k r Hk. destruct (wo_put _ _ _ Hw k r Hk) as (Hl & Ha & Hn).
    destruct (fr_key _ _ _ Hf k Hl) as [? ->]. split; [done|]. split; [done|]. by apply (fr_booked t s).
  - intros k r Hk. destruct (wo_del _ _ _ Hw k r Hk) as (Hl & Ha).
    by destruct (fr_key _ _ _ Hf k Hl) as [? ->].
  - intros b v Hb. destruct (wo_cnt _ _ _ Hw b v Hb) as (Hl & c & Hc & Hv).
    destruct (fr_row _ _ _ Hf b Hl) as [? Hcs]. eauto.
Qed.

Lemma tx_ok_frame s s' t x : frame t s s' → tx_ok s t x → tx_ok s' t x.
Proof.
  intros Hf. pose proof (writes_ok_frame s s' t) as Hw. pose proof (fr_knows t s s' Hf) as Hk.
  pose proof (λ b, fr_booked t s s' b Hf) as Hb. pose proof (fr_early t s s' Hf) as He.
  destruct x as [k|k bs|ops w|adds w]; simpl; [done|auto|naive_solver|].
  intros (? & ? & Hall). split; [auto|]. split; [naive_solver|]. intros b [?|[?|?]]%Hall; auto.
Qed.

Lemma frame_set_tx t t' x s : frame t s (set_tx t' x s).
Proof. split; naive_solver. Qed.

Lemma frame_lock_key t t' k s : keylock s !! k = None → frame t s (lock_key k t' s).
Proof.
  intros Hk. split; simpl; [|naive_solver..]. intros k' Hk'. rewrite lookup_insert_ne; [done|congruence].
Qed.

Lemma frame_lock_row t t' b s : t ≠ t' → free t' (rowlock s !! b) → frame t s (lock_row b t' s).
Proof.
  intros Hne [Hb|Hb]; (split; simpl; [naive_solver| |naive_solver..]); intros b' Hb';
    (rewrite lookup_insert_ne; [done|congruence]).
Qed.

Lemma frame_lock_both t t' b s : t ≠ t' → rowlock s !! b = None → frame t s (lock_both b t' s).
Proof.
  intros Hne Hb. split; simpl; [naive_solver| |naive_solver..]. intros b' Hb'. rewrite lookup_insert_ne; [done|congruence].
Qed.

Lemma frame_name_early t bs s : frame t s (name_early bs s).
Proof. split; simpl; [naive_solver..|set_solver]. Qed.

Lemma frame_finish t t' s : t ≠ t' → frame t s (finish t' s).
Proof.
  intros Hne. split; simpl; [| |done..]; intros k Hk; (split; [|done]);
    by apply map_lookup_filter_Some.
Qed.

Lemma knows_publish w s b : knows s b → knows (publish w s) b.
Proof. intros Hb. unfold knows. simpl. apply lookup_union_is_Some. by right. Qed.

Lemma frame_publish t t' w s : t ≠ t' → writes_ok s t' w → frame t s (publish w s).
Proof.
  intros Hne Hw. split; simpl.
  - intros k Hk. split; [done|].
    assert (Hp : w_put w !! k = None).
    { destruct (w_put w !! k) as [r|] eqn:Hr; [|done].
      destruct (wo_put _ _ _ Hw k r Hr) as [? _]. congruence. }
    assert (Hd : w_del w !! k = None).
    { destruct (w_del w !! k) as [r|] eqn:Hr; [|done].
      destruct (wo_del _ _ _ Hw k r Hr) as [? _]. congruence. }
    rewrite lookup_union_r by done. rewrite lookup_difference, Hd. done.
  - intros b Hb. split; [done|]. intros c Hc. rewrite lookup_union_r; [done|].
    destruct (w_cnt w !! b) as [v|] eqn:Hv; [|done].
    destruct (wo_cnt _ _ _ Hw b v Hv) as [? _]. congruence.
  - intros b. apply knows_publish.
  - done.
Qed.

Lemma booked_publish w s b : booked s b → booked (publish w s) b.
Proof. intros [?|?]; [left; by apply knows_publish|by right]. Qed.

(** Replacing one transaction, after a step that the others do not notice. *)
Lemma inv_replace t x s s' :
  inv s → counts_exact s' → (∀ k r, assigns s' !! k = Some r → booked s' r.1) →
  (∀ t', t' ≠ t → txs s' !! t' = txs s !! t' ∧ frame t' s s') →
  txs s' !! t = x → (∀ y, x = Some y → tx_ok s' t y) → inv s'.
Proof.
  intros Hinv He Hk Hothers Hx Hok. split; [done|done|]. intros t' y Hy.
  destruct (decide (t' = t)) as [->|Hne]; [rewrite Hx in Hy; by apply Hok|].
  destruct (Hothers t' Hne) as [Heq Hf]. rewrite Heq in Hy.
  eapply tx_ok_frame; [exact Hf|]. by apply (inv_txs s).
Qed.

(** ** Commits keep the counts exact *)

Lemma loadc_publish w s t b :
  writes_ok s t w → loadc (w_put w ∪ (assigns s ∖ w_del w)) b = loadc (assigns s) b + delta w b.
Proof.
  intros Hw. unfold loadc, delta. rewrite msum_union.
  - assert (Hsub : w_del w ⊆ assigns s).
    { apply map_subseteq_spec. intros k r Hk. by apply (wo_del s t w). }
    rewrite <- (map_difference_union (w_del w) (assigns s) Hsub) at 2.
    rewrite msum_union by (apply map_disjoint_difference_r1; done). unfold loadc. lia.
  - apply map_disjoint_spec. intros k r r' Hp Ha%lookup_difference_Some.
    destruct (wo_put _ _ _ Hw k r Hp) as (_ & Hn & _). destruct Ha as [Ha _]. congruence.
Qed.

Lemma commit_exact t w s :
  inv s → txs s !! t = Some (Counting [] w) →
  counts_exact (publish w s) ∧ (∀ k r, assigns (publish w s) !! k = Some r → booked (publish w s) r.1).
Proof.
  intros Hinv Ht. destruct (inv_txs s Hinv t _ Ht) as (Hw & _ & Hall). split.
  - intros b c He. simpl in He |- *. rewrite (loadc_publish w s t b Hw). intros [Hc|[Hn Hc]]%lookup_union_Some_raw.
    + destruct (wo_cnt _ _ _ Hw b c Hc) as (_ & c0 & Hc0 & ->). by rewrite (inv_exact s Hinv b c0 He Hc0).
    + rewrite (inv_exact s Hinv b c He Hc). destruct (decide (delta w b = 0)) as [->|Hd]; [lia|].
      destruct (Hall b Hd) as [Hin|[[v Hv]|?]]; [by apply not_elem_of_nil in Hin|congruence|done].
  - intros k r. simpl. intros [Hp|[_ [Ha _]%lookup_difference_Some]]%lookup_union_Some_raw.
    + apply booked_publish. by apply (wo_put s t w Hw k).
    + apply booked_publish. by apply (inv_known s Hinv k).
Qed.

(** ** Every step keeps the invariant *)

Section preservation.
Context `{!MapIter}.

Lemma least_elem l r0 : least l = Some r0 → r0 ∈ l.
Proof.
  revert r0. induction l as [|r l IH] using rev_ind; intros r0; [done|]. unfold least in *.
  rewrite foldl_app. simpl. rewrite elem_of_app.
  destruct (foldl _ None l) as [r'|]; [|intros [= ->]; right; left].
  destruct (r.2 <? r'.2); intros [= <-]; [right; left|left; by apply IH].
Qed.

Lemma least_row skip s b c :
  least (rows skip s) = Some (b, c) →
  counts s !! b = Some c ∧ b ∈ ok s ∧ (skip = false ∨ rowlock s !! b = None ∧ belock s !! b = None).
Proof. intros [[? ?] Hin%elem_of_range]%least_elem%list_elem_of_filter. done. Qed.

(** A step that changes neither committed table. *)
Lemma inv_local t x s s' :
  inv s → assigns s' = assigns s → counts s' = counts s → early s ⊆ early s' →
  (∀ t', t' ≠ t → txs s' !! t' = txs s !! t' ∧ frame t' s s') →
  txs s' !! t = x → (∀ y, x = Some y → tx_ok s' t y) → inv s'.
Proof.
  intros Hinv Ha Hc He. apply inv_replace; [done|..].
  - intros b c Hb. rewrite Ha, Hc. apply Hinv. set_solver.
  - unfold booked, knows. rewrite Ha, Hc. intros k r [?|?]%(inv_known s Hinv); [by left|right; set_solver].
Qed.

Lemma inv_finish t s : inv s → inv (finish t s).
Proof.
  intros Hinv. apply (inv_local t None s); simpl; try done.
  - intros t' Hne. rewrite lookup_delete_ne by done. split; [done|by apply frame_finish].
  - apply lookup_delete_eq.
Qed.

Lemma inv_set_tx t x s : inv s → tx_ok s t x → inv (set_tx t x s).
Proof.
  intros Hinv Hx. apply (inv_local t (Some x) s); simpl; try done.
  - intros t' Hne. rewrite lookup_insert_ne by done. split; [done|apply frame_set_tx].
  - apply lookup_insert_eq.
  - intros y [= <-]. eapply tx_ok_frame; [apply frame_set_tx|done].
Qed.

(** Taking the locks of both rows, of a row, or of a key. *)
Lemma inv_lock_both t b x s :
  inv s → rowlock s !! b = None → tx_ok (lock_both b t s) t x → inv (set_tx t x (lock_both b t s)).
Proof.
  intros Hinv Hb Hx. apply (inv_local t (Some x) s); simpl; try done.
  - intros t' Hne. rewrite lookup_insert_ne by done. split; [done|].
    destruct (frame_lock_both t' t b s Hne Hb). by split.
  - apply lookup_insert_eq.
  - intros y [= <-]. eapply tx_ok_frame; [apply frame_set_tx|done].
Qed.

Lemma inv_lock_row t b x s :
  inv s → free t (rowlock s !! b) → tx_ok (lock_row b t s) t x → inv (set_tx t x (lock_row b t s)).
Proof.
  intros Hinv Hb Hx. apply (inv_local t (Some x) s); simpl; try done.
  - intros t' Hne. rewrite lookup_insert_ne by done. split; [done|].
    destruct (frame_lock_row t' t b s Hne Hb). by split.
  - apply lookup_insert_eq.
  - intros y [= <-]. eapply tx_ok_frame; [apply frame_set_tx|done].
Qed.

Lemma inv_lock_key t k x s :
  inv s → keylock s !! k = None → tx_ok (lock_key k t s) t x → inv (set_tx t x (lock_key k t s)).
Proof.
  intros Hinv Hk Hx. apply (inv_local t (Some x) s); simpl; try done.
  - intros t' Hne. rewrite lookup_insert_ne by done. split; [done|].
    destruct (frame_lock_key t' t k s Hk). by split.
  - apply lookup_insert_eq.
  - intros y [= <-]. eapply tx_ok_frame; [apply frame_set_tx|done].
Qed.

Lemma writes_ok_none s t : writes_ok s t no_writes.
Proof. split; simpl; intros ? ?; by rewrite lookup_empty. Qed.

Lemma start_writing t k b s : booked s b → tx_ok s t (Writing [Ins k b 1] no_writes).
Proof.
  intros Hb. split; [apply writes_ok_none|]. split; [done|].
  intros k' b' n [= -> -> ->]%list_elem_of_singleton. done.
Qed.

(** The writes of [t] after it inserts or deletes one more row. *)
Lemma writes_ok_insert s t k b n w :
  keylock s !! k = None → assigns s !! k = None → booked s b → w_cnt w = ∅ → writes_ok s t w →
  writes_ok (lock_key k t s) t (mkWrites (<[k := (b, n)]> (w_put w)) (w_del w) (w_cnt w)).
Proof.
  intros Hk Ha Hb Hc Hw. apply (writes_ok_frame s (lock_key k t s)) in Hw; [|by apply frame_lock_key].
  split; simpl.
  - intros k' r. rewrite lookup_insert. case_decide; [|apply Hw].
    intros [= <-]. subst. by rewrite lookup_insert_eq.
  - apply Hw.
  - rewrite Hc. intros b' v. by rewrite lookup_empty.
Qed.

Lemma writes_ok_delete s t k r w :
  keylock s !! k = None → assigns s !! k = Some r → w_cnt w = ∅ → writes_ok s t w →
  writes_ok (lock_key k t s) t (mkWrites (w_put w) (<[k := r]> (w_del w)) (w_cnt w)).
Proof.
  intros Hk Ha Hc Hw. apply (writes_ok_frame s (lock_key k t s)) in Hw; [|by apply frame_lock_key].
  split; simpl.
  - apply Hw.
  - intros k' r'. rewrite lookup_insert. case_decide; [|apply Hw].
    intros [= <-]. subst. by rewrite lookup_insert_eq.
  - rewrite Hc. intros b' v. by rewrite lookup_empty.
Qed.

(** The UPDATE of one count. *)
Lemma counting_update s t b n c adds w :
  tx_ok s t (Counting ((b, n) :: adds) w) → counts s !! b = Some c → free t (rowlock s !! b) →
  tx_ok (lock_row b t s) t (Counting adds (mkWrites (w_put w) (w_del w) (<[b := c + n]> (w_cnt w)))).
Proof.
  intros (Hw & Hadds & Hall) Hc Hfree. destruct (Hadds b n) as [-> Hb]; [left|].
  assert (Hf : frame t s (lock_row b t s)).
  { split; simpl; [naive_solver| |naive_solver..]. intros b' Hb'. rewrite lookup_insert. by case_decide. }
  split; [|split].
  - apply (writes_ok_frame s _ _ _ Hf) in Hw. split; simpl; [apply Hw|apply Hw|].
    intros b' v. rewrite lookup_insert. case_decide; [|apply Hw]. subst b'. intros [= <-].
    rewrite lookup_insert_eq. split; [done|]. by exists c.
  - intros b' n' Hin. apply Hadds. by right.
  - intros b' Hd. simpl. rewrite lookup_insert_is_Some'.
    destruct (Hall b' Hd) as [[->|Hin]%elem_of_cons|[Hs|Hs]]; auto.
Qed.

(** Working out the deltas. *)
Lemma start_counting s t w adds :
  inv s → txs s !! t = Some (Writing [] w) → NoDup adds.*1 →
  (∀ b, mget (list_to_map adds) b = delta w b) →
  (∀ b, b ∈ adds.*1 ↔ ∃ k r, (w_put w !! k = Some r ∨ w_del w !! k = Some r) ∧ r.1 = b) →
  tx_ok s t (Counting adds w).
Proof.
  intros Hinv Ht Hnd Hmap Hdom. destruct (inv_txs s Hinv t _ Ht) as (Hw & _ & _).
  split; [done|]. split.
  - intros b n Hin. split.
    + rewrite <- Hmap. unfold mget. by rewrite (proj1 (elem_of_list_to_map adds b n Hnd) Hin).
    + assert (Hb : b ∈ adds.*1) by (by apply (list_elem_of_fmap_2 fst adds (b, n))).
      apply Hdom in Hb as (k & r & [Hp|Hd] & <-); [by apply (wo_put s t w Hw k)|].
      apply (inv_known s Hinv k). by apply (wo_del s t w).
  - intros b Hd. left. destruct (decide (b ∈ adds.*1)) as [|Hn]; [done|]. exfalso. apply Hd.
    rewrite <- Hmap. unfold mget. by rewrite not_elem_of_list_to_map_1.
Qed.

(** The rows of a SELECT without SKIP LOCKED. *)
Lemma rows_false rs s b : rs ≡ₚ rows false s → b ∈ rs.*1 → knows s b ∧ b ∈ ok s.
Proof.
  intros Hp (r & -> & Hr)%list_elem_of_fmap. rewrite Hp in Hr.
  apply list_elem_of_filter in Hr as [[Hok _] Hr]. destruct r as [b c]. apply elem_of_range in Hr. split; [by exists c|done].
Qed.

Lemma visible_assigned n k s r : visible n k s = Some r → assigns s !! k = Some r.
Proof. unfold visible. by case_match. Qed.

(** One operation fewer to do. *)
Lemma writing_tail s t o ops w : tx_ok s t (Writing (o :: ops) w) → tx_ok s t (Writing ops w).
Proof. intros (Hw & Hc & Hops). split; [done|]. split; [done|]. intros k b n Hin. apply (Hops k b n). by right. Qed.

Lemma run_inv s s' : run s s' → inv s → inv s'.
Proof.
  intros Hrun Hinv. destruct Hrun as
    [t k b c s Ht Hl|t k rs s Ht _ Hrs _|t k s Ht|t k b bs s Ht Hb _ _|t k b bs s Ht Hb _ _
    |t k b n ops w s Ht Hk Ha|t k b n ops w s Ht _|t k n r ops w s Ht Ha%visible_assigned Hk|t k n ops w s Ht _
    |t w adds s Ht Hnd Hmap Hdom|t b n c adds w s Ht Hc Hfree|t b n adds w s Ht Hc|t w s Ht].
  - apply least_row in Hl as (Hc & _ & [?|[Hb _]]); [done|]. apply inv_lock_both; [done|done|].
    apply start_writing. left. by exists c.
  - apply inv_set_tx; [done|]. intros b Hb. by apply (rows_false rs).
  - by apply inv_finish.
  - apply inv_lock_both; [done|done|]. apply start_writing. left. apply (inv_txs s Hinv t _ Ht). left.
  - apply inv_lock_both; [done|done|]. intros b' Hb'. apply (inv_txs s Hinv t _ Ht). by right.
  - pose proof (inv_txs s Hinv t _ Ht) as (Hw & Hc & Hops).
    apply inv_lock_key; [done|done|]. split; [|split; [done|]].
    + apply writes_ok_insert; try done. apply (Hops k b n). left.
    + intros k' b' n' Hin. apply (Hops k' b' n'). by right.
  - apply inv_set_tx; [done|]. by eapply writing_tail, inv_txs.
  - pose proof (inv_txs s Hinv t _ Ht) as (Hw & Hc & Hops).
    apply inv_lock_key; [done|done|]. split; [|split; [done|]].
    + by apply writes_ok_delete.
    + intros k' b' n' Hin. apply (Hops k' b' n'). by right.
  - apply inv_set_tx; [done|]. by eapply writing_tail, inv_txs.
  - apply inv_set_tx; [done|]. by apply start_counting.
  - apply inv_lock_row; [done|done|]. apply counting_update; [by apply (inv_txs s)|done|done].
  - apply inv_set_tx; [done|]. pose proof (inv_txs s Hinv t _ Ht) as (Hw & Hadds & Hall).
    assert (He : b ∈ early s).
    { destruct (Hadds b n) as [_ [[c Hc']|?]]; [left|congruence|done]. }
    split; [done|]. split; [intros b' n' Hin; apply Hadds; by right|].
    intros b' Hd. destruct (Hall b' Hd) as [[->|Hin]%elem_of_cons|[?|?]]; auto.
  - destruct (commit_exact t w s Hinv Ht) as [He Hk]. pose proof (inv_txs s Hinv t _ Ht) as (Hw & _ & _).
    apply (inv_replace t None s); simpl; try done.
    + intros t' Hne. rewrite lookup_delete_ne by done. split; [done|].
      destruct (frame_publish t' t w s Hne Hw) as [Hk1 Hr1 Hn1 _].
      destruct (frame_finish t' t (publish w s) Hne) as [Hk2 Hr2 Hn2 _]. split.
      * intros k Hk0. destruct (Hk1 k Hk0) as [H1 <-]. by apply Hk2.
      * intros b Hb. destruct (Hr1 b Hb) as [H1 Hc1]. destruct (Hr2 b H1) as [H2 Hc2]. auto.
      * intros b Hb. by apply Hn1.
      * done.
    + apply lookup_delete_eq.
Qed.

Lemma inv_insert_count b s : inv s → counts s !! b = None → inv (set_counts (<[b := 0]> (counts s)) s).
Proof.
  intros Hinv Hb.
  assert (Hk : ∀ b', knows s b' → is_Some (<[b := 0]> (counts s) !! b'))
    by (intros; apply lookup_insert_is_Some'; by right).
  split; simpl.
  - intros b' c He. simpl in He |- *. rewrite lookup_insert. case_decide; [|by apply Hinv]. subst b'. intros [= <-].
    symmetry. apply zsum_zero. intros [k r] Hin%elem_of_map_to_list. simpl. unfold on_backend.
    case_decide; [|done]. subst b. destruct (inv_known s Hinv k r Hin) as [[c Hc]|?]; [congruence|done].
  - intros k r [?|?]%(inv_known s Hinv k); [left; by apply Hk|by right].
  - intros t x Hx. eapply tx_ok_frame; [|by apply (inv_txs s Hinv)]. split; simpl; [done| |exact Hk|done].
    intros b' Hl. split; [done|]. intros c Hc. rewrite lookup_insert_ne; [done|congruence].
Qed.

Lemma inv_set_ok o s : inv s → inv (set_ok o s).
Proof.
  intros Hinv. split; [apply Hinv|apply Hinv|]. intros t x Hx. eapply tx_ok_frame; [|by apply (inv_txs s Hinv)].
  split; simpl; naive_solver.
Qed.

Lemma inv_name_early bs s : inv s → inv (name_early bs s).
Proof.
  intros Hinv. split.
  - intros b c He. apply Hinv. simpl in He. set_solver.
  - intros k r [?|?]%(inv_known s Hinv k); [by left|right; simpl; set_solver].
  - intros t x Hx. eapply tx_ok_frame; [apply frame_name_early|by apply (inv_txs s Hinv)].
Qed.

Lemma name_early_booked bs s b : b ∈ bs → booked (name_early bs s) b.
Proof.
  intros Hb. destruct (counts s !! b) as [c|] eqn:Hc; [left; by exists c|]. right. simpl.
  apply elem_of_union_l, elem_of_list_to_set, list_elem_of_filter. done.
Qed.

Lemma step_inv s s' : step s s' → inv s → inv s'.
Proof.
  intros Hstep Hinv.
  destruct Hstep as [s s' Hrun|t x s Ht|t k s Ht|t entries s Ht|t keys s Ht|b s Hb|b s Hb|b s Hb].
  - by eapply run_inv.
  - by apply inv_finish.
  - by apply inv_set_tx.
  - apply inv_set_tx; [by apply inv_name_early|]. split; [apply writes_ok_none|]. split; [done|].
    intros k b n ([k' r] & Heq & Hin)%list_elem_of_fmap. simplify_eq/=. apply name_early_booked.
    rewrite <- list_fmap_compose. apply list_elem_of_fmap. by exists (k', r).
  - apply inv_set_tx; [done|]. split; [apply writes_ok_none|]. split; [done|].
    by intros k b n (k' & Heq & Hin)%list_elem_of_fmap.
  - by apply inv_set_ok.
  - by apply inv_insert_count.
  - by apply inv_set_ok.
Qed.

Lemma reach_inv s s' : rtc step s s' → inv s → inv s'.
Proof. induction 1; eauto using step_inv. Qed.

(** C22. The counts survive every interleaving: starting with no transaction
    under way and every count equal to the load of its backend, any number of
    concurrent assignments, bulk assignments and deletions, with failures at
    any point and backends added and removed meanwhile, leave every committed
    count equal to the load of the committed assignments, with one exception: the
    backends that a bulk assignment named while they had no row of counts (as
    between the two statements of AddBackend), for which the UPDATE may have
    matched no row.  No replica starts meanwhile (migrate rebuilds the counts). *)
Theorem postgres_counts_exact s s' :
  txs s = ∅ → early s = ∅ → (∀ b c, counts s !! b = Some c → c = loadc (assigns s) b) →
  (∀ k r, assigns s !! k = Some r → knows s r.1) →
  rtc step s s' →
  ∀ b c, b ∉ early s' → counts s' !! b = Some c → c = loadc (assigns s') b.
Proof.
  intros Ht He Hc Hk Hr. apply (reach_inv s s' Hr). split.
  - intros b c _. apply Hc.
  - intros k r Hkr. left. by apply (Hk k).
  - intros t x. by rewrite Ht, lookup_empty.
Qed.
End preservation.

(** ** On-demand assignments do not deadlock *)

Section progress.
Context `{!MapIter}.

(** The steps of a database on which only on-demand assignments run. *)
Inductive assign_step : sys → sys → Prop :=
  | as_run s s' : run s s' → assign_step s s'
  | as_abort t x s : txs s !! t = Some x → assign_step s (finish t s)
  | as_begin t k s : txs s !! t = None → assign_step s (set_tx t (Pick k) s).

(** A transaction that wrote a key has nothing left to insert, and the rows it
    has to update are its own. *)
Definition own_rows (s : sys) (t : nat) (w : writes) : Prop :=
  ∀ k r, w_put w !! k = Some r ∨ w_del w !! k = Some r → rowlock s !! r.1 = Some t.

Definition shape (s : sys) (t : nat) (x : tx) : Prop :=
  match x with
  | Pick _ => True
  | Wait _ bs => ∀ b, b ∈ bs → b ∈ ok s
  | Writing ops w =>
      (ops = [] ∧ own_rows s t w) ∨
      (∃ k b, ops = [Ins k b 1] ∧ w = no_writes ∧ rowlock s !! b = Some t)
  | Counting adds w => ∀ b, b ∈ adds.*1 → rowlock s !! b = Some t
  end.

(** Past its INSERT. *)
Definition wrote (x : tx) : Prop :=
  match x with Writing [] _ | Counting _ _ => True | _ => False end.

(** Past its SELECT. *)
Definition picked (x : tx) : Prop :=
  match x with Writing _ _ | Counting _ _ => True | _ => False end.

Record orderly (s : sys) : Prop := {
  or_shape t x : txs s !! t = Some x → shape s t x;
  or_key k t : keylock s !! k = Some t → ∃ x, txs s !! t = Some x ∧ wrote x;
  or_row b t : rowlock s !! b = Some t → ∃ x, txs s !! t = Some x ∧ picked x;
  or_be b t : belock s !! b = Some t → ∃ x, txs s !! t = Some x ∧ picked x
}.

(** The shape of a transaction depends only on the rows it holds and on the
    healthy backends. *)
Lemma shape_rows s s' t x :
  (∀ b, rowlock s !! b = Some t → rowlock s' !! b = Some t) → ok s' = ok s → shape s t x → shape s' t x.
Proof.
  intros Hr Hok. destruct x as [k|k bs|ops w|adds w]; simpl; [done|by rewrite Hok| |naive_solver].
  intros [[? Ho]|(k & b & ? & ? & ?)]; [left|right; naive_solver].
  split; [done|]. intros k r Hk. by apply Hr, (Ho k).
Qed.

(** A step in which [t] becomes [x] and may take one more key or row. *)
Lemma orderly_update t x0 x s s' :
  orderly s → txs s !! t = Some x0 → txs s' = <[t := x]> (txs s) → ok s' = ok s →
  (∀ b t', rowlock s !! b = Some t' → rowlock s' !! b = Some t') →
  (∀ b t', rowlock s' !! b = Some t' → rowlock s !! b = Some t' ∨ t' = t ∧ picked x) →
  (∀ b t', belock s' !! b = Some t' → belock s !! b = Some t' ∨ t' = t ∧ picked x) →
  (∀ k t', keylock s' !! k = Some t' → keylock s !! k = Some t' ∨ t' = t ∧ wrote x) →
  (wrote x0 → wrote x) → (picked x0 → picked x) → shape s' t x → orderly s'.
Proof.
  intros Ho Ht Htx Hok Hkeep Hrow Hbe Hkey Hw Hp Hsh.
  assert (Hlook : ∀ (Q : tx → Prop), (Q x0 → Q x) → ∀ t', (∃ y, txs s !! t' = Some y ∧ Q y) →
    ∃ y, txs s' !! t' = Some y ∧ Q y).
  { intros Q HQ t' (y & Hy & HQy). rewrite Htx. destruct (decide (t' = t)) as [->|Hne].
    - rewrite lookup_insert_eq. exists x. split; [done|]. apply HQ. congruence.
    - rewrite lookup_insert_ne by done. by exists y. }
  assert (Hself : ∀ Q : tx → Prop, Q x → ∃ y, txs s' !! t = Some y ∧ Q y)
    by (intros Q HQ; exists x; by rewrite Htx, lookup_insert_eq).
  split.
  - intros t' y. rewrite Htx, lookup_insert. case_decide; [by intros [= <-]; subst|].
    intros Hy. eapply (shape_rows s); [|done|by apply (or_shape s Ho)]. intros b. apply Hkeep.
  - intros k t' [Hk|[-> Hx]]%Hkey; [|by apply Hself]. apply (Hlook wrote Hw). by eapply or_key.
  - intros b t' [Hb|[-> Hx]]%Hrow; [|by apply Hself]. apply (Hlook picked Hp). by eapply or_row.
  - intros b t' [Hb|[-> Hx]]%Hbe; [|by apply Hself]. apply (Hlook picked Hp). by eapply or_be.
Qed.

(** Taking both rows of [b] for the INSERT. *)
Lemma orderly_pick t k b x0 s :
  orderly s → txs s !! t = Some x0 → rowlock s !! b = None → ¬ wrote x0 →
  orderly (set_tx t (Writing [Ins k b 1] no_writes) (lock_both b t s)).
Proof.
  intros Ho Ht Hb Hnw. eapply (orderly_update t); try done; simpl.
  - intros b' t' Hb'. rewrite lookup_insert_ne; [done|congruence].
  - intros b' t'. rewrite lookup_insert. case_decide; naive_solver.
  - intros b' t'. rewrite lookup_insert. case_decide; naive_solver.
  - naive_solver.
  - right. exists k, b. by rewrite lookup_insert_eq.
Qed.

Lemma orderly_finish t s : orderly s → orderly (finish t s).
Proof.
  intros Ho. split; simpl.
  - intros t' x [Hne Hx]%lookup_delete_Some. eapply (shape_rows s); [|done|by apply (or_shape s Ho)].
    simpl. intros b Hb. apply map_lookup_filter_Some. split; [done|]. simpl. congruence.
  - intros k t' [Hk Hne]%map_lookup_filter_Some. simpl in Hne. rewrite lookup_delete_ne by done.
    by eapply or_key.
  - intros b t' [Hb Hne]%map_lookup_filter_Some. simpl in Hne. rewrite lookup_delete_ne by done.
    by eapply or_row.
  - intros b t' [Hb Hne]%map_lookup_filter_Some. simpl in Hne. rewrite lookup_delete_ne by done.
    by eapply or_be.
Qed.

Lemma orderly_publish w s : orderly s → orderly (publish w s).
Proof. intros [H1 H2 H3 H4]. by split. Qed.

Lemma orderly_run s s' : run s s' → orderly s → orderly s'.
Proof.
  intros Hrun Ho. destruct Hrun as
    [t k b c s Ht Hl|t k rs s Ht _ Hrs _|t k s Ht|t k b bs s Ht Hb _ _|t k b bs s Ht Hb _ Hgone
    |t k b n ops w s Ht Hk Ha|t k b n ops w s Ht _|t k n r ops w s Ht Ha Hk|t k n ops w s Ht _
    |t w adds s Ht Hnd Hmap Hdom|t b n c adds w s Ht Hc Hfree|t b n adds w s Ht Hc|t w s Ht].
  - apply least_row in Hl as (_ & _ & [?|[Hb _]]); [done|]. by eapply (orderly_pick t k b (Pick k)); [..|intros []].
  - eapply (orderly_update t); try done; simpl; [naive_solver..|]. intros b Hb. by apply (rows_false rs).
  - by apply orderly_finish.
  - by eapply (orderly_pick t k b (Wait k (b :: bs))); [..|intros []].
  - destruct Hgone. apply (or_shape s Ho t _ Ht). left.
  - pose proof (or_shape s Ho t _ Ht) as [[? _]|(k' & b' & Heq & -> & Hrow)]; [done|]. simplify_eq.
    eapply (orderly_update t); try done; simpl; [naive_solver..| |].
    + intros k0 t'. rewrite lookup_insert. case_decide; naive_solver.
    + left. split; [done|]. intros k0 r. simpl. rewrite lookup_insert, !lookup_empty.
      intros [Hr|Hr]; [|done]. case_decide; [by injection Hr as <-|done].
  - pose proof (or_shape s Ho t _ Ht) as [[? _]|(k' & b' & Heq & -> & Hrow)]; [done|]. simplify_eq.
    eapply (orderly_update t); try done; simpl; [naive_solver..|].
    left. split; [done|]. intros k0 r. simpl. rewrite !lookup_empty. naive_solver.
  - by pose proof (or_shape s Ho t _ Ht) as [[? _]|(k' & b' & Heq & _)].
  - by pose proof (or_shape s Ho t _ Ht) as [[? _]|(k' & b' & Heq & _)].
  - pose proof (or_shape s Ho t _ Ht) as [[_ Hown]|(k' & b' & Heq & _)]; [|done].
    eapply (orderly_update t); try done; simpl; [naive_solver..|].
    intros b (k & r & Hr & <-)%Hdom. by apply (Hown k).
  - pose proof (or_shape s Ho t _ Ht) as Hown. simpl in Hown.
    assert (Hb : rowlock s !! b = Some t) by (apply Hown; left).
    eapply (orderly_update t); try done; simpl; rewrite ?insert_id by done; [naive_solver..|].
    intros b' Hb'. apply Hown. by right.
  - pose proof (or_shape s Ho t _ Ht) as Hown. simpl in Hown.
    eapply (orderly_update t); try done; simpl; [naive_solver..|].
    intros b' Hb'. apply Hown. by right.
  - by apply orderly_finish, orderly_publish.
Qed.

Lemma orderly_step s s' : assign_step s s' → orderly s → orderly s'.
Proof.
  intros Hstep Ho. destruct Hstep as [s s' Hrun|t x s Ht|t k s Ht].
  - by eapply orderly_run.
  - by apply orderly_finish.
  - assert (Hno : ∀ t' x, txs s !! t' = Some x → txs (set_tx t (Pick k) s) !! t' = Some x).
    { intros t' x Hx. simpl. rewrite lookup_insert_ne; [done|congruence]. }
    split.
    + intros t' x. simpl. rewrite lookup_insert. case_decide; [by intros [= <-]|].
      intros Hx. by apply (or_shape s Ho) in Hx.
    + intros k' t' (x & Hx & ?)%(or_key s Ho). eauto.
    + intros b t' (x & Hx & ?)%(or_row s Ho). eauto.
    + intros b t' (x & Hx & ?)%(or_be s Ho). eauto.
Qed.

(** How much a transaction has left to do. *)
Definition tx_weight (x : tx) : Z :=
  match x with
  | Pick _ => 6
  | Wait _ _ => 5
  | Writing ops w =>
      2 + 2 * Z.of_nat (length ops) + Z.of_nat (size (w_put w)) + Z.of_nat (size (w_del w))
  | Counting adds _ => 1 + Z.of_nat (length adds)
  end.

Definition measure (s : sys) : Z := zsum (λ p, tx_weight p.2) (map_to_list (txs s)).

Lemma tx_weight_pos x : 0 < tx_weight x.
Proof. destruct x; simpl; lia. Qed.

Lemma measure_nonneg s : 0 ≤ measure s.
Proof. apply zsum_nonneg. intros [t x] _. pose proof (tx_weight_pos x). simpl. lia. Qed.

Lemma measure_delete t x s s' :
  txs s !! t = Some x → txs s' = delete t (txs s) → measure s' = measure s - tx_weight x.
Proof.
  intros Hx Hs. unfold measure. rewrite Hs, <- (map_to_list_delete (txs s) t x) by done.
  rewrite zsum_cons. simpl. lia.
Qed.

Lemma measure_set t x y s s' :
  txs s !! t = Some x → txs s' = <[t := y]> (txs s) → measure s' = measure s - tx_weight x + tx_weight y.
Proof.
  intros Hx Hs. unfold measure. rewrite Hs, <- insert_delete_eq.
  rewrite map_to_list_insert by apply lookup_delete_eq.
  rewrite <- (map_to_list_delete (txs s) t x) by done. rewrite !zsum_cons. simpl. lia.
Qed.

(** Transactions can be carried on, and end. *)
Definition advances (s : sys) : Prop := ∃ s', run s s' ∧ measure s' < measure s.

Lemma advances_set t x y s s' :
  txs s !! t = Some x → run s s' → txs s' = <[t := y]> (txs s) → tx_weight y < tx_weight x → advances s.
Proof. intros Hx Hr Hs Hw. exists s'. split; [done|]. rewrite (measure_set t x y s s') by done. lia. Qed.

Lemma advances_finish t x s s' :
  txs s !! t = Some x → run s s' → txs s' = delete t (txs s) → advances s.
Proof.
  intros Hx Hr Hs. exists s'. split; [done|]. rewrite (measure_delete t x s s') by done.
  pose proof (tx_weight_pos x). lia.
Qed.

Lemma length_remove_dups (l : list string) : (length (remove_dups l) ≤ length l)%nat.
Proof. induction l as [|x l IH]; simpl; [done|]. case_decide; simpl; lia. Qed.

Lemma loadc_none m b : (∀ k r, m !! k = Some r → r.1 ≠ b) → loadc m b = 0.
Proof.
  intros Hm. apply zsum_zero. intros [k r] Hin%elem_of_map_to_list. simpl. unfold on_backend.
  by rewrite decide_False by (by apply (Hm k)).
Qed.

Lemma deltas_exist (w : writes) :
  ∃ adds, NoDup adds.*1 ∧ (∀ b, mget (list_to_map adds) b = delta w b) ∧
    (∀ b, b ∈ adds.*1 ↔ ∃ k r, (w_put w !! k = Some r ∨ w_del w !! k = Some r) ∧ r.1 = b) ∧
    (length adds ≤ size (w_put w) + size (w_del w))%nat.
Proof.
  set (l := (map_to_list (w_put w) ++ map_to_list (w_del w)).*2.*1).
  exists ((λ b, (b, delta w b)) <$> remove_dups l).
  assert (Hfst : ((λ b, (b, delta w b)) <$> remove_dups l).*1 = remove_dups l).
  { rewrite <- list_fmap_compose. apply list_fmap_id. }
  assert (Hin : ∀ b, b ∈ remove_dups l ↔
    ∃ k r, (w_put w !! k = Some r ∨ w_del w !! k = Some r) ∧ r.1 = b).
  { intros b. rewrite elem_of_remove_dups. unfold l. rewrite <- list_fmap_compose, list_elem_of_fmap.
    setoid_rewrite elem_of_app. split.
    - intros ([k r] & -> & [Hp%elem_of_map_to_list|Hd%elem_of_map_to_list]); eauto.
    - intros (k & r & [Hp|Hd] & <-); exists (k, r); (split; [done|]); [left|right];
        by apply elem_of_map_to_list. }
  rewrite Hfst. split; [apply NoDup_remove_dups|]. split; [|split; [done|]].
  - intros b. destruct (decide (b ∈ remove_dups l)) as [Hb|Hb].
    + unfold mget. rewrite (proj1 (elem_of_list_to_map _ b (delta w b) ltac:(rewrite Hfst; apply NoDup_remove_dups)));
        [done|]. apply list_elem_of_fmap. by exists b.
    + unfold mget. rewrite not_elem_of_list_to_map_1 by (by rewrite Hfst). simpl. unfold delta.
      rewrite !loadc_none; [done|..]; intros k r Hr <-; apply Hb, Hin; eauto.
  - rewrite length_fmap. etrans; [apply length_remove_dups|]. unfold l.
    by rewrite !length_fmap, length_app, !length_map_to_list.
Qed.

Lemma wrote_advances t x s : orderly s → txs s !! t = Some x → wrote x → advances s.
Proof.
  intros Ho Ht Hx. destruct x as [k|k b|[|o ops] w|adds w]; try done.
  - destruct (deltas_exist w) as (adds & Hnd & Hmap & Hdom & Hlen).
    eapply (advances_set t); [done|by apply (run_deltas t w adds)|done|]. simpl. lia.
  - destruct adds as [|[b n] adds].
    + eapply (advances_finish t); [done|by apply run_commit|done].
    + destruct (counts s !! b) as [c|] eqn:Hc.
      * eapply (advances_set t); [done|eapply (run_update t b n c adds w); [done|done|]|done|simpl; lia].
        right. apply (or_shape s Ho t _ Ht). left.
      * eapply (advances_set t); [done|by apply (run_update_none t b n adds w)|done|simpl; lia].
Qed.

Lemma picked_advances t x s : orderly s → txs s !! t = Some x → picked x → advances s.
Proof.
  intros Ho Ht Hx. destruct x as [k|k b|ops w|adds w]; try done; [|by eapply wrote_advances].
  destruct (or_shape s Ho t _ Ht) as [[-> _]|(k & b & -> & -> & Hrow)]; [by eapply wrote_advances|].
  destruct (keylock s !! k) as [t'|] eqn:Hk.
  { destruct (or_key s Ho k t' Hk) as (y & Hy & Hw). by eapply (wrote_advances t'). }
  destruct (assigns s !! k) as [r|] eqn:Ha.
  - eapply (advances_set t); [done|eapply (run_conflict t k b 1 [] no_writes)|done|simpl; lia]; [done|]. left. eauto.
  - eapply (advances_set t); [done|by apply (run_insert t k b 1 [] no_writes)|done|].
    simpl. rewrite map_size_insert_None by done. simpl. lia.
Qed.

Lemma orderly_advances t x s : orderly s → txs s !! t = Some x → advances s.
Proof.
  intros Ho Ht. destruct x as [k|k [|b bs]|ops w|adds w]; try (by eapply picked_advances).
  - destruct (least (rows true s)) as [[b c]|] eqn:Hl.
    { eapply (advances_set t); [done|by apply (run_pick t k b c)|done|reflexivity]. }
    eapply (advances_set t); [done|apply (run_pick_locked t k (merge_sort by_weight (rows false s)))|done|simpl; lia];
      [done|done|apply merge_sort_Permutation|apply Sorted_merge_sort, _].
  - eapply (advances_finish t); [done|by apply (run_no_rows t k)|done].
  - destruct (rowlock s !! b) as [t'|] eqn:Hb.
    { destruct (or_row s Ho b t' Hb) as (y & Hy & Hp). by eapply (picked_advances t'). }
    destruct (belock s !! b) as [t'|] eqn:Hbe.
    { destruct (or_be s Ho b t' Hbe) as (y & Hy & Hp). by eapply (picked_advances t'). }
    eapply (advances_set t); [done|apply (run_locked t k b bs); try done|done|reflexivity].
    apply (or_shape s Ho t _ Ht). left.
Qed.

(** C23. On-demand assignments never deadlock: from every state they reach,
    with failures at any point, the transactions under way can be carried on
    until each has ended.  No other transactions run, and the healthy backends
    stay the same: a SELECT that finds a row no longer healthy keeps its lock. *)
Theorem assignments_never_deadlock s s1 :
  orderly s → rtc assign_step s s1 → ∃ s2, rtc run s1 s2 ∧ txs s2 = ∅.
Proof.
  intros Ho Hr. assert (Ho1 : orderly s1) by (induction Hr; eauto using orderly_step). clear Hr Ho.
  remember (Z.to_nat (measure s1)) as n eqn:Hn. revert s1 Ho1 Hn.
  induction n as [n IH] using lt_wf_ind. intros s1 Ho1 ->.
  destruct (decide (txs s1 = ∅)) as [He|He]; [by exists s1; split; [apply rtc_refl|]|].
  apply map_choose in He as (t & x & Ht).
  destruct (orderly_advances t x s1 Ho1 Ht) as (s' & Hrun & Hm).
  pose proof (measure_nonneg s'). pose proof (measure_nonneg s1).
  destruct (IH (Z.to_nat (measure s'))) with (s1 := s') as (s2 & Hr2 & Hs2); [lia|by eapply orderly_run|done|].
  exists s2. split; [by eapply rtc_l|done].
Qed.
End progress.

(** ** Bulk assignments do *)

(** The next statement of [t] has its locks. *)
Definition enabled (s : sys) (t : nat) (x : tx) : Prop :=
  match x with
  | Pick _ | Wait _ [] | Writing [] _ | Counting [] _ => True
  | Wait _ (b :: _) => rowlock s !! b = None ∧ belock s !! b = None
  | Writing (Ins k _ _ :: _) _ => free t (keylock s !! k)
  | Writing (Del k n :: _) _ => visible n k s = None ∨ free t (keylock s !! k)
  | Counting ((b, _) :: _) _ => counts s !! b = None ∨ free t (rowlock s !! b)
  end.

#[export] Instance enabled_dec s t x : Decision (enabled s t x).
Proof. destruct x as [| |[|[]]|[|[]]]; simpl; try case_match; unfold free; apply _. Defined.

Section deadlock.
Context `{!MapIter}.

Lemma run_enabled s s' : run s s' → ∃ t x, txs s !! t = Some x ∧ enabled s t x.
Proof.
  unfold enabled, free.
  destruct 1; (eexists _, _; split; [eassumption|]); simpl; naive_solver.
Qed.

(** Nothing moves until the server aborts somebody. *)
Definition stuck (s : sys) : Prop := txs s ≠ ∅ ∧ ∀ s', ¬ run s s'.

Lemma stuck_decided s :
  txs s ≠ ∅ → forallb (λ p, bool_decide (¬ enabled s p.1 p.2)) (map_to_list (txs s)) = true → stuck s.
Proof.
  intros Hne Hall. split; [done|]. intros s' (t & x & Ht & Hx)%run_enabled.
  rewrite forallb_forall in Hall. apply elem_of_map_to_list, list_elem_of_In in Ht.
  specialize (Hall _ Ht). by apply bool_decide_eq_true_1 in Hall.
Qed.
End deadlock.

Module ConcurrencyExamples.
#[local] Existing Instance map_iter_canonical.

(** Two empty backends. *)
Definition idle : sys := mkSys ∅ {["b1" := 0; "b2" := 0]} {["b1"; "b2"]} ∅ 0 ∅ ∅ ∅ ∅ ∅.

(** Two replicas seed the same accounts, each in the order of its map. *)
Definition accounts : list (string * arow) := [("u1", ("b1", 1)); ("u2", ("b2", 1))].

(** The deltas of a transaction that has inserted one row. *)
Definition one_row : writes := mkWrites (<["u1" := ("b1", 1)]> ∅) ∅ ∅.

Lemma one_delta b : mget (list_to_map [("b1", 1)]) b = delta one_row b.
Proof.
  unfold delta, loadc. simpl.
  rewrite mget_insert, mget_empty, msum_insert, !msum_empty by done. unfold on_backend. simpl.
  case_decide; lia.
Qed.

Lemma one_delta_keys b :
  b ∈ [("b1", 1)].*1 ↔ ∃ k r, (w_put one_row !! k = Some r ∨ w_del one_row !! k = Some r) ∧ r.1 = b.
Proof.
  simpl. rewrite list_elem_of_singleton. split.
  - intros ->. exists "u1", ("b1", 1). split; [by left|done].
  - intros (k & r & [[[_ <-]|[_ Hd]]%lookup_insert_Some|Hd] & <-); [done|by rewrite lookup_empty in Hd..].
Qed.

(** Bulk assignments can deadlock: when two replicas assign the same two
    new accounts, each INSERT in the order of its own map, each may come to
    wait for the key the other has inserted; likewise a bulk assignment and an
    on-demand assignment of the same account on the same backend, one holding
    the key and the other the row of the counts.  Nothing moves then until
    the server aborts one of them. *)
Theorem bulk_assignments_deadlock :
  (∃ s, rtc step idle s ∧ stuck s ∧
     (∃ ops w, txs s !! 1%nat = Some (Writing ops w)) ∧ (∃ ops w, txs s !! 2%nat = Some (Writing ops w))) ∧
  (∃ s, rtc step idle s ∧ stuck s ∧
     (∃ w, txs s !! 1%nat = Some (Writing [Ins "u1" "b1" 1] w)) ∧
     (∃ adds w, txs s !! 2%nat = Some (Counting adds w))).
Proof.
  split.
  - eexists. split; [|split; [|split]].
    + eapply rtc_l; [apply (step_bulk 1 accounts); reflexivity|].
      eapply rtc_l; [apply (step_bulk 2 (rev accounts)); reflexivity|].
      eapply rtc_l; [apply step_run; eapply (run_insert 1); reflexivity|].
      eapply rtc_l; [apply step_run; eapply (run_insert 2); reflexivity|apply rtc_refl].
    + apply stuck_decided; by vm_compute.
    + eexists _, _. reflexivity.
    + eexists _, _. reflexivity.
  - eexists. split; [|split; [|split]].
    + eapply rtc_l; [apply (step_assign 1 "u1"); reflexivity|].
      eapply rtc_l; [apply step_run; eapply (run_pick 1 "u1"); [reflexivity|by vm_compute]|].
      eapply rtc_l; [apply (step_bulk 2 [("u1", ("b1", 1))]); reflexivity|].
      eapply rtc_l; [apply step_run; eapply (run_insert 2); reflexivity|].
      eapply rtc_l; [apply step_run; eapply (run_deltas 2 _ [("b1", 1)])|apply rtc_refl].
      * reflexivity.
      * apply NoDup_singleton.
      * apply one_delta.
      * apply one_delta_keys.
    + apply stuck_decided; by vm_compute.
    + eexists. reflexivity.
    + eexists _, _. reflexivity.
Qed.

(** No backend yet. *)
Definition bare : sys := mkSys ∅ ∅ ∅ ∅ 0 ∅ ∅ ∅ ∅ ∅.

(** A bulk assignment that comes between the two statements of AddBackend is
    never counted: its UPDATE matches no row, and the second statement inserts the
    row with zero.  The count stays behind the load for good, with no transaction
    under way. *)
Theorem early_bulk_not_counted :
  ∃ s, rtc step bare s ∧ txs s = ∅ ∧ ok s = {["b1"]} ∧ assigns s = {["u1" := ("b1", 1)]} ∧
    counts s !! "b1" = Some 0 ∧ loadc (assigns s) "b1" = 1.
Proof.
  eexists. split.
  - eapply rtc_l; [apply (step_upsert "b1"); reflexivity|].
    eapply rtc_l; [apply (step_bulk 1 [("u1", ("b1", 1))]); reflexivity|].
    eapply rtc_l; [apply step_run; eapply (run_insert 1); reflexivity|].
    eapply rtc_l; [apply step_run; eapply (run_deltas 1 one_row [("b1", 1)])|].
    + reflexivity.
    + apply NoDup_singleton.
    + apply one_delta.
    + apply one_delta_keys.
    + eapply rtc_l; [apply step_run; eapply (run_update_none 1); reflexivity|].
      eapply rtc_l; [apply step_run; eapply (run_commit 1); reflexivity|].
      eapply rtc_l; [apply (step_insert_count "b1"); reflexivity|apply rtc_refl].
  - split; [by vm_compute|]. split; [by vm_compute|]. split; [by vm_compute|]. by vm_compute.
Qed.

(** A new user is assigned. *)
Lemma assigned_run :
  ∃ s, rtc assign_step idle s ∧ assigns s !! "u1" = Some ("b1", 1) ∧ counts s !! "b1" = Some 1 ∧ early s = ∅.
Proof.
  eexists. split.
  - eapply rtc_l; [apply (as_begin 1 "u1"); reflexivity|].
    eapply rtc_l; [apply as_run; eapply (run_pick 1 "u1"); [reflexivity|by vm_compute]|].
    eapply rtc_l; [apply as_run; eapply (run_insert 1); reflexivity|].
    eapply rtc_l; [apply as_run; eapply (run_deltas 1 one_row [("b1", 1)])|].
    + reflexivity.
    + apply NoDup_singleton.
    + apply one_delta.
    + apply one_delta_keys.
    + eapply rtc_l; [apply as_run; eapply (run_update 1); [reflexivity|reflexivity|by right]|].
      eapply rtc_l; [apply as_run; eapply (run_commit 1); reflexivity|apply rtc_refl].
  - by vm_compute.
Qed.

Lemma assign_step_step s s' : assign_step s s' → step s s'.
Proof. destruct 1; [by apply step_run|by eapply step_abort|by apply step_assign]. Qed.

Lemma postgres_counts_exact_witness :
  ∃ s, rtc step idle s ∧ assigns s !! "u1" = Some ("b1", 1) ∧ early s = ∅ ∧
    ∀ b c, b ∉ early s → counts s !! b = Some c → c = loadc (assigns s) b.
Proof.
  destruct assigned_run as (s & Hr & Ha & _ & He). exists s.
  assert (Hs : rtc step idle s) by (eapply rtc_subrel; [|apply Hr]; apply assign_step_step).
  split; [done|split; [done|split; [done|]]]. apply (postgres_counts_exact idle s).
  - reflexivity.
  - reflexivity.
  - intros b c. simpl. unfold loadc. rewrite lookup_insert_Some, lookup_singleton_Some, msum_empty. naive_solver.
  - done.
  - done.
Defined.

(** The state in which both replicas assign the same account at once. *)
Lemma racing_run :
  ∃ s, rtc assign_step idle s ∧ txs s !! 1%nat = Some (Writing [Ins "u1" "b1" 1] no_writes) ∧
    txs s !! 2%nat = Some (Writing [Ins "u1" "b2" 1] no_writes).
Proof.
  eexists. split.
  - eapply rtc_l; [apply (as_begin 1 "u1"); reflexivity|].
    eapply rtc_l; [apply (as_begin 2 "u1"); reflexivity|].
    eapply rtc_l; [apply as_run; eapply (run_pick 1 "u1"); [reflexivity|by vm_compute]|].
    eapply rtc_l; [apply as_run; eapply (run_pick 2 "u1"); [reflexivity|by vm_compute]|apply rtc_refl].
  - by vm_compute.
Qed.

Lemma assignments_never_deadlock_witness :
  ∃ s s2, rtc assign_step idle s ∧ size (txs s) ≠ 0%nat ∧ rtc run s s2 ∧ txs s2 = ∅.
Proof.
  destruct racing_run as (s & Hr & H1 & _). exists s.
  destruct (assignments_never_deadlock idle s) as (s2 & H2); [by split; intros|done|].
  exists s2. split; [done|split; [|done]]. apply (map_size_ne_0_lookup_2 _ 1%nat). eauto.
Defined.
End ConcurrencyExamples.

End PgConcurrency.
