(* ===== verification/PgLock.v ===== *)
(** * store_postgres.go: the advisory locker

    [PostgresDistributedLocker] takes a session-level advisory lock on a
    connection of its own, which it keeps until [Unlock]; the server releases
    the lock when the session ends.  [step] is one step of the goroutines of all
    replicas, of the connection pools and of the network.  [TransitionLock] over
    this locker excludes drains and rebalances of all replicas from each other
    for as long as the connection of the one that holds the lock lasts: unlike
    the Redis locker it needs no bound on how long a holder takes. *)
From stdpp Require Import base gmap list strings.
From Stdlib Require Import ZArith Lia.
From S2P Require Import Prelude Go.
Local Open Scope nat_scope.

Module PgLock.

(** ** Data *)

Definition session := nat.

(** A goroutine between the [TryLock] that succeeded on [c] and the end of
    [Unlock]: it waits for the mutex, it is in its critical section, it has
    released the mutex. *)
Inductive phase := HasDist (c : session) | Crit (c : session) | Releasing (c : session).

Definition session_of (p : phase) : session := match p with HasDist c | Crit c | Releasing c => c end.

Record sys := mkSys {
  lock : option (session * nat);     (* the session that holds the lock, and how often *)
  born : gset session;               (* every session there has been *)
  pooled : gmap session nat;         (* idle connections of the pools: of which replica *)
  conn : gmap nat session;           (* replica -> l.conn *)
  mu : gmap nat nat;                 (* replica -> the goroutine that holds its mutex *)
  phases : gmap nat phase
}.

(** How a statement ends: the server answers; it fails and the connection is
    thrown away; it fails before it is executed and the connection lives. *)
Inductive fate := Answered | Broken | Refused.

(** ** Operations *)

Section lock.
Context (replica : nat → nat).

(** [l.db.Conn(ctx)]: an idle connection of the replica or a new one. *)
Definition get_conn (r : nat) (c : session) (s : sys) : option sys :=
  match pooled s !! c with
  | Some r' => if decide (r = r') then Some (mkSys (lock s) (born s) (delete c (pooled s)) (conn s) (mu s) (phases s)) else None
  | None => if decide (c ∈ born s) then None
            else Some (mkSys (lock s) ({[c]} ∪ born s) (pooled s) (conn s) (mu s) (phases s))
  end.

(** [conn.Close()]: the connection goes back to the pool of its replica. *)
Definition put_conn (r : nat) (c : session) (s : sys) : sys :=
  mkSys (lock s) (born s) (<[c := r]> (pooled s)) (conn s) (mu s) (phases s).

Definition set_lock (l : option (session * nat)) (s : sys) : sys :=
  mkSys l (born s) (pooled s) (conn s) (mu s) (phases s).
Definition set_conn (m : gmap nat session) (s : sys) : sys :=
  mkSys (lock s) (born s) (pooled s) m (mu s) (phases s).
Definition set_mu (m : gmap nat nat) (s : sys) : sys :=
  mkSys (lock s) (born s) (pooled s) (conn s) m (phases s).
Definition set_phases (m : gmap nat phase) (s : sys) : sys :=
  mkSys (lock s) (born s) (pooled s) (conn s) (mu s) m.

(** The end of a session: the server releases what it holds. *)
Definition end_session (c : session) (s : sys) : sys :=
  set_lock (match lock s with Some (c', n) => if decide (c = c') then None else Some (c', n) | None => None end) s.

(** SELECT pg_try_advisory_lock: the session that holds the lock may take it
    again. *)
Definition pg_try_advisory_lock (c : session) (s : sys) : bool * sys :=
  match lock s with
  | None => (true, set_lock (Some (c, 1)) s)
  | Some (c', n) => if decide (c = c') then (true, set_lock (Some (c, S n)) s) else (false, s)
  end.

(** SELECT pg_advisory_unlock *)
Definition pg_advisory_unlock (c : session) (s : sys) : sys :=
  match lock s with
  | Some (c', S (S n)) => if decide (c = c') then set_lock (Some (c, S n)) s else s
  | Some (c', _) => if decide (c = c') then set_lock None s else s
  | None => s
  end.

(** [TryLock], by a goroutine of replica [r]; the connection is [c]. *)
Definition TryLock (r : nat) (c : session) (f : fate) (s : sys) : option (result bool * sys) :=
  s ← get_conn r c s;
  Some match f with
  | Broken => ((false, Some (ErrOther "driver: bad connection")), end_session c s)
  | Refused => ((false, Some (ErrOther "query failed")), put_conn r c s)
  | Answered =>
      let '(acquired, s) := pg_try_advisory_lock c s in
      if acquired : bool then ((true, None), set_conn (<[r := c]> (conn s)) s)
      else ((false, None), put_conn r c s)
  end.

(** [Unlock]. *)
Definition Unlock (r : nat) (f : fate) (s : sys) : option error * sys :=
  match conn s !! r with
  | None => (None, s)
  | Some c =>
      let s' := set_conn (delete r (conn s)) s in
      match f with
      | Answered => (None, put_conn r c (pg_advisory_unlock c s'))
      | Refused => (Some (ErrOther "exec failed"), put_conn r c s')
      | Broken => (Some (ErrOther "driver: bad connection"), end_session c s')
      end
  end.

(** ** All replicas *)

Inductive act :=
  | ALock (t : nat) (c : session) (f : fate)   (* t.dist.TryLock(ctx) in Lock *)
  | AMuLock (t : nat)                          (* t.mu.Lock() *)
  | AMuUnlock (t : nat)                        (* t.mu.Unlock() in Unlock *)
  | AUnlock (t : nat) (f : fate)               (* t.dist.Unlock(ctx) *)
  | ADrop (c : session).                       (* the connection is lost *)

Definition exec1 (a : act) (s : sys) : option sys :=
  match a with
  | ALock t c f =>
      match phases s !! t with
      | Some _ => None
      | None =>
          '((acquired, err), s) ← TryLock (replica t) c f s;
          Some (if bool_decide (err ≠ None) || negb acquired then s
                else set_phases (<[t := HasDist c]> (phases s)) s)
      end
  | AMuLock t =>
      match phases s !! t, mu s !! replica t with
      | Some (HasDist c), None => Some (set_mu (<[replica t := t]> (mu s)) (set_phases (<[t := Crit c]> (phases s)) s))
      | _, _ => None
      end
  | AMuUnlock t =>
      match phases s !! t with
      | Some (Crit c) => Some (set_mu (delete (replica t) (mu s)) (set_phases (<[t := Releasing c]> (phases s)) s))
      | _ => None
      end
  | AUnlock t f =>
      match phases s !! t with
      | Some (Releasing c) => let s := (Unlock (replica t) f s).2 in Some (set_phases (delete t (phases s)) s)
      | _ => None
      end
  | ADrop c => if decide (c ∈ born s) then Some (end_session c s) else None
  end.

Fixpoint exec (l : list act) (s : sys) : option sys :=
  match l with
  | [] => Some s
  | a :: l => s' ← exec1 a s; exec l s'
  end.

(** The connection that is lost is not one a goroutine holds the lock with. *)
Definition steady (a : act) (s : sys) : Prop :=
  match a with ADrop c => ∀ t p, phases s !! t = Some p → session_of p ≠ c | _ => True end.

Fixpoint steady_run (l : list act) (s : sys) : Prop :=
  match l with
  | [] => True
  | a :: l => steady a s ∧ match exec1 a s with Some s' => steady_run l s' | None => True end
  end.

(** ** Mutual exclusion *)

(** A goroutine inside holds the lock, with the connection its locker keeps;
    there is at most one. *)
Record exclusive (s : sys) : Prop := {
  ex_lock t p : phases s !! t = Some p →
    (∃ n, lock s = Some (session_of p, n)) ∧ conn s !! replica t = Some (session_of p) ∧
    pooled s !! session_of p = None ∧ session_of p ∈ born s;
  ex_unique t t' p p' : phases s !! t = Some p → phases s !! t' = Some p' → t = t';
  ex_pool c r : pooled s !! c = Some r → c ∈ born s
}.

(** A step that leaves the lock and the connection of the holder alone. *)
Lemma exclusive_frame s s' :
  exclusive s → phases s' = phases s →
  (∀ t p, phases s !! t = Some p → lock s' = lock s ∧ conn s' !! replica t = conn s !! replica t ∧
    pooled s' !! session_of p = pooled s !! session_of p) →
  (∀ c r, pooled s' !! c = Some r → c ∈ born s') →
  born s ⊆ born s' → exclusive s'.
Proof.
  intros [H1 H2 H3] Hp Hf Hpo Hb. split; rewrite ?Hp; [|done|done]. intros t p Ht.
  destruct (Hf t p Ht) as (-> & -> & ->). destruct (H1 t p Ht) as (? & ? & ? & ?). split_and!; auto.
Qed.

Lemma exclusive_phase t p p' m s :
  exclusive s → phases s !! t = Some p → session_of p' = session_of p →
  exclusive (set_mu m (set_phases (<[t := p']> (phases s)) s)).
Proof.
  intros [H1 H2 H3] Ht Hs. split; simpl; [|..|done].
  - intros t' q. rewrite lookup_insert. case_decide; [|by auto]. intros [= <-]. subst. rewrite Hs. auto.
  - intros t1 t2 q1 q2. rewrite !lookup_insert. repeat case_decide; subst; eauto.
Qed.

(** The connection [TryLock] gets is not the one of a goroutine inside. *)
Lemma get_conn_spec r c s s' :
  get_conn r c s = Some s' → exclusive s →
  exclusive s' ∧ lock s' = lock s ∧ phases s' = phases s ∧ c ∈ born s' ∧ pooled s' !! c = None ∧
  ∀ t p, phases s !! t = Some p → session_of p ≠ c.
Proof.
  unfold get_conn. intros H Hex. destruct (pooled s !! c) as [r'|] eqn:Hc.
  - case_decide; [|done]. simplify_eq/=. split_and!; [|done|done|by eapply ex_pool|by rewrite lookup_delete_eq|].
    + apply (exclusive_frame s); simpl; [done|done| | |done].
      * intros t p Ht. split_and!; [done|done|]. apply lookup_delete_ne. intros ->.
        destruct (ex_lock _ Hex t p Ht) as (_ & _ & Hn & _). congruence.
      * intros c' r0 [_ Hl]%lookup_delete_Some. by eapply ex_pool.
    + intros t p Ht <-. destruct (ex_lock _ Hex t p Ht) as (_ & _ & Hn & _). congruence.
  - case_decide as Hb; [done|]. simplify_eq/=. split_and!; [|done|done|set_solver|done|].
    + apply (exclusive_frame s); simpl; [done|done|done| |set_solver].
      intros c' r0 Hl. apply (ex_pool _ Hex) in Hl. set_solver.
    + intros t p Ht <-. by destruct (ex_lock _ Hex t p Ht) as (_ & _ & _ & Hn).
Qed.

Lemma put_conn_exclusive r c s :
  exclusive s → c ∈ born s → (∀ t p, phases s !! t = Some p → session_of p ≠ c) → exclusive (put_conn r c s).
Proof.
  intros Hex Hb Hne. apply (exclusive_frame s); simpl; [done|done| | |done].
  - intros t p Ht. split_and!; [done|done|]. apply lookup_insert_ne. specialize (Hne t p Ht). congruence.
  - intros c' r'. rewrite lookup_insert_Some. intros [[<- _]|[_ Hl]]; [done|by eapply ex_pool].
Qed.

Lemma end_session_exclusive c s :
  exclusive s → (∀ t p, phases s !! t = Some p → session_of p ≠ c) → exclusive (end_session c s).
Proof.
  intros Hex Hne. apply (exclusive_frame s); simpl; [done|done| |apply Hex|done].
  intros t p Ht. split_and!; [|done|done]. destruct (ex_lock _ Hex t p Ht) as ([n ->] & _).
  rewrite decide_False; [done|]. specialize (Hne t p Ht). congruence.
Qed.

Lemma TryLock_exclusive t c f b err s s' :
  TryLock (replica t) c f s = Some ((b, err), s') → phases s !! t = None → exclusive s →
  exclusive (if bool_decide (err ≠ None) || negb b then s' else set_phases (<[t := HasDist c]> (phases s')) s').
Proof.
  unfold TryLock. intros (s1 & Hg & H)%bind_Some Ht Hex.
  destruct (get_conn_spec _ _ _ _ Hg Hex) as (Hex1 & Hl & Hp & Hb & Hpool & Hne). rewrite <- Hp in Hne.
  destruct f; simplify_eq/=; [|by apply end_session_exclusive|by apply put_conn_exclusive].
  unfold pg_try_advisory_lock in H.
  assert (Hin : ∀ n, (∀ t p, phases s1 !! t = Some p → False) →
    exclusive (set_phases (<[t := HasDist c]> (phases s1)) (set_conn (<[replica t := c]> (conn s1)) (set_lock (Some (c, n)) s1)))).
  { intros n Hno. split; simpl; [| |apply Hex1].
    - intros t' p. rewrite lookup_insert. case_decide; [|by intros ?%Hno]. intros [= <-]. subst. simpl.
      rewrite lookup_insert_eq. split_and!; eauto.
    - intros t1 t2 p1 p2. rewrite !lookup_insert. repeat case_decide; subst; try done; intros; exfalso; eauto. }
  destruct (lock s1) as [[c' n]|] eqn:Hlk; [case_decide as Hc|]; simplify_eq/=.
  - apply Hin. intros t' p Hx. destruct (ex_lock _ Hex1 t' p Hx) as ([n' Hn] & _).
    apply (Hne t' p Hx). congruence.
  - by apply put_conn_exclusive.
  - apply Hin. intros t' p Hx. destruct (ex_lock _ Hex1 t' p Hx) as ([n' Hn] & _). congruence.
Qed.

Lemma exec1_exclusive a s s' : exec1 a s = Some s' → steady a s → exclusive s → exclusive s'.
Proof.
  intros H Hst Hex. destruct a as [t c f|t|t|t f|c]; simpl in H.
  - destruct (phases s !! t) eqn:Ht; [done|]. apply bind_Some in H as ([[b err] s1] & Htl & H). simplify_eq.
    by eapply TryLock_exclusive.
  - destruct (phases s !! t) as [[c|c|c]|] eqn:Ht; try done. destruct (mu s !! replica t); [done|]. simplify_eq.
    by eapply exclusive_phase.
  - destruct (phases s !! t) as [[c|c|c]|] eqn:Ht; try done. simplify_eq. by eapply exclusive_phase.
  - destruct (phases s !! t) as [[c|c|c]|] eqn:Ht; try done. simplify_eq.
    destruct (ex_lock _ Hex t _ Ht) as (_ & Hc & _ & Hb). simpl in *.
    assert (Hph : phases (Unlock (replica t) f s).2 = phases s).
    { unfold Unlock. rewrite Hc. destruct f; simpl; [|done|done].
      unfold pg_advisory_unlock. simpl. destruct (lock s) as [[? [|[]]]|]; simpl; repeat case_decide; done. }
    assert (Hno : ∀ t' p, delete t (phases s) !! t' = Some p → False).
    { intros t' p [Hne Hx]%lookup_delete_Some. apply Hne. by eapply ex_unique. }
    rewrite Hph. split; simpl; [by intros t' p ?%Hno|by intros t' t2 p p2 ?%Hno|].
    intros c' r. unfold Unlock. rewrite Hc.
    assert (Hput : ∀ s0, pooled s0 = pooled s → born s0 = born s → pooled (put_conn (replica t) c s0) !! c' = Some r →
      c' ∈ born (put_conn (replica t) c s0)).
    { intros s0 Hp0 Hb0. simpl. rewrite Hp0, Hb0, lookup_insert_Some.
      intros [[<- _]|[_ Hl]]; [done|by eapply ex_pool]. }
    destruct f; [|exact (ex_pool _ Hex c' r)|by apply Hput]. apply Hput; unfold pg_advisory_unlock; simpl;
      destruct (lock s) as [[? [|[]]]|]; simpl; repeat case_decide; done.
  - case_decide; [|done]. simplify_eq. by apply end_session_exclusive.
Qed.

(** C29. Mutual exclusion with the Postgres locker: as long as the connection of
    the goroutine that holds the lock lasts, at most one goroutine of all
    replicas is past [TransitionLock.Lock], however long it takes, whichever
    statements fail, and also when a failed unlock leaves the lock with an idle
    connection of the pool. *)
Theorem postgres_mutual_exclusion l s s' t t' p p' :
  phases s = ∅ → pooled s = ∅ → exec l s = Some s' → steady_run l s →
  phases s' !! t = Some p → phases s' !! t' = Some p' → t = t'.
Proof.
  intros Hp Hpo He Hst. assert (Hex : exclusive s).
  { split; rewrite ?Hp, ?Hpo; intros *; by rewrite ?lookup_empty. }
  clear Hp Hpo. revert s He Hst Hex. induction l as [|a l IH]; intros s He Hst Hex.
  - simplify_eq/=. by eapply ex_unique.
  - destruct Hst as [Ha Hst]. apply bind_Some in He as (s1 & H1 & He). rewrite H1 in Hst.
    eapply IH; [done..|]. by eapply exec1_exclusive.
Qed.
End lock.

(** ** Runs *)

Definition start : sys := mkSys None ∅ ∅ ∅ ∅ ∅.

(** Goroutines 0 to 9 are of replica 0, 10 to 19 of replica 1, ... *)
Definition tens (t : nat) : nat := Nat.div t 10.

(** An unlock is refused and its connection, with the lock, goes back to the
    pool; the same replica gets that connection again, the other is turned
    away. *)
Definition refused : list act :=
  [ALock 1 7 Answered; AMuLock 1; AMuUnlock 1; AUnlock 1 Refused; ALock 11 8 Answered; ALock 2 7 Answered; AMuLock 2].

Lemma postgres_mutual_exclusion_witness :
  ∃ s, exec tens refused start = Some s ∧ phases s !! 2 = Some (Crit 7) ∧
    ∀ t p, phases s !! t = Some p → t = 2.
Proof.
  destruct (exec tens refused start) as [s|] eqn:Hs; [|by vm_compute in Hs]. exists s.
  assert (H2 : phases s !! 2 = Some (Crit 7)) by (by vm_compute in Hs; simplify_eq).
  split_and!; [done|done|]. intros t p Ht.
  by apply (postgres_mutual_exclusion tens refused start s t 2 p (Crit 7)); [| |done|vm_compute; repeat split| |].
Defined.

(** When the connection of a holder is lost, the lock is not the only thing
    that goes: a second goroutine of the same replica takes the lock and
    overwrites [l.conn], the unlock of the first then releases the lock of the
    second, which is in its critical section, and another replica enters. *)
Theorem lost_connection_steals_lock :
  ∃ s, exec tens [ALock 1 7 Answered; AMuLock 1; ADrop 7; ALock 2 8 Answered; AMuUnlock 1; AMuLock 2; AUnlock 1 Answered;
      ALock 11 9 Answered; AMuLock 11] start = Some s ∧
    phases s !! 2 = Some (Crit 8) ∧ phases s !! 11 = Some (Crit 9).
Proof. eexists. split; [vm_compute; reflexivity|]. by vm_compute. Qed.

End PgLock.
