(* ===== verification/NotifyBus.v ===== *)
(** * cache_notifier_postgres.go and the Redis notifier of cache_notifier.go

    The two implementations of CacheNotifier.  [PostgresCacheNotifier.Subscribe]
    listens on a connection of its own and reconnects, five seconds after it
    loses it; [RedisCacheNotifier.Subscribe] ranges over the channel of a
    subscription.  [log] is what has been published; a listening connection
    queues what is published while it listens.  While a listener listens, it
    calls back with every name in order; what is published while it does not,
    it never learns. *)
From stdpp Require Import base gmap list strings.
From Stdlib Require Import ZArith Lia.
From S2P Require Import Prelude Go.
Local Open Scope Z_scope.

Module Bus.

(** ** Data *)

(** [Subscribe] of the Postgres notifier: at the top of its loop; in [listen]
    before pgx.Connect; before LISTEN; in WaitForNotification with the
    notifications that have arrived; waiting to reconnect; returned. *)
Inductive lstate :=
  | Top | Connecting | Subscribing
  | Listening (queue : list string)
  | Sleeping (wake : Z)
  | Returned.

Record sub := mkSub {
  state : lstate;
  cancelled : bool;          (* ctx.Err() != nil *)
  calls : list string;       (* of onInvalidate *)
  log : list string;         (* what has been published, by any replica *)
  since : nat;               (* the log when the connection began to listen *)
  base : nat                 (* the calls then *)
}.

Definition reconnect_after : Duration := 5 * Second.

(** A payload of NOTIFY must be shorter than 8000 bytes. *)
Definition max_payload : Z := 8000.

Definition set_state (l : lstate) (s : sub) : sub :=
  mkSub l (cancelled s) (calls s) (log s) (since s) (base s).

(** ** Operations *)

(** [Publish]: pg_notify, or PUBLISH, when the server answers. *)
Definition deliver (b : string) (s : sub) : sub :=
  mkSub (match state s with Listening q => Listening (q ++ [b]) | l => l end) (cancelled s) (calls s)
    (log s ++ [b]) (since s) (base s).

Definition Publish (up : bool) (b : string) (s : sub) : option error * sub :=
  if negb up then (Some ErrCtx, s)
  else if decide (Z.of_nat (String.length b) < max_payload) then (None, deliver b s)
  else (Some (ErrOther "payload string too long"), s).

(** One step of [Subscribe] and [listen] at instant [now]; [ok] says whether
    the call in hand succeeds. *)
Definition step (now : Z) (ok : bool) (s : sub) : option sub :=
  match state s with
  | Top => Some (set_state (if cancelled s then Returned else Connecting) s)
  | Connecting => Some (set_state (if ok then Subscribing else Sleeping (now + reconnect_after)) s)
  | Subscribing =>
      Some (if ok then mkSub (Listening []) (cancelled s) (calls s) (log s) (length (log s)) (length (calls s))
            else set_state (Sleeping (now + reconnect_after)) s)
  | Listening q =>
      if ok then
        match q with
        | [] => None
        | b :: q => Some (mkSub (Listening q) (cancelled s) (calls s ++ [b]) (log s) (since s) (base s))
        end
      else Some (set_state (Sleeping (now + reconnect_after)) s)
  | Sleeping wake =>
      if cancelled s then Some (set_state Returned s)
      else if wake <=? now then Some (set_state Top s) else None
  | Returned => None
  end.

Definition cancel (s : sub) : sub := mkSub (state s) true (calls s) (log s) (since s) (base s).

Inductive act := AStep (now : Z) (ok : bool) | APublish (up : bool) (b : string) | ACancel.

Definition exec1 (a : act) (s : sub) : option sub :=
  match a with
  | AStep now ok => step now ok s
  | APublish up b => Some (Publish up b s).2
  | ACancel => Some (cancel s)
  end.

Fixpoint exec (l : list act) (s : sub) : option sub :=
  match l with
  | [] => Some s
  | a :: l => s' ← exec1 a s; exec l s'
  end.

Definition start : sub := mkSub Top false [] [] 0 0.

(** ** Delivery *)

Definition queue_of (l : lstate) : list string := match l with Listening q => q | _ => [] end.

Record bus_inv (s : sub) : Prop := {
  bi_order : calls s ++ queue_of (state s) `sublist_of` log s;
  bi_all q : state s = Listening q →
    drop (base s) (calls s) ++ q = drop (since s) (log s) ∧
    (base s ≤ length (calls s))%nat ∧ (since s ≤ length (log s))%nat
}.

Lemma idle_bus_inv l s : (∀ q, l ≠ Listening q) → bus_inv s → bus_inv (set_state l s).
Proof.
  intros Hl [H1 _]. split; simpl; [|intros q ->; by destruct (Hl q)].
  destruct l; try (by destruct (Hl queue)); simpl; rewrite app_nil_r; (etrans; [|apply H1]); by apply sublist_inserts_r.
Qed.

Lemma exec1_bus_inv a s s' : exec1 a s = Some s' → bus_inv s → bus_inv s'.
Proof.
  intros H Hs. destruct a as [now ok|up b|]; simpl in H.
  - unfold step in H. destruct (state s) as [| | |q|w|] eqn:Hst.
    + simplify_eq. apply idle_bus_inv; [by destruct (cancelled s)|done].
    + simplify_eq. apply idle_bus_inv; [by destruct ok|done].
    + destruct ok; simplify_eq; [|by apply idle_bus_inv]. destruct Hs as [H1 _]. rewrite Hst in H1. split; simpl; [done|].
      intros q [= <-]. by rewrite !drop_all.
    + destruct ok; [|by simplify_eq; apply idle_bus_inv]. destruct q as [|b q]; simplify_eq.
      destruct Hs as [H1 H2]. rewrite Hst in H1. destruct (H2 _ Hst) as (Hd & Hb & Hn). split; simpl.
      * by rewrite <- app_assoc.
      * intros q' [= <-]. rewrite length_app, drop_app_le, <- app_assoc by done. split_and!; [done|lia|done].
    + destruct (cancelled s); [by simplify_eq; apply idle_bus_inv|]. case_match; simplify_eq. by apply idle_bus_inv.
    + done.
  - simplify_eq. unfold Publish. destruct up; [|done]. simpl. case_decide; [|done]. simpl. destruct Hs as [H1 H2].
    split; simpl.
    + destruct (state s); simpl in *; rewrite ?app_assoc; try (by apply sublist_inserts_r); by apply sublist_app.
    + intros q Hq. destruct (state s) as [| | |q0| |] eqn:Hst; simplify_eq. destruct (H2 _ eq_refl) as (Hd & Hb & Hn).
      rewrite app_assoc, Hd, drop_app_le, length_app by done. split_and!; [done|done|lia].
  - simplify_eq. by destruct Hs as [H1 H2]; split.
Qed.

Lemma exec_bus_inv l s s' : exec l s = Some s' → bus_inv s → bus_inv s'.
Proof.
  revert s. induction l as [|a l IH]; intros s H Hs; [by simplify_eq/=|].
  apply bind_Some in H as (s1 & H1 & H). eapply IH; [done|]. by eapply exec1_bus_inv.
Qed.

(** A replica is called back only for names that were published, in that
    order and not more often; and while its connection listens, what it has
    been called for since LISTEN and what waits on the connection are together
    everything published since then. *)
Theorem listener_hears_everything l s :
  exec l start = Some s →
  calls s ++ queue_of (state s) `sublist_of` log s ∧
  ∀ q, state s = Listening q → drop (base s) (calls s) ++ q = drop (since s) (log s).
Proof.
  intros He. apply exec_bus_inv in He as [H1 H2]; [|by split]. split; [done|]. intros q Hq. by apply H2.
Qed.

(** ** Cancellation *)

(** Once the context is cancelled, calls of the library fail with its error,
    and Subscribe returns after at most four steps. *)
Lemma cancelled_returns now s :
  cancelled s = true → ∃ k s', (k ≤ 4)%nat ∧ exec (replicate k (AStep now false)) s = Some s' ∧ state s' = Returned.
Proof.
  intros Hc. destruct (state s) as [| | |q|w|] eqn:Hs.
  - exists 1%nat. simpl. unfold step. rewrite Hs, Hc. simpl. eexists. by split_and!; [lia|..].
  - exists 2%nat. simpl. unfold step. rewrite Hs. simpl. rewrite Hc. simpl. eexists. by split_and!; [lia|..].
  - exists 2%nat. simpl. unfold step. rewrite Hs. simpl. rewrite Hc. simpl. eexists. by split_and!; [lia|..].
  - exists 2%nat. simpl. unfold step. rewrite Hs. simpl. rewrite Hc. simpl. eexists. by split_and!; [lia|..].
  - exists 1%nat. simpl. unfold step. rewrite Hs, Hc. simpl. eexists. by split_and!; [lia|..].
  - exists 0%nat, s. by split_and!; [lia|..].
Qed.

(** ** Runs *)

Definition connect : list act := [AStep 0 true; AStep 0 true; AStep 0 true].

Lemma listener_hears_everything_witness :
  ∃ s, exec (connect ++ [APublish true "b1"; APublish true "b2"; AStep 1 true]) start = Some s ∧
    drop (base s) (calls s) ++ ["b2"] = drop (since s) (log s).
Proof.
  eexists. split; [vm_compute; reflexivity|].
  apply (listener_hears_everything (connect ++ [APublish true "b1"; APublish true "b2"; AStep 1 true])); reflexivity.
Defined.

(** What is published while a replica's connection is down, the five seconds
    before it reconnects included, the replica never learns: its cache keeps
    the users of the backend until they expire. *)
Theorem reconnecting_listener_misses :
  ∃ s, exec (connect ++ [AStep 1 false; APublish true "b1"; AStep (1 + reconnect_after) true; AStep 9 true; AStep 9 true;
      AStep 9 true; APublish true "b2"; AStep 9 true]) start = Some s ∧
    log s = ["b1"; "b2"] ∧ calls s = ["b2"] ∧ state s = Listening [].
Proof. eexists. split; [vm_compute; reflexivity|done]. Qed.

End Bus.

(** ** The Redis notifier *)

Module RedisBus.

(** [ch] is the channel of the subscription, [None] once it is closed. *)
Record sub := mkSub { ch : option (list string); cancelled : bool; calls : list string; returned : bool }.

(** One turn of the select; [done] says which of the ready cases is taken. *)
Definition select_step (done : bool) (s : sub) : option sub :=
  if returned s then None
  else if done then if cancelled s then Some (mkSub (ch s) true (calls s) true) else None
  else match ch s with
       | None => Some (mkSub None (cancelled s) (calls s) true)
       | Some (b :: q) => Some (mkSub (Some q) (cancelled s) (calls s ++ [b]) false)
       | Some [] => None
       end.

Fixpoint steps (l : list bool) (s : sub) : option sub :=
  match l with
  | [] => Some s
  | d :: l => s' ← select_step d s; steps l s'
  end.

(** Every message the subscription hands over is passed on once, in order. *)
Lemma steps_deliver l s s' q :
  steps l s = Some s' → ch s = Some q → ∃ q', ch s' = Some q' ∧ calls s' ++ q' = calls s ++ q.
Proof.
  revert s q. induction l as [|d l IH]; intros s q H Hq; [by simplify_eq/=; eauto|].
  apply bind_Some in H as (s1 & H1 & H). unfold select_step in H1. rewrite Hq in H1.
  destruct (returned s); [done|]. destruct d.
  - destruct (cancelled s); simplify_eq. by destruct (IH _ q H) as (q' & ? & ?); [|exists q'].
  - destruct q as [|b q]; simplify_eq. destruct (IH _ q H) as (q' & ? & Hc); [done|].
    exists q'. simpl in Hc. by rewrite <- app_assoc in Hc.
Qed.

End RedisBus.
