(* ===== verification/GoJSON.v ===== *)
(** * encoding/json

    The parts of Go's encoding/json the proxy and its backends use: the text of
    a value as Marshal writes it ([enc], with Go's escapes of control, HTML and
    line-separator characters), the scanner and decoder of values ([pval]) with
    UTF-8 and surrogates as Go treats them, and decoding into strings and
    integers.  Texts are lists of bytes; [None] is a syntax error.  What is
    encoded decodes to itself. *)
From stdpp Require Import base list strings.
From Stdlib Require Import ZArith Lia.
From S2P Require Import Prelude Go Hashing GoText.
Local Open Scope Z_scope.

Module JSON.
#[local] Set Warnings "-register-all".

(** ** Data *)

(** A number is kept as its literal; strings are bytes. *)
Inductive json :=
  | JNull
  | JBool (b : bool)
  | JNum (lit : list Z)
  | JStr (s : list Z)
  | JArr (l : list json)
  | JObj (l : list (list Z * json)).

(** ** UTF-8 *)

Definition between (a c b : Z) : bool := (a <=? c) && (c <=? b).
Definition cont (c : Z) : bool := between 128 c 191.

Definition len2 (c c1 : Z) : bool := between 194 c 223 && cont c1.
Definition len3 (c c1 c2 : Z) : bool :=
  between 224 c 239 && between (if c =? 224 then 160 else 128) c1 (if c =? 237 then 159 else 191) && cont c2.
Definition len4 (c c1 c2 c3 : Z) : bool :=
  between 240 c 244 && between (if c =? 240 then 144 else 128) c1 (if c =? 244 then 143 else 191) && cont c2 && cont c3.

(** The replacement character U+FFFD. *)
Definition replacement : list Z := [239; 191; 189].

Definition encode_rune (x : Z) : list Z :=
  if x <? 128 then [x]
  else if x <? 2048 then [192 + x / 64; 128 + x mod 64]
  else if x <? 65536 then [224 + x / 4096; 128 + x / 64 mod 64; 128 + x mod 64]
  else [240 + x / 262144; 128 + x / 4096 mod 64; 128 + x / 64 mod 64; 128 + x mod 64].

(** Valid UTF-8. *)
Fixpoint utf8_ok (s : list Z) : bool :=
  match s with
  | [] => true
  | c :: r =>
      if between 0 c 127 then utf8_ok r
      else match r with
           | c1 :: r1 =>
               if len2 c c1 then utf8_ok r1
               else match r1 with
                    | c2 :: r2 =>
                        if len3 c c1 c2 then utf8_ok r2
                        else match r2 with
                             | c3 :: r3 => len4 c c1 c2 c3 && utf8_ok r3
                             | [] => false
                             end
                    | [] => false
                    end
           | [] => false
           end
  end.

(** ** Encoding *)

Definition hex_digit (x : Z) : Z := if x <? 10 then 48 + x else 87 + x.

(** \u00xx *)
Definition esc_u (c : Z) : list Z := [92; 117; 48; 48; hex_digit (c / 16); hex_digit (c mod 16)].

(** A byte below 0x80: quote, backslash, control and HTML characters are
    escaped. *)
Definition esc (c : Z) : list Z :=
  if (c =? 34) || (c =? 92) then [92; c]
  else if c =? 8 then [92; 98]
  else if c =? 12 then [92; 102]
  else if c =? 10 then [92; 110]
  else if c =? 13 then [92; 114]
  else if c =? 9 then [92; 116]
  else if (c <? 32) || (c =? 60) || (c =? 62) || (c =? 38) then esc_u c
  else [c].

(** \ufffd for a byte that is not UTF-8; \u2028 and \u2029. *)
Definition esc_bad : list Z := [92; 117; 102; 102; 102; 100].
Definition esc3 (c c1 c2 : Z) : list Z :=
  if (c =? 226) && (c1 =? 128) && ((c2 =? 168) || (c2 =? 169)) then [92; 117; 50; 48; 50; c2 - 112]
  else [c; c1; c2].

Fixpoint enc_body (s : list Z) : list Z :=
  match s with
  | [] => []
  | c :: r =>
      if c <? 128 then esc c ++ enc_body r
      else match r with
           | c1 :: r1 =>
               if len2 c c1 then c :: c1 :: enc_body r1
               else match r1 with
                    | c2 :: r2 =>
                        if len3 c c1 c2 then esc3 c c1 c2 ++ enc_body r2
                        else match r2 with
                             | c3 :: r3 =>
                                 if len4 c c1 c2 c3 then c :: c1 :: c2 :: c3 :: enc_body r3
                                 else esc_bad ++ enc_body r
                             | [] => esc_bad ++ enc_body r
                             end
                    | [] => esc_bad ++ enc_body r
                    end
           | [] => esc_bad
           end
  end.

Definition enc_string (s : list Z) : list Z := 34 :: enc_body s ++ [34].

(** strconv.FormatInt(z, 10) *)
Fixpoint dec_digits (fuel : nat) (z : Z) (acc : list Z) : list Z :=
  match fuel with
  | O => acc
  | S fuel => if z <? 10 then 48 + z :: acc else dec_digits fuel (z / 10) (48 + z mod 10 :: acc)
  end.

Definition dec_nat (z : Z) : list Z := dec_digits (S (Z.to_nat (Z.log2 z))) z [].

Definition dec (z : Z) : list Z := if z <? 0 then 45 :: dec_nat (- z) else dec_nat z.

Fixpoint enc (v : json) : list Z :=
  match v with
  | JNull => bytes_of "null"
  | JBool true => bytes_of "true"
  | JBool false => bytes_of "false"
  | JNum lit => lit
  | JStr s => enc_string s
  | JArr l =>
      91 :: (fix elems (l : list json) : list Z :=
               match l with
               | [] => []
               | v :: l => enc v ++ match l with [] => [] | _ => 44 :: elems l end
               end) l ++ [93]
  | JObj l =>
      123 :: (fix fields (l : list (list Z * json)) : list Z :=
                match l with
                | [] => []
                | (k, v) :: l => enc_string k ++ 58 :: enc v ++ match l with [] => [] | _ => 44 :: fields l end
                end) l ++ [125]
  end.

(** ** Decoding *)

Definition is_space (c : Z) : bool := (c =? 32) || (c =? 9) || (c =? 10) || (c =? 13).

Fixpoint skip_ws (s : list Z) : list Z :=
  match s with c :: r => if is_space c then skip_ws r else s | [] => [] end.

Definition hex_value (c : Z) : option Z :=
  if between 48 c 57 then Some (c - 48)
  else if between 97 c 102 then Some (c - 87)
  else if between 65 c 70 then Some (c - 55)
  else None.

Definition hex4 (a b c d : Z) : option Z :=
  a ← hex_value a; b ← hex_value b; c ← hex_value c; d ← hex_value d;
  Some (((a * 16 + b) * 16 + c) * 16 + d).

Definition is_surrogate (x : Z) : bool := between 55296 x 57343.

(** A surrogate pair; [None] when the two are not one. *)
Definition decode_pair (x y : Z) : option Z :=
  if between 55296 x 56319 && between 56320 y 57343 then Some (65536 + (x - 55296) * 1024 + (y - 56320)) else None.

Definition unesc (c : Z) : option Z :=
  if (c =? 34) || (c =? 92) || (c =? 47) then Some c
  else if c =? 98 then Some 8
  else if c =? 102 then Some 12
  else if c =? 110 then Some 10
  else if c =? 114 then Some 13
  else if c =? 116 then Some 9
  else None.

(** The rest of a string literal: its bytes and what follows the quote. *)
Fixpoint unquote (s : list Z) : option (list Z * list Z) :=
  let add (bs : list Z) (o : option (list Z * list Z)) := '(t, rest) ← o; Some (bs ++ t, rest) in
  match s with
  | [] => None
  | c :: r =>
      if c =? 34 then Some ([], r)
      else if c =? 92 then
        match r with
        | [] => None
        | e :: r1 =>
            if e =? 117 then
              match r1 with
              | a :: b :: c :: d :: r2 =>
                  x ← hex4 a b c d;
                  if is_surrogate x then
                    match r2 with
                    | p :: q :: a' :: b' :: c' :: d' :: r3 =>
                        match (if (p =? 92) && (q =? 117) then y ← hex4 a' b' c' d'; decode_pair x y else None) with
                        | Some z => add (encode_rune z) (unquote r3)
                        | None => add replacement (unquote r2)
                        end
                    | _ => add replacement (unquote r2)
                    end
                  else add (encode_rune x) (unquote r2)
              | _ => None
              end
            else c ← unesc e; add [c] (unquote r1)
        end
      else if c <? 32 then None
      else if c <? 128 then add [c] (unquote r)
      else match r with
           | c1 :: r1 =>
               if len2 c c1 then add [c; c1] (unquote r1)
               else match r1 with
                    | c2 :: r2 =>
                        if len3 c c1 c2 then add [c; c1; c2] (unquote r2)
                        else match r2 with
                             | c3 :: r3 =>
                                 if len4 c c1 c2 c3 then add [c; c1; c2; c3] (unquote r3)
                                 else add replacement (unquote r)
                             | [] => add replacement (unquote r)
                             end
                    | [] => add replacement (unquote r)
                    end
           | [] => None
           end
  end.

(** Digits at the front. *)
Fixpoint span_digits (s : list Z) : list Z * list Z :=
  match s with
  | c :: r => if is_digit c then let '(ds, t) := span_digits r in (c :: ds, t) else ([], s)
  | [] => ([], [])
  end.

Definition scan_exp (lit s : list Z) : option (list Z * list Z) :=
  match s with
  | e :: r =>
      if (e =? 101) || (e =? 69) then
        let '(sg, r) := match r with c :: r' => if (c =? 43) || (c =? 45) then ([c], r') else ([], r) | [] => ([], []) end in
        let '(ds, t) := span_digits r in
        if bool_decide (ds = []) then None else Some (lit ++ e :: sg ++ ds, t)
      else Some (lit, s)
  | [] => Some (lit, s)
  end.

Definition scan_frac (lit s : list Z) : option (list Z * list Z) :=
  match s with
  | c :: r =>
      if c =? 46 then
        let '(ds, t) := span_digits r in
        if bool_decide (ds = []) then None else scan_exp (lit ++ c :: ds) t
      else scan_exp lit s
  | [] => scan_exp lit s
  end.

Definition scan_num (s : list Z) : option (list Z * list Z) :=
  let '(sg, s) := match s with c :: r => if c =? 45 then ([45], r) else ([], s) | [] => ([], []) end in
  match s with
  | c :: r =>
      if c =? 48 then scan_frac (sg ++ [48]) r
      else if is_digit c then let '(ds, t) := span_digits s in scan_frac (sg ++ ds) t
      else None
  | [] => None
  end.

Fixpoint strip_prefix (p s : list Z) : option (list Z) :=
  match p, s with
  | [], s => Some s
  | a :: p, b :: s => if a =? b then strip_prefix p s else None
  | _, [] => None
  end.

Definition maxNestingDepth : Z := 10000.

(** The next value; [depth] is that of the arrays and objects around it. *)
Fixpoint pval (fuel : nat) (depth : Z) (s : list Z) : option (json * list Z) :=
  match fuel with
  | O => None
  | S fuel =>
      match skip_ws s with
      | [] => None
      | c :: r =>
          if c =? 34 then '(t, rest) ← unquote r; Some (JStr t, rest)
          else if c =? 91 then
            if maxNestingDepth <=? depth then None
            else match skip_ws r with
                 | e :: r' => if e =? 93 then Some (JArr [], r')
                              else '(l, rest) ← pelems fuel (depth + 1) r; Some (JArr l, rest)
                 | [] => None
                 end
          else if c =? 123 then
            if maxNestingDepth <=? depth then None
            else match skip_ws r with
                 | e :: r' => if e =? 125 then Some (JObj [], r')
                              else '(l, rest) ← pfields fuel (depth + 1) r; Some (JObj l, rest)
                 | [] => None
                 end
          else if c =? 110 then rest ← strip_prefix (bytes_of "ull") r; Some (JNull, rest)
          else if c =? 116 then rest ← strip_prefix (bytes_of "rue") r; Some (JBool true, rest)
          else if c =? 102 then rest ← strip_prefix (bytes_of "alse") r; Some (JBool false, rest)
          else '(lit, rest) ← scan_num (c :: r); Some (JNum lit, rest)
      end
  end
with pelems (fuel : nat) (depth : Z) (s : list Z) : option (list json * list Z) :=
  match fuel with
  | O => None
  | S fuel =>
      '(v, rest) ← pval fuel depth s;
      match skip_ws rest with
      | c :: r => if c =? 93 then Some ([v], r)
                  else if c =? 44 then '(l, rest) ← pelems fuel depth r; Some (v :: l, rest)
                  else None
      | [] => None
      end
  end
with pfields (fuel : nat) (depth : Z) (s : list Z) : option (list (list Z * json) * list Z) :=
  match fuel with
  | O => None
  | S fuel =>
      match skip_ws s with
      | q :: r0 =>
          if q =? 34 then
            '(k, rest) ← unquote r0;
            match skip_ws rest with
            | c :: r =>
                if c =? 58 then
                  '(v, rest) ← pval fuel depth r;
                  match skip_ws rest with
                  | c :: r => if c =? 125 then Some ([(k, v)], r)
                              else if c =? 44 then '(l, rest) ← pfields fuel depth r; Some ((k, v) :: l, rest)
                              else None
                  | [] => None
                  end
                else None
            | [] => None
            end
          else None
      | [] => None
      end
  end.

(** Every call but those of [pelems] and [pfields] to [pval] reads a byte. *)
Definition fuel_for (s : list Z) : nat := 2 * length s + 2.

(** json.Unmarshal: one value and nothing after it. *)
Definition parse (s : list Z) : option json :=
  '(v, rest) ← pval (fuel_for s) 0 s;
  if bool_decide (skip_ws rest = []) then Some v else None.

(** json.NewDecoder(r).Decode: the first value. *)
Definition decode_first (s : list Z) : option json := '(v, _) ← pval (fuel_for s) 0 s; Some v.

(** ** Round trip *)

Definition add (bs : list Z) (o : option (list Z * list Z)) : option (list Z * list Z) :=
  '(t, rest) ← o; Some (bs ++ t, rest).

Lemma unquote_esc c t : 0 ≤ c < 128 → unquote (esc c ++ t) = add [c] (unquote t).
Proof.
  intros Hc. assert (Hin : c ∈ seqZ 0 128) by (apply elem_of_seqZ; lia). clear Hc.
  assert (Hall : Forall (λ c, unquote (esc c ++ t) = add [c] (unquote t)) (seqZ 0 128)).
  { vm_compute seqZ. repeat constructor. }
  rewrite Forall_forall in Hall. by apply Hall.
Qed.

Ltac bounds :=
  unfold len2, len3, len4, cont, between in *;
  repeat match goal with H : _ && _ = true |- _ => apply andb_prop in H as [? ?] end;
  rewrite ?Z.leb_le in *.

(** A byte of a longer rune is copied with the rest of it. *)
Lemma unquote_high c r :
  128 ≤ c →
  unquote (c :: r) =
    match r with
    | c1 :: r1 =>
        if len2 c c1 then add [c; c1] (unquote r1)
        else match r1 with
             | c2 :: r2 =>
                 if len3 c c1 c2 then add [c; c1; c2] (unquote r2)
                 else match r2 with
                      | c3 :: r3 => if len4 c c1 c2 c3 then add [c; c1; c2; c3] (unquote r3) else add replacement (unquote r)
                      | [] => add replacement (unquote r)
                      end
             | [] => add replacement (unquote r)
             end
    | [] => None
    end.
Proof.
  intros Hc. cbn [unquote]. rewrite (proj2 (Z.eqb_neq c 34)), (proj2 (Z.eqb_neq c 92)), (proj2 (Z.ltb_ge c 32)),
    (proj2 (Z.ltb_ge c 128)) by lia. done.
Qed.

Lemma unquote_esc3 c c1 c2 t :
  len3 c c1 c2 = true → unquote (esc3 c c1 c2 ++ t) = add [c; c1; c2] (unquote t).
Proof.
  intros H3. assert (Hc : 128 ≤ c) by (bounds; lia). unfold esc3.
  destruct ((c =? 226) && (c1 =? 128) && ((c2 =? 168) || (c2 =? 169))) eqn:Hsep.
  - apply andb_prop in Hsep as [[->%Z.eqb_eq ->%Z.eqb_eq]%andb_prop Hs].
    apply orb_prop in Hs as [->%Z.eqb_eq| ->%Z.eqb_eq]; reflexivity.
  - change ([c; c1; c2] ++ t) with (c :: c1 :: c2 :: t). rewrite unquote_high by done.
    replace (len2 c c1) with false; [by rewrite H3|].
    symmetry. apply not_true_iff_false. intros H2. bounds. lia.
Qed.

(** What is encoded is read back. *)
Lemma unquote_enc s rest : utf8_ok s = true → unquote (enc_body s ++ 34 :: rest) = Some (s, rest).
Proof.
  remember (length s) as n eqn:Hn. revert s Hn. induction n as [n IH] using lt_wf_ind. intros s -> Hok.
  assert (IH' : ∀ t, (length t < length s)%nat → utf8_ok t = true → unquote (enc_body t ++ 34 :: rest) = Some (t, rest)) by eauto.
  clear IH. destruct s as [|c r]; [done|]. cbn [utf8_ok] in Hok. cbn [enc_body].
  destruct (between 0 c 127) eqn:Ha.
  { bounds. rewrite (proj2 (Z.ltb_lt c 128)) by lia. rewrite <- app_assoc, unquote_esc by lia.
    rewrite IH' by (simpl; lia || done). done. }
  destruct r as [|c1 r1]; [done|]. destruct (len2 c c1) eqn:H2.
  { assert (Hc : 128 ≤ c) by (bounds; lia). rewrite (proj2 (Z.ltb_ge c 128)) by lia.
    simpl app. rewrite unquote_high, H2, IH' by (simpl; lia || done). done. }
  destruct r1 as [|c2 r2]; [done|]. destruct (len3 c c1 c2) eqn:H3.
  { assert (Hc : 128 ≤ c) by (bounds; lia). rewrite (proj2 (Z.ltb_ge c 128)) by lia.
    rewrite <- app_assoc, unquote_esc3, IH' by (simpl; lia || done). done. }
  destruct r2 as [|c3 r3]; [done|]. apply andb_prop in Hok as [H4 Hok].
  assert (Hc : 128 ≤ c) by (bounds; lia). rewrite (proj2 (Z.ltb_ge c 128)) by lia.
  rewrite H4. simpl app. rewrite unquote_high, H2, H3, H4, IH' by (simpl; lia || done). done.
Qed.

(** *** Numbers *)

Definition all_digits (ds : list Z) : Prop := Forall (λ c, is_digit c = true) ds.

Lemma digit_char d : 0 ≤ d < 10 → is_digit (48 + d) = true ∧ digit (48 + d) = d.
Proof. unfold is_digit, digit. intros H. split; [|lia]. apply andb_true_intro. rewrite !Z.leb_le. lia. Qed.

Lemma dec_digits_spec fuel z acc :
  0 ≤ z < 2 ^ Z.of_nat (S fuel) →
  ∃ d ds, dec_digits (S fuel) z acc = d :: ds ++ acc ∧ all_digits (d :: ds) ∧ (d = 48 → ds = []) ∧
    ∀ x t, digits x (d :: ds ++ t) = digits (x * 10 ^ Z.of_nat (S (length ds)) + z) t.
Proof.
  revert z acc. induction fuel as [|fuel IH]; intros z acc Hz.
  - assert (Hlt : z < 10) by (simpl in Hz; lia). destruct (digit_char z ltac:(lia)) as [H1 H2].
    exists (48 + z), []. cbn [dec_digits]. rewrite (proj2 (Z.ltb_lt z 10)) by lia.
    split_and!; [done|by constructor|done|]. intros x t. simpl digits. rewrite H1, H2. f_equal; lia.
  - cbn [dec_digits]. destruct (Z.ltb_spec z 10) as [Hlt|Hge].
    + destruct (digit_char z ltac:(lia)) as [H1 H2]. exists (48 + z), []. split_and!; [done|by constructor|done|].
      intros x t. simpl digits. rewrite H1, H2. f_equal; lia.
    + destruct (digit_char (z mod 10)) as [H1 H2]; [apply Z.mod_pos_bound; lia|].
      destruct (IH (z / 10) (48 + z mod 10 :: acc)) as (d & ds & Heq & Hall & Hz48 & Hval).
      { rewrite Nat2Z.inj_succ, Z.pow_succ_r in Hz by lia. split; [apply Z.div_pos; lia|].
        apply Z.div_lt_upper_bound; lia. }
      exists d, (ds ++ [48 + z mod 10]). rewrite <- app_assoc. simpl in Heq |- *. rewrite Heq.
      split_and!; [done| | |].
      * inversion Hall; subst. constructor; [done|]. apply Forall_app. by split; [|constructor].
      * intros ->. rewrite (Hz48 eq_refl) in Heq, Hval. exfalso.
        specialize (Hval 0 []). simpl in Hval. assert (Hq : 1 ≤ z / 10) by (apply Z.div_le_lower_bound; lia).
        unfold digit in Hval. injection Hval. lia.
      * intros x t. rewrite <- app_assoc. simpl in Hval. rewrite Hval. simpl digits. rewrite H1, H2.
        rewrite length_app. simpl. f_equal.
        replace (Z.of_nat (S (length ds + 1))) with (Z.of_nat (S (length ds)) + 1) by lia.
        rewrite Z.pow_add_r by lia. pose proof (Z.div_mod z 10). lia.
Qed.

Lemma dec_nat_spec z :
  0 ≤ z →
  ∃ d ds, dec_nat z = d :: ds ∧ all_digits (d :: ds) ∧ (d = 48 → ds = []) ∧ digits 0 (d :: ds) = Some z.
Proof.
  intros Hz. unfold dec_nat. destruct (dec_digits_spec (Z.to_nat (Z.log2 z)) z []) as (d & ds & Heq & Hall & H48 & Hval).
  { split; [done|]. rewrite Nat2Z.inj_succ, Z2Nat.id by apply Z.log2_nonneg.
    destruct (decide (z = 0)) as [->|]; [done|]. apply Z.log2_spec. lia. }
  exists d, ds. rewrite app_nil_r in Heq. split_and!; [done|done|done|]. specialize (Hval 0 []).
  rewrite app_nil_r in Hval. rewrite Hval. simpl. f_equal; lia.
Qed.

Lemma span_digits_all ds rest :
  all_digits ds → (∀ c r, rest = c :: r → is_digit c = false) → span_digits (ds ++ rest) = (ds, rest).
Proof.
  intros Hds Hr. induction Hds as [|c ds Hc Hds IH]; simpl.
  - destruct rest as [|c r]; [done|]. simpl. by rewrite (Hr c r).
  - by rewrite Hc, IH.
Qed.

(** What may follow a number: nothing that continues it. *)
Definition ends_number (rest : list Z) : Prop :=
  match rest with [] => True | c :: _ => is_digit c = false ∧ c ≠ 46 ∧ c ≠ 101 ∧ c ≠ 69 end.

Lemma scan_frac_end lit rest : ends_number rest → scan_frac lit rest = Some (lit, rest).
Proof.
  unfold scan_frac, scan_exp. destruct rest as [|c r]; [done|]. intros (_ & H1 & H2 & H3).
  by rewrite (proj2 (Z.eqb_neq _ _) H1), (proj2 (Z.eqb_neq _ _) H2), (proj2 (Z.eqb_neq _ _) H3).
Qed.

Lemma scan_num_dec z rest : ends_number rest → scan_num (dec z ++ rest) = Some (dec z, rest).
Proof.
  intros Hr. assert (Hpos : ∀ sg x, 0 ≤ x →
    match dec_nat x ++ rest with
    | c :: r => if c =? 48 then scan_frac (sg ++ [48]) r
                else if is_digit c then let '(ds, t) := span_digits (dec_nat x ++ rest) in scan_frac (sg ++ ds) t else None
    | [] => None
    end = Some (sg ++ dec_nat x, rest)).
  { intros sg x Hx. destruct (dec_nat_spec x Hx) as (d & ds & -> & Hall & H48 & _). simpl.
    destruct (Z.eqb_spec d 48) as [->|Hne].
    - rewrite (H48 eq_refl). by apply scan_frac_end.
    - inversion Hall as [|? ? Hd Hds]; subst. rewrite Hd, (span_digits_all ds rest); [by apply scan_frac_end|done|].
      intros c r ->. apply Hr. }
  unfold scan_num, dec. destruct (Z.ltb_spec z 0) as [Hz|Hz].
  - simpl. apply (Hpos [45]). lia.
  - specialize (Hpos [] z Hz). destruct (dec_nat_spec z Hz) as (d & ds & Heq & Hall & _). rewrite Heq in *. simpl in *.
    inversion Hall as [|? ? Hd Hds]; subst. replace (d =? 45) with false; [done|]. symmetry. apply Z.eqb_neq.
    unfold is_digit in Hd. apply andb_prop in Hd as [Hd _]. apply Z.leb_le in Hd. lia.
Qed.

(** *** Values *)

Section json_ind.
Context (P : json → Prop) (Hnull : P JNull) (Hbool : ∀ b, P (JBool b)) (Hnum : ∀ lit, P (JNum lit)) (Hstr : ∀ s, P (JStr s))
  (Harr : ∀ l, Forall P l → P (JArr l)) (Hobj : ∀ l, Forall (λ kv, P kv.2) l → P (JObj l)).

Fixpoint json_nested_ind (v : json) : P v :=
  match v with
  | JNull => Hnull
  | JBool b => Hbool b
  | JNum lit => Hnum lit
  | JStr s => Hstr s
  | JArr l =>
      Harr l ((fix go (l : list json) : Forall P l :=
                 match l with [] => Forall_nil_2 _ | v :: l => Forall_cons_2 _ _ _ (json_nested_ind v) (go l) end) l)
  | JObj l =>
      Hobj l ((fix go (l : list (list Z * json)) : Forall (λ kv, P kv.2) l :=
                 match l with
                 | [] => Forall_nil_2 _
                 | kv :: l => Forall_cons_2 _ _ _ (json_nested_ind kv.2) (go l)
                 end) l)
  end.
End json_ind.

(** The elements of an array and the fields of an object, as [enc] writes them. *)
Fixpoint enc_elems (l : list json) : list Z :=
  match l with
  | [] => []
  | v :: l => enc v ++ match l with [] => [] | _ => 44 :: enc_elems l end
  end.

Fixpoint enc_fields (l : list (list Z * json)) : list Z :=
  match l with
  | [] => []
  | (k, v) :: l => enc_string k ++ 58 :: enc v ++ match l with [] => [] | _ => 44 :: enc_fields l end
  end.

Lemma enc_arr l : enc (JArr l) = 91 :: enc_elems l ++ [93].
Proof. reflexivity. Qed.

Lemma enc_obj l : enc (JObj l) = 123 :: enc_fields l ++ [125].
Proof. reflexivity. Qed.

(** The values Marshal writes: strings in UTF-8, integers, and not nested
    deeper than Unmarshal reads. *)
Fixpoint wf (depth : Z) (v : json) : Prop :=
  match v with
  | JNull | JBool _ => True
  | JNum lit => ∃ z, lit = dec z
  | JStr s => utf8_ok s = true
  | JArr l =>
      depth < maxNestingDepth ∧
      (fix all (l : list json) : Prop := match l with [] => True | v :: l => wf (depth + 1) v ∧ all l end) l
  | JObj l =>
      depth < maxNestingDepth ∧
      (fix all (l : list (list Z * json)) : Prop :=
         match l with [] => True | (k, v) :: l => utf8_ok k = true ∧ wf (depth + 1) v ∧ all l end) l
  end.

Lemma wf_arr depth l : wf depth (JArr l) ↔ depth < maxNestingDepth ∧ Forall (wf (depth + 1)) l.
Proof.
  simpl. apply and_iff_compat_l. induction l as [|v l IH]; [done|]. by rewrite IH, Forall_cons.
Qed.

Lemma wf_obj depth l :
  wf depth (JObj l) ↔ depth < maxNestingDepth ∧ Forall (λ kv, utf8_ok kv.1 = true ∧ wf (depth + 1) kv.2) l.
Proof.
  simpl. apply and_iff_compat_l. induction l as [|[k v] l IH]; [done|]. rewrite IH, Forall_cons. simpl. tauto.
Qed.

(** The first byte of a value is neither a space nor the end of a list. *)
Lemma enc_head depth v :
  wf depth v → ∃ c t, enc v = c :: t ∧ is_space c = false ∧ c ≠ 93 ∧ c ≠ 125.
Proof.
  destruct v as [|[]|lit|s|l|l]; intros Hw; try (by eexists _, _; split; [reflexivity|]).
  destruct Hw as [z ->]. assert (Hd : ∀ c, is_digit c = true → is_space c = false ∧ c ≠ 93 ∧ c ≠ 125).
  { unfold is_digit, is_space. intros c [H1 H2]%andb_prop. rewrite Z.leb_le in *. split; [|lia].
    rewrite !orb_false_iff, !Z.eqb_neq. lia. }
  simpl. unfold dec. destruct (Z.ltb_spec z 0).
  - by eexists _, _; split; [reflexivity|].
  - destruct (dec_nat_spec z) as (d & ds & -> & Hall & _); [lia|]. eexists _, _. split; [reflexivity|].
    apply Hd. by inversion Hall.
Qed.

Lemma skip_ws_head c t : is_space c = false → skip_ws (c :: t) = c :: t.
Proof. simpl. by intros ->. Qed.

Lemma ends_number_elems (l : list json) rest : ends_number (match l with [] => [] | _ => 44 :: enc_elems l end ++ 93 :: rest).
Proof. by destruct l; repeat split. Qed.

Lemma ends_number_fields (l : list (list Z * json)) rest :
  ends_number (match l with [] => [] | _ => 44 :: enc_fields l end ++ 125 :: rest).
Proof. by destruct l; repeat split. Qed.

Definition reads (v : json) : Prop :=
  ∀ fuel depth rest, wf depth v → (length (enc v) ≤ fuel)%nat → ends_number rest →
    pval fuel depth (enc v ++ rest) = Some (v, rest).

Lemma pelems_enc l fuel depth rest :
  Forall reads l → l ≠ [] → Forall (wf depth) l → (S (length (enc_elems l)) ≤ fuel)%nat →
  pelems fuel depth (enc_elems l ++ 93 :: rest) = Some (l, rest).
Proof.
  revert fuel. induction l as [|v l IH]; intros fuel Hr Hne Hw Hf; [done|].
  apply Forall_cons in Hr as [Hv Hr]. apply Forall_cons in Hw as [Hwv Hw].
  destruct fuel as [|fuel]; [lia|]. simpl enc_elems in Hf |- *. rewrite length_app in Hf.
  cbn [pelems]. rewrite <- app_assoc. rewrite (Hv fuel depth _ Hwv) by (lia || apply ends_number_elems).
  cbn [mbind option_bind]. destruct l as [|v' l]; [done|].
  change (skip_ws _) with (44 :: enc_elems (v' :: l) ++ 93 :: rest). change (44 =? 93) with false. change (44 =? 44) with true.
  cbv beta iota. rewrite IH by (done || (simpl in Hf |- *; lia)). done.
Qed.

Lemma pfields_enc l fuel depth rest :
  Forall (λ kv, reads kv.2) l → l ≠ [] → Forall (λ kv, utf8_ok kv.1 = true ∧ wf depth kv.2) l →
  (S (length (enc_fields l)) ≤ fuel)%nat →
  pfields fuel depth (enc_fields l ++ 125 :: rest) = Some (l, rest).
Proof.
  revert fuel. induction l as [|[k v] l IH]; intros fuel Hr Hne Hw Hf; [done|].
  apply Forall_cons in Hr as [Hv Hr]. apply Forall_cons in Hw as [[Hk Hwv] Hw]. simpl in Hk, Hwv, Hv.
  destruct fuel as [|fuel]; [lia|].
  assert (Hlen : (length (enc v) + length (match l with [] => [] | _ => 44%Z :: enc_fields l end) ≤ fuel)%nat).
  { simpl in Hf. rewrite !length_app in Hf. simpl in Hf. rewrite !length_app in Hf. lia. }
  clear Hf.
  assert (Htxt : enc_fields ((k, v) :: l) ++ 125 :: rest =
    34 :: enc_body k ++ 34 :: 58 :: enc v ++ (match l with [] => [] | _ => 44 :: enc_fields l end) ++ 125 :: rest).
  { simpl. unfold enc_string. simpl. rewrite <- !app_assoc. simpl. by rewrite <- ?app_assoc. }
  rewrite Htxt. cbn [pfields]. rewrite (skip_ws_head 34) by done. change (34 =? 34) with true. cbv beta iota.
  rewrite unquote_enc by done. cbn [mbind option_bind]. rewrite (skip_ws_head 58) by done.
  change (58 =? 58) with true. cbv beta iota.
  rewrite (Hv fuel depth _ Hwv) by (lia || apply ends_number_fields). cbn [mbind option_bind].
  destruct l as [|kv' l]; [done|].
  change (skip_ws _) with (44 :: enc_fields (kv' :: l) ++ 125 :: rest). change (44 =? 125) with false. change (44 =? 44) with true.
  cbv beta iota. rewrite IH by (done || (cbn [length] in Hlen; lia)). done.
Qed.

Lemma dec_head z : ∃ c t, dec z = c :: t ∧ (c = 45 ∨ is_digit c = true).
Proof.
  unfold dec. destruct (Z.ltb_spec z 0); [by eexists _, _; split; [reflexivity|left]|].
  destruct (dec_nat_spec z) as (d & ds & -> & Hall & _); [lia|]. exists d, ds. split; [done|right]. by inversion Hall.
Qed.

(** A value that starts as a number does. *)
Lemma pval_num fuel depth z rest :
  ends_number rest → pval (S fuel) depth (dec z ++ rest) = Some (JNum (dec z), rest).
Proof.
  intros Hr. pose proof (scan_num_dec z rest Hr) as Hs. destruct (dec_head z) as (c & t & Heq & Hc). rewrite Heq in *.
  assert (Hne : is_space c = false ∧ c ≠ 34 ∧ c ≠ 91 ∧ c ≠ 123 ∧ c ≠ 110 ∧ c ≠ 116 ∧ c ≠ 102).
  { unfold is_digit, is_space in *. destruct Hc as [->|[H1 H2]%andb_prop]; [done|]. rewrite Z.leb_le in *.
    rewrite !orb_false_iff, !Z.eqb_neq. lia. }
  destruct Hne as (Hsp & H1 & H2 & H3 & H4 & H5 & H6). cbn [app pval]. rewrite skip_ws_head by done.
  rewrite (proj2 (Z.eqb_neq _ _) H1), (proj2 (Z.eqb_neq _ _) H2), (proj2 (Z.eqb_neq _ _) H3), (proj2 (Z.eqb_neq _ _) H4),
    (proj2 (Z.eqb_neq _ _) H5), (proj2 (Z.eqb_neq _ _) H6).
  cbn [app] in Hs. by rewrite Hs.
Qed.

Lemma pval_enc v : reads v.
Proof.
  induction v as [|b|lit|s|l IHl|l IHl] using json_nested_ind; intros fuel depth rest Hw Hf Hr;
    (destruct fuel as [|fuel];
     [destruct (enc_head depth _ Hw) as (c & t & Heq & _); rewrite Heq in Hf; simpl in Hf; lia|]).
  - done.
  - by destruct b.
  - destruct Hw as [z ->]. by apply pval_num.
  - change (enc (JStr s)) with (34 :: enc_body s ++ [34]). cbn [app pval]. rewrite (skip_ws_head 34) by done.
    change (34 =? 34) with true. cbv beta iota. rewrite <- app_assoc. simpl app. by rewrite unquote_enc.
  - rewrite enc_arr in *. apply wf_arr in Hw as [Hd Hw]. cbn [app pval]. rewrite (skip_ws_head 91) by done.
    change (91 =? 34) with false. change (91 =? 91) with true. cbv beta iota.
    rewrite (proj2 (Z.leb_gt _ _) Hd). destruct l as [|v l]; [done|].
    rewrite <- app_assoc. cbn [app].
    assert (Hh : ∃ c t, enc_elems (v :: l) ++ 93 :: rest = c :: t ∧ is_space c = false ∧ c ≠ 93).
    { apply Forall_cons in Hw as [Hw _]. destruct (enc_head _ _ Hw) as (c & t & Heq & ? & ? & _).
      simpl. rewrite Heq. by eexists _, _; split. }
    destruct Hh as (c & t & Heq & Hsp & Hne). rewrite Heq, skip_ws_head, (proj2 (Z.eqb_neq _ _) Hne), <- Heq by done.
    rewrite pelems_enc; [done|done|done|done|]. cbn [length] in Hf. rewrite length_app in Hf. simpl length in Hf at 2. lia.
  - rewrite enc_obj in *. apply wf_obj in Hw as [Hd Hw]. cbn [app pval]. rewrite (skip_ws_head 123) by done.
    change (123 =? 34) with false. change (123 =? 91) with false. change (123 =? 123) with true. cbv beta iota.
    rewrite (proj2 (Z.leb_gt _ _) Hd). destruct l as [|[k v] l]; [done|].
    rewrite <- app_assoc. cbn [app].
    assert (Hh : ∃ t, enc_fields ((k, v) :: l) ++ 125 :: rest = 34 :: t) by (eexists; reflexivity).
    destruct Hh as (t & Heq). rewrite Heq, (skip_ws_head 34), <- Heq by done. change (34 =? 125) with false. cbv beta iota.
    rewrite pfields_enc; [done|done|done|done|]. cbn [length] in Hf. rewrite length_app in Hf. simpl length in Hf at 2. lia.
Qed.

(** What json.Marshal writes, json.Unmarshal and a Decoder read back as the
    same value, whatever follows it in the stream: strings with quotes, control
    characters, HTML characters and multi-byte runes included. *)
Theorem json_roundtrip v :
  wf 0 v → parse (enc v) = Some v ∧ ∀ rest, ends_number rest → decode_first (enc v ++ rest) = Some v.
Proof.
  intros Hw. assert (Hp : ∀ rest, ends_number rest → pval (fuel_for (enc v ++ rest)) 0 (enc v ++ rest) = Some (v, rest)).
  { intros rest Hr. apply pval_enc; [done| |done]. unfold fuel_for. rewrite length_app. lia. }
  split.
  - unfold parse. specialize (Hp [] I). rewrite app_nil_r in Hp. by rewrite Hp.
  - intros rest Hr. unfold decode_first. by rewrite Hp.
Qed.

(** An account whose id has a rune of two bytes, an HTML character and a
    quote, and a null. *)
Definition sample : json :=
  JArr [JObj [(bytes_of "id", JStr [195; 169; 60; 34]); (bytes_of "weight", JNum (dec (-5)))]; JNull].

Lemma json_roundtrip_witness :
  enc sample = bytes_of "[{" ++ [34] ++ bytes_of "id" ++ [34; 58; 34; 195; 169; 92; 117; 48; 48; 51; 99; 92; 34; 34; 44; 34] ++
    bytes_of "weight" ++ [34] ++ bytes_of ":-5},null]" ∧ parse (enc sample) = Some sample.
Proof.
  split; [by vm_compute|]. apply (json_roundtrip sample).
  simpl. repeat split; try (by vm_compute). by exists (-5).
Defined.

End JSON.
