(* ===== verification/GoLoop.v ===== *)
(** * The background loops

    Most components start a goroutine with the same shape: a ticker, a select
    between its channel, the context and a stop channel, and a call on every
    tick.  [loop body wakes s] runs [body] for the choices the select made;
    [None] is a panic of the body.  The loops of the components are instances
    (Accounts, Lifecycle). *)
From stdpp Require Import base list.
From Stdlib Require Import ZArith Lia.
From S2P Require Import Prelude Go.
Local Open Scope Z_scope.

Module Loop.

(** What a turn of the select takes: the ticker, at an instant, or one of the
    channels that end the loop. *)
Inductive wake := Tick (now : Z) | CtxDone | Stopped.

(** Still running, or returned. *)
Inductive status := Running | Returned.

Fixpoint loop {A} (body : Z → A → option A) (wakes : list wake) (s : A) : option (A * status) :=
  match wakes with
  | [] => Some (s, Running)
  | Tick now :: wakes => s' ← body now s; loop body wakes s'
  | _ :: _ => Some (s, Returned)
  end.

Section laws.
Context {A : Type} (body : Z → A → option A).

Lemma loop_app w1 w2 s :
  loop body (w1 ++ w2) s =
    (r ← loop body w1 s; match r.2 with Running => loop body w2 r.1 | Returned => Some r end).
Proof.
  revert s. induction w1 as [|[now| |] w1 IH]; intros s; simpl; [done|..]; try done.
  destruct (body now s); simpl; [apply IH|done].
Qed.

(** What the body keeps, the loop keeps. *)
Lemma loop_inv (P : A → Prop) wakes s :
  P s → (∀ now s, P s → ∃ s', body now s = Some s' ∧ P s') →
  ∃ r, loop body wakes s = Some r ∧ P r.1.
Proof.
  intros Hs Hb. revert s Hs. induction wakes as [|[now| |] wakes IH]; intros s Hs; simpl.
  - by eexists.
  - destruct (Hb now s Hs) as (s' & -> & Hs'). simpl. by apply IH.
  - by eexists.
  - by eexists.
Qed.

(** After the end of the loop, nothing runs. *)
Lemma loop_ends w1 w w2 s r :
  (∀ now, w ≠ Tick now) → loop body w1 s = Some (r, Running) → loop body (w1 ++ w :: w2) s = Some (r, Returned).
Proof. intros Hw H. rewrite loop_app, H. simpl. destruct w; [by destruct (Hw now)|done..]. Qed.
End laws.
End Loop.
