(* ===== verification/K8sWatch.v ===== *)
(** * discovery_kubernetes.go: the watch

    [Start] lets an informer keep a copy of the EndpointSlices and call a
    handler after every change; the handler puts a token into a channel of
    capacity one, and a goroutine takes the token, waits half a second, throws
    away a token that came meanwhile and reconciles with the copy.  The informer
    is outside: it may change its copy at any time, and after each change it
    calls the handler, later and once.  Runs interleave it with the goroutine,
    with Stop and the context, and with everyone else who changes the store or
    the drains: other replicas, the health checker, a drain, an outage. *)
From stdpp Require Import base gmap strings list fin_maps.
From Stdlib Require Import ZArith Lia.
From S2P Require Import Prelude Go Assignment Store StoreMemory Drain BackendDiscovery.
Import BD.K8s.
Local Open Scope Z_scope.

Module K8sWatch.

(** The namespace of [newKubernetesBackendDiscovery]: [file] is what the
    service account's file holds, trimmed, if it could be read. *)
Definition namespace_of (namespace : string) (file : option string) (trimmed : string) : string :=
  if bool_decide (namespace = "") then
    match file with
    | Some f => if bool_decide (f = "") then "default" else trimmed
    | None => "default"
    end
  else namespace.

(** The client of NewKubernetesBackendDiscovery: the configuration of the
    cluster, or the one of KUBECONFIG or the home directory.  [build] is
    clientcmd.BuildConfigFromFlags, [clientset] is kubernetes.NewForConfig. *)
Definition kubeconfig_path (env : string → string) (home : string) : string :=
  if bool_decide (env "KUBECONFIG" = "") then home +:+ "/.kube/config" else env "KUBECONFIG".

Definition new_clientset {C K} (inCluster : error + C) (env : string → string) (home : string)
    (build : string → error + C) (clientset : C → error + K) : error + K :=
  match match inCluster with inr c => inr c | inl _ => build (kubeconfig_path env home) end with
  | inl e => inl e
  | inr c => clientset c
  end.

Definition Millisecond : Duration := 1000000.
Definition debounce : Duration := 500 * Millisecond.

(** The goroutine: not started before the informer has its first copy; at the
    outer select; waiting since an instant; past the wait, with the copy not yet
    listed; returned. *)
Inductive pc := Syncing | Idle | Waiting (since : Z) | Listing | Ended.

Record watch (S : Type) := mkWatch {
  clock : Z;
  copy : gmap string EndpointSlice;    (* informer.GetStore() *)
  reported : bool;                     (* the informer has reported something *)
  calls : nat;                         (* calls of the handler to come *)
  token : bool;                        (* reconcileCh *)
  at_ : pc;
  stopped : bool;                      (* stopCh is closed *)
  cancelled : bool;                    (* ctx *)
  disc : KubernetesBackendDiscovery S
}.
Arguments mkWatch {S}.
Arguments clock {S}.
Arguments copy {S}.
Arguments reported {S}.
Arguments calls {S}.
Arguments token {S}.
Arguments at_ {S}.
Arguments stopped {S}.
Arguments cancelled {S}.
Arguments disc {S}.

Inductive event (S : Type) :=
  | Pass (d : Z)                                  (* time *)
  | Informed (c : gmap string EndpointSlice)      (* the informer: a change of its copy *)
  | Handle                                        (* the informer: AddFunc, UpdateFunc, DeleteFunc *)
  | Sync (ok : bool)                              (* WaitForCacheSync *)
  | Take | Fire | Reconcile | Leave               (* the goroutine *)
  | StopCall | Cancel
  | Foreign (f : S → S) (g : Drain.DrainManager → Drain.DrainManager).   (* others *)
Arguments Pass {S}.
Arguments Informed {S}.
Arguments Handle {S}.
Arguments Sync {S}.
Arguments Take {S}.
Arguments Fire {S}.
Arguments Reconcile {S}.
Arguments Leave {S}.
Arguments StopCall {S}.
Arguments Cancel {S}.
Arguments Foreign {S}.

Section watch.
Context `{!MapIter} {S : Type} `{!Store S} (portName : string).
Implicit Types (k : KubernetesBackendDiscovery S) (w : watch S).

(** [list] is the answer of the API server. *)
Definition SeedBackends (list : result (list EndpointSlice)) k : KubernetesBackendDiscovery S :=
  match list.2 with
  | Some _ => k
  | None => applyDesiredState (buildDesiredState portName list.1) k
  end.

(** [sync.Once] *)
Definition Stop w : watch S :=
  mkWatch (clock w) (copy w) (reported w) (calls w) (token w) (at_ w) true (cancelled w) (disc w).

(** A send that is dropped when the channel is full. *)
Definition enqueue w : watch S :=
  mkWatch (clock w) (copy w) (reported w) (pred (calls w)) true (at_ w) (stopped w) (cancelled w) (disc w).

Definition move (p : pc) (tok : bool) w : watch S :=
  mkWatch (clock w) (copy w) (reported w) (calls w) tok p (stopped w) (cancelled w) (disc w).

Definition slices (c : gmap string EndpointSlice) : list EndpointSlice := (range 103 c).*2.

Definition desired w : gmap string epState := buildDesiredState portName (slices (copy w)).

Definition exec1 (e : event S) w : option (watch S) :=
  match e with
  | Pass d =>
      if 0 <=? d then Some (mkWatch (clock w + d) (copy w) (reported w) (calls w) (token w) (at_ w) (stopped w) (cancelled w) (disc w))
      else None
  | Informed c =>
      Some (mkWatch (clock w) c true (Datatypes.S (calls w)) (token w) (at_ w) (stopped w) (cancelled w) (disc w))
  | Handle => match calls w with O => None | _ => Some (enqueue w) end
  | Sync ok =>
      match at_ w with
      | Syncing => if ok then Some (move Idle (token w) w) else if stopped w then Some (Stop (move Ended (token w) w)) else None
      | _ => None
      end
  | Take =>
      match at_ w with Idle => if token w then Some (move (Waiting (clock w)) false w) else None | _ => None end
  | Fire =>
      match at_ w with Waiting t => if t + debounce <=? clock w then Some (move Listing false w) else None | _ => None end
  | Reconcile =>
      match at_ w with
      | Listing =>
          Some (mkWatch (clock w) (copy w) (reported w) (calls w) (token w) Idle (stopped w) (cancelled w)
                  (k8s_reconcile portName (slices (copy w)) (disc w)))
      | _ => None
      end
  | Leave =>
      match at_ w with
      | Idle | Waiting _ => if stopped w || cancelled w then Some (move Ended (token w) w) else None
      | _ => None
      end
  | StopCall => Some (Stop w)
  | Cancel =>
      (* Start returns; its deferred calls cancel the inner context and stop the informer *)
      Some (mkWatch (clock w) (copy w) (reported w) (calls w) (token w) (at_ w) true true (disc w))
  | Foreign f g =>
      Some (mkWatch (clock w) (copy w) (reported w) (calls w) (token w) (at_ w) (stopped w) (cancelled w)
              (with_drain (g <$> drain (disc w)) (with_store (f (store (disc w))) (disc w))))
  end.

Fixpoint exec (l : list (event S)) w : option (watch S) :=
  match l with
  | [] => Some w
  | e :: l => w' ← exec1 e w; exec l w'
  end.

Definition start k : watch S := mkWatch 0 ∅ false 0 false Syncing false false k.
End watch.

(** ** Nothing is missed *)

Section correct.
Context `{!MapIter} {S : Type} `{!Store S, !BackendsSpec S} (portName : string).
Implicit Types (k : KubernetesBackendDiscovery S) (w : watch S).

(** The active set follows the state the discovery knows at [u]: it is in it
    when known as active, not in it when unknown, and without a drain manager
    not in it when terminating. *)
Record follows (u : string) k : Prop := {
  f_live : live (store k);
  f_active : known k !! u = Some epActive → u ∈ act (store k);
  f_known : u ∈ act (store k) → is_Some (known k !! u);
  f_exact : ¬ drains k → u ∈ act (store k) → known k !! u = Some epActive
}.

Lemma buildDesiredState_known sl u st : buildDesiredState portName sl !! u = Some st → st = epActive ∨ st = epTerminating.
Proof.
  intros (sl' & ep & addr & _ & _ & _ & _ & _ & Hc)%buildDesiredState_spec.
  unfold classify in Hc. repeat case_match; simplify_eq; eauto.
Qed.

Lemma applyDesiredState_drains d k : drains (applyDesiredState d k) ↔ drains k.
Proof.
  unfold applyDesiredState, drains. rewrite remove_all_drain.
  assert (Hf : ∀ l k', is_Some (drain (foldl (apply_one (known k)) k' l)) ↔ is_Some (drain k')).
  { induction l as [|[u st] l IH]; intros k'; [done|]. simpl. rewrite IH. unfold apply_one.
    destruct st; repeat case_match; simpl; rewrite ?fmap_is_Some; try done; by match goal with Hd : drain _ = None |- _ => rewrite Hd end. }
  by rewrite Hf.
Qed.

Lemma applyDesiredState_known d k : known (applyDesiredState d k) = d.
Proof.
  assert (Hr : ∀ l k', known (foldl (remove_one d) k' l) = known k').
  { induction l as [|u l IH]; intros k'; simpl; [done|]. rewrite IH. unfold remove_one. by case_match. }
  assert (Ha : ∀ l k', known (foldl (apply_one (known k)) k' l) = known k').
  { induction l as [|[u st] l IH]; intros k'; simpl; [done|]. rewrite IH. unfold apply_one. by repeat case_match. }
  unfold applyDesiredState. by rewrite Hr, Ha.
Qed.

Lemma apply_follows sl u k : follows u k → follows u (applyDesiredState (buildDesiredState portName sl) k).
Proof.
  intros [H1 H2 H3 H4]. destruct (applyDesiredState_active (buildDesiredState portName sl) k H1) as (L & K & _ & A).
  split; [done|..]; rewrite ?K.
  - intros Hu. rewrite A, Hu. simpl. destruct (decide (known k !! u = Some epActive)); eauto.
  - rewrite A. destruct (buildDesiredState portName sl !! u); [by eexists|]. simpl.
    intros [Hn [st Hs]%H3]. by rewrite Hn in Hs.
  - rewrite applyDesiredState_drains. intros Hd. rewrite A.
    destruct (buildDesiredState portName sl !! u) as [st|] eqn:Hu; simpl.
    + destruct (buildDesiredState_known _ _ _ Hu) as [->| ->]; [done|]. intros [[Ht|?] Ha]; [|done].
      apply H4 in Ha; [|done]. by rewrite Ha in Ht.
    + intros [Hn Ha%H3]. destruct Ha as [? Ha]. by rewrite Hn in Ha.
Qed.

Lemma SeedBackends_follows lst u k : follows u k → follows u (SeedBackends portName lst k).
Proof. intros Hk. unfold SeedBackends. destruct lst.2; [done|]. by apply apply_follows. Qed.

(** A call of the handler, a token or a reconciliation under way is left over
    for every change that is not yet applied. *)
Definition pending w : Prop := (0 < calls w)%nat ∨ token w = true ∨ (∃ t, at_ w = Waiting t) ∨ at_ w = Listing ∨ at_ w = Ended.

Definition informed w : Prop := reported w = true → pending w ∨ known (disc w) = desired portName w.

Lemma watch_exec1_informed e w w' : exec1 portName e w = Some w' → informed w → informed w'.
Proof.
  unfold informed, pending. intros He K. destruct e; simpl in He.
  - destruct (0 <=? d); simplify_eq. done.
  - simplify_eq. intros _. left. left. simpl. lia.
  - destruct (calls w) eqn:Hc; simplify_eq. intros _. left. by right; left.
  - destruct (at_ w) eqn:Ha; try done. destruct ok; [|destruct (stopped w); [|done]]; simplify_eq; simpl; intros Hr.
    + destruct (K Hr) as [[?|[?|[[? ?]|[?|?]]]]|?]; try done; eauto.
    + left. by do 4 right.
  - destruct (at_ w) eqn:Ha; try done. destruct (token w); simplify_eq. intros _. left. right. right. left. by eexists.
  - destruct (at_ w) as [| |t| |] eqn:Ha; try done. destruct (t + debounce <=? clock w); simplify_eq.
    intros _. left. by do 3 right; left.
  - destruct (at_ w) eqn:Ha; try done. simplify_eq. intros _. right. apply applyDesiredState_known.
  - destruct (at_ w) eqn:Ha; try done; (destruct (stopped w || cancelled w); [|done]; simplify_eq;
      intros _; left; by do 4 right).
  - by simplify_eq.
  - by simplify_eq.
  - by simplify_eq.
Qed.

Lemma watch_exec_informed l w w' : exec portName l w = Some w' → informed w → informed w'.
Proof.
  revert w. induction l as [|e l IH]; intros w He Hw; [by simplify_eq/=|].
  apply bind_Some in He as (w1 & H1 & He). eapply IH; [done|]. by eapply watch_exec1_informed.
Qed.

(** What others may do about [u] without getting in the way: the store goes on
    answering, they do not add [u], and they do not remove it while the
    discovery knows it as active.  The removal of [u] at the end of a drain is
    among these steps. *)
Definition harmless (u : string) w (e : event S) : Prop :=
  match e with
  | Foreign f _ =>
      let s := store (disc w) in
      live (f s) ∧ (u ∈ act (f s) → u ∈ act s) ∧
      (known (disc w) !! u = Some epActive → u ∈ act s → u ∈ act (f s))
  | _ => True
  end.

Fixpoint undisturbed (u : string) (l : list (event S)) w : Prop :=
  match l with
  | [] => True
  | e :: l => harmless u w e ∧ match exec1 portName e w with Some w' => undisturbed u l w' | None => True end
  end.

Lemma watch_exec1_follows u e w w' :
  exec1 portName e w = Some w' → harmless u w e → follows u (disc w) → follows u (disc w').
Proof.
  intros He Hh F. destruct e; simpl in He; repeat case_match; simplify_eq; try done; [by apply apply_follows|].
  destruct Hh as (Hl & Hin & Hout), F as [H1 H2 H3 H4]. split; simpl; [done|auto|auto|].
  intros Hd Hu. apply H4; [|auto]. intros Hd'. apply Hd. unfold drains. simpl. by rewrite fmap_is_Some.
Qed.

Lemma watch_exec_follows u l w w' :
  exec portName l w = Some w' → undisturbed u l w → follows u (disc w) → follows u (disc w').
Proof.
  revert w. induction l as [|e l IH]; intros w He Hu Hw; [by simplify_eq/=|].
  apply bind_Some in He as (w1 & H1 & He). destruct Hu as [Hh Hu]. rewrite H1 in Hu.
  eapply IH; [done..|]. by eapply watch_exec1_follows.
Qed.

(** Steps of the goroutine, of the informer delivering its calls, and time. *)
Definition inner (e : event S) : bool := match e with Pass _ | Handle | Take | Fire | Reconcile => true | _ => false end.
Definition elapsed (l : list (event S)) : Z := zsum (λ e, match e with Pass d => d | _ => 0 end) l.

Definition settled w : Prop := calls w = 0%nat ∧ token w = false ∧ at_ w = Idle.

Definition running w : Prop := match at_ w with Syncing | Ended => False | _ => True end.

(** The state apart from the goroutine's progress. *)
Definition same w w' : Prop := copy w' = copy w ∧ reported w' = reported w.

Definition reaches w (bound : Z) (P : watch S → Prop) : Prop :=
  ∃ l w', forallb inner l = true ∧ elapsed l ≤ bound ∧ exec portName l w = Some w' ∧ same w w' ∧ P w'.

Lemma reaches_here w b (P : watch S → Prop) : 0 ≤ b → P w → reaches w b P.
Proof. intros Hb HP. exists [], w. by repeat split. Qed.

Lemma reaches_step e w w' b (P : watch S → Prop) :
  inner e = true → exec1 portName e w = Some w' → same w w' →
  reaches w' (b - match e with Pass d => d | _ => 0 end) P → reaches w b P.
Proof.
  intros Hi He [Hs1 Hs2] (l & w2 & Hl & Hb & Hx & [Hs3 Hs4] & HP). exists (e :: l), w2.
  split; [simpl; by rewrite Hi|]. split; [unfold elapsed in *; rewrite zsum_cons; destruct e; lia|].
  split; [simpl; by rewrite He|]. split; [split; congruence|done].
Qed.

Lemma deliver_all n w b (P : watch S → Prop) :
  calls w = n →
  (∀ w', same w w' → calls w' = 0%nat → at_ w' = at_ w → clock w' = clock w → reaches w' b P) → reaches w b P.
Proof.
  revert w. induction n as [|n IH]; intros w Hn HP; [by apply HP|].
  apply (reaches_step Handle w (enqueue w)); [done|by simpl; rewrite Hn|done|]. rewrite Z.sub_0_r.
  apply IH; [by simpl; rewrite Hn|]. intros w' [? ?] ? ? ?. by apply HP.
Qed.

(** From a wait on: half a second, the reconciliation. *)
Lemma finish_wait w t b (P : watch S → Prop) :
  at_ w = Waiting t → t ≤ clock w → debounce ≤ b → calls w = 0%nat →
  (∀ w', same w w' → settled w' → P w') → reaches w b P.
Proof.
  intros Ht Hle Hb Hc HP. eapply (reaches_step (Pass debounce)); [done|done|done|].
  eapply (reaches_step Fire); [done|simpl; rewrite Ht, (proj2 (Z.leb_le _ _)) by lia; done|done|].
  eapply (reaches_step Reconcile); [done|simpl; done|done|]. simpl.
  apply reaches_here; [lia|]. apply HP; [done|]. by repeat split.
Qed.

Lemma finish_idle w b (P : watch S → Prop) :
  at_ w = Idle → debounce ≤ b → calls w = 0%nat → (∀ w', same w w' → settled w' → P w') → reaches w b P.
Proof.
  intros Hi Hb Hc HP. destruct (token w) eqn:Htok.
  - eapply (reaches_step Take); [done|simpl; by rewrite Hi, Htok|done|].
    apply (finish_wait _ (clock w)); [done|simpl; lia|simpl; lia|done|]. done.
  - apply reaches_here; [unfold debounce, Millisecond in *; lia|]. apply HP; [done|]. by repeat split.
Qed.

Lemma settles w b :
  running w → (∀ t, at_ w = Waiting t → t ≤ clock w) → 2 * debounce ≤ b → reaches w b settled.
Proof.
  intros Hr Ht Hb. apply (deliver_all (calls w)); [done|]. intros w1 S1 Hc1 Ha1 Hk1.
  unfold running in Hr. rewrite <- Ha1 in Hr, Ht. destruct (at_ w1) as [| |t| |] eqn:Ha; try done.
  - apply finish_idle; [done|unfold debounce, Millisecond in *; lia|done|done].
  - apply (finish_wait _ t); [done|rewrite Hk1; by apply Ht|unfold debounce, Millisecond in *; lia|done|done].
  - eapply (reaches_step Reconcile); [done|simpl; by rewrite Ha|done|].
    apply finish_idle; [done|simpl; unfold debounce, Millisecond in *; lia|done|done].
Qed.

Lemma exec_clock l w w' :
  exec portName l w = Some w' → (∀ t, at_ w = Waiting t → t ≤ clock w) → ∀ t, at_ w' = Waiting t → t ≤ clock w'.
Proof.
  revert w. induction l as [|e l IH]; intros w He Hw; [by simplify_eq/=|].
  apply bind_Some in He as (w1 & H1 & He). apply (IH w1 He). clear IH He. destruct e; simpl in H1;
    repeat case_match; simplify_eq; simpl; try done; intros t' Ht'; simplify_eq; try done; try lia.
  apply Hw in Ht'. rewrite Z.leb_le in *. lia.
Qed.

Lemma inner_undisturbed u l w : forallb inner l = true → undisturbed u l w.
Proof.
  revert w. induction l as [|e l IH]; intros w; simpl; [done|]. intros [He Hl]%andb_prop.
  split; [by destruct e|]. case_match; [by apply IH|done].
Qed.

(** Others that leave [u] alone, whatever the store. *)
Lemma undisturbed_all u l w :
  Forall (λ e, match e with Foreign f _ => ∀ s, live s → live (f s) ∧ (u ∈ act (f s) ↔ u ∈ act s) | _ => True end) l →
  follows u (disc w) → undisturbed u l w.
Proof.
  intros Hl. revert w. induction Hl as [|e l He Hl IH]; intros w Hw; simpl; [done|].
  assert (Hh : harmless u w e).
  { destruct e as [| | | | | | | | | |f g]; try done. simpl. by destruct (He (store (disc w)) (f_live _ _ Hw)) as [? ->]. }
  split; [done|]. destruct (exec1 portName e w) as [w'|] eqn:Hx; [|done]. apply IH. by eapply watch_exec1_follows.
Qed.

(** C34. The watch misses no change: whatever the informer reports, however
    its calls fall together with the half second of waiting and with the tokens
    thrown away, and whatever others do to the store and to the drains in
    between, a failing store included, as soon as nothing is pending the
    discovery knows exactly what the informer's copy asks for; and from every
    state of the running loop, delivering the calls and at most a second lead
    there.  The active set follows at every URL about which the others kept out
    of the way during the run: the store answered, nobody else added the URL, and
    nobody removed it while the discovery knew it as active (otherwise the
    discovery does not try again).  The informer has reported something, and at
    the start the URL was active only if discovery knew it. *)
Theorem k8s_watch_converges lst k l w :
  exec portName l (start (SeedBackends portName lst k)) = Some w → reported w = true →
  let followed k' := ∀ u, follows u k → undisturbed u l (start (SeedBackends portName lst k)) → follows u k' in
  (settled w → known (disc w) = desired portName w ∧ followed (disc w)) ∧
  (running w → reaches w Second (λ w', settled w' ∧ known (disc w') = desired portName w ∧ followed (disc w'))).
Proof.
  intros Hl Hr followed.
  assert (Hset : ∀ w, informed w → reported w = true → settled w → known (disc w) = desired portName w).
  { clear. intros w K Hr (H1 & H2 & H3). destruct (K Hr) as [[?|[?|[[? ?]|[?|?]]]]|?]; try done; try congruence. lia. }
  assert (Hg : informed w) by (by eapply watch_exec_informed).
  assert (Hf : followed (disc w)).
  { intros u Hu Hun. eapply watch_exec_follows; [done..|]. by apply SeedBackends_follows. }
  split; [auto|]. intros Hrun. destruct (settles w Second Hrun) as (l' & w' & Hi & Hb & Hx & [Hs1 Hs2] & Hst).
  - by apply (exec_clock l _ _ Hl).
  - unfold debounce, Second, Millisecond. lia.
  - exists l', w'. do 4 (split; [done|]). split; [done|]. split.
    + rewrite (Hset w'); [unfold desired; by rewrite Hs1|by eapply watch_exec_informed|congruence|done].
    + intros u Hu Hun. eapply watch_exec_follows; [exact Hx|by apply inner_undisturbed|auto].
Qed.
End correct.

(** ** Examples, on the memory store *)

Module WatchExamples.
#[local] Existing Instance map_iter_canonical.
Import StoreMemory.

Definition pod (ip : string) (ready : bool) : EndpointSlice :=
  mkSlice [mkPort (Some "http") (Some 5678)] [mkEndpoint [ip] (Some ready) (Some true) (Some (negb ready))].

Definition fresh : KubernetesBackendDiscovery MemoryStore := mkK8s NewMemoryStore None ∅.

Lemma fresh_follows u : follows u fresh.
Proof. by split. Qed.

(** A rollout: one pod comes, another one follows during the wait, the first
    goes after it; meanwhile another replica adds a backend of its own, and takes
    the first pod out of the active set. *)
Definition rollout : list (event MemoryStore) :=
  [Informed {["a" := pod "10.0.0.1" true]}; Handle; Sync true; Take; Pass (400 * Millisecond);
   Foreign (λ s, (mem_AddBackend "http://10.0.0.9:5678" s).2) id;
   Informed {["a" := pod "10.0.0.1" true; "b" := pod "10.0.0.2" true]}; Handle; Pass (100 * Millisecond); Fire; Reconcile;
   Foreign (λ s, (mem_RemoveBackend "http://10.0.0.1:5678" s).2) id;
   Informed {["b" := pod "10.0.0.2" true]}].

Lemma rollout_undisturbed w :
  follows "http://10.0.0.2:5678" (disc w) → undisturbed "http" "http://10.0.0.2:5678" rollout w.
Proof.
  apply (undisturbed_all "http"), Forall_forall. intros e He. unfold rollout in He.
  repeat (apply elem_of_cons in He as [->|He]; [try done|]); [| |by apply elem_of_nil in He].
  - intros s Hs. destruct (AddBackend_spec "http://10.0.0.9:5678" s Hs) as (s' & Heq & Hl & Ha & _).
    change (mem_AddBackend ?b s) with (AddBackend b s). rewrite Heq. cbn [snd]. rewrite Ha. set_solver.
  - intros s Hs. destruct (RemoveBackend_spec "http://10.0.0.1:5678" s Hs) as (s' & Heq & Hl & Ha & _).
    change (mem_RemoveBackend ?b s) with (RemoveBackend b s). rewrite Heq. cbn [snd]. rewrite Ha. set_solver.
Qed.

Lemma k8s_watch_converges_witness :
  ∃ w, exec "http" rollout (start (SeedBackends "http" ([], None) fresh)) = Some w ∧
    act (store (disc w)) = {["http://10.0.0.2:5678"; "http://10.0.0.9:5678"]} ∧
    reaches "http" w Second (λ w', known (disc w') = {["http://10.0.0.2:5678" := epActive]} ∧
      "http://10.0.0.2:5678" ∈ act (store (disc w'))).
Proof.
  destruct (exec "http" rollout (start (SeedBackends "http" ([], None) fresh))) as [w|] eqn:Hw; [|by vm_compute in Hw].
  assert (Hobs : (λ w, (act (store (disc w)), reported w, at_ w, desired "http" w)) <$>
      exec "http" rollout (start (SeedBackends "http" ([], None) fresh)) =
    Some ({["http://10.0.0.2:5678"; "http://10.0.0.9:5678"]}, true, Idle, {["http://10.0.0.2:5678" := epActive]}))
    by (by vm_compute).
  rewrite Hw in Hobs. cbn [fmap option_fmap option_map] in Hobs. injection Hobs as Hact Hrep Hat Hdes.
  destruct (k8s_watch_converges "http" ([], None) fresh rollout w Hw Hrep) as [_ Hc].
  destruct Hc as (l & w' & Hi & He & Hx & Hs & _ & Hk & Hf); [unfold running; by rewrite Hat|].
  exists w. split; [done|]. split; [exact Hact|]. exists l, w'. do 4 (split; [done|]).
  rewrite Hk, Hdes. split; [done|]. apply (f_active "http://10.0.0.2:5678"); [|by rewrite Hk, Hdes].
  apply Hf; [apply fresh_follows|apply rollout_undisturbed, SeedBackends_follows, fresh_follows].
Defined.

(** The wait starts with the first event, and later ones do not prolong it:
    reconciling happens a millisecond after the last. *)
Example wait_from_the_first_event :
  ∃ w, exec "http" [Sync true; Informed {["a" := pod "10.0.0.1" true]}; Handle; Take; Pass (499 * Millisecond);
      Informed {["b" := pod "10.0.0.2" true]}; Handle; Pass Millisecond; Fire; Reconcile] (start fresh) = Some w ∧
    settled w ∧ known (disc w) = {["http://10.0.0.2:5678" := epActive]}.
Proof. eexists. split; [vm_compute; reflexivity|]. split; [done|]. apply (bool_decide_unpack _). by vm_compute. Qed.

(** A backend left in the store by an earlier process, or seeded and gone before
    the informer's first copy when that is empty, is never removed. *)
Example stale_backends_stay :
  let k := mkK8s (mem_AddBackend "http://10.0.0.9:5678" NewMemoryStore).2 None ∅ in
  "http://10.0.0.9:5678" ∈ act (store (SeedBackends "http" ([pod "10.0.0.1" true], None) k)) ∧
  ∃ w, exec "http" [Sync true; Pass Second] (start (SeedBackends "http" ([pod "10.0.0.1" true], None) fresh)) = Some w ∧
    settled w ∧ desired "http" w = ∅ ∧ "http://10.0.0.1:5678" ∈ act (store (disc w)).
Proof.
  split; [apply (bool_decide_unpack _); by vm_compute|]. eexists. split; [vm_compute; reflexivity|].
  split; [done|]. split; [done|]. apply (bool_decide_unpack _). by vm_compute.
Qed.
End WatchExamples.
End K8sWatch.
