(* ===== verification/Accounts.v ===== *)
(** * The account sources: discovery_http.go, discovery_postgres.go,
    discovery_redis.go, and the loop of discovery.go

    Each source fetches the accounts a reconciliation places: a JSON document
    in one of two formats, the rows of a query, or the members of a Redis set.
    The HTTP exchange and the rows of the query are inputs; decoding them is
    done as encoding/json and database/sql do it.  [AccountDiscovery] over any
    source ([AccountSource]) is the loop of discovery.go. *)
From stdpp Require Import base gmap list strings pretty.
From Stdlib Require Import ZArith Lia.
From S2P Require Import Prelude Go Hashing GoText GoJSON GoLoop Store World Discovery RedisClient.
Import JSON.
Local Open Scope Z_scope.

Module Accounts.

Definition account := Discovery.DiscoveredAccount.
Definition zero_account : account := Discovery.mkAccount "" 0.

(** ** Decoding, as json.Unmarshal does it *)

(** Field names match without regard to case. *)
Definition to_lower (c : Z) : Z := if between 65 c 90 then c + 32 else c.
Definition is_field (name : string) (key : list Z) : bool := bool_decide (to_lower <$> key = bytes_of name).

(** A literal into an int: no fraction, no exponent, and it fits. *)
Definition parse_int (lit : list Z) : option Z := Atoi (of_bytes lit).

(** A value into a field of [a]; null leaves it alone, [None] is an error. *)
Definition set_field (kv : list Z * json) (a : account) : option account :=
  if is_field "id" kv.1 then
    match kv.2 with
    | JNull => Some a
    | JStr s => Some (Discovery.mkAccount (of_bytes s) (Discovery.acct_weight a))
    | _ => None
    end
  else if is_field "weight" kv.1 then
    match kv.2 with
    | JNull => Some a
    | JNum lit => w ← parse_int lit; Some (Discovery.mkAccount (Discovery.ID a) w)
    | _ => None
    end
  else Some a.

Definition decode_account (v : json) : option account :=
  match v with
  | JNull => Some zero_account
  | JObj l => foldl (λ o kv, a ← o; set_field kv a) (Some zero_account) l
  | _ => None
  end.

Definition decode_string (v : json) : option string :=
  match v with JNull => Some "" | JStr s => Some (of_bytes s) | _ => None end.

(** A value into a slice. *)
Definition decode_slice {A} (elem : json → option A) (v : json) : option (list A) :=
  match v with JNull => Some [] | JArr l => mapM elem l | _ => None end.

(** json.Unmarshal *)
Definition unmarshal {A} (decode : json → option A) (body : list Z) : option A := v ← parse body; decode v.

(** ** The HTTP source *)

Definition maxBodySize : Z := 10485760.

(** io.LimitReader *)
Fixpoint limit (n : Z) (s : list Z) : list Z :=
  match s with
  | [] => []
  | c :: s => if n <=? 0 then [] else c :: limit (n - 1) s
  end.

(** What the request meets: it fails, or a response, whose body may break off. *)
Inductive response := Failed (e : error) | Response (status : Z) (body : list Z) (readErr : option error).

Definition with_default_weight (id : string) : account := Discovery.mkAccount id 0.

(** The plain format. *)
Definition decode_names (body : list Z) : option (list account) :=
  match unmarshal (decode_slice decode_string) body with
  | Some ids => Some (with_default_weight <$> ids)
  | None => None
  end.

(** The two formats, tried in order. *)
Definition decode_accounts (body : list Z) : option (list account) :=
  match unmarshal (decode_slice decode_account) body with
  | Some accounts =>
      if match accounts with [] => true | a :: _ => bool_decide (Discovery.ID a ≠ "") end then Some accounts
      else decode_names body
  | None => decode_names body
  end.

Definition FetchAccounts_http (r : response) : result (list account) :=
  match r with
  | Failed e => ([], Some e)
  | Response status body readErr =>
      if decide (status ≠ 200) then ([], Some (ErrOther ("HTTP account source returned " +:+ pretty status)))
      else match readErr with
           | Some e => ([], Some e)
           | None =>
               match decode_accounts (limit maxBodySize body) with
               | Some accounts => (accounts, None)
               | None => ([], Some (ErrOther "json"))
               end
           end
  end.

(** ** The Postgres source *)

(** A value of a row, as database/sql hands it to Scan. *)
Inductive column := CText (s : string) | CInt (z : Z) | CNull | COther.

Definition scan_string (c : column) : option string :=
  match c with CText s => Some s | CInt z => Some (of_bytes (dec z)) | _ => None end.

Definition scan_int (c : column) : option Z :=
  match c with CText s => Atoi s | CInt z => if bool_decide (is_int z) then Some z else None | _ => None end.

(** [rows.Scan] takes as many destinations as the row has columns. *)
Definition scan_account (hasWeight : bool) (row : list column) : option account :=
  match row with
  | [id] => if hasWeight then None else id ← scan_string id; Some (Discovery.mkAccount id 0)
  | [id; w] => if hasWeight then id ← scan_string id; w ← scan_int w; Some (Discovery.mkAccount id w) else None
  | _ => None
  end.

(** What the query meets: it fails, or rows of some number of columns and the
    errors of the iteration and of Close. *)
Inductive answer := QueryFailed (e : error) | Rows (cols : nat) (rows : list (list column)) (iterErr closeErr : option error).

Definition FetchAccounts_pg (r : answer) : result (list account) :=
  match r with
  | QueryFailed e => ([], Some e)
  | Rows cols rows iterErr closeErr =>
      match mapM (scan_account (2 <=? Z.of_nat cols)) rows with
      | None => ([], Some (ErrOther "sql: Scan"))
      | Some accounts => (accounts, match iterErr with Some e => Some e | None => closeErr end)
      end
  end.

(** ** The Redis source *)

Section redis.
Context {R : Type} `{!RC.RedisServer R}.

Definition FetchAccounts_redis (key : string) (r : R) : result (list account) * R :=
  let '((rep, err), r) := RC.do_cmd (RC.SMembers key) r in
  match err, rep with
  | Some e, _ => (([], Some e), r)
  | None, RC.RStrings ids => ((with_default_weight <$> ids, None), r)
  | None, _ => (([], None), r)
  end.
End redis.

(** ** Formats *)

(** json.Marshal of a list of accounts, and of a list of names. *)
Definition marshal_account (a : account) : json :=
  JObj ((bytes_of "id", JStr (bytes_of (Discovery.ID a))) ::
        if decide (Discovery.acct_weight a = 0) then [] else [(bytes_of "weight", JNum (dec (Discovery.acct_weight a)))]).

Definition marshal_accounts (l : list account) : list Z := enc (JArr (marshal_account <$> l)).
Definition marshal_names (l : list string) : list Z := enc (JArr ((λ s, JStr (bytes_of s)) <$> l)).

Lemma of_bytes_of s : of_bytes (bytes_of s) = s.
Proof. induction s as [|c s IH]; simpl; [done|]. rewrite N2Z.id, Ascii.ascii_N_embedding. by rewrite IH. Qed.

Lemma bytes_of_of bs : Forall (λ c, 0 ≤ c < 256) bs → bytes_of (of_bytes bs) = bs.
Proof.
  induction 1 as [|c bs Hc Hbs IH]; simpl; [done|]. rewrite Ascii.N_ascii_embedding by lia. rewrite IH. f_equal. lia.
Qed.

Lemma dec_bytes z : Forall (λ c, 0 ≤ c < 256) (dec z).
Proof.
  assert (Hd : ∀ l, all_digits l → Forall (λ c, 0 ≤ c < 256) l).
  { intros l Hl. eapply Forall_impl; [exact Hl|]. unfold is_digit. intros c [? ?]%andb_prop. rewrite Z.leb_le in *. lia. }
  unfold dec. destruct (Z.ltb_spec z 0).
  - constructor; [lia|]. destruct (dec_nat_spec (- z)) as (d & ds & -> & Hall & _); [lia|]. by apply Hd.
  - destruct (dec_nat_spec z) as (d & ds & -> & Hall & _); [lia|]. by apply Hd.
Qed.

Lemma parse_int_dec z : is_int z → parse_int (dec z) = Some z.
Proof.
  intros [Hlo Hhi]. unfold parse_int, Atoi. rewrite bytes_of_of by apply dec_bytes.
  assert (Hfit : (- two63 <=? z) && (z <? two63) = true) by (apply andb_true_intro; rewrite Z.leb_le, Z.ltb_lt; lia).
  unfold dec. destruct (Z.ltb_spec z 0).
  - destruct (dec_nat_spec (- z)) as (d & ds & -> & _ & _ & Hv); [lia|]. cbn [sign_of]. rewrite Hv. simpl.
    by rewrite Z.opp_involutive, Hfit.
  - destruct (dec_nat_spec z) as (d & ds & -> & Hall & _ & Hv); [lia|].
    assert (Hs : sign_of (d :: ds) = (false, d :: ds)).
    { inversion Hall as [|? ? Hd _]; subst. unfold is_digit in Hd. apply andb_prop in Hd as [Hd _]. rewrite Z.leb_le in Hd.
      unfold sign_of. repeat (case_match; try done; try lia). }
    rewrite Hs, Hv. simpl. by rewrite Hfit.
Qed.

Lemma decode_marshal a : is_int (Discovery.acct_weight a) → decode_account (marshal_account a) = Some a.
Proof.
  destruct a as [id w]. simpl. intros Hw. unfold marshal_account. simpl. case_decide as H0.
  - simpl. subst. unfold set_field. simpl. by rewrite of_bytes_of.
  - simpl. unfold set_field. simpl. rewrite of_bytes_of. simpl. by rewrite parse_int_dec.
Qed.

Lemma mapM_marshal l :
  Forall (λ a, is_int (Discovery.acct_weight a)) l → mapM decode_account (marshal_account <$> l) = Some l.
Proof.
  induction 1 as [|a l Ha Hl IH]; [done|]. rewrite fmap_cons. cbn [mapM]. rewrite decode_marshal by done. simpl. by rewrite IH.
Qed.

Lemma limit_all n s : Z.of_nat (length s) ≤ n → limit n s = s.
Proof.
  revert n. induction s as [|c s IH]; intros n Hn; [done|]. simpl in *. destruct (Z.leb_spec n 0); [lia|]. rewrite IH by lia. done.
Qed.

(** Names and weights JSON can carry. *)
Definition encodable (a : account) : Prop :=
  utf8_ok (bytes_of (Discovery.ID a)) = true ∧ is_int (Discovery.acct_weight a).

Lemma marshal_accounts_wf l : Forall encodable l → wf 0 (JArr (marshal_account <$> l)).
Proof.
  intros Hl. apply wf_arr. split; [done|]. apply Forall_fmap. eapply Forall_impl; [exact Hl|]. intros a [Hu Hw].
  unfold compose, marshal_account. apply wf_obj. split; [done|]. constructor; [by split|]. case_decide; constructor; [|done]. split; [done|]. by eexists.
Qed.

Lemma marshal_names_wf (l : list string) :
  Forall (λ s, utf8_ok (bytes_of s) = true) l → wf 0 (JArr ((λ s, JStr (bytes_of s)) <$> l)).
Proof.
  intros Hl. apply wf_arr. split; [done|]. apply Forall_fmap. eapply Forall_impl; [exact Hl|]. by intros a Hu.
Qed.

Lemma mapM_names (l : list string) : mapM decode_string ((λ s, JStr (bytes_of s)) <$> l) = Some l.
Proof.
  induction l as [|s l IH]; [done|]. rewrite fmap_cons. cbn [mapM decode_string]. simpl. rewrite IH, of_bytes_of. done.
Qed.

(** C37. Both formats of the HTTP source are read back: a document of accounts
    returns exactly them, ids and weights, and a document of names returns one
    account of default weight for each, as long as it fits in ten megabytes
    and the first account has an id. *)
Theorem http_source_roundtrip :
  (∀ l, Forall encodable l → (∀ a, head l = Some a → Discovery.ID a ≠ "") →
    Z.of_nat (length (marshal_accounts l)) ≤ maxBodySize →
    FetchAccounts_http (Response 200 (marshal_accounts l) None) = (l, None)) ∧
  (∀ ids, Forall (λ s, utf8_ok (bytes_of s) = true) ids → Z.of_nat (length (marshal_names ids)) ≤ maxBodySize →
    FetchAccounts_http (Response 200 (marshal_names ids) None) = (with_default_weight <$> ids, None)).
Proof.
  split.
  - intros l Hl Hhd Hsz. unfold FetchAccounts_http. rewrite decide_False by lia. rewrite limit_all by done.
    unfold decode_accounts, unmarshal, marshal_accounts.
    destruct (json_roundtrip (JArr (marshal_account <$> l))) as [Hp _]; [by apply marshal_accounts_wf|].
    rewrite Hp. cbn [mbind option_bind decode_slice]. rewrite mapM_marshal; [|by eapply Forall_impl; [exact Hl|intros a []]].
    destruct l as [|a l]; [done|]. rewrite bool_decide_true; [done|]. by apply Hhd.
  - intros ids Hl Hsz. unfold FetchAccounts_http. rewrite decide_False by lia. rewrite limit_all by done.
    unfold decode_accounts, decode_names, unmarshal, marshal_names.
    destruct (json_roundtrip (JArr ((λ s, JStr (bytes_of s)) <$> ids))) as [Hp _]; [by apply marshal_names_wf|].
    rewrite Hp. cbn [mbind option_bind decode_slice]. rewrite mapM_names. by destruct ids.
Qed.

(** Two accounts, the first with a weight. *)
Definition sample_accounts : list account := [Discovery.mkAccount "alice" 3; Discovery.mkAccount "bob" 0].

Lemma http_source_roundtrip_witness :
  FetchAccounts_http (Response 200 (marshal_accounts sample_accounts) None) = (sample_accounts, None) ∧
  FetchAccounts_http (Response 200 (marshal_names ["alice"; "bob"]) None) =
    ([Discovery.mkAccount "alice" 0; Discovery.mkAccount "bob" 0], None).
Proof.
  destruct http_source_roundtrip as [H1 H2]. split.
  - apply H1; [repeat constructor; (by vm_compute) || done|intros a [= <-]; done|by vm_compute].
  - apply (H2 ["alice"; "bob"]); [repeat constructor|by vm_compute].
Defined.

(** A list whose first element is null is read as a list of names, the null as
    an account without a name. *)
Example null_account :
  FetchAccounts_http (Response 200 (bytes_of "[null]") None) = ([Discovery.mkAccount "" 0], None) ∧
  (FetchAccounts_http (Response 200 (bytes_of "[{}]") None)).2 ≠ None.
Proof. split; vm_compute; [done|by intros [=]]. Qed.

(** ** The loop *)

(** What a component of discovery asks of its source. *)
Class AccountSource (Src : Type) := FetchAccounts : Src → result (list account) * Src.

#[export] Instance redis_source {R : Type} `{!RC.RedisServer R} (key : string) : AccountSource R := FetchAccounts_redis key.

Section discovery.
Context `{!MapIter} {S Src : Type} `{!Store S, !AccountSource Src}.
Context (cfg : config).

(** [AccountDiscovery], with the world its store and hooks are part of. *)
Record AccountDiscovery := mkDiscovery { source : Src; seeded : bool; dworld : world S }.

(** [d.reconcile(ctx)]; [None] is a panic. *)
Definition reconcile (now : Z) (d : AccountDiscovery) : option AccountDiscovery :=
  let '(fetched, src) := FetchAccounts (source d) in
  w ← Discovery.reconcile cfg now fetched (dworld d);
  Some (mkDiscovery src (seeded d) w).

Definition SeedAccounts (now : Z) (d : AccountDiscovery) : option AccountDiscovery :=
  d ← reconcile now d; Some (mkDiscovery (source d) true (dworld d)).

Definition Start (now : Z) (wakes : list Loop.wake) (d : AccountDiscovery) : option (AccountDiscovery * Loop.status) :=
  d ← (if seeded d then Some d else reconcile now d);
  Loop.loop reconcile wakes d.

(** [StartDiscovery] seeds and then starts the loop: the loop does not
    reconcile again before its first tick. *)
Lemma seeded_start now now' d d' : SeedAccounts now d = Some d' → Start now' [] d' = Some (d', Loop.Running).
Proof.
  unfold SeedAccounts. intros (d1 & _ & Hd)%bind_Some. by simplify_eq.
Qed.
End discovery.

End Accounts.
