(* ===== verification/Lifecycle.v ===== *)
(** * Starting, running and stopping

    The background loops of the components, the order in which [StartDiscovery]
    and [main] start the parts of a process, and the order in which a signal
    takes them down. *)
From stdpp Require Import base gmap strings list fin_maps.
From Stdlib Require Import ZArith Lia.
From S2P Require Import Prelude Go Assignment Store StoreMemory UserCache Poison Hold ConnTracker World Drain Discovery BackendDiscovery Backends.
From S2P Require Import HealthChecker RedisBreaker RateLimiter JWT Proxy RedisClient Ownership GoLoop Accounts K8sWatch.
Local Open Scope Z_scope.

Module Lifecycle.

(** ** The loops *)

(** [time.NewTicker]: panics unless the interval is positive. *)
Definition NewTicker (d : Duration) : option unit := if d <=? 0 then None else Some tt.

Section loops.
Context `{!MapIter}.

Definition user_cleanupLoop (wakes : list Loop.wake) (c : UC.UserCache) : option (UC.UserCache * Loop.status) :=
  _ ← NewTicker (2 * Minute); Loop.loop (λ now c, Some (UC.cleanup now c)) wakes c.

Definition pruneLoop (wakes : list Loop.wake) (p : Poison.PoisonPillDetector) : option (Poison.PoisonPillDetector * Loop.status) :=
  _ ← NewTicker (Poison.window p); Loop.loop (λ now p, Some (Poison.prune now p)) wakes p.

Definition jwt_cleanupLoop (shuffle : list string → list string) (wakes : list Loop.wake) (c : JWT.JWTCache)
    : option (JWT.JWTCache * Loop.status) :=
  _ ← NewTicker Minute; Loop.loop (λ now c, Some (JWT.sweep shuffle now c)) wakes c.

Definition limiter_cleanup (wakes : list Loop.wake) (rl : RL.RateLimiter) : option (RL.RateLimiter * Loop.status) :=
  _ ← NewTicker Minute; Loop.loop (λ now rl, Some (RL.cleanup now rl)) wakes rl.

Definition checker_Start {R : Type} `{!RC.RedisServer R} (interval : Duration) (wakes : list Loop.wake)
    (st : Ownership.Checker * R) : option ((Ownership.Checker * R) * Loop.status) :=
  _ ← NewTicker interval; Loop.loop (λ _ st, Some (Ownership.check st)) wakes st.

Context {S : Type} `{!Store S}.

(** [lookup] is the resolver at an instant. *)
Definition dns_Start (port : string) (interval : Duration) (lookup : Z → result (list string)) (now : Z)
    (wakes : list Loop.wake) (s : S) : option (S * Loop.status) :=
  let s := BD.DNS.dns_reconcile port (lookup now) s in
  _ ← NewTicker interval; Loop.loop (λ now s, Some (BD.DNS.dns_reconcile port (lookup now) s)) wakes s.
End loops.

(** ** Health checks and the rebalances they trigger *)

Section health.
Context `{!MapIter} {S : Type} `{!Store S} (cfg : HC.config).

(** The Rebalancer's flag, and the backend lists of the rebalances started. *)
Record trigger := mkTrigger { rebalancing : bool; started : list (list string) }.

(** The compare and swap of [Trigger]; the goroutine it starts resets the flag
    when the rebalance is over. *)
Definition Trigger (activeBackends : list string) (t : trigger) : trigger :=
  if rebalancing t then t else mkTrigger true (started t ++ [activeBackends]).
Definition finished (t : trigger) : trigger := mkTrigger false (started t).

(** A probe: the request is built, sent and answered with 200. *)
Inductive probed := NoRequest | NoResponse | Status (code : Z).
Definition probe (r : probed) : bool := match r with Status code => code =? 200 | _ => false end.

(** One pass, and the rebalance. *)
Definition health_pass (sched : list string → list string) (limit : nat) (answers : string → probed)
    (st : HC.HealthChecker S * trigger) : HC.HealthChecker S * trigger :=
  let '(tr, hc) := HC.checkAll cfg sched limit (λ b, probe (answers b)) st.1 in
  (hc, match tr with Some l => Trigger l st.2 | None => st.2 end).

(** [Start]: a pass at once, then one on every tick. *)
Definition hc_Start (interval : Duration) (sched : list string → list string) (limit : nat) (answers : Z → string → probed)
    (now : Z) (wakes : list Loop.wake) (st : HC.HealthChecker S * trigger) : option ((HC.HealthChecker S * trigger) * Loop.status) :=
  _ ← NewTicker interval;
  let st := health_pass sched limit (answers now) st in
  Loop.loop (λ now st, Some (health_pass sched limit (answers now) st)) wakes st.

(** Passes that all find the same healthy backends. *)
Fixpoint steady sched limit (cur : list string) (rest : list (string → probed)) (st : HC.HealthChecker S * trigger) : Prop :=
  match rest with
  | [] => True
  | a :: rest =>
      HC.previousBackends (health_pass sched limit a st).1 = cur ∧ steady sched limit cur rest (health_pass sched limit a st)
  end.

Definition passes sched limit (rest : list (string → probed)) (st : HC.HealthChecker S * trigger) : HC.HealthChecker S * trigger :=
  foldl (λ st a, health_pass sched limit a st) st rest.

Lemma steady_pass sched limit a st :
  HC.previousBackends (health_pass sched limit a st).1 = HC.previousBackends st.1 → (health_pass sched limit a st).2 = st.2.
Proof.
  destruct st as [hc t]. unfold health_pass, HC.checkAll. simpl.
  destruct (ActiveBackends (HC.store hc)) as [[bs [e|]] s]; [done|].
  destruct (HC.rebalanceOnScale cfg); [|done].
  set (hc1 := foldl _ _ _). simpl. intros Hp.
  assert (Hprev : HC.previousBackends hc1 = HC.previousBackends hc).
  { unfold hc1. assert (Hf : ∀ l h, HC.previousBackends (foldl (λ hc b, HC.recordResult cfg b (probe (a b)) hc) h l) = HC.previousBackends h).
    { induction l as [|b l IH]; intros h; [done|]. simpl. rewrite IH. unfold HC.recordResult.
      repeat (case_match; simpl); done. }
    rewrite Hf. unfold HC.RefreshBackendList. destruct (HC.has_redis cfg); [|done]. simpl. by repeat case_match. }
  rewrite bool_decide_false by (rewrite Hprev, Hp; by intros []). done.
Qed.

Lemma steady_passes sched limit cur rest st :
  HC.previousBackends st.1 = cur → steady sched limit cur rest st → (passes sched limit rest st).2 = st.2.
Proof.
  unfold passes. revert st. induction rest as [|a rest IH]; intros st Hp Hs; [done|]. destruct Hs as [H1 H2].
  cbn [foldl]. rewrite (IH _ H1 H2). apply steady_pass. congruence.
Qed.

(** A rebalance that is asked for while another one runs is lost: the
    health checker records the new set of healthy backends although Trigger
    dropped the request, so once the running rebalance is over, no later pass
    asks again as long as the same backends are healthy; nobody is moved to a
    backend that joined in between. *)
Theorem dropped_trigger_is_lost sched limit a rest hc t :
  rebalancing t = true →
  let st := health_pass sched limit a (hc, t) in
  steady sched limit (HC.previousBackends st.1) rest (st.1, finished st.2) →
  started (passes sched limit rest (st.1, finished st.2)).2 = started t.
Proof.
  intros Hr st. assert (Hst : started st.2 = started t).
  { unfold st, health_pass. simpl. destruct (HC.checkAll cfg sched limit _ hc) as [[l|] hc']; [|done].
    simpl. unfold Trigger. by rewrite Hr. }
  intros Hs. by rewrite (steady_passes _ _ _ _ _ eq_refl Hs).
Qed.
End health.

Module TriggerExamples.
#[local] Existing Instance map_iter_canonical.
Import StoreMemory.

Definition scaling : HC.config := HC.mkConfig 3 1 false false true.
Definition up (b : string) : probed := Status 200.

(** Two backends, whose first pass triggers a rebalance; a third one joins while
    it runs. *)
Definition two : HC.HealthChecker MemoryStore * trigger :=
  health_pass scaling id 10 up
    (HC.NewHealthChecker (mem_AddBackend "b2" (mem_AddBackend "b1" NewMemoryStore).2).2, mkTrigger false []).

Definition joined : HC.HealthChecker MemoryStore := HC.set_hc_store (mem_AddBackend "b3" (HC.store two.1)).2 two.1.

Lemma dropped_trigger_is_lost_witness :
  two.2 = mkTrigger true [["b1"; "b2"]] ∧
  let st := health_pass scaling id 10 up (joined, two.2) in
  HC.previousBackends st.1 = ["b1"; "b2"; "b3"] ∧
  started (passes scaling id 10 [up; up; up] (st.1, finished st.2)).2 = [["b1"; "b2"]].
Proof.
  split; [by vm_compute|]. split; [by vm_compute|].
  apply (dropped_trigger_is_lost scaling id 10 up [up; up; up] joined two.2); [by vm_compute|].
  repeat split; by vm_compute.
Defined.
End TriggerExamples.

(** ** Startup *)

Inductive backend_source := Dns (port : string) (lookup : result (list string))
  | Kube (portName : string) (list : result (list BD.K8s.EndpointSlice)).

Inductive goroutine := BackendLoop | AccountLoop | InvalidationLoop.

Section startup.
Context `{!MapIter} {S Src : Type} `{!Store S, !Accounts.AccountSource Src} (cfg : config).

(** [SeedBackends] of either discovery, on the store; the Kubernetes one keeps
    what it knows. *)
Definition seed_backends (src : backend_source) (drain : option Drain.DrainManager) (s : S) : BD.K8s.KubernetesBackendDiscovery S :=
  match src with
  | Dns port lookup => BD.K8s.mkK8s (BD.DNS.dns_reconcile port lookup s) drain ∅
  | Kube portName l => K8sWatch.SeedBackends portName l (BD.K8s.mkK8s s drain ∅)
  end.

(** [StartDiscovery]: backends, then accounts, each seeded before its loop
    starts, then the subscription. *)
Definition StartDiscovery (backendDiscovery : option backend_source) (drain : option Drain.DrainManager)
    (discovery : option Src) (now : Z) (w : world S) : option (world S * option Src * list goroutine) :=
  let w := match backendDiscovery with
           | Some b => set_store (BD.K8s.store (seed_backends b drain (w_store w))) w
           | None => w
           end in
  let gs := match backendDiscovery with Some _ => [BackendLoop] | None => [] end in
  let sub := if has_notifier cfg then [InvalidationLoop] else [] in
  match discovery with
  | Some src =>
      d ← Accounts.SeedAccounts cfg now (Accounts.mkDiscovery src false w);
      Some (Accounts.dworld d, Some (Accounts.source d), gs ++ [AccountLoop] ++ sub)
  | None => Some (w, None, gs ++ sub)
  end.
End startup.

Section started.
Context `{!MapIter} {S Src : Type} `{!Store S, !BackendsSpec S, !TableLimits S, !TableSpec S, !Accounts.AccountSource Src} (cfg : config).

(** The proxy starts with its accounts placed: when the name of the
    backends resolves and the source answers, then before the first request
    is accepted exactly the resolved backends are active, every account of the
    source is assigned to one of them, and the assignments to them that were
    there are kept.  The ids are distinct, and weights, instant and number of
    accounts within what the store can hold. *)
Theorem startup_places_accounts port ips src drain now accounts src' w :
  live (w_store w) → ips ≠ [] → Accounts.FetchAccounts src = ((accounts, None), src') →
  instant_ok S now → NoDup (Discovery.ID <$> accounts) →
  (∀ acct, acct ∈ accounts → weight_ok S (Discovery.acct_weight acct)) → batch_ok S (length accounts) →
  total (tbl (w_store w)) + zsum (λ acct, effective (Discovery.acct_weight acct)) accounts < two53 →
  ∃ w' gs, StartDiscovery cfg (Some (Dns port (ips, None))) drain (Some src) now w = Some (w', Some src', gs) ∧
    live (w_store w') ∧ act (w_store w') = BD.DNS.discovered port ips ∧
    (∀ acct, acct ∈ accounts → ∃ a, tbl (w_store w') !! Discovery.ID acct = Some a ∧
       Backend a ∈ BD.DNS.discovered port ips ∧
       (∀ a0, tbl (w_store w) !! Discovery.ID acct = Some a0 → Backend a0 ∈ BD.DNS.discovered port ips → a = a0)).
Proof.
  intros Hl Hips Hf Hy Hnd Hw Hb Ht. unfold StartDiscovery. cbn [seed_backends BD.K8s.store].
  destruct (BD.DNS.dns_reconcile_exact port ips (w_store w) Hl) as (Hl1 & Ha1 & Ht1 & _).
  set (s1 := BD.DNS.dns_reconcile port (ips, None) (w_store w)) in *.
  assert (Hne : act s1 ≠ ∅).
  { rewrite Ha1. destruct ips as [|ip ips]; [done|]. unfold BD.DNS.discovered. simpl. set_solver. }
  destruct (Discovery.reconcile_all_placed cfg now accounts (set_store s1 w)) as (w' & Hr & Hl' & Ha' & Hp & _);
    [done..|simpl; by rewrite Ht1|].
  unfold Accounts.SeedAccounts, Accounts.reconcile. cbn [Accounts.source Accounts.dworld Accounts.seeded].
  rewrite Hf.
  match goal with |- context [Discovery.reconcile cfg now ?x ?y] => replace (Discovery.reconcile cfg now x y) with (Some w') by exact (eq_sym Hr) end.
  simpl. eexists w', _.
  split; [done|]. split; [done|]. split; [by rewrite Ha'|]. intros acct Hin.
  destruct (Hp acct Hin) as (a & Hlk & Hact & Hcase). simpl in *. rewrite Ha1 in Hact. exists a. split; [done|].
  split; [done|]. intros a0 Hold0 Hin0. rewrite Ht1, Hold0, Ha1 in Hcase. by rewrite decide_True in Hcase.
Qed.
End started.

(** ** Shutdown *)

(** A database handle: after [Close] every call fails. *)
Record handle (S : Type) := mkHandle { inner : S; is_open : bool }.
Arguments mkHandle {S}.
Arguments inner {S}.
Arguments is_open {S}.

Definition closed_error : error := ErrOther "sql: database is closed".

Section handle.
Context {S : Type} `{!Store S}.

Definition on_handle {A} (failed : A) (f : S → A * S) (h : handle S) : A * handle S :=
  if is_open h then let '(a, s) := f (inner h) in (a, mkHandle s true) else (failed, h).

#[export] Instance handle_store : Store (handle S) := {|
  AssignLeastLoaded now key := on_handle (None, Some closed_error) (AssignLeastLoaded now key);
  GetAssignment key := on_handle (None, Some closed_error) (GetAssignment key);
  GetAllAssignments := on_handle (∅, Some closed_error) GetAllAssignments;
  GetBackendUsers b := on_handle ([], Some closed_error) (GetBackendUsers b);
  BulkAssign now es := on_handle (∅, Some closed_error) (BulkAssign now es);
  BulkDeleteAssignments ks := on_handle (Some closed_error) (BulkDeleteAssignments ks);
  ActiveBackends := on_handle ([], Some closed_error) ActiveBackends;
  AddBackend b := on_handle (Some closed_error) (AddBackend b);
  RemoveBackend b := on_handle (Some closed_error) (RemoveBackend b);
  Ping := on_handle (Some closed_error) Ping
|}.
End handle.

Definition Close {S} (h : handle S) : handle S := mkHandle (inner h) false.

(** The stop channels of a proxy: closing one twice panics.  Kubernetes
    discovery closes its own through a sync.Once. *)
Record channels := mkChannels {
  ch_discovery : option bool;      (* None: there is no account discovery *)
  ch_backends : option (bool * bool);   (* closed, once *)
  ch_poison : option bool;
  ch_jwt : bool;
  ch_cache : bool;
  ch_limiter : bool
}.

Definition close (ch : bool) : option bool := if ch then None else Some true.
Definition close_opt (ch : option bool) : option (option bool) :=
  match ch with Some c => c' ← close c; Some (Some c') | None => Some None end.
Definition close_once (ch : option (bool * bool)) : option (option (bool * bool)) :=
  match ch with
  | Some (c, true) => Some (Some (true, true))
  | Some (c, false) => c' ← close c; Some (Some (c', false))
  | None => Some None
  end.

Section shutdown.
Context `{!MapIter} {S : Type} `{!Store S}.

(** A process with a store that New registered as a closer; [serving] until
    the server's Shutdown has returned. *)
Record process := mkProcess { proxy : Proxy.Proxy (handle S); chans : channels; cancelled : bool; serving : bool }.

Definition close_store (p : Proxy.Proxy (handle S)) : Proxy.Proxy (handle S) :=
  Proxy.set_world (set_store (Close (w_store (Proxy.p_world p))) (Proxy.p_world p)) p.

(** [Proxy.Stop]; [None] is a panic. *)
Definition Stop (pr : process) : option process :=
  let c := chans pr in
  d ← close_opt (ch_discovery c);
  b ← close_once (ch_backends c);
  let p := close_store (proxy pr) in
  q ← close_opt (ch_poison c);
  j ← close (ch_jwt c);
  u ← close (ch_cache c);
  l ← close (ch_limiter c);
  Some (mkProcess p (mkChannels d b q j u l) (cancelled pr) (serving pr)).

(** What [main] does on a signal, up to the call of Shutdown: from there on the
    requests in flight have thirty seconds. *)
Definition on_signal (pr : process) : option process :=
  Stop (mkProcess (proxy pr) (chans pr) true (serving pr)).

Definition Shutdown (pr : process) : process := mkProcess (proxy pr) (chans pr) (cancelled pr) false.

(** A request in flight that comes to its routing decision. *)
Definition decides (params : Proxy.params) (parses : string → bool) (now later : Z) (ok : bool) (r : Proxy.request)
    (key : string) (pr : process) : option (Proxy.answer * process) :=
  if serving pr then
    '(a, p) ← Proxy.route params parses now later ok r key (proxy pr);
    Some (a, mkProcess p (chans pr) (cancelled pr) (serving pr))
  else None.
End shutdown.
Arguments process : clear implicits.

(** The first signal never panics, and all loops have their signal to return. *)
Lemma on_signal_stops {S} (pr : process S) :
  chans pr = mkChannels (Some false) (Some (false, false)) (Some false) false false false →
  ∃ pr', on_signal pr = Some pr' ∧ cancelled pr' = true ∧ serving pr' = serving pr ∧
    chans pr' = mkChannels (Some true) (Some (true, false)) (Some true) true true true ∧
    Stop pr' = None.
Proof. intros Hc. unfold on_signal, Stop. simpl. rewrite Hc. simpl. eexists. repeat split. Qed.

Section in_flight.
Context `{!MapIter} {S : Type} `{!Store S} (params : Proxy.params) (parses : string → bool).

(** Requests in flight are not let finish: main stops the proxy, which
    closes the Postgres store, before it asks the server to shut down, so a
    request that comes to its routing decision afterwards and whose user is not
    cached is answered 503, whatever the store holds, in both modes. *)
Theorem shutdown_rejects_in_flight now later ok r key (pr pr' : process S) :
  on_signal pr = Some pr' → serving pr = true → Proxy.missed now key (proxy pr') → Proxy.p_redis (proxy pr) = None →
  ∃ pr2, decides params parses now later ok r key pr' = Some (Proxy.NoBackend, pr2).
Proof.
  intros Hs Hserv Hm Hr. unfold on_signal, Stop in Hs. simpl in Hs.
  repeat (apply bind_Some in Hs as (? & ? & Hs)). simplify_eq. unfold decides. simpl. rewrite Hserv.
  simpl in Hm. destruct (Proxy.cached_backend_miss now key _ Hm) as [c Hc]. unfold Proxy.route. rewrite Hc.
  unfold Proxy.assign. destruct (Proxy.routingMode params).
  - unfold Proxy.assignViaTable, Proxy.assign_from_store. simpl. rewrite Hr. simpl. by eexists.
  - unfold Proxy.assignViaHash. simpl. by eexists.
Qed.
End in_flight.

End Lifecycle.
