(* ===== verification/SampleBackend.v ===== *)
(** * cmd/backend/main.go: the backend that ships with the proxy

    Its HTTP handlers: the assign and unassign hooks the proxy calls, which
    feed the ownership checker, the login that registers an account and names
    the routing key the proxy binds, the default handler, and the WebSocket
    handler that echoes or simulates a broker.  Request bodies are decoded as
    encoding/json does it; [None] is a panic, which ends the process.  The
    client of the hooks (hooks.go) is put together with them: what the proxy
    encodes, the backend tracks. *)
From stdpp Require Import base gmap list strings pretty.
From Stdlib Require Import ZArith Lia.
From S2P Require Import Prelude Go Hashing GoText GoJSON Hooks RedisClient Ownership Discovery Accounts.
Import JSON.
Local Open Scope Z_scope.

Module SampleBackend.

(** ** Data *)

(** The accounts table of the database. *)
Definition accounts := gmap string Z.

Record backend := mkBackend {
  backendName : string;
  oc : option Ownership.Checker;     (* nil without Redis *)
  pgDB : option accounts             (* nil without Postgres *)
}.

Definition set_oc (c : option Ownership.Checker) (b : backend) : backend := mkBackend (backendName b) c (pgDB b).
Definition set_db (d : option accounts) (b : backend) : backend := mkBackend (backendName b) (oc b) d.

Inductive answer := Answer (status : Z) (headers : list (string * string)) (body : list Z).

Definition http_error (status : Z) (msg : string) : answer := Answer status [] (bytes_of msg).

(** ** The hooks *)

(** A JSON object into a struct with one field [Users]; null leaves it nil. *)
Definition decode_users (v : json) : option (list string) :=
  match v with
  | JNull => Some []
  | JObj l =>
      foldl (λ o kv, us ← o; if Accounts.is_field "users" kv.1
                              then Accounts.decode_slice Accounts.decode_string kv.2 else Some us) (Some []) l
  | _ => None
  end.

Definition hooks_handler (f : string → Ownership.Checker → Ownership.Checker) (body : list Z) (b : backend) : answer * backend :=
  match v ← decode_first body; decode_users v with
  | None => (http_error 400 "bad request", b)
  | Some us => (Answer 200 [] [], set_oc ((λ c, foldl (λ c u, f u c) c us) <$> oc b) b)
  end.

Definition hooks_assign : list Z → backend → answer * backend := hooks_handler Ownership.Track.
Definition hooks_unassign : list Z → backend → answer * backend := hooks_handler Ownership.Untrack.

(** ** Login *)

Record login := mkLogin { user_id : string; login_weight : Z }.

Definition set_login (kv : list Z * json) (p : login) : option login :=
  if Accounts.is_field "user_id" kv.1 then
    match kv.2 with JNull => Some p | JStr s => Some (mkLogin (of_bytes s) (login_weight p)) | _ => None end
  else if Accounts.is_field "weight" kv.1 then
    match kv.2 with
    | JNull => Some p
    | JNum lit => w ← Accounts.parse_int lit; Some (mkLogin (user_id p) w)
    | _ => None
    end
  else Some p.

Definition decode_login (v : json) : option login :=
  match v with
  | JNull => Some (mkLogin "" 0)
  | JObj l => foldl (λ o kv, p ← o; set_login kv p) (Some (mkLogin "" 0)) l
  | _ => None
  end.

(** INSERT ... ON CONFLICT (id) DO NOTHING *)
Definition insert_account (id : string) (w : Z) (d : accounts) : accounts :=
  match d !! id with Some _ => d | None => <[id := w]> d end.

(** The map of the answer, its keys sorted. *)
Definition login_body (name id : string) : list Z :=
  enc (JObj [(bytes_of "backend", JStr (bytes_of name)); (bytes_of "status", JStr (bytes_of "ok"));
             (bytes_of "user_id", JStr (bytes_of id))]) ++ [10].

(** [up]: does the INSERT succeed? *)
Definition login_handler (up : bool) (body : list Z) (b : backend) : answer * backend :=
  match v ← decode_first body; decode_login v with
  | None => (http_error 400 "bad request", b)
  | Some p =>
      if decide (user_id p = "") then (http_error 400 "user_id required", b)
      else
        let w := if login_weight p <=? 0 then 1 else login_weight p in
        let ok := Answer 200 [("X-Sticky-Routing-Key", user_id p); ("Content-Type", "application/json")]
                    (login_body (backendName b) (user_id p)) in
        match pgDB b with
        | None => (ok, b)
        | Some d => if up then (ok, set_db (Some (insert_account (user_id p) w d)) b)
                    else (http_error 500 "internal error", b)
        end
  end.

(** ** The other handlers *)

Definition track_header (userID : string) (b : backend) : backend :=
  if decide (userID = "") then b else set_oc (Ownership.Track userID <$> oc b) b.

Definition root_handler (userID : string) (b : backend) : answer * backend :=
  let b := track_header userID b in
  (Answer 200 [] (bytes_of ("Hello from " +:+ backendName b) ++ [10]), b).

(** The command a message may be. *)
Record command := mkCommand { cmd_type : string; cmd_rate : Z }.

Definition set_command (kv : list Z * json) (p : command) : option command :=
  if Accounts.is_field "type" kv.1 then
    match kv.2 with JNull => Some p | JStr s => Some (mkCommand (of_bytes s) (cmd_rate p)) | _ => None end
  else if Accounts.is_field "rate" kv.1 then
    match kv.2 with
    | JNull => Some p
    | JNum lit => r ← Accounts.parse_int lit; Some (mkCommand (cmd_type p) r)
    | _ => None
    end
  else Some p.

Definition decode_command (v : json) : option command :=
  match v with
  | JNull => Some (mkCommand "" 0)
  | JObj l => foldl (λ o kv, p ← o; set_command kv p) (Some (mkCommand "" 0)) l
  | _ => None
  end.

(** [time.NewTicker(time.Second / time.Duration(rate))], which panics when the
    interval is not positive. *)
Definition broker_interval (rate : Z) : option Duration :=
  let interval := Z.quot Second rate in if 0 <? interval then Some interval else None.

(** The state of a WebSocket connection: is the broker running, and what has
    been written. *)
Record ws := mkWs { broker : option Duration; written : list (list Z) }.

Definition ack (name : string) (rate : Z) : list Z :=
  enc (JObj [(bytes_of "backend", JStr (bytes_of name)); (bytes_of "rate", JNum (dec rate));
             (bytes_of "type", JStr (bytes_of "subscribed"))]).

(** One message of the client; the writes succeed. *)
Definition ws_message (name : string) (message : list Z) (c : ws) : option ws :=
  match Accounts.unmarshal decode_command message with
  | Some cmd =>
      if bool_decide (cmd_type cmd = "subscribe") && (0 <? cmd_rate cmd) then
        match broker c with
        | Some _ => Some c
        | None => interval ← broker_interval (cmd_rate cmd); Some (mkWs (Some interval) (written c ++ [ack name (cmd_rate cmd)]))
        end
      else if bool_decide (message = bytes_of "ping") then Some (mkWs (broker c) (written c ++ [bytes_of "pong"]))
      else Some (mkWs (broker c) (written c ++ [bytes_of (name +:+ " echo: ") ++ message]))
  | None =>
      if bool_decide (message = bytes_of "ping") then Some (mkWs (broker c) (written c ++ [bytes_of "pong"]))
      else Some (mkWs (broker c) (written c ++ [bytes_of (name +:+ " echo: ") ++ message]))
  end.

(** The loop of brokerPush: for each tick its time in milliseconds and whether
    the write succeeded; a failed write or the stop channel ends it. *)
Definition pushMsg (name : string) (seq ts : Z) : list Z :=
  enc (JObj [(bytes_of "type", JStr (bytes_of "push")); (bytes_of "seq", JNum (dec seq)); (bytes_of "ts", JNum (dec ts));
             (bytes_of "backend", JStr (bytes_of name))]).

Inductive broker_wake := BTick (ts : Z) (ok : bool) | BStop.

Fixpoint brokerPush (name : string) (seq : Z) (wakes : list broker_wake) : list (list Z) :=
  match wakes with
  | [] => []
  | BStop :: _ => []
  | BTick ts ok :: wakes =>
      let seq := seq + 1 in
      pushMsg name seq ts :: if ok then brokerPush name seq wakes else []
  end.

(** The pushes are numbered without gaps, each with the time of its tick. *)
Lemma brokerPush_numbered name wakes seq i msg :
  brokerPush name seq wakes !! i = Some msg →
  ∃ ts ok, wakes !! i = Some (BTick ts ok) ∧ msg = pushMsg name (seq + 1 + Z.of_nat i) ts.
Proof.
  revert seq i. induction wakes as [|[ts ok|] wakes IH]; intros seq i Hi; [done| |done]. simpl in Hi. destruct i as [|i]; simpl in Hi.
  - exists ts, ok. split; [done|]. simplify_eq. f_equal. lia.
  - destruct ok; [|done]. destruct (IH _ _ Hi) as (ts' & ok' & Hw & ->). exists ts', ok'. split; [done|]. f_equal. lia.
Qed.

(** ** Registration *)

Section redis.
Context {R : Type} `{!RC.RedisServer R}.

Definition backendAddr (name port : string) : string := "http://" +:+ name +:+ ":" +:+ port.

(** The retry loop before serving: [tries] times at most. *)
Fixpoint register (tries : nat) (addr : string) (r : R) : option R :=
  match tries with
  | O => None
  | S tries =>
      let '((_, err), r) := RC.do_cmd (RC.SAdd "backends:active" addr) r in
      match err with None => Some r | Some _ => register tries addr r end
  end.

(** Before the shutdown of the server. *)
Definition deregister (addr : string) (r : R) : R := (RC.do_cmd (RC.SRem "backends:active" addr) r).2.
End redis.

(** ** The hooks end to end *)

(** The body [HookClient.send] posts. *)
Definition hook_body (users : list string) : list Z :=
  enc (JObj [(bytes_of "users", JArr ((λ u, JStr (bytes_of u)) <$> users))]).

Lemma hook_body_decoded users :
  Forall (λ u, utf8_ok (bytes_of u) = true) users →
  (v ← decode_first (hook_body users); decode_users v) = Some users.
Proof.
  intros Hu. destruct (json_roundtrip (JObj [(bytes_of "users", JArr ((λ u, JStr (bytes_of u)) <$> users))])) as [_ Hd].
  { apply wf_obj. split; [done|]. constructor; [|constructor]. split; [done|]. simpl.
    apply wf_arr. split; [done|]. apply Forall_fmap. eapply Forall_impl; [exact Hu|]. by intros u Hx. }
  specialize (Hd [] I). rewrite app_nil_r in Hd. unfold hook_body. rewrite Hd. simpl.
  pose proof (Accounts.mapM_names users) as Hm. simpl in Hm. by rewrite Hm.
Qed.

Lemma track_all us c :
  Ownership.users (foldl (λ c u, Ownership.Track u c) c us) = Ownership.users c ∪ list_to_set us ∧
  Ownership.users (foldl (λ c u, Ownership.Untrack u c) c us) = Ownership.users c ∖ list_to_set us.
Proof.
  split; revert c; induction us as [|u us IH]; intros c; simpl; [set_solver| |set_solver|]; rewrite IH; simpl; set_solver.
Qed.

(** The answer a POST of the proxy meets at this backend. *)
Definition posted (a : answer) : Hooks.attempt := let 'Answer status _ _ := a in Hooks.Status status.

(** The hooks end to end: what the proxy posts for any list of users, the
    backend decodes to exactly that list; the call succeeds at its first
    attempt, and the checker then tracks the users it tracked and these, or,
    for an unassign, those it tracked without these. *)
Theorem hooks_delivered users path retries b c :
  Forall (λ u, utf8_ok (bytes_of u) = true) users → 0 ≤ retries → oc b = Some c →
  (∃ c', hooks_assign (hook_body users) b = (Answer 200 [] [], set_oc (Some c') b) ∧
     Ownership.users c' = Ownership.users c ∪ list_to_set users) ∧
  (∃ c', hooks_unassign (hook_body users) b = (Answer 200 [] [], set_oc (Some c') b) ∧
     Ownership.users c' = Ownership.users c ∖ list_to_set users) ∧
  Hooks.send path (λ _, posted (hooks_assign (hook_body users) b).1) retries = (None, 1%nat).
Proof.
  intros Hu Hr Hc. destruct (track_all users c) as [Ht Hut].
  unfold hooks_assign, hooks_unassign, hooks_handler. rewrite hook_body_decoded, Hc by done. simpl.
  split_and!; [by eexists|by eexists|].
  unfold Hooks.send. destruct (Z.to_nat (retries + 1)) eqn:Hn; [lia|]. done.
Qed.

Definition sample_backend : backend := mkBackend "b1" (Some (Ownership.New "http://b1:80" true)) (Some ∅).

Lemma hooks_delivered_witness :
  ∃ c', hooks_assign (hook_body ["alice"; "bob"]) sample_backend = (Answer 200 [] [], set_oc (Some c') sample_backend) ∧
    Ownership.users c' = {["alice"; "bob"]}.
Proof.
  destruct (hooks_delivered ["alice"; "bob"] "/hooks/assign" 2 sample_backend (Ownership.New "http://b1:80" true))
    as ((c' & H1 & H2) & _); [repeat constructor|lia|done|].
  exists c'. split; [done|]. rewrite H2. set_solver.
Defined.

(** *** Login *)

Definition login_body_of (p : login) : list Z :=
  enc (JObj [(bytes_of "user_id", JStr (bytes_of (user_id p))); (bytes_of "weight", JNum (dec (login_weight p)))]).

Lemma login_decoded p :
  utf8_ok (bytes_of (user_id p)) = true → is_int (login_weight p) →
  (v ← decode_first (login_body_of p); decode_login v) = Some p.
Proof.
  intros Hu Hw.
  destruct (json_roundtrip (JObj [(bytes_of "user_id", JStr (bytes_of (user_id p))); (bytes_of "weight", JNum (dec (login_weight p)))]))
    as [_ Hp].
  { apply wf_obj. split; [done|]. constructor; [done|]. constructor; [|constructor]. split; [done|]. by eexists. }
  specialize (Hp [] I). rewrite app_nil_r in Hp. unfold login_body_of. rewrite Hp. simpl.
  unfold set_login. simpl. rewrite Accounts.of_bytes_of, Accounts.parse_int_dec by done. by destruct p.
Qed.

(** What a login registers, the account source reads back: the row of the
    account, with the weight of the login or 1, and the header names the
    routing key. *)
Lemma login_registers p b d :
  utf8_ok (bytes_of (user_id p)) = true → is_int (login_weight p) → user_id p ≠ "" → pgDB b = Some d → d !! user_id p = None →
  ∃ body, login_handler true (login_body_of p) b =
    (Answer 200 [("X-Sticky-Routing-Key", user_id p); ("Content-Type", "application/json")] body, set_db (Some (<[user_id p := Z.max 1 (login_weight p)]> d)) b).
Proof.
  intros Hu Hw Hne Hd Hn. unfold login_handler. rewrite login_decoded by done.
  rewrite decide_False, Hd by done. unfold insert_account. rewrite Hn. eexists _. do 3 f_equal.
  f_equal. destruct (Z.leb_spec (login_weight p) 0); lia.
Qed.

(** *** The broker *)

Definition subscribe (rate : Z) : list Z :=
  enc (JObj [(bytes_of "type", JStr (bytes_of "subscribe")); (bytes_of "rate", JNum (dec rate))]).

(** A client can stop the backend: a subscription with a rate of more than
    a thousand million messages a second makes the interval of the ticker zero,
    and NewTicker panics; every smaller positive rate starts the broker. *)
Theorem subscribe_rate name rate w :
  0 < rate → is_int rate →
  ws_message name (subscribe rate) (mkWs None w) =
    if decide (rate ≤ Second) then Some (mkWs (Some (Z.quot Second rate)) (w ++ [ack name rate])) else None.
Proof.
  intros Hr Hi. unfold ws_message, Accounts.unmarshal, subscribe.
  destruct (json_roundtrip (JObj [(bytes_of "type", JStr (bytes_of "subscribe")); (bytes_of "rate", JNum (dec rate))])) as [Hp _].
  { apply wf_obj. split; [done|]. constructor; [done|]. constructor; [|constructor]. split; [done|]. by eexists. }
  rewrite Hp. simpl. unfold set_command. simpl. rewrite Accounts.parse_int_dec by done. simpl.
  rewrite (proj2 (Z.ltb_lt 0 rate)) by lia. unfold broker_interval.
  rewrite Z.quot_div_nonneg by (unfold Second; lia). case_decide as Hs.
  - rewrite (proj2 (Z.ltb_lt 0 _)); [done|]. apply Z.div_str_pos. lia.
  - rewrite Z.div_small by (unfold Second in *; lia). done.
Qed.

Lemma subscribe_rate_witness :
  ws_message "b1" (subscribe 2000000000) (mkWs None []) = None ∧
  ws_message "b1" (subscribe 100) (mkWs None []) = Some (mkWs (Some 10000000) [ack "b1" 100]).
Proof. split; rewrite (subscribe_rate "b1"); done || (unfold is_int, two63; lia) || (by vm_compute). Defined.

End SampleBackend.
