(* ===== verification/Executables.v ===== *)
(** * The executables

    cmd/proxy/main.go puts the proxy together and starts it; cmd/backend/main.go
    does the same for the backend that ships with it; k6/generate_jwt.go writes the
    tokens of the load tests.  Each is the composition of parts modelled
    elsewhere, with what is outside (the environment, the network, the signer)
    as arguments. *)
From stdpp Require Import base gmap strings list fin_maps.
From Stdlib Require Import ZArith Lia.
From S2P Require Import Prelude Go Hashing GoText GoJSON Assignment Store UserCache World Drain Discovery BackendDiscovery Config JWT Proxy Wiring.
From S2P Require Import RedisClient Ownership Accounts Lifecycle SampleBackend.
Import JSON.
Local Open Scope Z_scope.

(** ** cmd/proxy/main.go *)

Module ProxyMain.

Section main.
Context `{!MapIter} {S Src : Type} `{!Store S, !Accounts.AccountSource Src}.

(** What [main] meets outside: the errors of the clients it opens, the answers
    of the name service and of the Kubernetes API, the sources of accounts. *)
Record network := mkNetwork {
  clients : Wiring.outside;
  lookup_host : string → result (list string);
  slices : result (list BD.K8s.EndpointSlice);
  source_at : Wiring.source_kind → Src
}.

Inductive loop := Discovering (g : Lifecycle.goroutine) | HealthChecks | Listener.

(** [Exit] is os.Exit, [Crash] a panic. *)
Inductive process := Exit (code : Z) | Crash | Serving (addr : string) (p : Proxy.Proxy S) (loops : list loop).

Definition backends_from (net : network) (w : Wiring.wiring) : option Lifecycle.backend_source :=
  match Wiring.backendDiscovery w with
  | Some (Wiring.ByDNS host port) => Some (Lifecycle.Dns port (lookup_host net host))
  | Some (Wiring.ByKubernetes _ _ portName) => Some (Lifecycle.Kube portName (slices net))
  | None => None
  end.

(** [main] up to the wait for a signal: load, build, seed, then the health
    checker and the server.  [s] is the store that [New] opens. *)
Definition main (env : string → string) (net : network) (now : Z) (s : S) : process :=
  match Config.Load env with
  | inl _ => Exit 1
  | inr c =>
      match Wiring.New (clients net) c with
      | Wiring.Failed _ => Exit 1
      | Wiring.Panic => Crash
      | Wiring.Built w =>
          let p := Wiring.initial s c w in
          match Lifecycle.StartDiscovery (Proxy.wcfg (Wiring.params_of c w)) (backends_from net w) (Proxy.p_drain p)
                  (source_at net <$> Wiring.source w) now (Proxy.p_world p) with
          | None => Crash
          | Some (w', _, gs) =>
              Serving (Config.ProxyPort (Config.limits c)) (Proxy.set_world w' p)
                ((Discovering <$> gs) ++ [HealthChecks; Listener])
          end
      end
  end.
End main.
Arguments network : clear implicits.
Arguments process : clear implicits.

Section started.
Context `{!MapIter} {S Src : Type} `{!Store S, !BackendsSpec S, !TableLimits S, !TableSpec S, !Accounts.AccountSource Src}.

(** C26. The proxy starts with its accounts placed: with a configuration that
    loads, clients that open, a name that resolves and a source that answers,
    [main] comes to listen on the configured port, and by then exactly the
    resolved backends are active, every account of the source is assigned to one
    of them, and the assignments to them that were there are kept.  The ids are
    distinct, and weights, instant and number of accounts within what the store
    can hold. *)
Theorem main_places_accounts env (net : network Src) now (s : S) c w host port ips k accounts src' :
  Config.Load env = inr c → Wiring.New (clients net) c = Wiring.Built w →
  Wiring.backendDiscovery w = Some (Wiring.ByDNS host port) → lookup_host net host = (ips, None) → ips ≠ [] →
  Wiring.source w = Some k → Accounts.FetchAccounts (source_at net k) = ((accounts, None), src') →
  live s → instant_ok S now → NoDup (Discovery.ID <$> accounts) →
  (∀ acct, acct ∈ accounts → weight_ok S (Discovery.acct_weight acct)) → batch_ok S (length accounts) →
  total (tbl s) + zsum (λ acct, effective (Discovery.acct_weight acct)) accounts < two53 →
  ∃ p loops, main env net now s = Serving (Config.ProxyPort (Config.limits c)) p (loops ++ [HealthChecks; Listener]) ∧
    let s' := w_store (Proxy.p_world p) in
    live s' ∧ act s' = BD.DNS.discovered port ips ∧
    (∀ acct, acct ∈ accounts → ∃ a, tbl s' !! Discovery.ID acct = Some a ∧ Backend a ∈ BD.DNS.discovered port ips ∧
       (∀ a0, tbl s !! Discovery.ID acct = Some a0 → Backend a0 ∈ BD.DNS.discovered port ips → a = a0)).
Proof.
  intros Hload Hnew Hd Hlk Hips Hsrc Hf Hl Hy Hnd Hw Hb Ht. unfold main, backends_from.
  rewrite Hload, Hnew, Hd, Hlk, Hsrc.
  destruct (Lifecycle.startup_places_accounts (Proxy.wcfg (Wiring.params_of c w)) port ips (source_at net k)
    (Some Drain.NewDrainManager) now accounts src' (Proxy.p_world (Wiring.initial s c w)) Hl Hips Hf Hy Hnd Hw Hb Ht)
    as (w' & gs & Hs & Hl' & Ha' & Hp').
  change (Proxy.p_drain (Wiring.initial s c w)) with (Some Drain.NewDrainManager). simpl fmap. rewrite Hs.
  eexists _, _. split; [done|]. by split.
Qed.
End started.
End ProxyMain.

(** ** cmd/backend/main.go *)

Module BackendMain.
Import SampleBackend.

Section main.
Context {R : Type} `{!RC.RedisServer R}.

(** The process: its handlers' state, the Redis client, whether the loop of the
    checker runs, the database is open and the server accepts requests. *)
Record node := mkNode { handlers : backend; rdb : option R; addr : string; checking : bool; db_open : bool; serving : bool }.

(** The part of [main] before the server starts; [open_db] is what sql.Open
    answers, [tries] bounds the attempts to register. *)
Definition startup (tries : nat) (env : string → string) (open_db : string → option accounts) (r : R) : option node :=
  let name := env "BACKEND_NAME" in
  let addr := backendAddr name (env "PORT") in
  let dsn := env "POSTGRES_DSN" in
  let db := if bool_decide (dsn = "") then None else open_db dsn in
  if bool_decide (env "REDIS_ADDR" = "") then Some (mkNode (mkBackend name None db) None addr false true true)
  else
    r ← register tries addr r;
    Some (mkNode (mkBackend name (Some (Ownership.New addr true)) db) (Some r) addr true true true).

(** On a signal: the checker and the database first, then the registration;
    the server is shut down last. *)
Definition on_signal (n : node) : node :=
  mkNode (handlers n) (deregister (addr n) <$> rdb n) (addr n) false false (serving n).

Definition Shutdown (n : node) : node := mkNode (handlers n) (rdb n) (addr n) (checking n) (db_open n) false.

(** /login and /healthz of the process. *)
Definition login (up : bool) (body : list Z) (n : node) : option (answer * node) :=
  if serving n then
    let '(a, b) := login_handler (up && db_open n) body (handlers n) in
    Some (a, mkNode b (rdb n) (addr n) (checking n) (db_open n) (serving n))
  else None.

Definition healthz (n : node) : option answer :=
  if serving n then Some (Answer 200 [] (bytes_of "ok")) else None.

(** ** The WebSocket handler *)

(** Is the message echoed, so that a failed write ends the loop? *)
Definition echoed (message : list Z) : bool :=
  match Accounts.unmarshal decode_command message with
  | Some cmd => negb (bool_decide (cmd_type cmd = "subscribe") && (0 <? cmd_rate cmd)) && negb (bool_decide (message = bytes_of "ping"))
  | None => negb (bool_decide (message = bytes_of "ping"))
  end.

(** The messages that are read until an error, each with whether the write of
    its echo succeeds; [None] is a panic. *)
Fixpoint ws_loop (name : string) (frames : list (list Z * bool)) (c : ws) : option ws :=
  match frames with
  | [] => Some c
  | (message, ok) :: frames =>
      c ← ws_message name message c;
      if echoed message && negb ok then Some c else ws_loop name frames c
  end.

(** The whole handler: the user is tracked before the upgrade. *)
Definition ws_handler (userID : string) (upgraded : bool) (frames : list (list Z * bool)) (b : backend) : option (list (list Z) * backend) :=
  let b := track_header userID b in
  if upgraded then c ← ws_loop (backendName b) frames (mkWs None []); Some (written c, b) else Some ([], b).
End main.
Arguments node : clear implicits.

(** What one message is answered with, the broker aside. *)
Definition reply (name : string) (message : list Z) : list Z :=
  if bool_decide (message = bytes_of "ping") then bytes_of "pong" else bytes_of (name +:+ " echo: ") ++ message.

(** A message that starts no broker. *)
Definition plain (message : list Z) : Prop :=
  ∀ cmd, Accounts.unmarshal decode_command message = Some cmd → cmd_type cmd ≠ "subscribe" ∨ cmd_rate cmd ≤ 0.

Lemma ws_message_plain name message c :
  plain message → ws_message name message c = Some (mkWs (broker c) (written c ++ [reply name message])).
Proof.
  intros Hp. unfold ws_message, reply. destruct (Accounts.unmarshal decode_command message) as [cmd|] eqn:Hm.
  - destruct (Hp cmd Hm) as [Hne|Hle].
    + rewrite (bool_decide_false (cmd_type cmd = _)) by done. simpl. by case_bool_decide.
    + rewrite (proj2 (Z.ltb_ge 0 (cmd_rate cmd))), andb_false_r by lia. by case_bool_decide.
  - by case_bool_decide.
Qed.

(** The handler answers every message once and in order, while the client can be
    written to: an echo, or pong for ping. *)
Lemma ws_handler_replies userID messages b :
  Forall plain messages →
  ws_handler userID true ((λ m, (m, true)) <$> messages) b
  = Some (reply (backendName b) <$> messages, track_header userID b).
Proof.
  intros Hp. unfold ws_handler.
  assert (Hn : backendName (track_header userID b) = backendName b) by (unfold track_header; by case_decide).
  rewrite Hn. generalize (backendName b) as name. intros name.
  assert (Hloop : ∀ c, ws_loop name ((λ m, (m, true)) <$> messages) c
    = Some (mkWs (broker c) (written c ++ (reply name <$> messages)))).
  { induction Hp as [|m ms Hm _ IH]; intros c; simpl; [rewrite app_nil_r; by destruct c|].
    rewrite ws_message_plain by done. simpl. rewrite andb_false_r, IH. simpl. by rewrite <- app_assoc. }
  by rewrite Hloop.
Qed.

(** The database is closed before the server is: a login that is in flight when
    the signal comes is answered 500, although main gives the requests in flight
    fifteen seconds. *)
Lemma shutdown_refuses_logins {R} `{!RC.RedisServer R} (n : node R) p d :
  serving n = true → utf8_ok (bytes_of (user_id p)) = true → is_int (login_weight p) → user_id p ≠ ""%string →
  pgDB (handlers n) = Some d →
  login true (login_body_of p) (on_signal n) = Some (http_error 500 "internal error", on_signal n).
Proof.
  intros Hs Hu Hw Hne Hd. unfold login. simpl. rewrite Hs. unfold login_handler. rewrite login_decoded by done.
  rewrite decide_False, Hd by done. unfold on_signal. simpl. by rewrite Hs.
Qed.
End BackendMain.

(** ** k6/generate_jwt.go *)

Module GenerateJWT.

Definition getEnv (env : string → string) (key fallback : string) : string :=
  if bool_decide (env key ≠ "") then env key else fallback.

(** csv.Writer.Write: a field is quoted when it holds a comma, a quote or a line
    break, begins with a space, or is a backslash and a dot; a quote is doubled. *)
Definition fieldNeedsQuotes (f : list Z) : bool :=
  match f with
  | [] => false
  | c :: _ =>
      bool_decide (f = [92; 46]) || existsb (λ c, (c =? 44) || (c =? 34) || (c =? 13) || (c =? 10)) f ||
      ((9 <=? c) && (c <=? 13)) || (c =? 32)
  end.

Definition csv_field (f : list Z) : list Z :=
  if fieldNeedsQuotes f then [34] ++ (f ≫= λ c, if c =? 34 then [34; 34] else [c]) ++ [34] else f.

Definition csv_row (fields : list (list Z)) : list Z :=
  match fields with
  | [] => [10]
  | f :: fs => csv_field f ++ (fs ≫= λ f, 44 :: csv_field f) ++ [10]
  end.

(** What [main] leaves: the exit code and the file. *)
Record run := mkRun { code : Z; file : list Z }.

Section generate.
Context (sign : string → JWT.claims → option string) (clock : nat → Z) (created : bool) (writes : nat → bool).

(** The claims of user [i], valid for a year. *)
Definition claims_of (i : nat) : JWT.claims :=
  {["sub" := JWT.CStr (of_bytes (dec (Z.of_nat i))); "exp" := JWT.CNum ((clock i + 8760 * 60 * Minute) / Second)]}.

(** The loop from user [i] on; [writes i] tells whether the row was written. *)
Fixpoint rows (secret : string) (n i : nat) (out : list Z) : run :=
  match n with
  | O => mkRun 0 out
  | S n =>
      match sign secret (claims_of i) with
      | None => mkRun 1 out
      | Some token =>
          if writes i then rows secret n (S i) (out ++ csv_row [dec (Z.of_nat i); bytes_of token]) else mkRun 1 out
      end
  end.

(** The whole of [main]: [None] is an exit before the file exists. *)
Definition generate (env : string → string) : option run :=
  match Atoi (getEnv env "TOTAL_USERS" "1000") with
  | None => None
  | Some totalUsers =>
      let secret := getEnv env "JWT_SECRET" "mysecret" in
      if created then Some (rows secret (Z.to_nat totalUsers) 0 (csv_row [bytes_of "sub"; bytes_of "jwt"])) else None
  end.
End generate.

(** *** The tokens work *)

(** A byte that is never quoted. *)
Definition safe (c : Z) : Prop := 45 ≤ c ∧ c ≠ 92.

Lemma unquoted_safe f : Forall safe f → existsb (λ c, (c =? 44) || (c =? 34) || (c =? 13) || (c =? 10)) f = false.
Proof.
  induction 1 as [|c f [Hc _] _ IH]; [done|]. simpl. rewrite IH.
  by rewrite (proj2 (Z.eqb_neq c 44)), (proj2 (Z.eqb_neq c 34)), (proj2 (Z.eqb_neq c 13)), (proj2 (Z.eqb_neq c 10)) by lia.
Qed.

Lemma csv_field_safe f : Forall safe f → csv_field f = f.
Proof.
  intros Hf. unfold csv_field, fieldNeedsQuotes. destruct f as [|c f]; [done|]. rewrite unquoted_safe by done.
  apply Forall_cons in Hf as [[Hc Hb] _]. rewrite (bool_decide_false (c :: f = _)) by naive_solver.
  by rewrite (proj2 (Z.leb_gt c 13)), (proj2 (Z.eqb_neq c 32)), andb_false_r by lia.
Qed.

Lemma dec_safe i : Forall safe (dec (Z.of_nat i)).
Proof.
  unfold dec. rewrite (proj2 (Z.ltb_ge _ 0)) by lia.
  destruct (dec_nat_spec (Z.of_nat i) ltac:(lia)) as (d & ds & -> & Hall & _).
  eapply Forall_impl; [exact Hall|]. unfold safe, is_digit. intros c [Hc1%Z.leb_le Hc2%Z.leb_le]%andb_prop. lia.
Qed.

Section works.
Context (sign : string → JWT.claims → option string) (clock : nat → Z) (writes : nat → bool) (env : string → string).
Context (parse : Z → string → option JWT.claims) (n : Z).
Abbreviation secret := (getEnv env "JWT_SECRET" "mysecret").

(** The library: it signs the claims, with letters, digits, dots, hyphens and
    underscores, and accepts what was signed with the same secret until it
    expires. *)
Context (signs : ∀ i, is_Some (sign secret (claims_of clock i))).
Context (alphabet : ∀ i token, sign secret (claims_of clock i) = Some token → Forall safe (bytes_of token)).
Context (accepts : ∀ i token t, sign secret (claims_of clock i) = Some token → t < JWT.exp_of (claims_of clock i) →
  parse t token = Some (claims_of clock i)).

Definition token_of (i : nat) : string := default ""%string (sign secret (claims_of clock i)).

(** A line of the file. *)
Definition line (i : nat) : list Z := dec (Z.of_nat i) ++ [44] ++ bytes_of (token_of i) ++ [10].

Lemma sign_token i : sign secret (claims_of clock i) = Some (token_of i).
Proof. unfold token_of. by destruct (signs i) as [token ->]. Qed.

Lemma rows_all m i out :
  (∀ j, writes j = true) → rows sign clock writes secret m i out = mkRun 0 (out ++ (seq i m ≫= line)).
Proof using signs alphabet.
  intros Hw. revert i out. induction m as [|m IH]; intros i out; simpl; [by rewrite app_nil_r|].
  rewrite sign_token, Hw, IH. f_equal. rewrite <- app_assoc. f_equal. unfold csv_row, line. simpl.
  rewrite (csv_field_safe (dec _)) by apply dec_safe. rewrite csv_field_safe by (eapply alphabet, sign_token).
  by rewrite app_nil_r, <- !app_assoc.
Qed.

Lemma claims_lookup i :
  claims_of clock i !! "sub"%string = Some (JWT.CStr (of_bytes (dec (Z.of_nat i)))) ∧
  claims_of clock i !! "exp"%string = Some (JWT.CNum ((clock i + 8760 * 60 * Minute) / Second)).
Proof. unfold claims_of. split; [apply lookup_insert_eq|]. etrans; [by apply lookup_insert_ne|apply lookup_singleton_eq]. Qed.

Lemma dec_nonempty i : of_bytes (dec (Z.of_nat i)) ≠ ""%string.
Proof.
  unfold dec. rewrite (proj2 (Z.ltb_ge _ 0)) by lia.
  by destruct (dec_nat_spec (Z.of_nat i) ltac:(lia)) as (d & ds & -> & _).
Qed.

Lemma bearer_token token : JWT.bearer ("Bearer " +:+ token) = Some token.
Proof. done. Qed.

(** The tokens of the load tests authenticate: a run that can write its file
    leaves one line per user, and for almost a year the proxy takes the token of
    line [i] for user [i]. *)
Theorem generated_tokens_authenticate :
  Atoi (getEnv env "TOTAL_USERS" "1000") = Some n → (∀ j, writes j = true) →
  generate sign clock true writes env = Some (mkRun 0 (bytes_of "sub,jwt" ++ [10] ++ (seq 0 (Z.to_nat n) ≫= line))) ∧
  ∀ i t, t + Second ≤ clock i + 8760 * 60 * Minute →
    JWT.RoutingKey <$> JWT.extract_uncached parse "sub" t ("Bearer " +:+ token_of i) = Some (of_bytes (dec (Z.of_nat i))).
Proof using signs alphabet accepts.
  intros Hn Hw. split.
  - unfold generate. rewrite Hn. rewrite rows_all by done. done.
  - intros i t Ht. unfold JWT.extract_uncached. rewrite bearer_token. cbn [mbind option_bind].
    rewrite (accepts i (token_of i) t (sign_token i)).
    + cbn [mbind option_bind]. unfold JWT.routing_key. rewrite (proj1 (claims_lookup i)).
      by rewrite bool_decide_false by apply dec_nonempty.
    + unfold JWT.exp_of. rewrite (proj2 (claims_lookup i)).
      pose proof (Z.mod_pos_bound (clock i + 8760 * 60 * Minute) Second ltac:(done)).
      pose proof (Z.div_mod (clock i + 8760 * 60 * Minute) Second ltac:(done)). lia.
Qed.
End works.

(** A toy library: the token is the subject. *)
Definition toy_sign (secret : string) (cs : JWT.claims) : option string :=
  match cs !! "sub"%string with Some (JWT.CStr s) => Some s | _ => None end.

Definition toy_parse (now : Z) (token : string) : option JWT.claims :=
  i ← digits 0 (bytes_of token); Some (claims_of (λ _, 0) (Z.to_nat i)).

Lemma generated_tokens_authenticate_witness :
  generate toy_sign (λ _, 0) true (λ _, true) (λ k, if bool_decide (k = "TOTAL_USERS") then "3" else "")%string
  = Some (mkRun 0 (bytes_of "sub,jwt" ++ [10] ++ bytes_of "0,0" ++ [10] ++ bytes_of "1,1" ++ [10] ++ bytes_of "2,2" ++ [10])) ∧
  JWT.RoutingKey <$> JWT.extract_uncached toy_parse "sub" 5 "Bearer 2" = Some "2"%string.
Proof.
  assert (Hs : ∀ s i, toy_sign s (claims_of (λ _, 0) i) = Some (of_bytes (dec (Z.of_nat i)))).
  { intros s i. unfold toy_sign. by rewrite (proj1 (claims_lookup (λ _, 0) i)). }
  destruct (generated_tokens_authenticate toy_sign (λ _, 0) (λ _, true)
    (λ k, if bool_decide (k = "TOTAL_USERS") then "3" else "")%string toy_parse 3) as [Hm Ht].
  - intros i. rewrite Hs. by eexists.
  - intros i token. rewrite Hs. intros [= <-]. rewrite Accounts.bytes_of_of by apply Accounts.dec_bytes. apply dec_safe.
  - intros i token t. rewrite Hs. intros [= <-] _. unfold toy_parse.
    rewrite Accounts.bytes_of_of by apply Accounts.dec_bytes. unfold dec. rewrite (proj2 (Z.ltb_ge _ 0)) by lia.
    destruct (dec_nat_spec (Z.of_nat i) ltac:(lia)) as (d & ds & -> & _ & _ & ->). simpl. by rewrite Nat2Z.id.
  - done.
  - done.
  - split; [rewrite Hm; by vm_compute|]. apply (Ht 2%nat 5). by vm_compute.
Defined.
End GenerateJWT.
