(* ===== verification/Login.v ===== *)
(** * A login through the proxy

    /login is a public path: the proxy picks a backend by the address of the
    client, the backend (cmd/backend/main.go) registers the account and names
    it in the response, and the proxy binds the account to that backend
    (servePublic, bindStickyKey in proxy.go).  The parts are put together: the
    header the backend sends, as it arrives, is the key the proxy binds, and from
    then on every replica routes that account to the backend that answered the
    login.  What net/http does to the value of a header on its way is modelled
    too. *)
From stdpp Require Import base gmap strings list sorting fin_maps.
From Stdlib Require Import ZArith Lia.
From S2P Require Import Prelude Go Hashing GoText GoJSON Assignment Store UserCache World Drain Backends Proxy System Accounts SampleBackend.
Import JSON.
Local Open Scope Z_scope.

Module Login.

(** ** A header on its way *)

Definition blank (c : Z) : bool := (c =? 32) || (c =? 9).

Fixpoint trim_left (s : list Z) : list Z :=
  match s with
  | [] => []
  | c :: r => if blank c then trim_left r else s
  end.

Definition trim (s : list Z) : list Z := rev (trim_left (rev (trim_left s))).

(** The server writes a value with blanks for newlines and without blanks at its
    ends (http.Header.Write). *)
Definition written (v : list Z) : list Z := trim ((λ c, if (c =? 10) || (c =? 13) then 32 else c) <$> v).

(** The client refuses a response with a control byte in a value
    (textproto.Reader.ReadMIMEHeader). *)
Definition value_byte (c : Z) : bool := (c =? 9) || ((32 <=? c) && negb (c =? 127)).

Definition header_value (v : string) : option string :=
  let w := written (bytes_of v) in
  if forallb value_byte w then Some (of_bytes w) else None.

(** The headers of a response as they arrive; [None] is a response the transport
    cannot read. *)
Definition received (a : SampleBackend.answer) : option (list (string * string)) :=
  let 'SampleBackend.Answer _ headers _ := a in mapM (λ h, v ← header_value h.2; Some (h.1, v)) headers.

(** The value of the sticky header, empty if absent. *)
Definition sticky_header (a : SampleBackend.answer) : option string :=
  headers ← received a;
  Some match list_find (λ h, h.1 = "X-Sticky-Routing-Key"%string) headers with Some (_, (_, v)) => v | None => ""%string end.

(** Values that arrive as they are: no control bytes, no blanks at the ends. *)
Definition header_safe (v : string) : bool :=
  forallb value_byte (bytes_of v) &&
  match bytes_of v with [] => true | c :: r => negb (blank c) && negb (blank (List.last r c)) end.

Lemma trim_left_id s : match s with [] => true | c :: _ => negb (blank c) end = true → trim_left s = s.
Proof. destruct s as [|c s]; [done|]. simpl. by destruct (blank c). Qed.

Lemma header_value_safe v : header_safe v = true → header_value v = Some v.
Proof.
  unfold header_safe, header_value, written. intros [Hb Hends]%andb_prop.
  assert (Hmap : (λ c, if (c =? 10) || (c =? 13) then 32 else c) <$> bytes_of v = bytes_of v).
  { rewrite forallb_forall in Hb. rewrite <- (list_fmap_id (bytes_of v)) at 2.
    apply list_fmap_ext. intros i c Hc%list_elem_of_lookup_2%list_elem_of_In%Hb.
    unfold value_byte in Hc. destruct (Z.eqb_spec c 10) as [->|]; [done|]. by destruct (Z.eqb_spec c 13) as [->|]. }
  rewrite Hmap. assert (Ht : trim (bytes_of v) = bytes_of v).
  { unfold trim. destruct (bytes_of v) as [|c r]; [done|]. apply andb_prop in Hends as [Hc Hl].
    rewrite (trim_left_id (c :: r)) by done. rewrite trim_left_id; [apply rev_involutive|].
    destruct r as [|d r] using rev_ind; [done|]. simpl. rewrite List.last_last in Hl.
    rewrite rev_app_distr. simpl. done. }
  by rewrite Ht, Hb, Accounts.of_bytes_of.
Qed.

Lemma sticky_header_ok u ct body :
  header_value ct = Some ct →
  sticky_header (SampleBackend.Answer 200 [("X-Sticky-Routing-Key", u); ("Content-Type", ct)]%string body) = header_value u.
Proof. intros Hct. unfold sticky_header, received. simpl. rewrite Hct. by destruct (header_value u). Qed.

Section login.
Context `{!MapIter} {S : Type} `{!Store S, !BackendsSpec S, !TableLimits S, !TableSpec S, !AssignSpec S}.
Context (params : Proxy.params) (parses : string → bool).
Context (Hmode : Proxy.routingMode params = Proxy.ModeAssignment).
Context (Hstands : ∀ active a, Backend a ∈ active → stands S active a).
Implicit Types (p q : Proxy.Proxy S).

(** A user whose assignment stands is routed to its backend from any replica
    that does not have it cached. *)
Lemma assigned_elsewhere t later ok r u q a :
  Proxy.breaker_closed t q → Proxy.missed t u q → live (w_store (Proxy.p_world q)) →
  tbl (w_store (Proxy.p_world q)) !! u = Some a → Backend a ∈ act (w_store (Proxy.p_world q)) →
  total (tbl (w_store (Proxy.p_world q))) + 1 < two53 →
  ∃ ans q', Proxy.route params parses t later ok r u q = Some (ans, q') ∧ Proxy.target ans = Some (Backend a, u).
Proof.
  intros Hcb Hmiss Hl Hu Ha Ht. destruct (Proxy.cached_backend_miss t u q Hmiss) as [c Hc].
  unfold Proxy.route. rewrite Hc.
  destruct (Proxy.assign_spec params t u (Proxy.set_world (set_cache c (Proxy.p_world q)) q) Hmode Hcb Hl)
    as (a' & q1 & -> & _ & _ & _ & _ & Hleast & _); [simpl; clear -Ha; set_solver|done|].
  assert (a' = a) as ->.
  { simpl in Hleast. destruct Hleast as [[Hk _]|(_ & Hn & _)]; [congruence|]. destruct (Hn a Hu). by apply Hstands. }
  simpl. eexists _, _. split; [by rewrite <- surjective_pairing|]. apply Proxy.forward_target.
Qed.

(** What a binding leaves: the assignment in the table, the entry in the cache. *)
Lemma bind_new now u b p :
  live (w_store (Proxy.p_world p)) → instant_ok S now → b ∈ act (w_store (Proxy.p_world p)) →
  total (tbl (w_store (Proxy.p_world p))) + 1 < two53 → tbl (w_store (Proxy.p_world p)) !! u = None →
  let p' := Proxy.bindStickyKey params now u b p in
  (∃ a, tbl (w_store (Proxy.p_world p')) !! u = Some a ∧ Backend a = b) ∧
  UC.data (w_cache (Proxy.p_world p')) !! u = Some (UC.mkCacheEntry b (now + UC.ttl (w_cache (Proxy.p_world p)))) ∧
  Proxy.p_backends p' = Proxy.p_backends p ∧ Proxy.p_drain p' = Proxy.p_drain p.
Proof.
  intros Hl Hy Hb Ht Hu. unfold Proxy.bindStickyKey. simpl. rewrite Hmode.
  match goal with |- context [SendAssign ?c ?x ?ks ?w] => destruct (Proxy.SendAssign_frame c x ks w) as [-> ->] end.
  destruct (BulkAssign_spec now {[u := mkEntry b 1]} (w_store (Proxy.p_world p)) Hl Hy) as (s1 & -> & Hl1 & Ha1 & Ht1).
  { intros k e. rewrite lookup_singleton_Some. intros [_ <-]. apply weight_ok_1. }
  { intros k e. rewrite lookup_singleton_Some. intros [_ <-]. by apply target_ok_active. }
  { rewrite map_size_singleton. apply batch_ok_1. }
  { unfold entries_weight. rewrite <- insert_empty, msum_insert, msum_empty by done. simpl. change (effective 1) with 1. lia. }
  simpl. split; [|split; [apply lookup_insert_eq|done]]. rewrite Ht1.
  eexists. split; [apply lookup_union_Some_l; rewrite lookup_fmap, lookup_fresh_entries, decide_True, lookup_singleton_eq by done; done|done].
Qed.

(** C21. A login sticks: when a client logs in through the proxy and the backend
    that its address selects accepts, then for the account the proxy reads from
    the response, if it is new, the table names that backend; this replica routes
    the account to it while the cache entry is valid, the breaker of the backend
    closed and the backend not draining, and so does every other replica that
    looks the account up in that table.  The account read is the one that logged
    in whenever its id has no control bytes and no blanks at its ends; net/http
    changes or refuses others on the way. *)
Theorem login_sticks now later r p lg sb d b u :
  let s := w_store (Proxy.p_world p) in
  live s → instant_ok S later → total (tbl s) + 2 < two53 → Z.of_nat (size (act s)) < two32 →
  index_mod (sort_Strings (elements (act s))) (HashUser (Proxy.RemoteAddr r)) = Some b →
  (Backends.Available now b (Proxy.p_backends p)).1 = true → parses b = true →
  utf8_ok (bytes_of (SampleBackend.user_id lg)) = true → is_int (SampleBackend.login_weight lg) →
  SampleBackend.user_id lg ≠ ""%string → SampleBackend.pgDB sb = Some d → d !! SampleBackend.user_id lg = None →
  let response := (SampleBackend.login_handler true (SampleBackend.login_body_of lg) sb).1 in
  sticky_header response = Some u → u ≠ ""%string → tbl s !! u = None →
  (header_safe (SampleBackend.user_id lg) = true → u = SampleBackend.user_id lg) ∧
  ∃ p' a, Proxy.servePublic params parses now later (bool_decide (is_Some (sticky_header response)))
            (default ""%string (sticky_header response)) r p = Some (Proxy.ToPublic b Backends.Forwarded, p') ∧
    tbl (w_store (Proxy.p_world p')) !! u = Some a ∧ Backend a = b ∧
    (∀ t later' ok' r', t ≤ later + UC.ttl (w_cache (Proxy.p_world p)) →
       (Backends.Available t b (Proxy.p_backends p')).1 = true → Proxy.is_draining b p' = false →
       ∃ ans q, Proxy.route params parses t later' ok' r' u p' = Some (ans, q) ∧ Proxy.target ans = Some (b, u)) ∧
    (∀ q t later' ok' r', w_store (Proxy.p_world q) = w_store (Proxy.p_world p') → Proxy.breaker_closed t q → Proxy.missed t u q →
       ∃ ans q', Proxy.route params parses t later' ok' r' u q = Some (ans, q') ∧ Proxy.target ans = Some (b, u)).
Proof.
  intros s Hl Hy Ht Hsize Hix Hav Hparse Hutf Hw Hid Hdb Hnew response Hhdr Hne Hu. split.
  { intros Hsafe. unfold response in Hhdr. destruct (SampleBackend.login_registers lg sb d Hutf Hw Hid Hdb Hnew) as (body & Hlh).
    rewrite Hlh in Hhdr. cbn [fst] in Hhdr. rewrite sticky_header_ok, header_value_safe in Hhdr by done. by simplify_eq. }
  rewrite Hhdr. cbn [default]. rewrite bool_decide_true by done. clear response Hhdr. unfold Proxy.servePublic.
  destruct (ActiveBackends_spec s Hl) as (l & s1 & Hs1 & Hperm & Hl1 & Ha1 & Ht1). unfold s in Hs1. rewrite Hs1.
  assert (Hsort : sort_Strings l = sort_Strings (elements (act s))) by (by apply sort_Strings_canonical).
  assert (Hb : b ∈ act s).
  { destruct (index_mod_some (sort_Strings (elements (act s))) (HashUser (Proxy.RemoteAddr r))) as (b' & Hb' & Hin).
    - intros Hx. by rewrite Hx in Hix.
    - apply HashUser_u32.
    - by rewrite sort_Strings_length.
    - rewrite Hix in Hb'. simplify_eq. by rewrite sort_Strings_elem, elem_of_elements in Hin. }
  rewrite (bool_decide_false (@None error ≠ None)) by (intros Hx; by apply Hx).
  rewrite (bool_decide_false (l = [])) by (intros ->; apply Permutation_nil_l in Hperm; rewrite <- elem_of_elements, <- Hperm in Hb; by apply elem_of_nil in Hb).
  cbn [orb]. rewrite Hsort, Hix. cbn [mbind option_bind]. unfold Backends.ProxyRequest. simpl.
  destruct (Backends.Available now b (Proxy.p_backends p)) as [av bm]. simpl in Hav. subst av. simpl.
  assert (∃ bm', Backends.getOrCreateProxy parses b bm = (true, bm')) as [bm' ->].
  { unfold Backends.getOrCreateProxy. rewrite Hparse. case_bool_decide; by eexists. }
  simpl. rewrite bool_decide_false by done.
  set (q0 := Proxy.set_backends bm' (Proxy.set_world (set_store s1 (Proxy.p_world p)) p)).
  destruct (bind_new later u b q0) as ((a & Hta & Hba) & He & Hbm & Hdr); simpl; rewrite ?Ha1, ?Ht1; [done..|lia|done|].
  destruct (System.bind_kept params later u b q0) as (Hl2 & Ha2 & Ht2); unfold System.store_of in *; simpl; rewrite ?Ha1, ?Ht1; [done..|lia|].
  exists (Proxy.bindStickyKey params later u b q0), a. split; [done|]. split; [done|]. split; [done|]. split.
  - intros t later' ok' r' Htt Hav' Hdr'.
    destruct (Proxy.cached_backend_hit t u b (UC.mkCacheEntry b (later + UC.ttl (w_cache (Proxy.p_world q0))))
      (Proxy.bindStickyKey params later u b q0)) as (p1 & Hc & _); [by split_and!|].
    unfold Proxy.route. rewrite Hc. eexists _, _. split; [by rewrite <- surjective_pairing|]. apply Proxy.forward_target.
  - intros q t later' ok' r' Hq Hcb Hmiss. change (w_store (Proxy.p_world q0)) with s1 in Ha2, Ht2.
    rewrite Ha1 in Ha2. rewrite Ht1 in Ht2.
    destruct (assigned_elsewhere t later' ok' r' u q a Hcb Hmiss) as (ans & q' & Hr & Hta'); rewrite ?Hq; [done|done| |lia|].
    + by rewrite Ha2, Hba.
    + exists ans, q'. rewrite Hba in Hta'. done.
Qed.
End login.

(** An id with blanks around it, which /login registers as it is, arrives without
    them: the account bound is another one, or none at all; one with a control
    byte makes the response unreadable. *)
Theorem padded_login_binds_other :
  header_value " bob" = Some "bob"%string ∧ header_value " " = Some ""%string ∧
  header_value (of_bytes [98; 1; 98]) = None ∧ header_value (of_bytes [98; 10; 98]) = Some "b b"%string.
Proof. by vm_compute. Qed.
End Login.
