(* ===== verification/Gateway.v ===== *)
(** * The edges of the proxy: headers, WebSocket dialling, the mux

    What main.go registers, how a request is recognised as a WebSocket upgrade,
    what proxyWebSocket and dialBackend ask of a backend, the response writer
    that takes the sticky header out, and the limits of the transport.
    [url.Parse], the dialer and the upgrader are parameters: their answers are
    arguments. *)
From stdpp Require Import base gmap strings list fin_maps.
From Stdlib Require Import ZArith Lia.
From S2P Require Import Prelude Go Hashing GoFloat GoText ConnTracker Ownership SampleBackend.
Local Open Scope Z_scope.

Module Gateway.

(** ** Headers *)

(** [http.Header], under canonical names. *)
Abbreviation Header := (gmap string (list string)).

Definition Get (k : string) (h : Header) : string := default "" (h !! k ≫= head).
Definition HSet (k v : string) (h : Header) : Header := <[k := [v]]> h.
Definition Del (k : string) (h : Header) : Header := delete k h.

(** [strings.EqualFold(s, "websocket")], on bytes: each letter in either case,
    or one of the two characters outside ASCII that fold to it, the Kelvin sign
    and the long s. *)
Definition letters : list Z := bytes_of "websocket".

Fixpoint fold_match (pat s : list Z) : bool :=
  match pat, s with
  | [], [] => true
  | [], _ :: _ => false
  | c :: pat, d :: s =>
      if (d =? c) || (d =? c - 32) then fold_match pat s
      else if (c =? 107) && (d =? 226) then match s with 132 :: 170 :: s => fold_match pat s | _ => false end
      else if (c =? 115) && (d =? 197) then match s with 191 :: s => fold_match pat s | _ => false end
      else false
  | _ :: _, [] => false
  end.

Definition isWebSocket (h : Header) : bool := fold_match letters (bytes_of (Get "Upgrade" h)).

Example isWebSocket_examples :
  isWebSocket (HSet "Upgrade" "WebSocket" ∅) = true ∧ isWebSocket ∅ = false ∧
  isWebSocket (HSet "Upgrade" "websocket, h2c" ∅) = false.
Proof. by vm_compute. Qed.

(** ** Dialling a backend's WebSocket *)

(** What [url.Parse] makes of a URL: user, host and port in [Authority]. *)
Record URL := mkURL { Scheme : string; Authority : string; UPath : string; RawQuery : string; Fragment : string }.

Definition ws_url (u : URL) (path query : string) : URL :=
  mkURL (if bool_decide (Scheme u = "https") then "wss" else "ws") (Authority u) path query (Fragment u).

Record ws_request := mkWsReq { r_path : string; r_query : string; r_header : Header }.

Definition forward_one (src : Header) (h : Header) (k : string) : Header :=
  if bool_decide (Get k src = "") then h else HSet k (Get k src) h.

Definition reqHeader (src : Header) : Header :=
  foldl (forward_one src) ∅ ["Authorization"; "Cookie"; "Sec-WebSocket-Protocol"].

(** The fields newWSBridge keeps for later dials. *)
Record WSBridge := mkBridge { b_id : string; b_key : string; b_header : Header; b_path : string; b_query : string }.

Inductive ws_outcome :=
  | BadAddress                                (* 502 *)
  | DialFailed (to : URL) (h : Header)        (* 502 *)
  | UpgradeFailed (to : URL) (h : Header)     (* the upgrader answered; the backend connection is closed *)
  | Bridged (to : URL) (h : Header) (b : WSBridge).

Section dial.
Context (Parse : string → option URL).

(** [dials] and [upgrades] say whether the two succeed, [id] is the new bridge,
    [during] what the others do to the tracker while the bridge runs; a nil
    tracker is [None]. *)
Definition proxyWebSocket (dials upgrades : bool) (id : string) (during : CT.ConnTracker → CT.ConnTracker)
    (r : ws_request) (backend routingKey : string) (ct : option CT.ConnTracker) : ws_outcome * option CT.ConnTracker :=
  match Parse backend with
  | None => (BadAddress, ct)
  | Some u =>
      let to := ws_url u (r_path r) (r_query r) in
      let h := reqHeader (r_header r) in
      if negb dials then (DialFailed to h, ct)
      else if negb upgrades then (UpgradeFailed to h, ct)
      else
        let b := mkBridge id routingKey h (r_path r) (r_query r) in
        (Bridged to h b, (λ t, CT.Remove routingKey id (during (CT.Add routingKey id t))) <$> ct)
  end.

(** [None]: an error; otherwise what is dialled. *)
Definition dialBackend (b : WSBridge) (backendURL : string) : option (URL * Header) :=
  u ← Parse backendURL; Some (ws_url u (b_path b) (b_query b), b_header b).

(** What a request dials, if it gets that far. *)
Definition dialled (o : ws_outcome) : option (URL * Header) :=
  match o with
  | BadAddress => None
  | DialFailed to h | UpgradeFailed to h | Bridged to h _ => Some (to, h)
  end.

(** A swap asks the new backend for what the client asked for: the
    connection a bridge dials when it is moved to another backend has the same
    URL and headers as if the client's own request had been sent to that
    backend, and fails exactly when that would. *)
Theorem swap_dials_same_request dials upgrades id during r backend key ct to h b ct' :
  proxyWebSocket dials upgrades id during r backend key ct = (Bridged to h b, ct') →
  ∀ backend' dials' upgrades' id' during' ct2,
    dialBackend b backend' = dialled (proxyWebSocket dials' upgrades' id' during' r backend' key ct2).1.
Proof.
  unfold proxyWebSocket, dialBackend. destruct (Parse backend) as [u|]; [|done].
  destruct dials, upgrades; simpl; intros [=]; subst. intros backend' dials' upgrades' id' during' ct2.
  destruct (Parse backend') as [u'|]; [|done]. by destruct dials', upgrades'.
Qed.

(** A header that is not one of the three is not forwarded. *)
Lemma reqHeader_other src k :
  k ∉ ["Authorization"; "Cookie"; "Sec-WebSocket-Protocol"] → reqHeader src !! k = None.
Proof.
  unfold reqHeader. generalize ["Authorization"; "Cookie"; "Sec-WebSocket-Protocol"]. intros ks Hk.
  assert (Hf : ∀ h : Header, h !! k = None → foldl (forward_one src) h ks !! k = None); [|by apply Hf].
  induction ks as [|k' ks IH]; intros h Hh; [done|]. apply not_elem_of_cons in Hk as [Hne Hk]. simpl. apply IH; [done|].
  unfold forward_one, HSet. case_bool_decide; [done|]. by rewrite lookup_insert_ne.
Qed.

(** The three are, with their first value. *)
Lemma reqHeader_forwarded src k :
  k ∈ ["Authorization"; "Cookie"; "Sec-WebSocket-Protocol"] → Get k (reqHeader src) = Get k src.
Proof.
  intros Hk. unfold reqHeader. simpl. unfold forward_one, HSet, Get.
  repeat (apply elem_of_cons in Hk as [->|Hk]); [..|by apply elem_of_nil in Hk]; repeat case_bool_decide;
    by simplify_map_eq.
Qed.
End dial.

(** The user of a WebSocket is not passed on: the handler sets X-User-ID on
    the request before it bridges it, but what is dialled never carries that
    header, so the backend's handler, which reads it there, tracks nobody. *)
Theorem websocket_user_not_forwarded Parse dials upgrades id during path query header backend key ct to h server :
  dialled (proxyWebSocket Parse dials upgrades id during (mkWsReq path query (HSet "X-User-ID" key header)) backend key ct).1
    = Some (to, h) →
  Get "X-User-ID" (HSet "X-User-ID" key header) = key ∧
  SampleBackend.track_header (Get "X-User-ID" h) server = server.
Proof.
  intros Hd. split; [unfold Get, HSet; by rewrite lookup_insert_eq|].
  assert (Hh : h = reqHeader (HSet "X-User-ID" key header)).
  { unfold proxyWebSocket in Hd. destruct (Parse backend); [|done]. destruct dials, upgrades; simpl in Hd; by simplify_eq. }
  assert (Hn : Get "X-User-ID" h = ""). { unfold Get. rewrite Hh, reqHeader_other by set_solver. done. }
  rewrite Hn. done.
Qed.

(** ** The sticky header *)

Definition stickyHeaderName : string := "X-Sticky-Routing-Key".

(** [WriteHeader]: the key found, and the headers that go to the client. *)
Definition WriteHeader (h : Header) (routingKey : string) : string * Header :=
  let key := Get stickyHeaderName h in
  if bool_decide (key = "") then (routingKey, h) else (key, Del stickyHeaderName h).

(** What reaches the client of a public path: everything but the sticky header,
    which is stripped unless its first value is empty. *)
Lemma WriteHeader_spec h :
  let '(key, out) := WriteHeader h "" in
  key = Get stickyHeaderName h ∧ (key ≠ "" → out !! stickyHeaderName = None) ∧
  ∀ k, k ≠ stickyHeaderName → out !! k = h !! k.
Proof.
  unfold WriteHeader, Del. case_bool_decide as Hk; (split; [done|]); (split; [done || intros _; apply lookup_delete_eq|]); [done|].
  intros k Hne. by rewrite lookup_delete_ne.
Qed.

Example empty_sticky_header_leaks :
  WriteHeader {[stickyHeaderName := [""; "user-42"]]} "" = ("", {[stickyHeaderName := [""; "user-42"]]}).
Proof. by vm_compute. Qed.

(** ** The transport of NewBackendManager *)

Record transport := mkTransport { MaxIdleConns : Z; MaxIdleConnsPerHost : Z; MaxConnsPerHost : Z; IdleConnTimeout : Duration }.

Definition wrap64 (z : Z) : Z := (z + two63) mod two64 - two63.

Definition new_transport (maxConns maxIdle : Z) (idle : Duration) : transport :=
  let maxConns := if maxConns <=? 0 then 500 else maxConns in
  let maxIdle := if maxIdle <=? 0 then maxConns else maxIdle in
  let idle := if idle <=? 0 then 90 * Second else idle in
  let total := wrap64 (maxIdle * 10) in
  mkTransport (if total <? 1000 then 1000 else total) maxIdle maxConns idle.

(** The transport's limits make sense for every configuration: each is
    positive, the idle limit per host is the connection limit unless it is
    set, and the total exceeds it, by ten backends' worth, as long as ten times
    it fits in an int. *)
Theorem transport_limits maxConns maxIdle idle :
  let t := new_transport maxConns maxIdle idle in
  0 < MaxConnsPerHost t ∧ 0 < MaxIdleConnsPerHost t ∧ 0 < IdleConnTimeout t ∧ 1000 ≤ MaxIdleConns t ∧
  (maxIdle ≤ 0 → MaxIdleConnsPerHost t = MaxConnsPerHost t) ∧
  (MaxIdleConnsPerHost t * 10 < two63 → 10 * MaxIdleConnsPerHost t ≤ MaxIdleConns t).
Proof.
  unfold new_transport. cbn [MaxIdleConns MaxIdleConnsPerHost MaxConnsPerHost IdleConnTimeout].
  assert (HS : 0 < 90 * Second) by done.
  set (mc := if maxConns <=? 0 then 500 else maxConns).
  assert (Hmc : 0 < mc) by (unfold mc; destruct (Z.leb_spec maxConns 0); lia).
  set (mi := if maxIdle <=? 0 then mc else maxIdle).
  assert (Hmi : 0 < mi) by (unfold mi; destruct (Z.leb_spec maxIdle 0); lia).
  split; [done|]. split; [done|]. split; [destruct (Z.leb_spec idle 0); lia|].
  split; [destruct (Z.ltb_spec (wrap64 (mi * 10)) 1000); lia|].
  split; [intros Hle; unfold mi; by rewrite (proj2 (Z.leb_le _ _))|].
  intros Hfit. assert (Hw : wrap64 (mi * 10) = mi * 10).
  { unfold wrap64. rewrite Z.mod_small; [lia|]. unfold two63, two64 in *. lia. }
  rewrite Hw. destruct (Z.ltb_spec (mi * 10) 1000); lia.
Qed.

(** ** The mux of main.go *)

Inductive handler := HProxy | HHealthz | HMetrics | HDrain | HDrainStatus | HCancelDrain | HRouting.

(** Whether main wraps it in adminAuth. *)
Definition guarded (h : handler) : bool := match h with HDrain | HDrainStatus | HCancelDrain | HRouting => true | _ => false end.

(** The patterns: a path, and the methods they are for; GET also takes HEAD.
    The most specific one wins, and the one for the root takes what is left. *)
Definition admin_drain (method : string) : option handler :=
  if bool_decide (method = "POST") then Some HDrain
  else if bool_decide (method = "GET") || bool_decide (method = "HEAD") then Some HDrainStatus
  else if bool_decide (method = "DELETE") then Some HCancelDrain
  else None.

Definition mux (method path : string) : handler :=
  if bool_decide (path = "/healthz") then HHealthz
  else if bool_decide (path = "/metrics") then HMetrics
  else if bool_decide (path = "/admin/drain") then default HProxy (admin_drain method)
  else if bool_decide (path = "/debug/routing") then
    if bool_decide (method = "GET") || bool_decide (method = "HEAD") then HRouting else HProxy
  else HProxy.

(** What changes a backend or shows the routing is behind the admin token. *)
Lemma mux_guarded method path :
  mux method path ≠ HProxy → mux method path ≠ HHealthz → mux method path ≠ HMetrics → guarded (mux method path) = true.
Proof. by destruct (mux method path). Qed.

(** An admin path with another method is a request to the proxy. *)
Example unknown_admin_method : mux "PUT" "/admin/drain" = HProxy ∧ mux "HEAD" "/admin/drain" = HDrainStatus.
Proof. done. Qed.

(** ** Examples *)

Module GatewayExamples.

(** Enough of [url.Parse] for two addresses. *)
Definition parse (s : string) : option URL :=
  if bool_decide (s = "https://a:443") then Some (mkURL "https" "a:443" "" "" "")
  else if bool_decide (s = "http://b:80") then Some (mkURL "http" "b:80" "" "" "")
  else None.

Definition chat : ws_request := mkWsReq "/ws" "room=1" (HSet "Cookie" "c=1" (HSet "Upgrade" "websocket" ∅)).

Lemma swap_dials_same_request_witness :
  ∃ to h b, (proxyWebSocket parse true true "br" id chat "https://a:443" "u1" (Some CT.NewConnTracker)).1 = Bridged to h b ∧
    Scheme to = "wss" ∧
    dialBackend parse b "http://b:80" = Some (mkURL "ws" "b:80" "/ws" "room=1" "", HSet "Cookie" "c=1" ∅) ∧
    dialBackend parse b "http://b:80" =
      dialled (proxyWebSocket parse false false "" id chat "http://b:80" "u1" None).1.
Proof.
  destruct (proxyWebSocket parse true true "br" id chat "https://a:443" "u1" (Some CT.NewConnTracker)) as [o ct'] eqn:Ho.
  destruct o as [| | |to h b]; try by vm_compute in Ho.
  pose proof (swap_dials_same_request parse _ _ _ _ _ _ _ _ _ _ _ _ Ho "http://b:80" false false "" id None) as Hs.
  exists to, h, b. split; [done|]. vm_compute in Ho. simplify_eq. split; [done|]. split; [by vm_compute|exact Hs].
Defined.

Lemma websocket_user_not_forwarded_witness :
  let c := SampleBackend.mkBackend "b" (Some (Ownership.New "b" false)) None in
  ∃ to h, dialled (proxyWebSocket parse true true "br" id (mkWsReq "/ws" "" (HSet "X-User-ID" "u1" ∅)) "http://b:80" "u1" None).1
      = Some (to, h) ∧ SampleBackend.track_header (Get "X-User-ID" h) c = c.
Proof.
  intros c. eexists _, _. split; [vm_compute; reflexivity|].
  apply (websocket_user_not_forwarded parse true true "br" id "/ws" "" ∅ "http://b:80" "u1" None
    (mkURL "ws" "b:80" "/ws" "" "") ∅ c). by vm_compute.
Defined.
End GatewayExamples.

End Gateway.
