(* ===== verification/GoFormat.v ===== *)
(** * strconv.FormatFloat(v, 'f', -1, 64)

    The shortest decimal that a float64 is the nearest one to, and of those the
    closest to it, written without exponent.  Everything is computed on exact
    integers. *)
From stdpp Require Import base list.
From Stdlib Require Import ZArith Lia Floats.SpecFloat.
From S2P Require Import Prelude Go GoFloat Hashing GoText GoJSON.
Import JSON.
Local Open Scope Z_scope.

Module Format.

(** [a * 10^k] compared with [m * 2^e]. *)
Definition cmp_dec (a k m e : Z) : comparison :=
  let num := a * 10 ^ Z.max 0 k * 2 ^ Z.max 0 (- e) in
  let den := m * 2 ^ Z.max 0 e * 10 ^ Z.max 0 (- k) in
  num ?= den.

(** Is [a * 10^k] read as [m * 2^e]?  Halfway cases go to the even mantissa;
    below a power of two the floats are twice as dense. *)
Definition reads_back (m e a k : Z) : bool :=
  let even := Z.even m in
  let low := if (m =? 2 ^ 52) && (-1074 <? e) then cmp_dec a k (4 * m - 1) (e - 2) else cmp_dec a k (2 * m - 1) (e - 1) in
  let high := cmp_dec a k (2 * m + 1) (e - 1) in
  match low with Gt => true | Eq => even | Lt => false end &&
  match high with Lt => true | Eq => even | Gt => false end.

(** The decimal exponent of the first digit of [n / d]. *)
Fixpoint first_below (fuel : nat) (n d j : Z) : Z :=
  match fuel with
  | O => j
  | S fuel => if d <=? n * 10 then j - 1 else first_below fuel (n * 10) d (j - 1)
  end.

Definition exponent10 (n d : Z) : Z :=
  if d <=? n then Z.of_nat (length (dec_nat (n / d))) - 1 else first_below 400 n d 0.

(** The decimals of [nd] digits next to [n / d], below and above. *)
Definition below (n d k : Z) : Z := n * 10 ^ Z.max 0 (- k) / (d * 10 ^ Z.max 0 k).

Fixpoint shortest (fuel : nat) (nd m e n d : Z) : Z * Z :=
  let k := exponent10 n d - nd + 1 in
  let a := below n d k in
  match fuel with
  | O => (a, k)
  | S fuel =>
      match reads_back m e a k, reads_back m e (a + 1) k with
      | true, true => (if match cmp_dec (2 * a + 1) k (2 * m) e with Lt => true | _ => false end then (a + 1, k) else (a, k))
      | true, false => (a, k)
      | false, true => (a + 1, k)
      | false, false => shortest fuel (nd + 1) m e n d
      end
  end.

Definition zeros (n : Z) : list Z := replicate (Z.to_nat n) 48.

(** [a * 10^k] without exponent. *)
Definition plain (a k : Z) : list Z :=
  if 0 <=? k then dec_nat a ++ (if a =? 0 then [] else zeros k)
  else
    let ds := dec_nat a in
    let ds := zeros (1 - k - Z.of_nat (length ds)) ++ ds in
    let n := Z.to_nat (Z.of_nat (length ds) + k) in
    take n ds ++ 46 :: drop n ds.

Definition ftoa (x : float64) : list Z :=
  match x with
  | S754_nan => bytes_of "NaN"
  | S754_infinity s => bytes_of (if s then "-Inf" else "+Inf")
  | S754_zero s => bytes_of (if s then "-0" else "0")
  | S754_finite s m e =>
      let '(a, k) := shortest 17 1 (Z.pos m) e (Z.pos m * 2 ^ Z.max 0 e) (2 ^ Z.max 0 (- e)) in
      (if s then [45] else []) ++ plain a k
  end.

(** Neither a newline, nor a blank, nor a brace. *)
Definition clean (c : Z) : Prop := c ≠ 10 ∧ c ≠ 32 ∧ c ≠ 123.

Lemma digits_clean ds : all_digits ds → Forall clean ds.
Proof.
  intros H. eapply Forall_impl; [exact H|]. unfold is_digit, clean. intros c [H1 H2]%andb_prop. rewrite Z.leb_le in *. lia.
Qed.

Lemma dec_nat_clean z : 0 ≤ z → Forall clean (dec_nat z).
Proof. intros Hz. destruct (dec_nat_spec z Hz) as (d & ds & -> & ? & _). by apply digits_clean. Qed.

Lemma dec_clean z : Forall clean (dec z).
Proof.
  unfold dec. destruct (Z.ltb_spec z 0); [|by apply dec_nat_clean]. constructor; [by repeat split|]. apply dec_nat_clean. lia.
Qed.

Lemma zeros_clean n : Forall clean (zeros n).
Proof. apply Forall_replicate. by repeat split. Qed.

Lemma shortest_nonneg fuel nd m e n d : 0 ≤ n → 0 < d → 0 ≤ (shortest fuel nd m e n d).1.
Proof.
  intros Hn Hd. assert (Hb : ∀ k, 0 ≤ below n d k).
  { intros k. assert (0 < 10 ^ Z.max 0 k) by (apply Z.pow_pos_nonneg; lia).
    assert (0 ≤ 10 ^ Z.max 0 (- k)) by (apply Z.pow_nonneg; lia). unfold below. apply Z.div_pos; nia. }
  revert nd. induction fuel as [|fuel IH]; intros nd; [apply Hb|]. cbn [shortest].
  specialize (Hb (exponent10 n d - nd + 1)). repeat case_match; simpl; (lia || apply IH).
Qed.

Lemma ftoa_clean x : Forall clean (ftoa x).
Proof.
  destruct x as [[]|[]| |s m e]; [repeat constructor; done..|].
  unfold ftoa. pose proof (shortest_nonneg 17 1 (Z.pos m) e (Z.pos m * 2 ^ Z.max 0 e) (2 ^ Z.max 0 (- e))) as Ha.
  destruct (shortest _ _ _ _ _ _) as [a k]. simpl in Ha.
  assert (H0 : 0 ≤ a) by (apply Ha; [apply Z.mul_nonneg_nonneg; [lia|apply Z.pow_nonneg; lia]|apply Z.pow_pos_nonneg; lia]).
  apply Forall_app. split; [destruct s; repeat constructor; done|]. unfold plain. destruct (0 <=? k).
  - apply Forall_app. split; [by apply dec_nat_clean|]. destruct (a =? 0); [constructor|apply zeros_clean].
  - assert (Hall : Forall clean (zeros (1 - k - Z.of_nat (length (dec_nat a))) ++ dec_nat a)).
    { apply Forall_app. split; [apply zeros_clean|by apply dec_nat_clean]. }
    apply Forall_app. split; [by apply Forall_take|]. constructor; [by repeat split|by apply Forall_drop].
Qed.

(** The bounds of the histogram and some values with long decimals. *)
Example ftoa_examples :
  (λ p, of_bytes (ftoa (fdiv (of_int p.1) (of_int p.2)))) <$>
    [(1, 1000); (1, 40); (5, 2); (10, 1); (1, 3); (1, 1000000000); (2 ^ 70, 1)] =
    ["0.001"; "0.025"; "2.5"; "10"; "0.3333333333333333"; "0.000000001"; "1180591620717411300000"] ∧
  of_bytes (ftoa (fadd (fdiv (of_int 1) (of_int 10)) (fdiv (of_int 2) (of_int 10)))) = "0.30000000000000004"%string.
Proof. by vm_compute. Qed.

End Format.
