(* ===== verification/Metrics.v ===== *)
(** * metrics.go: counters, gauges, the latency histogram and their text

    The counters and gauges are machine words changed by atomic additions; the
    histogram is kept without locks, its sum by compare and swap.  The first
    part models them, the histogram also with the atomic operations of any
    number of goroutines interleaved.  The second part is the handler that
    writes all of them in the Prometheus text format, and a scraper that reads
    the text back. *)
From stdpp Require Import base gmap list strings sorting.
From Stdlib Require Import ZArith Lia Floats.SpecFloat.
From S2P Require Import Prelude Go GoFloat Hashing GoText GoJSON GoFormat.
Import JSON Format.
Local Open Scope Z_scope.

Module Metrics.

(** ** Counters and gauges *)

Inductive counter :=
  | totalRequests | backendErrors | redisFailures | redisCBFallbacks | cacheHitsLocal | cacheHitsStore | cacheMisses
  | authFailures | wsConnections | rateLimited | hookAssigns | hookUnassigns | hookFailures
  | drainsTotal | drainUsersTotal | rebalanceTotal | rebalanceMovesTotal | holdRequests | holdTimeouts | poisonPillDetections | poisonPillBlocked.

Inductive gauge := activeConnections | healthyBackends | drainingBackends | quarantinedAccounts.

#[export] Instance counter_eq_dec : EqDecision counter.
Proof. solve_decision. Defined.

#[export] Instance gauge_eq_dec : EqDecision gauge.
Proof. solve_decision. Defined.

(** The histogram: a counter for each bound, without the smaller ones. *)
Record histogram := mkHist { buckets : list Z; hcount : Z; hsum : float64 }.

Record metrics := mkMetrics {
  count_of : counter → Z;
  gauge_of : gauge → Z;
  backendRequests : gmap string Z;
  requestDuration : histogram
}.

(** atomic.AddUint64, atomic.AddInt64 *)
Definition add64 (x n : Z) : Z := (x + n) mod two64.
Definition addi64 (x n : Z) : Z := (x + n + two63) mod two64 - two63.

Definition upd {A} `{!EqDecision A} (a : A) (v : Z) (f : A → Z) : A → Z := λ a', if decide (a = a') then v else f a'.

(** The functions Inc..., Add..., Dec... and Set...: on counter [c] or gauge
    [g]. *)
Definition Add (c : counter) (n : Z) (m : metrics) : metrics :=
  mkMetrics (upd c (add64 (count_of m c) n) (count_of m)) (gauge_of m) (backendRequests m) (requestDuration m).
Definition Inc (c : counter) (m : metrics) : metrics := Add c 1 m.

Definition AddGauge (g : gauge) (n : Z) (m : metrics) : metrics :=
  mkMetrics (count_of m) (upd g (addi64 (gauge_of m g) n) (gauge_of m)) (backendRequests m) (requestDuration m).
Definition IncGauge (g : gauge) (m : metrics) : metrics := AddGauge g 1 m.
Definition DecGauge (g : gauge) (m : metrics) : metrics := AddGauge g (-1) m.
Definition SetHealthyBackends (n : Z) (m : metrics) : metrics :=
  mkMetrics (count_of m) (upd healthyBackends n (gauge_of m)) (backendRequests m) (requestDuration m).

(** LoadOrStore, then the addition. *)
Definition IncBackendRequests (b : string) (m : metrics) : metrics :=
  mkMetrics (count_of m) (gauge_of m) (<[b := add64 (default 0 (backendRequests m !! b)) 1]> (backendRequests m))
    (requestDuration m).

(** ** The histogram *)

(** 0.001, 0.005, 0.01, 0.025, 0.05, 0.1, 0.25, 0.5, 1, 2.5, 5, 10 *)
Definition histogramBuckets : list float64 :=
  (λ n, fdiv (of_int n) (of_int 1000)) <$> [1; 5; 10; 25; 50; 100; 250; 500; 1000; 2500; 5000; 10000].

Definition fle (x y : float64) : bool := match SFcompare x y with Some Lt | Some Eq => true | _ => false end.

(** The first bound that is not smaller. *)
Fixpoint tightest (i : nat) (bounds : list float64) (x : float64) : option nat :=
  match bounds with
  | [] => None
  | b :: bounds => if fle x b then Some i else tightest (S i) bounds x
  end.

Definition bucket_of (x : float64) : option nat := tightest 0 histogramBuckets x.

Definition new_hist : histogram := mkHist (replicate 12 0) 0 (S754_zero false).

(** The atomic operations of RecordRequestDuration, one after the other. *)
Definition add_bucket (x : float64) (h : histogram) : histogram :=
  match bucket_of x with
  | Some i => mkHist (alter (λ n, add64 n 1) i (buckets h)) (hcount h) (hsum h)
  | None => h
  end.
Definition add_count (h : histogram) : histogram := mkHist (buckets h) (add64 (hcount h) 1) (hsum h).
Definition add_sum (x : float64) (h : histogram) : histogram := mkHist (buckets h) (hcount h) (fadd (hsum h) x).

Definition RecordRequestDuration (x : float64) (h : histogram) : histogram := add_sum x (add_count (add_bucket x h)).

(** What the handler writes for the bounds: the running sum of the buckets. *)
Fixpoint cumulative (acc : Z) (bs : list Z) : list Z :=
  match bs with
  | [] => []
  | b :: bs => add64 acc b :: cumulative (add64 acc b) bs
  end.

(** *** What it counts *)

(** The order of floats: sign, then exponent, then mantissa. *)
Lemma fle_trans x y z : fle x y = true → fle y z = true → fle x z = true.
Proof.
  unfold fle. destruct x as [?|[]| |[] m1 e1], y as [?|[]| |[] m2 e2], z as [?|[]| |[] m3 e3]; simpl; try done.
  all: change (Pos.compare_cont Eq) with Pos.compare.
  all: repeat match goal with
    | |- context [Z.compare ?a ?b] => destruct (Z.compare_spec a b)
    | |- context [Pos.compare ?a ?b] => destruct (Pos.compare_spec a b)
    end; simpl; try done; lia.
Qed.

Definition ascending (bs : list float64) : Prop := ∀ i j bi bj, (i ≤ j)%nat → bs !! i = Some bi → bs !! j = Some bj → fle bi bj = true.

Lemma histogramBuckets_ascending : ascending histogramBuckets.
Proof.
  assert (Hs : Sorted (λ x y, fle x y = true) histogramBuckets) by (vm_compute; repeat constructor).
  apply Sorted_StronglySorted in Hs; [|intros x y z; apply fle_trans].
  intros i j bi bj Hij Hi Hj. destruct (decide (i = j)) as [->|Hne].
  - assert (Hall : Forall (λ b, fle b b = true) histogramBuckets) by (vm_compute; repeat constructor).
    eapply Forall_lookup_1 in Hall; [|exact Hi]. by simplify_eq.
  - revert i j Hij Hne Hi Hj. induction Hs as [|b bs Hs IH Hb]; intros [|i] [|j] Hij Hne Hi Hj; try done; try lia.
    + simplify_eq/=. rewrite Forall_forall in Hb. apply Hb. by eapply list_elem_of_lookup_2.
    + simpl in *. apply (IH i j); (done || lia).
Qed.

Lemma tightest_ge k bs x j : tightest k bs x = Some j → (k ≤ j)%nat.
Proof.
  revert k. induction bs as [|c bs IH]; intros k; simpl; [done|].
  destruct (fle x c); [intros [= ->]; lia|]. intros H%IH. lia.
Qed.

(** A value is in one of the first buckets exactly when it is within the bound
    of the last of them. *)
Lemma tightest_spec k bs x i b :
  ascending bs → bs !! i = Some b →
  (∃ j, tightest k bs x = Some (k + j)%nat ∧ (j ≤ i)%nat) ↔ fle x b = true.
Proof.
  revert k i. induction bs as [|c bs IH]; intros k i Has Hi; [done|]. simpl.
  assert (Htail : ascending bs) by (intros i' j' bi bj Hij H1 H2; apply (Has (S i') (S j') bi bj); [lia|done|done]).
  destruct (fle x c) eqn:Hc.
  - split; [|intros _; exists 0%nat; split; [f_equal|]; lia]. intros _. apply (fle_trans x c b Hc). apply (Has 0%nat i); [lia|done|done].
  - destruct i as [|i]; simplify_eq/=.
    + rewrite Hc. split; [|done]. intros (j & Hj & Hle). assert (j = 0)%nat as -> by lia.
      apply tightest_ge in Hj. lia.
    + rewrite <- (IH (S k) i Htail Hi). split; intros (j & Hj & Hle).
      * destruct j as [|j]; [|exists j; split; [by replace (S k + j)%nat with (k + S j)%nat by lia|lia]].
        apply tightest_ge in Hj. lia.
      * exists (S j). split; [by replace (k + S j)%nat with (S k + j)%nat by lia|lia].
Qed.

(** The observations of [xs] in bucket [i], and those within a bound. *)
Definition in_bucket (i : nat) (xs : list float64) : Z := zsum (λ x, if decide (bucket_of x = Some i) then 1 else 0) xs.
Definition within (b : float64) (xs : list float64) : Z := zsum (λ x, if fle x b then 1 else 0) xs.

Definition records (xs : list float64) (h : histogram) : histogram := foldl (λ h x, RecordRequestDuration x h) h xs.

Definition ranged (h : histogram) : Prop := Forall (λ n, 0 ≤ n < two64) (buckets h).

Lemma two64_pos : 0 < two64.
Proof. done. Qed.

Lemma record_buckets x h i :
  ranged h →
  buckets (RecordRequestDuration x h) !! i =
    (λ n, (n + if decide (bucket_of x = Some i) then 1 else 0) mod two64) <$> buckets h !! i ∧
  ranged (RecordRequestDuration x h).
Proof.
  unfold RecordRequestDuration, add_sum, add_count, add_bucket, ranged. intros Hr.
  assert (Hid : ∀ i, (λ n, (n + 0) mod two64) <$> buckets h !! i = buckets h !! i).
  { intros j. destruct (buckets h !! j) as [n|] eqn:Hn; [|done]. simpl. f_equal.
    eapply Forall_lookup_1 in Hr; [|done]. rewrite Z.add_0_r. by apply Z.mod_small. }
  destruct (bucket_of x) as [j|]; simpl; [|by rewrite Hid].
  split.
  - destruct (decide (j = i)) as [->|Hne].
    + rewrite list_lookup_alter_eq, decide_True by done. done.
    + rewrite list_lookup_alter_ne, decide_False by congruence. by rewrite Hid.
  - apply Forall_alter; [done|]. intros n _ _. apply Z.mod_pos_bound, two64_pos.
Qed.

Lemma records_spec xs h i :
  ranged h →
  buckets (records xs h) !! i = (λ n, (n + in_bucket i xs) mod two64) <$> buckets h !! i ∧ ranged (records xs h).
Proof.
  unfold records, in_bucket. revert h. induction xs as [|x xs IH]; intros h Hr; simpl.
  - split; [|done]. destruct (buckets h !! i) as [n|] eqn:Hn; [|done]. simpl. f_equal.
    eapply Forall_lookup_1 in Hr; [|done]. rewrite Z.add_0_r. symmetry. by apply Z.mod_small.
  - destruct (record_buckets x h i Hr) as [Hx Hrx]. destruct (IH _ Hrx) as [-> Hr']. split; [|done].
    rewrite Hx, zsum_cons. destruct (buckets h !! i) as [n|]; [|done]. simpl. f_equal.
    rewrite Z.add_mod_idemp_l by done. f_equal. lia.
Qed.

Lemma records_totals xs h :
  hcount h = 0 → Z.of_nat (length xs) < two64 →
  hcount (records xs h) = Z.of_nat (length xs) ∧ hsum (records xs h) = foldl fadd (hsum h) xs.
Proof.
  intros H0 Hlen. assert (Hgen : ∀ xs h, 0 ≤ hcount h → hcount h + Z.of_nat (length xs) < two64 →
    hcount (records xs h) = hcount h + Z.of_nat (length xs) ∧ hsum (records xs h) = foldl fadd (hsum h) xs).
  { clear. induction xs as [|x xs IH]; intros h Hh Hl; simpl; [split; [lia|done]|].
    assert (Hc : hcount (RecordRequestDuration x h) = hcount h + 1 ∧ hsum (RecordRequestDuration x h) = fadd (hsum h) x).
    { unfold RecordRequestDuration, add_sum, add_count, add_bucket. destruct (bucket_of x); simpl;
        (split; [|done]); apply Z.mod_small; cbn [length] in Hl; lia. }
    destruct Hc as [Hc Hs]. destruct (IH (RecordRequestDuration x h)) as [I1 I2]; [lia|cbn [length] in Hl; lia|].
    unfold records in *. rewrite I1, I2, Hc, Hs. split; [lia|done]. }
  destruct (Hgen xs h) as [I1 I2]; [lia|lia|]. split; [lia|done].
Qed.

Lemma cumulative_lookup acc bs i :
  (i < length bs)%nat → cumulative acc bs !! i = Some ((acc + zsum id (take (S i) bs)) mod two64).
Proof.
  revert acc i. induction bs as [|b bs IH]; intros acc i Hi; simpl in Hi; [lia|]. simpl. rewrite zsum_cons.
  destruct i as [|i]; simpl.
  - unfold add64. f_equal. f_equal. rewrite take_0, zsum_nil. unfold id. lia.
  - rewrite IH by lia. unfold add64. rewrite Z.add_mod_idemp_l by done. f_equal. f_equal. unfold id. lia.
Qed.

(** Counting the buckets up to [i], by observation. *)
Lemma sum_buckets xs i b :
  histogramBuckets !! i = Some b → zsum (λ j, in_bucket j xs) (seq 0 (S i)) = within b xs.
Proof.
  intros Hb. unfold in_bucket, within. induction xs as [|x xs IH].
  - generalize (seq 0 (S i)). intros l. induction l as [|j l IHl]; [done|]. by rewrite zsum_cons, IHl.
  - assert (Hone : zsum (λ j, if decide (bucket_of x = Some j) then 1 else 0) (seq 0 (S i)) = if fle x b then 1 else 0).
    { assert (Hcount : ∀ n, zsum (λ j, if decide (bucket_of x = Some j) then 1 else 0) (seq 0 n) =
        match bucket_of x with Some j => if decide (j < n)%nat then 1 else 0 | None => 0 end).
      { intros n. induction n as [|n IHn]; [destruct (bucket_of x); [rewrite decide_False by lia|]; done|].
        rewrite seq_S, zsum_app, IHn, zsum_singleton. simpl. destruct (bucket_of x) as [j|]; [|done].
        destruct (decide (j = n)) as [->|]; repeat case_decide; simplify_eq; (lia || congruence). }
      rewrite Hcount. pose proof (tightest_spec 0 histogramBuckets x i b histogramBuckets_ascending Hb) as Ht.
      fold (bucket_of x) in Ht. destruct (fle x b).
      - destruct (proj2 Ht eq_refl) as (j & -> & Hj). rewrite decide_True by lia. done.
      - destruct (bucket_of x) as [j|]; [|done]. case_decide; [|done]. assert (Hf : false = true); [|done].
        apply Ht. exists j. split; [done|lia]. }
    rewrite zsum_cons, <- IH, <- Hone. generalize (seq 0 (S i)). intros l. clear.
    induction l as [|j l IHl]; [done|]. rewrite !zsum_cons, IHl. lia.
Qed.

Lemma within_bound b xs : 0 ≤ within b xs ≤ Z.of_nat (length xs).
Proof. unfold within. induction xs as [|x xs IH]; simpl; [done|]. rewrite zsum_cons. destruct (fle x b); lia. Qed.

(** The histogram counts what it says: after any observations, the line of
    a bound has the number of observations that are not larger, the count is
    their number and the sum their sum in the order they were added; so the
    lines increase and do not pass the count. *)
Theorem histogram_counts xs :
  Z.of_nat (length xs) < two64 →
  (∀ i b, histogramBuckets !! i = Some b → cumulative 0 (buckets (records xs new_hist)) !! i = Some (within b xs)) ∧
  hcount (records xs new_hist) = Z.of_nat (length xs) ∧
  hsum (records xs new_hist) = foldl fadd (S754_zero false) xs.
Proof.
  intros Hlen. split; [|by apply records_totals].
  assert (Hr : ranged new_hist) by (apply Forall_replicate; split; done).
  assert (Hbs : buckets (records xs new_hist) = (λ j, in_bucket j xs mod two64) <$> seq 0 12).
  { apply list_eq. intros i. destruct (records_spec xs new_hist i Hr) as [-> _].
    change (buckets new_hist) with (replicate 12 0). rewrite list_lookup_fmap. destruct (decide (i < 12)%nat) as [Hi|Hi].
    - rewrite lookup_replicate_2, lookup_seq_lt by done. done.
    - rewrite (proj1 (lookup_replicate_None 12 0 i)), lookup_seq_ge by lia. done. }
  intros i b Hb. assert (Hi : (i < 12)%nat) by (by apply lookup_lt_Some in Hb).
  rewrite Hbs, cumulative_lookup by (by rewrite length_fmap, length_seq). f_equal.
  assert (Hsum : zsum id (take (S i) ((λ j, in_bucket j xs mod two64) <$> seq 0 12)) = within b xs).
  { rewrite <- fmap_take, take_seq, Nat.min_l by lia. rewrite <- (sum_buckets xs i b Hb).
    generalize (seq 0 (S i)). intros l. induction l as [|j l IHl]; [done|]. rewrite fmap_cons, !zsum_cons, IHl. unfold id. f_equal.
    apply Z.mod_small. unfold in_bucket. clear -Hlen. split; [apply zsum_nonneg; intros; case_decide; lia|].
    eapply Z.le_lt_trans; [|exact Hlen]. rewrite <- (Z.mul_1_l (Z.of_nat _)), <- zsum_const. apply zsum_le. intros. case_decide; lia. }
  rewrite Hsum, Z.add_0_l. apply Z.mod_small. pose proof (within_bound b xs). lia.
Qed.

Definition three : list float64 := of_int <$> [0; 1; 20].

Lemma histogram_counts_witness :
  cumulative 0 (buckets (records three new_hist)) = [1; 1; 1; 1; 1; 1; 1; 1; 2; 2; 2; 2] ∧
  cumulative 0 (buckets (records three new_hist)) !! 11%nat = Some (within (of_int 10) three) ∧
  hcount (records three new_hist) = 3.
Proof.
  destruct (histogram_counts three) as (H1 & H2 & _); [done|]. split; [by vm_compute|]. split; [|done].
  apply (H1 11%nat). by vm_compute.
Defined.

(** *** Concurrently *)

#[export] Instance float64_eq_dec : EqDecision float64.
Proof. unfold float64. solve_decision. Defined.

(** A goroutine in RecordRequestDuration: before each of its atomic operations. *)
Inductive recorder := AtBucket (x : float64) | AtCount (x : float64) | AtLoad (x : float64) | AtSwap (x old : float64).

Definition observed (r : recorder) : float64 := match r with AtBucket x | AtCount x | AtLoad x | AtSwap x _ => x end.

(** [added] are the observations whose compare and swap has succeeded, in that
    order, [begun] all; [seen] is what a handler has read of the buckets. *)
Record hsys := mkHsys { hg : histogram; recs : gmap nat recorder; begun : list float64; added : list float64; seen : list Z }.

Definition set_rec (i : nat) (r : recorder) (h : histogram) (s : hsys) : hsys :=
  mkHsys h (<[i := r]> (recs s)) (begun s) (added s) (seen s).

Inductive hact := Begin (i : nat) (x : float64) | Step (i : nat) | ReadBucket.

Definition hexec1 (a : hact) (s : hsys) : option hsys :=
  match a with
  | Begin i x =>
      match recs s !! i with
      | Some _ => None
      | None => Some (mkHsys (hg s) (<[i := AtBucket x]> (recs s)) (begun s ++ [x]) (added s) (seen s))
      end
  | Step i =>
      match recs s !! i with
      | Some (AtBucket x) => Some (set_rec i (AtCount x) (add_bucket x (hg s)) s)
      | Some (AtCount x) => Some (set_rec i (AtLoad x) (add_count (hg s)) s)
      | Some (AtLoad x) => Some (set_rec i (AtSwap x (hsum (hg s))) (hg s) s)
      | Some (AtSwap x old) =>
          if decide (hsum (hg s) = old) then
            Some (mkHsys (mkHist (buckets (hg s)) (hcount (hg s)) (fadd old x)) (delete i (recs s)) (begun s)
                    (added s ++ [x]) (seen s))
          else Some (set_rec i (AtLoad x) (hg s) s)
      | None => None
      end
  | ReadBucket => n ← buckets (hg s) !! length (seen s); Some (mkHsys (hg s) (recs s) (begun s) (added s) (seen s ++ [n]))
  end.

Fixpoint hexec (l : list hact) (s : hsys) : option hsys :=
  match l with
  | [] => Some s
  | a :: l => s' ← hexec1 a s; hexec l s'
  end.

Definition hstart : hsys := mkHsys new_hist ∅ [] [] [].

(** The observations under way. *)
Definition under_way (m : gmap nat recorder) : list float64 := (λ p, observed p.2) <$> map_to_list m.

Record hinv (s : hsys) : Prop := {
  hi_sum : hsum (hg s) = foldl fadd (S754_zero false) (added s);
  hi_all : begun s ≡ₚ added s ++ under_way (recs s)
}.

Lemma under_way_insert i r m : m !! i = None → under_way (<[i := r]> m) ≡ₚ observed r :: under_way m.
Proof. intros Hi. unfold under_way. by rewrite map_to_list_insert. Qed.

Lemma under_way_delete i r m : m !! i = Some r → under_way m ≡ₚ observed r :: under_way (delete i m).
Proof.
  intros Hi. rewrite <- (insert_delete_id m i r Hi) at 1. apply under_way_insert. by rewrite lookup_delete_eq.
Qed.

Lemma under_way_move i r r' m : m !! i = Some r → observed r' = observed r → under_way (<[i := r']> m) ≡ₚ under_way m.
Proof.
  intros Hi Ho. rewrite (under_way_delete i r m Hi), <- insert_delete_eq, under_way_insert by (by rewrite lookup_delete_eq).
  by rewrite Ho.
Qed.

Lemma hexec1_inv a s s' : hexec1 a s = Some s' → hinv s → hinv s'.
Proof.
  intros H [H1 H2]. destruct a as [i x|i|]; simpl in H.
  - destruct (recs s !! i) eqn:Hi; [done|]. simplify_eq. split; simpl; [done|].
    rewrite under_way_insert by done. rewrite H2. simpl. solve_Permutation.
  - destruct (recs s !! i) as [[x|x|x|x old]|] eqn:Hi; [..|done].
    + simplify_eq. split; simpl; [unfold add_bucket; by destruct (bucket_of x)|]. by rewrite (under_way_move i _ _ _ Hi).
    + simplify_eq. split; simpl; [done|]. by rewrite (under_way_move i _ _ _ Hi).
    + simplify_eq. split; simpl; [done|]. by rewrite (under_way_move i _ _ _ Hi).
    + case_decide as Hs; simplify_eq; split; simpl; [..|done|by rewrite (under_way_move i _ _ _ Hi)].
      * by rewrite foldl_app, <- H1.
      * rewrite H2, (under_way_delete i _ _ Hi). simpl. solve_Permutation.
  - apply bind_Some in H as (n & _ & H). by simplify_eq.
Qed.

Lemma hexec_inv l s s' : hexec l s = Some s' → hinv s → hinv s'.
Proof.
  revert s. induction l as [|a l IH]; intros s H Hs; [by simplify_eq/=|].
  apply bind_Some in H as (s1 & H1 & H). eapply IH; [done|]. by eapply hexec1_inv.
Qed.

(** The lock-free sum loses no addition: in every interleaving it is the
    sum of the observations whose swap has succeeded, in the order of the
    swaps, and when no goroutine is under way these are all of them. *)
Theorem lock_free_sum l s :
  hexec l hstart = Some s →
  hsum (hg s) = foldl fadd (S754_zero false) (added s) ∧ (recs s = ∅ → begun s ≡ₚ added s).
Proof.
  intros He. apply hexec_inv in He as [H1 H2]; [|by split]. split; [done|]. intros Hn. rewrite H2, Hn. by rewrite app_nil_r.
Qed.

Definition contended : list hact :=
  [Begin 1 (of_int 2); Begin 2 (of_int 3); Step 1; Step 2; Step 1; Step 2; Step 1; Step 2; Step 2; Step 1; Step 1; Step 1].

Lemma lock_free_sum_witness :
  ∃ s, hexec contended hstart = Some s ∧ recs s = ∅ ∧ hsum (hg s) = of_int 5 ∧
    hsum (hg s) = foldl fadd (S754_zero false) (added s).
Proof.
  destruct (hexec contended hstart) as [s|] eqn:Hs; [|by vm_compute in Hs]. exists s. split; [done|].
  split; [by vm_compute in Hs; simplify_eq|]. split; [by vm_compute in Hs; simplify_eq|].
  apply (lock_free_sum contended s Hs).
Defined.

(** A scrape can contradict itself: an observation is in its bucket before
    it is in the count, and the handler reads the buckets before the count, so
    it may write more observations within ten seconds than observations. *)
Theorem scrape_overtakes_count :
  ∃ s, hexec ([Begin 1 (of_int 1); Step 1] ++ replicate 12 ReadBucket) hstart = Some s ∧
    cumulative 0 (seen s) !! 11%nat = Some 1 ∧ hcount (hg s) = 0.
Proof. eexists. split; [vm_compute; reflexivity|by vm_compute]. Qed.

(** ** The text *)

Definition name_of (c : counter) : string :=
  match c with
  | totalRequests => "stickyproxy_requests_total"
  | backendErrors => "stickyproxy_backend_errors_total"
  | redisFailures => "stickyproxy_redis_failures_total"
  | redisCBFallbacks => "stickyproxy_redis_cb_fallbacks_total"
  | cacheHitsLocal => "stickyproxy_cache_hits_total"
  | cacheHitsStore => "stickyproxy_cache_hits_total"
  | cacheMisses => "stickyproxy_cache_misses_total"
  | authFailures => "stickyproxy_auth_failures_total"
  | wsConnections => "stickyproxy_websocket_connections_total"
  | rateLimited => "stickyproxy_rate_limited_total"
  | hookAssigns => "stickyproxy_hook_assigns_total"
  | hookUnassigns => "stickyproxy_hook_unassigns_total"
  | hookFailures => "stickyproxy_hook_failures_total"
  | drainsTotal => "stickyproxy_drains_total"
  | drainUsersTotal => "stickyproxy_drain_users_total"
  | rebalanceTotal => "stickyproxy_rebalances_total"
  | rebalanceMovesTotal => "stickyproxy_rebalance_moves_total"
  | holdRequests => "stickyproxy_hold_requests_total"
  | holdTimeouts => "stickyproxy_hold_timeouts_total"
  | poisonPillDetections => "stickyproxy_poison_pill_detections_total"
  | poisonPillBlocked => "stickyproxy_poison_pill_blocked_total"
  end.

Definition help_of (c : counter) : string :=
  match c with
  | totalRequests => "Total number of requests received"
  | backendErrors => "Total number of backend errors"
  | redisFailures => "Total number of Redis failures"
  | redisCBFallbacks => "Total hash-fallback requests due to Redis circuit breaker"
  | cacheHitsLocal => "Total cache hits by layer"
  | cacheHitsStore => "Total cache hits by layer"
  | cacheMisses => "Total cache misses (new user, no mapping in local or Redis)"
  | authFailures => "Total JWT authentication failures"
  | wsConnections => "Total WebSocket connections opened"
  | rateLimited => "Total requests rejected by rate limiter"
  | hookAssigns => "Total assign hooks sent"
  | hookUnassigns => "Total unassign hooks sent"
  | hookFailures => "Total hook delivery failures"
  | drainsTotal => "Total drain operations started"
  | drainUsersTotal => "Total users drained from backends"
  | rebalanceTotal => "Total rebalance operations"
  | rebalanceMovesTotal => "Total user moves during rebalancing"
  | holdRequests => "Total requests held during assignment transitions"
  | holdTimeouts => "Total held requests that exceeded the hold timeout"
  | poisonPillDetections => "Total accounts quarantined by poison pill detection"
  | poisonPillBlocked => "Total requests blocked due to account quarantine"
  end.

Definition gauge_name (g : gauge) : string :=
  match g with
  | activeConnections => "stickyproxy_active_connections"
  | healthyBackends => "stickyproxy_healthy_backends"
  | drainingBackends => "stickyproxy_draining_backends"
  | quarantinedAccounts => "stickyproxy_quarantined_accounts"
  end.

Definition gauge_help (g : gauge) : string :=
  match g with
  | activeConnections => "Number of currently active connections"
  | healthyBackends => "Number of healthy backends"
  | drainingBackends => "Number of backends currently being drained"
  | quarantinedAccounts => "Number of accounts currently quarantined by poison pill detection"
  end.

(** Lines, without their newlines. *)
Definition help_line (name help : string) : list Z := bytes_of ("# HELP " +:+ name +:+ " " +:+ help).
Definition type_line (name type : string) : list Z := bytes_of ("# TYPE " +:+ name +:+ " " +:+ type).

(** A sample: the name, the label with its value if it has one, the blank. *)
Record sample := mkSample { s_name : string; s_label : option (string * list Z); s_blank : bool; s_value : list Z }.

Definition label_text (l : option (string * list Z)) : list Z :=
  match l with Some (k, v) => 123 :: bytes_of k ++ [61; 34] ++ v ++ [34; 125] | None => [] end.

Definition sample_line (s : sample) : list Z :=
  bytes_of (s_name s) ++ label_text (s_label s) ++ (if s_blank s then [32] else []) ++ s_value s.

Definition plain_sample (name : string) (v : list Z) : sample := mkSample name None true v.

Definition writeCounter (c : counter) (m : metrics) : list (list Z) :=
  [help_line (name_of c) (help_of c); type_line (name_of c) "counter"; sample_line (plain_sample (name_of c) (dec (count_of m c)))].

Definition writeGauge (g : gauge) (m : metrics) : list (list Z) :=
  [help_line (gauge_name g) (gauge_help g); type_line (gauge_name g) "gauge";
   sample_line (plain_sample (gauge_name g) (dec (gauge_of m g)))].

Definition counters_before : list counter := [totalRequests; backendErrors; redisFailures; redisCBFallbacks].
Definition counters_after : list counter :=
  [cacheMisses; authFailures; wsConnections; rateLimited; hookAssigns; hookUnassigns; hookFailures; drainsTotal;
   drainUsersTotal; rebalanceTotal; rebalanceMovesTotal; holdRequests; holdTimeouts; poisonPillDetections; poisonPillBlocked].
Definition gauges : list gauge := [activeConnections; healthyBackends; drainingBackends; quarantinedAccounts].

(** The store layer is written without the blank. *)
Definition cache_samples (m : metrics) : list sample :=
  [mkSample (name_of cacheHitsLocal) (Some ("layer", bytes_of "local")) true (dec (count_of m cacheHitsLocal));
   mkSample (name_of cacheHitsStore) (Some ("layer", bytes_of "store")) false (dec (count_of m cacheHitsStore))].

Definition backend_name : string := "stickyproxy_backend_requests_total".
Definition duration_name : string := "stickyproxy_request_duration_seconds".

Section handler.
Context `{!MapIter}.

Definition backend_samples (m : metrics) : list sample :=
  (λ p, mkSample backend_name (Some ("backend", bytes_of p.1)) true (dec p.2)) <$> range 130 (backendRequests m).

Definition duration_samples (h : histogram) : list sample :=
  ((λ p, mkSample (duration_name +:+ "_bucket") (Some ("le", ftoa p.1)) true (dec p.2)) <$>
     zip histogramBuckets (cumulative 0 (buckets h))) ++
  [mkSample (duration_name +:+ "_bucket") (Some ("le", bytes_of "+Inf")) true (dec (hcount h));
   plain_sample (duration_name +:+ "_sum") (ftoa (hsum h));
   plain_sample (duration_name +:+ "_count") (dec (hcount h))].

Definition all_lines (m : metrics) : list (list Z) :=
  (counters_before ≫= λ c, writeCounter c m) ++
  [help_line (name_of cacheHitsLocal) (help_of cacheHitsLocal); type_line (name_of cacheHitsLocal) "counter"] ++
  (sample_line <$> cache_samples m) ++
  (counters_after ≫= λ c, writeCounter c m) ++
  [help_line backend_name "Total requests per backend"; type_line backend_name "counter"] ++
  (sample_line <$> backend_samples m) ++
  (gauges ≫= λ g, writeGauge g m) ++
  [help_line duration_name "Request latency histogram"; type_line duration_name "histogram"] ++
  (sample_line <$> duration_samples (requestDuration m)).

Definition render (ls : list (list Z)) : list Z := ls ≫= λ l, l ++ [10].

(** The body MetricsHandler writes. *)
Definition MetricsHandler (m : metrics) : list Z := render (all_lines m).
End handler.
(** ** Reading it back *)

(** A scraper: lines, comments left out; of a sample the name up to the label
    or the blank, the label, its value up to the closing quote, and after any
    blanks the value. *)
Fixpoint lines (s : list Z) : list (list Z) :=
  match s with
  | [] => []
  | c :: s =>
      if c =? 10 then [] :: lines s
      else match lines s with [] => [[c]] | l :: ls => (c :: l) :: ls end
  end.

Fixpoint span (stop : Z → bool) (s : list Z) : list Z * list Z :=
  match s with
  | [] => ([], [])
  | c :: r => if stop c then ([], s) else let '(a, b) := span stop r in (c :: a, b)
  end.

Definition skip (s : list Z) : list Z := (span (λ c, negb (c =? 32)) s).2.

Definition reading : Type := list Z * option (list Z * list Z) * list Z.

Definition parse_line (l : list Z) : option reading :=
  let '(name, r) := span (λ c, (c =? 123) || (c =? 32)) l in
  match r with
  | 123 :: r =>
      let '(k, r) := span (λ c, c =? 61) r in
      match r with
      | 61 :: 34 :: r =>
          let '(v, r) := span (λ c, c =? 34) r in
          match r with
          | 34 :: 125 :: r => Some (name, Some (k, v), skip r)
          | _ => None
          end
      | _ => None
      end
  | _ => Some (name, None, skip r)
  end.

Definition is_comment (l : list Z) : bool := match l with c :: _ => c =? 35 | [] => true end.

Definition scrape (s : list Z) : list (option reading) := parse_line <$> filter (λ l, is_comment l = false) (lines s).

Lemma lines_app l s : Forall (λ c, c ≠ 10) l → lines (l ++ 10 :: s) = l :: lines s.
Proof.
  induction 1 as [|c l Hc Hl IH]; simpl; [done|]. rewrite IH. by destruct (Z.eqb_spec c 10).
Qed.

Lemma lines_render ls : Forall (Forall (λ c, c ≠ 10)) ls → lines (render ls) = ls.
Proof.
  unfold render. induction 1 as [|l ls Hl Hls IH]; [done|]. rewrite bind_cons, <- app_assoc. simpl. by rewrite lines_app, IH.
Qed.

Lemma span_app stop l c r : Forall (λ c, stop c = false) l → stop c = true → span stop (l ++ c :: r) = (l, c :: r).
Proof. intros H Hc. induction H as [|d l Hd Hl IH]; simpl; [by rewrite Hc|]. by rewrite Hd, IH. Qed.

Lemma skip_clean b v : Forall clean v → skip ((if b : bool then [32] else []) ++ v) = v.
Proof.
  intros Hv. assert (Hs : skip v = v).
  { unfold skip. destruct Hv as [|c v (_ & Hc & _) _]; [done|]. simpl. by destruct (Z.eqb_spec c 32). }
  destruct b; [|done]. unfold skip in *. simpl. by destruct (span _ v).
Qed.

(** What a sample says. *)
Definition reading_of (s : sample) : reading :=
  (bytes_of (s_name s), prod_map bytes_of id <$> s_label s, s_value s).

(** Label values that need no escape. *)
Definition quotable (c : Z) : bool := negb (c =? 10) && negb (c =? 34).
Definition plain_name (c : Z) : bool := negb (existsb (Z.eqb c) [10; 32; 35; 61; 123]).

Definition sample_ok (s : sample) : Prop :=
  forallb plain_name (bytes_of (s_name s)) = true ∧ bytes_of (s_name s) ≠ [] ∧
  match s_label s with Some (k, v) => forallb plain_name (bytes_of k) = true ∧ forallb quotable v = true | None => s_blank s = true end ∧
  Forall clean (s_value s).

Lemma forallb_impl {A} (f : A → bool) (P : A → Prop) l : forallb f l = true → (∀ x, f x = true → P x) → Forall P l.
Proof. rewrite forallb_forall, Forall_forall. intros H1 H2 x Hx. apply H2, H1. by apply list_elem_of_In. Qed.

Lemma plain_name_ne c d : plain_name c = true → d ∈ [10; 32; 35; 61; 123] → (c =? d) = false.
Proof.
  unfold plain_name. rewrite negb_true_iff, <- not_true_iff_false, existsb_exists. intros H Hd.
  destruct (Z.eqb_spec c d) as [->|]; [|done]. destruct H. exists d. split; [by apply list_elem_of_In|apply Z.eqb_refl].
Qed.

Lemma sample_line_no_newline s : sample_ok s → Forall (λ c, c ≠ 10) (sample_line s).
Proof.
  intros (Hn & _ & Hl & Hv).
  assert (Hp : ∀ k, forallb plain_name k = true → Forall (λ c, c ≠ 10) k).
  { intros k Hk. apply (forallb_impl _ _ _ Hk). intros c Hc. apply (plain_name_ne c 10) in Hc; [|set_solver]. by apply Z.eqb_neq. }
  unfold sample_line. rewrite !Forall_app. split; [by apply Hp|].
  split; [|split; [destruct (s_blank s); by repeat constructor|eapply Forall_impl; [exact Hv|intros ? []; done]]].
  destruct (s_label s) as [[k v]|]; [|constructor]. destruct Hl as [Hk Hq]. simpl. constructor; [done|].
  apply Forall_app. split; [by apply Hp|]. do 2 (constructor; [done|]). apply Forall_app. split; [|by repeat constructor].
  apply (forallb_impl _ _ _ Hq). unfold quotable. intros c. destruct (Z.eqb_spec c 10); done.
Qed.

Lemma parse_sample s : sample_ok s → parse_line (sample_line s) = Some (reading_of s) ∧ is_comment (sample_line s) = false.
Proof.
  intros (Hn & Hne & Hl & Hv). split.
  - unfold parse_line, sample_line, reading_of.
    assert (Hname : Forall (λ c, ((c =? 123) || (c =? 32)) = false) (bytes_of (s_name s))).
    { apply (forallb_impl _ _ _ Hn). intros c Hc. rewrite !(plain_name_ne c) by (done || set_solver). done. }
    destruct (s_label s) as [[k v]|]; simpl in *.
    + destruct Hl as [Hk Hq]. rewrite span_app by done. rewrite <- app_assoc. simpl.
      rewrite span_app; [|apply (forallb_impl _ _ _ Hk); intros c Hc; apply plain_name_ne; [done|set_solver]|done].
      rewrite <- app_assoc. simpl.
      rewrite span_app; [|apply (forallb_impl _ _ _ Hq); unfold quotable; intros c; by destruct (c =? 34), (c =? 10)|done].
      by rewrite skip_clean.
    + rewrite Hl. simpl. rewrite span_app by done. pose proof (skip_clean true _ Hv) as Hs. simpl in Hs. by rewrite Hs.
  - unfold sample_line. destruct (bytes_of (s_name s)) as [|c n]; [done|]. simpl in Hn |- *. apply andb_prop in Hn as [Hc _].
    apply plain_name_ne; [done|set_solver].
Qed.

Section round_trip.
Context `{!MapIter}.

(** The samples of a state, in the order of the handler. *)
Definition samples (m : metrics) : list sample :=
  ((λ c, plain_sample (name_of c) (dec (count_of m c))) <$> counters_before) ++
  cache_samples m ++
  ((λ c, plain_sample (name_of c) (dec (count_of m c))) <$> counters_after) ++
  backend_samples m ++
  ((λ g, plain_sample (gauge_name g) (dec (gauge_of m g))) <$> gauges) ++
  duration_samples (requestDuration m).

(** The text of samples among comments. *)
Inductive page : list (list Z) → list sample → Prop :=
  | page_nil : page [] []
  | page_comment l ls ss : is_comment l = true → Forall (λ c, c ≠ 10) l → page ls ss → page (l :: ls) ss
  | page_sample s ls ss : sample_ok s → page ls ss → page (sample_line s :: ls) (s :: ss).

Lemma page_app l1 s1 l2 s2 : page l1 s1 → page l2 s2 → page (l1 ++ l2) (s1 ++ s2).
Proof. induction 1; simpl; intros; [done|apply page_comment; auto|apply page_sample; auto]. Qed.

Lemma page_samples ss : Forall sample_ok ss → page (sample_line <$> ss) ss.
Proof. induction 1; simpl; [apply page_nil|by apply page_sample]. Qed.

Lemma page_bind {A} (f : A → list (list Z)) (g : A → sample) l :
  (∀ x, page (f x) [g x]) → page (l ≫= f) (g <$> l).
Proof. intros Hf. induction l as [|x l IH]; [constructor|]. rewrite bind_cons. by apply (page_app _ [g x]). Qed.

Lemma page_scrape ls ss : page ls ss → scrape (render ls) = Some ∘ reading_of <$> ss.
Proof.
  intros Hp. unfold scrape. rewrite lines_render.
  - induction Hp as [|l ls ss Hc Hl Hp IH|s ls ss Hs Hp IH]; [done|..].
    + rewrite filter_cons_False by (by rewrite Hc). done.
    + destruct (parse_sample s Hs) as [H1 H2]. rewrite filter_cons_True by done. by rewrite !fmap_cons, IH, H1.
  - induction Hp; constructor; try done. by apply sample_line_no_newline.
Qed.

Lemma is_newline_free l : forallb (λ c, negb (c =? 10)) l = true → Forall (λ c, c ≠ 10) l.
Proof. intros Hl. apply (forallb_impl _ _ _ Hl). intros c. by destruct (Z.eqb_spec c 10). Qed.

Lemma counter_page m c : page (writeCounter c m) [plain_sample (name_of c) (dec (count_of m c))].
Proof.
  unfold writeCounter. apply page_comment; [by destruct c|apply is_newline_free; by destruct c|].
  apply page_comment; [by destruct c|apply is_newline_free; by destruct c|]. apply page_sample; [|constructor].
  unfold sample_ok. simpl. repeat split; [by destruct c..|apply dec_clean].
Qed.

Lemma gauge_page m g : page (writeGauge g m) [plain_sample (gauge_name g) (dec (gauge_of m g))].
Proof.
  unfold writeGauge. apply page_comment; [by destruct g|apply is_newline_free; by destruct g|].
  apply page_comment; [by destruct g|apply is_newline_free; by destruct g|]. apply page_sample; [|constructor].
  unfold sample_ok. simpl. repeat split; [by destruct g..|apply dec_clean].
Qed.

Lemma duration_ok h : Forall sample_ok (duration_samples h).
Proof.
  unfold duration_samples. apply Forall_app. split.
  - rewrite Forall_fmap. assert (Hb : forallb (λ b, forallb quotable (ftoa b)) histogramBuckets = true) by (by vm_compute).
    rewrite forallb_forall in Hb. rewrite Forall_forall. intros [b n] Hp%elem_of_zip_l%list_elem_of_In. unfold sample_ok. simpl.
    repeat split; [done..|by apply Hb|apply dec_clean].
  - repeat constructor; simpl; try done; (apply dec_clean || apply ftoa_clean).
Qed.

Lemma scrape_samples m :
  map_Forall (λ b _, forallb quotable (bytes_of b) = true) (backendRequests m) →
  scrape (MetricsHandler m) = Some ∘ reading_of <$> samples m.
Proof.
  intros Hb. apply page_scrape. unfold all_lines, samples.
  apply page_app; [apply page_bind, counter_page|].
  do 2 (apply page_comment; [done|by apply is_newline_free|]).
  apply page_app; [apply page_samples; repeat constructor; try done; apply dec_clean|].
  apply page_app; [apply page_bind, counter_page|].
  do 2 (apply page_comment; [done|by apply is_newline_free|]).
  apply page_app.
  { apply page_samples. unfold backend_samples. rewrite Forall_fmap, Forall_forall. intros [b n] Hp. unfold sample_ok. simpl.
    repeat split; [done..| |apply dec_clean]. apply (Hb b n). by apply elem_of_range in Hp. }
  apply page_app; [apply page_bind, gauge_page|].
  do 2 (apply page_comment; [done|by apply is_newline_free|]).
  apply page_samples, duration_ok.
Qed.

(** *** What the page is to say *)

(** A value on the page: an integer, or seconds as strconv.FormatFloat writes
    them. *)
Inductive value := Int (n : Z) | Secs (x : float64).

(** A decimal number. *)
Definition number (text : list Z) : option Z :=
  match text with
  | [] => None
  | 45 :: ds => Z.opp <$> digits 0 ds
  | _ => digits 0 text
  end.

Definition denotes (text : list Z) (v : value) : Prop :=
  match v with Int n => number text = Some n | Secs x => text = ftoa x end.

Definition line : Type := string * option (string * string) * value.

(** A reading is the line of the page. *)
Definition reads_as (r : option reading) (l : line) : Prop :=
  ∃ text, r = Some (bytes_of l.1.1, prod_map bytes_of bytes_of <$> l.1.2, text) ∧ denotes text l.2.

(** The observations in the first [n] buckets. *)
Definition first_buckets (n : nat) (h : histogram) : value := Int (zsum id (take n (buckets h)) mod two64).

(** The whole page of a state; [bs] are the backends with their requests. *)
Definition exposition (m : metrics) (bs : list (string * Z)) : list line :=
  let counts name c := (name, None, Int (count_of m c)) in
  let gauges name g := (name, None, Int (gauge_of m g)) in
  let bucket le n := ("stickyproxy_request_duration_seconds_bucket", Some ("le", le), first_buckets n (requestDuration m)) in
  [counts "stickyproxy_requests_total" totalRequests;
   counts "stickyproxy_backend_errors_total" backendErrors;
   counts "stickyproxy_redis_failures_total" redisFailures;
   counts "stickyproxy_redis_cb_fallbacks_total" redisCBFallbacks;
   ("stickyproxy_cache_hits_total", Some ("layer", "local"), Int (count_of m cacheHitsLocal));
   ("stickyproxy_cache_hits_total", Some ("layer", "store"), Int (count_of m cacheHitsStore));
   counts "stickyproxy_cache_misses_total" cacheMisses;
   counts "stickyproxy_auth_failures_total" authFailures;
   counts "stickyproxy_websocket_connections_total" wsConnections;
   counts "stickyproxy_rate_limited_total" rateLimited;
   counts "stickyproxy_hook_assigns_total" hookAssigns;
   counts "stickyproxy_hook_unassigns_total" hookUnassigns;
   counts "stickyproxy_hook_failures_total" hookFailures;
   counts "stickyproxy_drains_total" drainsTotal;
   counts "stickyproxy_drain_users_total" drainUsersTotal;
   counts "stickyproxy_rebalances_total" rebalanceTotal;
   counts "stickyproxy_rebalance_moves_total" rebalanceMovesTotal;
   counts "stickyproxy_hold_requests_total" holdRequests;
   counts "stickyproxy_hold_timeouts_total" holdTimeouts;
   counts "stickyproxy_poison_pill_detections_total" poisonPillDetections;
   counts "stickyproxy_poison_pill_blocked_total" poisonPillBlocked] ++
  ((λ b, ("stickyproxy_backend_requests_total", Some ("backend", b.1), Int b.2)) <$> bs) ++
  [gauges "stickyproxy_active_connections" activeConnections;
   gauges "stickyproxy_healthy_backends" healthyBackends;
   gauges "stickyproxy_draining_backends" drainingBackends;
   gauges "stickyproxy_quarantined_accounts" quarantinedAccounts;
   bucket "0.001" 1%nat; bucket "0.005" 2%nat; bucket "0.01" 3%nat; bucket "0.025" 4%nat;
   bucket "0.05" 5%nat; bucket "0.1" 6%nat; bucket "0.25" 7%nat; bucket "0.5" 8%nat;
   bucket "1" 9%nat; bucket "2.5" 10%nat; bucket "5" 11%nat; bucket "10" 12%nat;
   ("stickyproxy_request_duration_seconds_bucket", Some ("le", "+Inf"), Int (hcount (requestDuration m)));
   ("stickyproxy_request_duration_seconds_sum", None, Secs (hsum (requestDuration m)));
   ("stickyproxy_request_duration_seconds_count", None, Int (hcount (requestDuration m)))].

Lemma number_dec z : number (dec z) = Some z.
Proof.
  unfold dec. destruct (Z.ltb_spec z 0) as [Hz|Hz].
  - destruct (dec_nat_spec (- z) ltac:(lia)) as (d & ds & -> & _ & _ & Hd). simpl. simpl in Hd. rewrite Hd. simpl. f_equal. lia.
  - destruct (dec_nat_spec z Hz) as (d & ds & -> & Hall & _ & Hd). unfold number.
    apply Forall_cons in Hall as [Hdig _]. unfold is_digit in Hdig. apply andb_prop in Hdig as [H48%Z.leb_le _].
    destruct (decide (d = 45)) as [->|Hne]; [lia|]. repeat (case_match; try done; try lia).
Qed.

Lemma reads_int s name label n :
  reading_of s = (bytes_of name, prod_map bytes_of bytes_of <$> label, dec n) →
  reads_as ((Some ∘ reading_of) s) (name, label, Int n).
Proof. intros Hs. exists (dec n). split; [simpl; by rewrite Hs|apply number_dec]. Qed.

(** The bounds are written as they are in the source. *)
Lemma bounds_text : ftoa <$> histogramBuckets =
  bytes_of <$> ["0.001"; "0.005"; "0.01"; "0.025"; "0.05"; "0.1"; "0.25"; "0.5"; "1"; "2.5"; "5"; "10"].
Proof. by vm_compute. Qed.

Lemma bucket_samples h :
  length (buckets h) = 12%nat →
  (λ p, mkSample (duration_name +:+ "_bucket") (Some ("le", ftoa p.1)) true (dec p.2)) <$>
    zip histogramBuckets (cumulative 0 (buckets h)) =
  imap (λ i le, mkSample (duration_name +:+ "_bucket") (Some ("le", bytes_of le)) true
      (dec (zsum id (take (S i) (buckets h)) mod two64)))
    ["0.001"; "0.005"; "0.01"; "0.025"; "0.05"; "0.1"; "0.25"; "0.5"; "1"; "2.5"; "5"; "10"].
Proof.
  intros Hlen. apply list_eq. intros i. rewrite list_lookup_fmap, list_lookup_imap, lookup_zip_with.
  pose proof (f_equal (λ l, l !! i) bounds_text) as Hb. cbv beta in Hb. rewrite !list_lookup_fmap in Hb.
  destruct (histogramBuckets !! i) as [b|] eqn:Hbi; destruct ((_ : list string) !! i) as [le|] eqn:Hle in Hb |- *; try done.
  simpl in Hb. injection Hb as Hb. assert (Hi : (i < 12)%nat) by (by apply lookup_lt_Some in Hbi).
  rewrite cumulative_lookup by lia. simpl. by rewrite Hb, Z.add_0_l.
Qed.

(** C36. What the handler writes reads back: a scraper of the text format finds
    on the page exactly the metrics of this list, in this order, each under its
    name and label and with the value of its field as a decimal number: the
    counters, both layers of the cache hits, each backend with its requests, the
    gauges, for each of the twelve bounds the sum of the buckets up to it, and the
    sum and the count of the durations (the sum as FormatFloat writes it).  The
    backends come in the order of the map's iteration.  The names of the backends
    have neither quote nor newline, and the scraper allows the missing blank
    before the value of the store layer. *)
Theorem metrics_roundtrip m :
  map_Forall (λ b _, forallb quotable (bytes_of b) = true) (backendRequests m) →
  length (buckets (requestDuration m)) = 12%nat →
  ∃ bs, bs ≡ₚ map_to_list (backendRequests m) ∧ Forall2 reads_as (scrape (MetricsHandler m)) (exposition m bs).
Proof.
  intros Hb Hlen. exists (range 130 (backendRequests m)). split; [apply range_perm|].
  rewrite scrape_samples by done. unfold samples, duration_samples. rewrite bucket_samples by done.
  rewrite !fmap_app. unfold counters_before, counters_after, cache_samples, gauges, exposition.
  cbn [fmap list_fmap app]. repeat (constructor; [by apply reads_int|]).
  apply Forall2_app.
  - unfold backend_samples. rewrite <- list_fmap_compose. apply Forall2_fmap, Forall_Forall2_diag, Forall_true.
    intros [b n]. by apply reads_int.
  - repeat (constructor; [by apply reads_int|]). constructor; [by eexists|]. constructor; [by apply reads_int|constructor].
Qed.
End round_trip.

Section examples.
Local Existing Instance map_iter_canonical.

Definition busy : metrics :=
  IncGauge activeConnections (IncBackendRequests "http://10.0.0.1:80" (Inc totalRequests (Add drainUsersTotal 7
    (mkMetrics (λ _, 0) (λ _, 0) ∅ (records three new_hist))))).

Lemma metrics_roundtrip_witness :
  backendRequests busy = {["http://10.0.0.1:80" := 1]} ∧ gauge_of busy activeConnections = 1 ∧
  first_buckets 9 (requestDuration busy) = Int 2 ∧
  Forall2 reads_as (scrape (MetricsHandler busy)) (exposition busy [("http://10.0.0.1:80", 1)]).
Proof.
  assert (Hb : backendRequests busy = {["http://10.0.0.1:80" := 1]}) by (by vm_compute).
  destruct (metrics_roundtrip busy) as (bs & Hperm & Hr).
  - rewrite Hb. by apply map_Forall_singleton.
  - by vm_compute.
  - rewrite Hb, map_to_list_singleton in Hperm. apply Permutation_singleton_r in Hperm as ->.
    split; [exact Hb|]. split; [by vm_compute|]. split; [by vm_compute|exact Hr].
Defined.
End examples.

End Metrics.
