(* ===== verification/ProxyMetrics.v ===== *)
(** * The metrics of a request

    proxy.go, poison.go and hold.go call the functions of metrics.go on their
    way.  Here the handler is written once more with these calls, in the order
    of the code, as a computation that returns its result with the list of the
    calls it made; without the calls it is [Proxy.ServeHTTP].  The calls of
    concurrent requests interleave: what is shown holds for every order. *)
From stdpp Require Import base gmap strings list sorting fin_maps.
From Stdlib Require Import ZArith Lia.
From S2P Require Import Prelude Go GoFloat GoText Hashing Assignment Store UserCache Poison Hold World Drain Backends RedisBreaker RateLimiter JWT Proxy Metrics.
Local Open Scope Z_scope.

Module ProxyMetrics.
Import Metrics.

(** ** The functions of metrics.go *)

Inductive call :=
  | IncRequests | IncBackendErrors | IncRedisFailures | IncRedisCBFallbacks | IncCacheHitsLocal | IncCacheHitsStore
  | IncCacheMisses | IncAuthFailures | IncWebSocketConnections | IncRateLimited | IncHookAssigns | IncHookUnassigns
  | IncHookFailures | IncDrains | IncDrainingBackends | DecDrainingBackends | IncRebalances | AddDrainUsers (n : Z)
  | AddRebalanceMoves (n : Z) | IncHoldRequests | IncHoldTimeouts | IncPoisonPillDetections | IncPoisonPillBlocked
  | IncQuarantinedAccounts | DecQuarantinedAccounts | IncBackendRequests (b : string) | IncActiveConnections
  | DecActiveConnections | RecordRequestDuration (seconds : float64).

(** What a call adds to which counter. *)
Definition counted (k : call) : option (counter * Z) :=
  match k with
  | IncRequests => Some (totalRequests, 1)
  | IncBackendErrors => Some (backendErrors, 1)
  | IncRedisFailures => Some (redisFailures, 1)
  | IncRedisCBFallbacks => Some (redisCBFallbacks, 1)
  | IncCacheHitsLocal => Some (cacheHitsLocal, 1)
  | IncCacheHitsStore => Some (cacheHitsStore, 1)
  | IncCacheMisses => Some (cacheMisses, 1)
  | IncAuthFailures => Some (authFailures, 1)
  | IncWebSocketConnections => Some (wsConnections, 1)
  | IncRateLimited => Some (rateLimited, 1)
  | IncHookAssigns => Some (hookAssigns, 1)
  | IncHookUnassigns => Some (hookUnassigns, 1)
  | IncHookFailures => Some (hookFailures, 1)
  | IncDrains => Some (drainsTotal, 1)
  | IncRebalances => Some (rebalanceTotal, 1)
  | AddDrainUsers n => Some (drainUsersTotal, n)
  | AddRebalanceMoves n => Some (rebalanceMovesTotal, n)
  | IncHoldRequests => Some (holdRequests, 1)
  | IncHoldTimeouts => Some (holdTimeouts, 1)
  | IncPoisonPillDetections => Some (poisonPillDetections, 1)
  | IncPoisonPillBlocked => Some (poisonPillBlocked, 1)
  | _ => None
  end.

(** What a call adds to which gauge. *)
Definition gauged (k : call) : option (gauge * Z) :=
  match k with
  | IncDrainingBackends => Some (drainingBackends, 1)
  | DecDrainingBackends => Some (drainingBackends, -1)
  | IncQuarantinedAccounts => Some (quarantinedAccounts, 1)
  | DecQuarantinedAccounts => Some (quarantinedAccounts, -1)
  | IncActiveConnections => Some (activeConnections, 1)
  | DecActiveConnections => Some (activeConnections, -1)
  | _ => None
  end.

(** A call on the metrics. *)
Definition run_call (k : call) (m : metrics) : metrics :=
  match k with
  | IncBackendRequests b => Metrics.IncBackendRequests b m
  | RecordRequestDuration x =>
      mkMetrics (count_of m) (gauge_of m) (backendRequests m) (Metrics.RecordRequestDuration x (requestDuration m))
  | k =>
      match counted k, gauged k with
      | Some (c, n), _ => Add c n m
      | None, Some (g, n) => AddGauge g n m
      | None, None => m
      end
  end.

Definition run_calls (ks : list call) (m : metrics) : metrics := foldl (λ m k, run_call k m) m ks.

(** ** A computation with its calls; [None] is a run-time panic. *)

Definition M (A : Type) : Type := option (A * list call).
Definition mret {A} (a : A) : M A := Some (a, []).
Definition mbnd {A B} (x : M A) (f : A → M B) : M B := '(a, k) ← x; '(b, k') ← f a; Some (b, k ++ k').
Definition tell (ks : list call) : M unit := Some (tt, ks).
Definition lift {A} (x : option A) : M A := (λ a, (a, [])) <$> x.

Notation "x ← y ;;; z" := (mbnd y (λ x : _, z)) (at level 20, y at level 100, z at level 200, only parsing).
Notation "' x ← y ;;; z" := (mbnd y (λ x : _, z)) (at level 20, x pattern, y at level 100, z at level 200, only parsing).
Notation "'count' k ;;; z" := (mbnd (tell [k]) (λ _, z)) (at level 20, k at level 100, z at level 200, only parsing).

(** The computation without its calls. *)
Definition erase {A} (x : M A) : option A := fst <$> x.

Section ops.
Context `{!MapIter} {S : Type} `{!Store S}.
Context (params : Proxy.params) (parses : string → bool) (parse : Z → string → option JWT.claims).
Implicit Types (p : Proxy.Proxy S).

(** The second half of assignViaTable. *)
Definition assign_from_store (now : Z) (key : string) p : M (result string * Proxy.Proxy S) :=
  let '((a, err), s) := AssignLeastLoaded now key (w_store (Proxy.p_world p)) in
  let p := Proxy.set_world (set_store s (Proxy.p_world p)) p in
  match err, a with
  | None, Some a =>
      mret ((Backend a, None), Proxy.set_redis (CB.recordCBSuccess <$> Proxy.p_redis p) p)
  | _, _ =>
      match Proxy.p_redis p with
      | None => mret ((""%string, err), p)
      | Some r =>
          let r := CB.recordCBFailure now r in
          let p := Proxy.set_redis (Some r) p in
          count IncRedisFailures;;;
          fb ← lift (Proxy.fallback r key);;;
          if bool_decide (fb = ""%string) then mret ((""%string, err), p)
          else count IncRedisCBFallbacks;;; mret ((fb, None), p)
      end
  end.

Definition assignViaTable (now : Z) (key : string) p : M (result string * Proxy.Proxy S) :=
  match Proxy.p_redis p with
  | None => assign_from_store now key p
  | Some r =>
      let '(open, r) := CB.isCBOpen now r in
      let p := Proxy.set_redis (Some r) p in
      if open then
        count IncRedisCBFallbacks;;;
        fb ← lift (Proxy.fallback r key);;;
        if bool_decide (fb = ""%string) then assign_from_store now key p else mret ((fb, None), p)
      else assign_from_store now key p
  end.

Definition assign (now : Z) (key : string) p : M (result string * Proxy.Proxy S) :=
  match Proxy.routingMode params with
  | Proxy.ModeAssignment => assignViaTable now key p
  | Proxy.ModeHash => lift (Proxy.assignViaHash key p)
  end.

Definition authorize (now : Z) (r : Proxy.request) p : M ((Proxy.answer + string) * Proxy.Proxy S) :=
  let '(jwt, c) := JWT.extractUserIDFromJWT parse (Proxy.routingClaim params) now (Proxy.Authorization r) (Proxy.p_jwt p) in
  let p := Proxy.set_jwt c p in
  match jwt with
  | None => count IncAuthFailures;;; mret (inl Proxy.Unauthorized, p)
  | Some jwtData =>
      let key := JWT.RoutingKey jwtData in
      let '(allowed, l) := RL.Allow now key (Proxy.p_limiter p) in
      let p := Proxy.set_limiter l p in
      if negb allowed then count IncRateLimited;;; mret (inl Proxy.RateLimited, p)
      else
        match Proxy.p_poison p with
        | Some d =>
            if Poison.IsQuarantined key d then count IncPoisonPillBlocked;;; mret (inl Proxy.Quarantined, p)
            else mret (inr key, p)
        | None => mret (inr key, p)
        end
  end.

(** RecordReassignment counts an account that it puts into quarantine. *)
Definition RecordReassignment (now : Z) (key : string) (d : Poison.PoisonPillDetector)
    : M (bool * Poison.PoisonPillDetector) :=
  let '(q, d') := Poison.RecordReassignment now key d in
  if q && negb (Poison.IsQuarantined key d) then
    count IncPoisonPillDetections;;; count IncQuarantinedAccounts;;; mret (q, d')
  else mret (q, d').

(** Wait on the hold manager: not at all, or until it woke up. *)
Definition Wait (waited : option Hold.wake) : M unit :=
  match waited with
  | None => mret tt
  | Some Hold.TimedOut => tell [IncHoldRequests; IncHoldTimeouts]
  | Some _ => tell [IncHoldRequests]
  end.

Definition cached_backend (now : Z) (key : string) p : M ((Proxy.answer + option string) * Proxy.Proxy S) :=
  let '((b, err), c) := UC.Get now key (w_cache (Proxy.p_world p)) in
  let p := Proxy.set_world (set_cache c (Proxy.p_world p)) p in
  match err with
  | Some _ => mret (inr None, p)
  | None =>
      let '(available, bm) := Backends.Available now b (Proxy.p_backends p) in
      let p := Proxy.set_backends bm p in
      if available && negb (Proxy.is_draining b p) then mret (inr (Some b), p)
      else
        '(quarantined, d) ←
          match Proxy.p_poison p with
          | Some d => '(q, d) ← RecordReassignment now key d;;; mret (q, Some d)
          | None => mret (false, None)
          end;;;
        let p := Proxy.set_poison d p in
        if quarantined : bool then count IncPoisonPillBlocked;;; mret (inl Proxy.Quarantined, p)
        else mret (inr None, Proxy.set_world (Invalidate key (Proxy.p_world p)) p)
  end.

Definition route (now later : Z) (ok : bool) (r : Proxy.request) (key : string) p
    : M (Proxy.answer * Proxy.Proxy S) :=
  '(found, p) ← cached_backend now key p;;;
  match found with
  | inl a => mret (a, p)
  | inr (Some b) =>
      count IncCacheHitsLocal;;; count IncBackendRequests b;;; mret (Proxy.forward parses now later ok r key b p)
  | inr None =>
      '((b, err), p) ← assign now key p;;;
      match err with
      | Some _ => count IncCacheMisses;;; count IncBackendErrors;;; mret (Proxy.NoBackend, p)
      | None =>
          count IncCacheHitsStore;;;
          let w := set_cache (UC.Set_ now key b (w_cache (Proxy.p_world p))) (Proxy.p_world p) in
          let w := SendAssign (Proxy.wcfg params) b [key] w in
          count IncBackendRequests b;;; mret (Proxy.forward parses now later ok r key b (Proxy.set_world w p))
      end
  end.

Definition servePublic (now later : Z) (ok : bool) (stickyKey : string) (r : Proxy.request) p
    : M (Proxy.answer * Proxy.Proxy S) :=
  let '((backends, err), s) := ActiveBackends (w_store (Proxy.p_world p)) in
  let p := Proxy.set_world (set_store s (Proxy.p_world p)) p in
  if bool_decide (err ≠ None) || bool_decide (backends = []) then mret (Proxy.NoBackend, p)
  else
    b ← lift (index_mod (sort_Strings backends) (HashUser (Proxy.RemoteAddr r)));;;
    count IncBackendRequests b;;;
    let '(resp, _, bm) := Backends.ProxyRequest parses now later ok b (Proxy.p_backends p) in
    let p := Proxy.set_backends bm p in
    let header := match resp with Backends.Forwarded => stickyKey | _ => ""%string end in
    mret (Proxy.ToPublic b resp,
      if bool_decide (header = ""%string) then p else Proxy.bindStickyKey params later header b p).

(** [seconds] is the duration that the deferred function records. *)
Definition ServeHTTP (now now' later : Z) (ok : bool) (stickyKey : string) (held : Proxy.Proxy S → Proxy.Proxy S)
    (waited : option Hold.wake) (seconds : float64) (r : Proxy.request) p : M (Proxy.answer * Proxy.Proxy S) :=
  count IncRequests;;; count IncActiveConnections;;;
  _ ← (if Proxy.isWebSocket r then tell [IncWebSocketConnections] else mret tt);;;
  res ←
    (if Proxy.isPublicPath params (Proxy.Path r) then servePublic now later ok stickyKey r p
     else
       '(auth, p) ← authorize now r p;;;
       match auth with
       | inl a => mret (a, p)
       | inr key => _ ← Wait waited;;; route now' later ok r key (held p)
       end);;;
  count DecActiveConnections;;; count RecordRequestDuration seconds;;; mret res.
End ops.

(** ** The calls change nothing else *)

Lemma erase_bnd {A B} (x : M A) (f : A → M B) : erase (mbnd x f) = erase x ≫= λ a, erase (f a).
Proof. unfold mbnd, erase. destruct x as [[a k]|]; [|done]. simpl. by destruct (f a) as [[b k']|]. Qed.

Lemma erase_tell {B} ks (f : unit → M B) : erase (mbnd (tell ks) f) = erase (f tt).
Proof. by rewrite erase_bnd. Qed.

Lemma erase_lift {A} (x : option A) : erase (lift x) = x.
Proof. unfold erase, lift. by destruct x. Qed.

Lemma erase_ret {A} (a : A) : erase (mret a) = Some a.
Proof. done. Qed.

Ltac erasing := repeat (first [rewrite erase_tell | rewrite erase_bnd | rewrite erase_lift | rewrite erase_ret]; simpl).

Section erasure.
Context `{!MapIter} {S : Type} `{!Store S}.
Context (params : Proxy.params) (parses : string → bool) (parse : Z → string → option JWT.claims).
Implicit Types (p : Proxy.Proxy S).

Lemma erase_assign_from_store now key p :
  erase (assign_from_store now key p) = Proxy.assign_from_store now key p.
Proof.
  unfold assign_from_store, Proxy.assign_from_store.
  destruct (AssignLeastLoaded _ _ _) as [[[a|] [e|]] s]; try done;
    (destruct (Proxy.p_redis _) as [r|]; [|done]; erasing; destruct (Proxy.fallback _ _) as [fb|]; [simpl|done];
     by destruct (bool_decide _)).
Qed.

Lemma erase_assign now key p : erase (assign params now key p) = Proxy.assign params now key p.
Proof.
  unfold assign, Proxy.assign. destruct (Proxy.routingMode params); [|apply erase_lift].
  unfold assignViaTable, Proxy.assignViaTable. destruct (Proxy.p_redis p) as [r|]; [|apply erase_assign_from_store].
  destruct (CB.isCBOpen now r) as [[] r']; [|apply erase_assign_from_store]. erasing.
  destruct (Proxy.fallback r' key) as [fb|]; [simpl|done]. destruct (bool_decide _); [apply erase_assign_from_store|done].
Qed.

Lemma erase_authorize now r p :
  erase (authorize params parse now r p) = Some (Proxy.authorize params parse now r p).
Proof.
  unfold authorize, Proxy.authorize. destruct (JWT.extractUserIDFromJWT _ _ _ _ _) as [[j|] c]; [|done].
  destruct (RL.Allow _ _ _) as [[] l]; [|done]. simpl. destruct (Proxy.p_poison p) as [d|]; [|done].
  by destruct (Poison.IsQuarantined _ _).
Qed.

Lemma erase_cached_backend now key p :
  erase (cached_backend now key p) = Some (Proxy.cached_backend now key p).
Proof.
  unfold cached_backend, Proxy.cached_backend. destruct (UC.Get _ _ _) as [[b [e|]] c]; [done|].
  destruct (Backends.Available _ _ _) as [av bm]. destruct (av && _); [done|]. erasing.
  destruct (Proxy.p_poison p) as [d|]; [|done]. erasing. unfold RecordReassignment.
  destruct (Poison.RecordReassignment now key d) as [[] d'], (Poison.IsQuarantined key d); done.
Qed.

Lemma erase_route now later ok r key p :
  erase (route params parses now later ok r key p) = Proxy.route params parses now later ok r key p.
Proof.
  unfold route, Proxy.route. rewrite erase_bnd, erase_cached_backend. simpl.
  destruct (Proxy.cached_backend now key p) as [[a|[b|]] p1]; [done..|]. rewrite erase_bnd, erase_assign.
  destruct (Proxy.assign params now key p1) as [[[b [e|]] p2]|]; done.
Qed.

(** Without its calls, the handler is the one of Proxy.v. *)
Lemma erase_ServeHTTP now now' later ok sticky held waited seconds r p :
  erase (ServeHTTP params parses parse now now' later ok sticky held waited seconds r p)
  = Proxy.ServeHTTP params parses parse now now' later ok sticky held r p.
Proof.
  unfold ServeHTTP. rewrite !erase_tell, erase_bnd.
  assert (erase (if Proxy.isWebSocket r then tell [IncWebSocketConnections] else mret tt) = Some tt) as ->
    by by destruct (Proxy.isWebSocket r).
  simpl. rewrite erase_bnd. match goal with |- erase ?x ≫= _ = ?y => cut (erase x = y) end.
  { intros ->. by destruct (Proxy.ServeHTTP _ _ _ _ _ _ _ _ _ _ _). }
  unfold Proxy.ServeHTTP.
  destruct (Proxy.isPublicPath params (Proxy.Path r)).
  - unfold servePublic, Proxy.servePublic. destruct (ActiveBackends _) as [[bs err] s].
    destruct (_ || _); [done|]. rewrite erase_bnd, erase_lift. destruct (index_mod _ _) as [b|]; [simpl|done].
    by destruct (Backends.ProxyRequest _ _ _ _ _ _) as [[resp ev] bm].
  - rewrite erase_bnd, erase_authorize. simpl. destruct (Proxy.authorize params parse now r p) as [[a|key] p1]; [done|].
    rewrite erase_bnd. destruct waited as [[]|]; simpl; apply erase_route.
Qed.
End erasure.

(** ** The books of one request *)

(** The calls the books are made of: the requests, their outcomes, the
    backends, the requests under way and their durations. *)
Definition noted (k : call) : bool :=
  match k with
  | IncRequests | IncBackendErrors | IncCacheHitsLocal | IncCacheHitsStore | IncCacheMisses | IncAuthFailures
  | IncRateLimited | IncPoisonPillBlocked | IncBackendRequests _ | IncActiveConnections | DecActiveConnections
  | RecordRequestDuration _ => true
  | _ => false
  end.

Definition notes (ks : list call) : list call := List.filter noted ks.

Lemma notes_app ks ks' : notes (ks ++ ks') = notes ks ++ notes ks'.
Proof. apply List.filter_app. Qed.

(** The outcome a request is entered under. *)
Definition entered (public : bool) (a : Proxy.answer) (ks : list call) : Prop :=
  match public, a with
  | true, Proxy.NoBackend => ks = []
  | true, Proxy.ToPublic b _ => ks = [IncBackendRequests b]
  | false, Proxy.Unauthorized => ks = [IncAuthFailures]
  | false, Proxy.RateLimited => ks = [IncRateLimited]
  | false, Proxy.Quarantined => ks = [IncPoisonPillBlocked]
  | false, Proxy.NoBackend => ks = [IncCacheMisses; IncBackendErrors]
  | false, Proxy.ToWebSocket b _ | false, Proxy.ToBackend b _ _ =>
      ks = [IncCacheHitsLocal; IncBackendRequests b] ∨ ks = [IncCacheHitsStore; IncBackendRequests b]
  | _, _ => False
  end.

Lemma mbnd_Some {A B} (x : M A) (f : A → M B) b ks :
  mbnd x f = Some (b, ks) → ∃ a k k', x = Some (a, k) ∧ f a = Some (b, k') ∧ ks = k ++ k'.
Proof.
  unfold mbnd. destruct x as [[a k]|]; [|done]. simpl. destruct (f a) as [[b' k']|] eqn:Hf; [|done].
  intros [= <- <-]. by exists a, k, k'.
Qed.

Lemma lift_Some {A} (x : option A) a ks : lift x = Some (a, ks) → x = Some a ∧ ks = [].
Proof. unfold lift. destruct x; [|done]. by intros [= <- <-]. Qed.

(** Opens a computation that returned. *)
Ltac opened :=
  repeat match goal with
  | H : mbnd _ _ = Some _ |- _ => apply mbnd_Some in H as (? & ? & ? & ? & ? & ->); cbv beta iota in *
  | H : tell _ = Some _ |- _ => injection H as <- <-; cbv beta iota in *
  | H : mret _ = Some (?y, _) |- _ => first [is_var y; injection H as <- <- | injection H as ? ?; subst]; cbv beta iota in *
  | H : lift _ = Some _ |- _ => apply lift_Some in H as [? ->]
  end.

Section books.
Context `{!MapIter} {S : Type} `{!Store S}.
Context (params : Proxy.params) (parses : string → bool) (parse : Z → string → option JWT.claims).
Implicit Types (p : Proxy.Proxy S).

Lemma assign_from_store_notes now key p res ks :
  assign_from_store now key p = Some (res, ks) → notes ks = [].
Proof.
  unfold assign_from_store. destruct (AssignLeastLoaded _ _ _) as [[[a|] [e|]] s]; intros Ha;
    try (destruct (Proxy.p_redis _) as [r|]); opened; try done; (destruct (bool_decide _); by opened).
Qed.

Lemma assign_notes now key p res ks : assign params now key p = Some (res, ks) → notes ks = [].
Proof.
  unfold assign. destruct (Proxy.routingMode params); [|by intros [? ->]%lift_Some].
  unfold assignViaTable. destruct (Proxy.p_redis p) as [r|]; [|apply assign_from_store_notes].
  destruct (CB.isCBOpen now r) as [[] r']; [|apply assign_from_store_notes]. intros Ha. opened.
  rewrite !notes_app. simpl. destruct (bool_decide _); [by eapply assign_from_store_notes|by opened].
Qed.

Lemma authorize_notes now r p res p' ks :
  authorize params parse now r p = Some ((res, p'), ks) →
  match res with inl a => entered false a (notes ks) | inr _ => notes ks = [] end.
Proof.
  unfold authorize. destruct (JWT.extractUserIDFromJWT _ _ _ _ _) as [[j|] c]; intros Ha; [|by opened].
  destruct (RL.Allow _ _ _) as [[] l]; cbn [negb] in Ha; [|by opened].
  destruct (Proxy.p_poison _) as [d|]; [destruct (Poison.IsQuarantined _ _)|]; by opened.
Qed.

Lemma cached_backend_notes now key p res p' ks :
  cached_backend now key p = Some ((res, p'), ks) →
  match res with inl a => entered false a (notes ks) | inr _ => notes ks = [] end.
Proof.
  unfold cached_backend. destruct (UC.Get _ _ _) as [[b [e|]] c]; intros Ha; [by opened|].
  destruct (Backends.Available _ _ _) as [av bm]. destruct (av && _); [by opened|].
  destruct (Proxy.p_poison _) as [d|]; [|by opened]. unfold RecordReassignment in Ha.
  destruct (Poison.RecordReassignment now key d) as [[] d'], (Poison.IsQuarantined key d); cbn [negb andb] in Ha; by opened.
Qed.

Lemma entered_forward now later ok r key b p a p' hit :
  Proxy.forward parses now later ok r key b p = (a, p') →
  hit = IncCacheHitsLocal ∨ hit = IncCacheHitsStore → entered false a [hit; IncBackendRequests b].
Proof.
  unfold Proxy.forward. destruct (Proxy.isWebSocket r).
  - intros [= <- <-] [->| ->]; simpl; auto.
  - destruct (Backends.ProxyRequest _ _ _ _ _ _) as [[resp ev] bm]. intros [= <- <-] [->| ->]; simpl; auto.
Qed.

Lemma route_notes now later ok r key p a p' ks :
  route params parses now later ok r key p = Some ((a, p'), ks) → entered false a (notes ks).
Proof.
  unfold route. intros Hr. apply mbnd_Some in Hr as ([found p1] & k1 & k2 & Hc & Hr & ->).
  apply cached_backend_notes in Hc. rewrite notes_app. destruct found as [a1|[b|]].
  - opened. by rewrite app_nil_r.
  - opened. rewrite Hc. eapply entered_forward; eauto.
  - apply mbnd_Some in Hr as ([[b err] p2] & k3 & k4 & Ha & Hr & ->). apply assign_notes in Ha.
    rewrite notes_app, Hc, Ha. destruct err as [e|]; opened; [done|]. eapply entered_forward; eauto.
Qed.

Lemma servePublic_notes now later ok sticky r p a p' ks :
  servePublic params parses now later ok sticky r p = Some ((a, p'), ks) → entered true a (notes ks).
Proof.
  unfold servePublic. destruct (ActiveBackends _) as [[bs err] s]. destruct (_ || _); intros Hs; [by opened|].
  apply mbnd_Some in Hs as (b & k1 & k2 & Hb & Hs & ->). apply lift_Some in Hb as [_ ->].
  apply mbnd_Some in Hs as (? & k3 & k4 & [= <- <-] & Hs & ->).
  destruct (Backends.ProxyRequest _ _ _ _ _ _) as [[resp ev] bm]. by opened.
Qed.

Lemma Wait_notes waited u ks : Wait waited = Some (u, ks) → notes ks = [].
Proof. by destruct waited as [[]|]; intros [= _ <-]. Qed.

(** A request is opened, entered under its outcome, and closed. *)
Lemma request_notes now now' later ok sticky held waited seconds r p a p' ks :
  ServeHTTP params parses parse now now' later ok sticky held waited seconds r p = Some ((a, p'), ks) →
  ∃ out, entered (Proxy.isPublicPath params (Proxy.Path r)) a out ∧
    notes ks = IncRequests :: IncActiveConnections :: out ++ [DecActiveConnections; RecordRequestDuration seconds].
Proof.
  unfold ServeHTTP. intros Hs.
  apply mbnd_Some in Hs as (? & k1 & k2 & [= _ <-] & Hs & ->). apply mbnd_Some in Hs as (? & k3 & k4 & [= _ <-] & Hs & ->).
  apply mbnd_Some in Hs as (? & k5 & k6 & Hws & Hs & ->).
  apply mbnd_Some in Hs as ([a1 p1] & k7 & k8 & Hb & Hs & ->). opened.
  assert (Hk5 : notes k5 = []) by (destruct (Proxy.isWebSocket r); by opened).
  exists (notes k7). rewrite !notes_app, Hk5. split; [|done].
  destruct (Proxy.isPublicPath params (Proxy.Path r)); [by eapply servePublic_notes|].
  apply mbnd_Some in Hb as ([auth p1] & k9 & k10 & Ha & Hb & ->). apply authorize_notes in Ha. rewrite notes_app.
  destruct auth as [a2|key]; [opened; by rewrite app_nil_r|]. rewrite Ha.
  apply mbnd_Some in Hb as (? & k11 & k12 & Hw & Hb & ->). apply Wait_notes in Hw. rewrite notes_app, Hw.
  by eapply route_notes.
Qed.
End books.

(** ** The books of many requests *)

(** What a call adds to a counter, a gauge, the count of a backend, the count of
    the histogram. *)
Definition to_counter (c : counter) (k : call) : Z :=
  match counted k with Some (c', n) => if decide (c' = c) then n else 0 | None => 0 end.
Definition to_gauge (g : gauge) (k : call) : Z :=
  match gauged k with Some (g', n) => if decide (g' = g) then n else 0 | None => 0 end.
Definition to_backend (b : string) (k : call) : Z :=
  match k with IncBackendRequests b' => if decide (b' = b) then 1 else 0 | _ => 0 end.
Definition to_duration (k : call) : Z := match k with RecordRequestDuration _ => 1 | _ => 0 end.

Definition zero : metrics := mkMetrics (λ _, 0) (λ _, 0) ∅ new_hist.

Lemma run_calls_counter ks m c :
  0 ≤ count_of m c < two64 → count_of (run_calls ks m) c = (count_of m c + zsum (to_counter c) ks) mod two64.
Proof.
  revert m. induction ks as [|k ks IH]; intros m Hm; simpl; [rewrite zsum_nil, Z.add_0_r; by rewrite Z.mod_small|].
  assert (Hk : count_of (run_call k m) c = (count_of m c + to_counter c k) mod two64).
  { unfold to_counter. destruct k; simpl; unfold upd, add64; try (case_decide); subst; rewrite ?Z.add_0_r; try done;
      by rewrite Z.mod_small. }
  unfold run_calls in *. simpl. rewrite IH, Hk, zsum_cons; [|rewrite Hk; apply Z.mod_pos_bound; by apply two64_pos].
  rewrite Zplus_mod_idemp_l. f_equal. lia.
Qed.

Lemma run_calls_gauge ks m g :
  - two63 ≤ gauge_of m g < two63 →
  gauge_of (run_calls ks m) g = (gauge_of m g + zsum (to_gauge g) ks + two63) mod two64 - two63.
Proof.
  revert m. induction ks as [|k ks IH]; intros m Hm.
  { simpl. rewrite zsum_nil, Z.add_0_r, Z.mod_small; [lia|]. unfold two63, two64 in *. lia. }
  assert (Hk : gauge_of (run_call k m) g = (gauge_of m g + to_gauge g k + two63) mod two64 - two63).
  { assert (gauge_of m g = (gauge_of m g + 0 + two63) mod two64 - two63) as Hid.
    { rewrite Z.mod_small; unfold two63, two64 in *; lia. }
    unfold to_gauge. destruct k; simpl; unfold upd, addi64; try (case_decide); subst; done. }
  unfold run_calls in *. simpl. rewrite IH, Hk, zsum_cons.
  - f_equal.
    replace (((gauge_of m g + to_gauge g k + two63) mod two64 - two63 + zsum (to_gauge g) ks + two63))
      with ((gauge_of m g + to_gauge g k + two63) mod two64 + zsum (to_gauge g) ks) by lia.
    rewrite !Zplus_mod_idemp_l. f_equal. lia.
  - rewrite Hk. pose proof (Z.mod_pos_bound (gauge_of m g + to_gauge g k + two63) two64 two64_pos).
    unfold two63, two64 in *. lia.
Qed.

Lemma run_calls_backend ks m b :
  0 ≤ default 0 (backendRequests m !! b) < two64 →
  default 0 (backendRequests (run_calls ks m) !! b)
  = (default 0 (backendRequests m !! b) + zsum (to_backend b) ks) mod two64.
Proof.
  revert m. induction ks as [|k ks IH]; intros m Hm; [simpl; by rewrite zsum_nil, Z.add_0_r, Z.mod_small|].
  assert (Hk : default 0 (backendRequests (run_call k m) !! b)
               = (default 0 (backendRequests m !! b) + to_backend b k) mod two64).
  { destruct k as [| | | | | | | | | | | | | | | | | | | | | | | | |b'| | |]; simpl;
      rewrite ?Z.add_0_r, ?(Z.mod_small _ _ Hm); try done.
    rewrite lookup_insert. case_decide; [subst; done|by rewrite Z.add_0_r, Z.mod_small]. }
  unfold run_calls in *. simpl. rewrite IH, Hk, zsum_cons; [|rewrite Hk; by apply Z.mod_pos_bound].
  rewrite Zplus_mod_idemp_l. f_equal. lia.
Qed.

Lemma run_calls_duration ks m :
  0 ≤ hcount (requestDuration m) < two64 →
  hcount (requestDuration (run_calls ks m)) = (hcount (requestDuration m) + zsum to_duration ks) mod two64.
Proof.
  revert m. induction ks as [|k ks IH]; intros m Hm; [simpl; by rewrite zsum_nil, Z.add_0_r, Z.mod_small|].
  assert (Hk : hcount (requestDuration (run_call k m)) = (hcount (requestDuration m) + to_duration k) mod two64).
  { destruct k; simpl; rewrite ?Z.add_0_r, ?(Z.mod_small _ _ Hm); try done.
    unfold add_sum, add_count, add_bucket. by destruct (bucket_of _). }
  unfold run_calls in *. simpl. rewrite IH, Hk, zsum_cons; [|rewrite Hk; by apply Z.mod_pos_bound].
  rewrite Zplus_mod_idemp_l. f_equal. lia.
Qed.

(** A request that was served: whether its path is public, its answer, its
    calls. *)
Record served := mkServed { s_public : bool; s_answer : Proxy.answer; s_calls : list call }.

(** The number of requests of a kind. *)
Definition tally (f : served → bool) (xs : list served) : Z := zsum (λ x, if f x then 1 else 0) xs.

Definition refused_as (a : Proxy.answer) (x : served) : bool :=
  match a, s_answer x with
  | Proxy.Unauthorized, Proxy.Unauthorized | Proxy.RateLimited, Proxy.RateLimited
  | Proxy.Quarantined, Proxy.Quarantined => true
  | Proxy.NoBackend, Proxy.NoBackend => negb (s_public x)
  | _, _ => false
  end.

(** Forwarded for a user. *)
Definition routed (x : served) : bool := match Proxy.target (s_answer x) with Some _ => true | None => false end.

(** Backend [b] was chosen for the request, with or without a user. *)
Definition chosen (b : string) (x : served) : bool :=
  match s_answer x with
  | Proxy.ToWebSocket b' _ | Proxy.ToBackend b' _ _ | Proxy.ToPublic b' _ => bool_decide (b' = b)
  | _ => false
  end.

(** The proxy answered itself, without a request to the backend: its circuit
    breaker was open, or its URL is none. *)
Definition turned_away (x : served) : bool :=
  match s_answer x with
  | Proxy.ToBackend _ _ Backends.Unavailable | Proxy.ToBackend _ _ Backends.InvalidBackend
  | Proxy.ToPublic _ Backends.Unavailable | Proxy.ToPublic _ Backends.InvalidBackend => true
  | _ => false
  end.

(** The request went to backend [b], or to the WebSocket bridge for it. *)
Definition sent_to (b : string) (x : served) : bool := chosen b x && negb (turned_away x).

(** The backend failed: the answer is the proxy's own 502. *)
Definition failed (x : served) : bool :=
  match s_answer x with Proxy.ToBackend _ _ Backends.BackendError | Proxy.ToPublic _ Backends.BackendError => true | _ => false end.

Lemma zsum_notes f ks : (∀ k, noted k = false → f k = 0) → zsum f ks = zsum f (notes ks).
Proof.
  intros Hf. induction ks as [|k ks IH]; [done|]. unfold notes. simpl. destruct (noted k) eqn:Hk; rewrite !zsum_cons, IH; [done|].
  by rewrite Hf.
Qed.

Lemma zsum_concat {A} (f : call → Z) (g : A → list call) xs : zsum f (concat (g <$> xs)) = zsum (λ x, zsum f (g x)) xs.
Proof. induction xs as [|x xs IH]; [done|]. rewrite fmap_cons. cbn [concat]. by rewrite zsum_app, zsum_cons, IH. Qed.

Lemma tally_bounds f xs n : Z.of_nat (length xs) < n → 0 ≤ tally f xs < n.
Proof.
  intros Hn. unfold tally. split; [apply zsum_nonneg; intros x _; by destruct (f x)|].
  apply (Z.le_lt_trans _ (zsum (λ _, 1) xs)); [apply zsum_le; intros x _; by destruct (f x)|]. rewrite zsum_const. lia.
Qed.

Lemma tally_chosen b xs : tally (chosen b) xs = tally (sent_to b) xs + tally (λ x, chosen b x && turned_away x) xs.
Proof.
  unfold tally. rewrite <- zsum_add. apply zsum_ext. intros x _. unfold sent_to. by destruct (chosen b x), (turned_away x).
Qed.

Section balance.
Context `{!MapIter} {S : Type} `{!Store S}.
Context (params : Proxy.params) (parses : string → bool) (parse : Z → string → option JWT.claims).

Definition is_served (x : served) : Prop :=
  ∃ now now' later ok sticky held waited seconds r (p p' : Proxy.Proxy S),
    ServeHTTP params parses parse now now' later ok sticky held waited seconds r p = Some ((s_answer x, p'), s_calls x) ∧
    s_public x = Proxy.isPublicPath params (Proxy.Path r).

(** What the calls add up to, request by request. *)
Lemma books xs others ks (f : call → Z) (g : served → Z) :
  Forall is_served xs → Forall (λ k, noted k = false) others → ks ≡ₚ concat (s_calls <$> xs) ++ others →
  (∀ k, noted k = false → f k = 0) →
  (∀ x out seconds, entered (s_public x) (s_answer x) out →
     f IncRequests + f IncActiveConnections + zsum f out + f DecActiveConnections + f (RecordRequestDuration seconds) = g x) →
  zsum f ks = zsum g xs.
Proof.
  intros Hx Ho -> Hf Hg. rewrite zsum_app, zsum_concat.
  rewrite (zsum_zero f others) by (intros k Hk; apply Hf; by eapply Forall_forall in Ho).
  rewrite Z.add_0_r. apply zsum_ext. intros x Hin. rewrite Forall_forall in Hx.
  destruct (Hx x Hin) as (now & now' & later & ok & sticky & held & waited & seconds & r & p & p' & Hs & Hp).
  destruct (request_notes _ _ _ _ _ _ _ _ _ _ _ _ _ _ _ _ Hs) as (out & Hout & Hn). rewrite <- Hp in Hout.
  rewrite zsum_notes, Hn, !zsum_cons, zsum_app, !zsum_cons, zsum_nil by done.
  rewrite <- (Hg x out seconds Hout). lia.
Qed.

Ltac entries :=
  intros [[] a ?] out ?; unfold tally, routed, chosen; destruct a; simpl; intros;
  repeat match goal with H : _ ∨ _ |- _ => destruct H end; subst; try done; rewrite ?zsum_cons, ?zsum_nil; simpl;
  try done; try (by case_decide; [rewrite bool_decide_true|rewrite bool_decide_false]).

(** A counter of outcomes, with what each request adds to it. *)
Lemma counter_books xs others ks c (f : served → bool) :
  Forall is_served xs → Forall (λ k, noted k = false) others → ks ≡ₚ concat (s_calls <$> xs) ++ others →
  Z.of_nat (length xs) < two64 →
  (∀ k, noted k = false → to_counter c k = 0) →
  (∀ x out seconds, entered (s_public x) (s_answer x) out →
     to_counter c IncRequests + to_counter c IncActiveConnections + zsum (to_counter c) out +
     to_counter c DecActiveConnections + to_counter c (RecordRequestDuration seconds) = if f x then 1 else 0) →
  count_of (run_calls ks zero) c = tally f xs.
Proof.
  intros Hx Ho Hks Hlen Hf Hg. rewrite run_calls_counter by done.
  rewrite (books xs others ks _ (λ x, if f x then 1 else 0)) by done.
  by apply Z.mod_small, tally_bounds.
Qed.

Lemma every_entry xs others ks :
  Forall is_served xs → Forall (λ k, noted k = false) others → ks ≡ₚ concat (s_calls <$> xs) ++ others →
  zsum (to_counter totalRequests) ks = Z.of_nat (length xs).
Proof.
  intros Hx Ho Hks. rewrite (books xs others ks _ (λ _, 1) Hx Ho Hks), zsum_const; [lia|by intros []|entries].
Qed.

(** Local and store hits: one of them for each request that is routed. *)
Lemma hits_books xs others ks :
  Forall is_served xs → Forall (λ k, noted k = false) others → ks ≡ₚ concat (s_calls <$> xs) ++ others →
  Z.of_nat (length xs) < two64 →
  count_of (run_calls ks zero) cacheHitsLocal + count_of (run_calls ks zero) cacheHitsStore = tally routed xs.
Proof.
  intros Hx Ho Hks Hlen. rewrite !run_calls_counter by done. simpl.
  assert (Hsum : zsum (to_counter cacheHitsLocal) ks + zsum (to_counter cacheHitsStore) ks = tally routed xs).
  { rewrite <- zsum_add. apply (books xs others ks _ (λ x, if routed x then 1 else 0)); try done; [by intros []|entries]. }
  assert (0 ≤ zsum (to_counter cacheHitsLocal) ks) by (apply zsum_nonneg; by intros []).
  assert (0 ≤ zsum (to_counter cacheHitsStore) ks) by (apply zsum_nonneg; by intros []).
  pose proof (tally_bounds routed xs two64 Hlen). rewrite !Z.mod_small; lia.
Qed.

(** C40. The books balance: whatever the order in which the metric calls of the
    requests interleave with each other and with those of other goroutines, once
    the requests are over every one is counted once, none is under way, each is
    entered under the outcome it was answered with (a request of a public path
    under none), and each backend is counted for the requests it was chosen for:
    those sent to it and those turned away because its breaker was open or its URL
    invalid.  The counter of backend errors counts what the counter of cache misses
    counts, the requests no backend could be chosen for; a backend that fails adds
    nothing to it: with no such request it is zero, however many failed. *)
Theorem books_balance xs others ks :
  Forall is_served xs → Forall (λ k, noted k = false) others → ks ≡ₚ concat (s_calls <$> xs) ++ others →
  Z.of_nat (length xs) < two64 →
  let m := run_calls ks zero in
  count_of m totalRequests = Z.of_nat (length xs) ∧ hcount (requestDuration m) = Z.of_nat (length xs) ∧
  gauge_of m activeConnections = 0 ∧
  count_of m authFailures = tally (refused_as Proxy.Unauthorized) xs ∧
  count_of m rateLimited = tally (refused_as Proxy.RateLimited) xs ∧
  count_of m poisonPillBlocked = tally (refused_as Proxy.Quarantined) xs ∧
  count_of m cacheMisses = tally (refused_as Proxy.NoBackend) xs ∧ count_of m backendErrors = count_of m cacheMisses ∧
  count_of m cacheHitsLocal + count_of m cacheHitsStore = tally routed xs ∧
  count_of m totalRequests =
    count_of m authFailures + count_of m rateLimited + count_of m poisonPillBlocked + count_of m cacheMisses +
    count_of m cacheHitsLocal + count_of m cacheHitsStore + tally s_public xs ∧
  (Forall (λ x, failed x = true) xs → count_of m backendErrors = 0) ∧
  ∀ b, default 0 (backendRequests m !! b) = tally (sent_to b) xs + tally (λ x, chosen b x && turned_away x) xs.
Proof.
  intros Hx Ho Hks Hlen m. pose proof (λ f g, books xs others ks f g Hx Ho Hks) as Hb.
  pose proof (λ c f, counter_books xs others ks c f Hx Ho Hks Hlen) as Hc.
  assert (Htotal : count_of m totalRequests = Z.of_nat (length xs)).
  { unfold m. rewrite (Hc _ (λ _, true)); [unfold tally; rewrite zsum_const; lia|by intros []|entries]. }
  assert (Hauth : count_of m authFailures = tally (refused_as Proxy.Unauthorized) xs) by (apply Hc; [by intros []|entries]).
  assert (Hrate : count_of m rateLimited = tally (refused_as Proxy.RateLimited) xs) by (apply Hc; [by intros []|entries]).
  assert (Hpoison : count_of m poisonPillBlocked = tally (refused_as Proxy.Quarantined) xs) by (apply Hc; [by intros []|entries]).
  assert (Hmiss : count_of m cacheMisses = tally (refused_as Proxy.NoBackend) xs) by (apply Hc; [by intros []|entries]).
  assert (Herr : count_of m backendErrors = tally (refused_as Proxy.NoBackend) xs) by (apply Hc; [by intros []|entries]).
  assert (Hhits : count_of m cacheHitsLocal + count_of m cacheHitsStore = tally routed xs) by (by apply (hits_books xs others)).
  assert (Hall : Z.of_nat (length xs) = tally (refused_as Proxy.Unauthorized) xs + tally (refused_as Proxy.RateLimited) xs +
    tally (refused_as Proxy.Quarantined) xs + tally (refused_as Proxy.NoBackend) xs + tally routed xs + tally s_public xs).
  { rewrite <- (every_entry xs others ks Hx Ho Hks). unfold tally. rewrite <- !zsum_add.
    apply Hb; [by intros []|]. entries. }
  split; [done|]. split; [|split].
  - unfold m. rewrite run_calls_duration by done. rewrite (Hb _ (λ _, 1)), zsum_const; [|by intros []|entries].
    simpl. rewrite Z.mod_small; lia.
  - unfold m. rewrite run_calls_gauge by done. rewrite (Hb _ (λ _, 0)), zsum_const; [done|by intros []|entries].
  - do 4 (split; [done|]). split; [congruence|]. split; [done|]. split; [lia|]. split.
    { intros Hf. rewrite Herr. apply zsum_zero. intros x Hx'. eapply Forall_forall in Hf; [|done].
      unfold failed in Hf. unfold refused_as. by destruct (s_answer x). }
    intros b. rewrite <- (tally_chosen b). unfold m.
    rewrite run_calls_backend by done. rewrite (Hb _ (λ x, if chosen b x then 1 else 0)); [|by intros []|entries].
    simpl. by apply Z.mod_small, (tally_bounds (chosen b)).
Qed.
End balance.
End ProxyMetrics.
