(* ===== verification/WsBuffer.v ===== *)
(** * websocket.go: reading a message into a pooled buffer

    [readAllPooled] reads an [io.Reader] to its end into the array of a pooled
    slice, growing it when it is full.  The reader is modelled by what its
    calls of Read may return: a list of chunks, a chunk that does not fit being
    cut, then the error that ends it.  The result does not depend on how the
    data is cut, and an array with room for the message is reused. *)
From stdpp Require Import base list.
From Stdlib Require Import ZArith Lia.
From S2P Require Import Prelude Go.
Local Open Scope nat_scope.

Module WsBuffer.

(** ** Data *)

(** How a reader ends: io.EOF or another error. *)
Inductive rend := EOF | ReadError (e : string).

(** What is left to read; [together] says whether the last chunk is returned
    with the error, or the error by a further call. *)
Record reader := mkReader { chunks : list (list Z); fin : rend; together : bool }.

(** [r.Read(p)] with [len(p) = space]: the bytes, the error, the rest. *)
Definition Read (space : nat) (r : reader) : list Z * option rend * reader :=
  match chunks r with
  | [] => ([], Some (fin r), r)
  | c :: cs =>
      if decide (length c ≤ space) then
        (c, if together r && bool_decide (cs = []) then Some (fin r) else None,
          mkReader cs (fin r) (together r))
      else (take space c, None, mkReader (drop space c :: cs) (fin r) (together r))
  end.

(** A slice of length [len] over the array [arr]; the capacity is the length
    of the array. *)
Record slice := mkSlice { arr : list Z; len : nat }.

Definition bytes (b : slice) : list Z := take (len b) (arr b).

(** ** Operations *)

(** [make] and [copy], when the slice is full. *)
Definition grow (b : slice) : slice :=
  if decide (len b = length (arr b)) then
    mkSlice (take (len b) (arr b) ++ replicate (length (arr b) * 2 + 4096 - len b) 0%Z) (len b)
  else b.

(** Read into [b[len(b):cap(b)]], then [b = b[:len(b)+n]]. *)
Definition store (b : slice) (bs : list Z) : slice :=
  mkSlice (take (len b) (arr b) ++ bs ++ drop (len b + length bs) (arr b)) (len b + length bs).

(** The calls of Read left at most. *)
Definition work (r : reader) : nat := S (sum_list_with (λ c, S (length c)) (chunks r)).

Fixpoint read_loop (fuel : nat) (b : slice) (r : reader) : option (slice * option rend) :=
  match fuel with
  | O => None
  | S fuel =>
      let b := grow b in
      let '(bs, err, r) := Read (length (arr b) - len b) r in
      let b := store b bs in
      match err with
      | Some EOF => Some (b, None)
      | Some e => Some (b, Some e)
      | None => read_loop fuel b r
      end
  end.

(** [readAllPooled(r, bp)] where [*bp] has the array [a]: the new [*bp] and the
    error. *)
Definition readAllPooled (r : reader) (a : list Z) : option (slice * option rend) :=
  read_loop (work r) (mkSlice a 0) r.

(** ** What it computes *)

Definition well_formed (b : slice) : Prop := len b ≤ length (arr b).

Lemma grow_wf b : well_formed b → well_formed (grow b) ∧ len (grow b) < length (arr (grow b)) ∧ bytes (grow b) = bytes b.
Proof.
  unfold well_formed, grow, bytes. intros Hb. case_decide as H; simpl; [|split_and!; [done|lia|done]].
  rewrite length_app, length_take, length_replicate. split_and!; [lia..|].
  rewrite take_app_le by (rewrite length_take; lia). by rewrite take_take, Nat.min_id.
Qed.

Lemma store_wf b bs : well_formed b → len b + length bs ≤ length (arr b) →
  well_formed (store b bs) ∧ bytes (store b bs) = bytes b ++ bs ∧ length (arr (store b bs)) = length (arr b).
Proof.
  unfold well_formed, store, bytes. simpl. intros Hb Hs.
  rewrite !length_app, length_take, length_drop. split_and!; [lia| |lia].
  rewrite app_assoc, take_app_length'; [done|]. rewrite length_app, length_take. lia.
Qed.

Lemma Read_spec space r bs err r' :
  0 < space → Read space r = (bs, err, r') →
  length bs ≤ space ∧ concat (chunks r) = bs ++ concat (chunks r') ∧ fin r' = fin r ∧
  match err with
  | Some e => chunks r' = [] ∧ e = fin r
  | None => work r' < work r
  end.
Proof.
  unfold Read, work. intros Hs. destruct r as [[|c cs] f tg]; simpl.
  - intros [= <- <- <-]. simpl. split_and!; [lia|done..].
  - case_decide as Hc; intros [= <- <- <-]; simpl.
    + split_and!; [done|done|done|]. destruct tg, cs; simpl; try lia. done.
    + rewrite length_take, length_drop. split_and!; [lia| |done|lia].
      by rewrite app_assoc, take_drop.
Qed.

Lemma read_loop_spec fuel b r :
  well_formed b → work r ≤ fuel →
  ∃ b' err, read_loop fuel b r = Some (b', err) ∧ well_formed b' ∧
    bytes b' = bytes b ++ concat (chunks r) ∧
    err = (match fin r with EOF => None | e => Some e end) ∧
    length (arr b) ≤ length (arr b') ∧
    (len b + length (concat (chunks r)) < length (arr b) → length (arr b') = length (arr b)).
Proof.
  revert b r. induction fuel as [|fuel IH]; intros b r Hb Hf; [unfold work in Hf; lia|]. cbn [read_loop].
  destruct (grow_wf b Hb) as (Hg & Hlt & Hgb).
  assert (Hcap : length (arr b) ≤ length (arr (grow b)) ∧ len (grow b) = len b ∧
    (len b < length (arr b) → length (arr (grow b)) = length (arr b))).
  { unfold grow, well_formed in *. case_decide as H; simpl; [|lia].
    rewrite length_app, length_take, length_replicate. lia. }
  destruct Hcap as (Hcap & Hlen & Hsame).
  destruct (Read _ r) as [[bs err] r'] eqn:HR. apply Read_spec in HR as (Hbs & Hcat & Hfin & Herr); [|lia].
  destruct (store_wf (grow b) bs Hg) as (Hs & Hsb & Hsl); [lia|].
  rewrite Hcat, length_app. destruct err as [e|].
  - destruct Herr as [Hnil ->]. rewrite Hnil, app_nil_r, Hgb in *. simpl.
    destruct (fin r); eexists _, _; (split; [reflexivity|]); rewrite Hsb, Hsl; split_and!; try done; lia.
  - destruct (IH (store (grow b) bs) r' Hs ltac:(lia)) as (b' & err' & -> & Hw & Hby & He & Hle & Heq).
    exists b', err'. rewrite Hby, Hsb, Hgb, He, Hfin, app_assoc, Hsl in *. split_and!; try done; [lia|].
    intros Ht. rewrite Heq; [lia|]. unfold store. simpl. lia.
Qed.

(** [readAllPooled] terminates and its result does not depend on how the
    data is cut: the slice holds what the reader returned, the error is the
    reader's unless it is io.EOF, and the array is kept, without allocation,
    when it has room for more than the message. *)
Theorem readAllPooled_spec r a :
  ∃ b err, readAllPooled r a = Some (b, err) ∧ bytes b = concat (chunks r) ∧ len b = length (concat (chunks r)) ∧
    err = (match fin r with EOF => None | e => Some e end) ∧
    (length (concat (chunks r)) < length a → length (arr b) = length a).
Proof.
  unfold readAllPooled. destruct (read_loop_spec (work r) (mkSlice a 0) r) as (b & err & -> & Hw & Hb & He & _ & Hk);
    [unfold well_formed; simpl; lia|done|].
  exists b, err. unfold bytes in *. simpl in *. split_and!; try done.
  rewrite <- Hb, length_take. unfold well_formed in Hw. lia.
Qed.

(** A message of exactly the capacity makes the buffer grow, unless its end
    comes with its last bytes. *)
Example exact_fit :
  (λ p, length (arr p.1)) <$> readAllPooled (mkReader [[1; 2]; [3; 4]]%Z EOF false) [0; 0; 0; 0]%Z = Some 4104 ∧
  (λ p, length (arr p.1)) <$> readAllPooled (mkReader [[1; 2]; [3; 4]]%Z EOF true) [0; 0; 0; 0]%Z = Some 4.
Proof. by vm_compute. Qed.

End WsBuffer.
