(* ===== verification/WebSocket.v ===== *)
(** * websocket.go: the bridge between a client and its backend

    [WSBridge.run] relays messages between two connections with five
    goroutines: a reader and a write pump for each connection, and the main
    loop, joined by bounded channels; SwapBackend, Close and the other bridges
    of the process run beside them.  Here each goroutine is a state machine
    whose steps are the communications and the calls of the code, and [exec1]
    is one step of the whole.  A connection ([leg]) has what its peer has sent
    and is not yet read ([inbox]), its reader and its pump; the buffers of
    messages are pointers into a heap shared with the other bridges through
    [wsMsgBufPool].  Histories ([hist], [sent]) record what was read from a
    connection and what was written to it. *)
From stdpp Require Import base gmap list strings.
From Stdlib Require Import ZArith Lia.
From S2P Require Import Prelude Go WsBuffer.
Import WsBuffer.
Local Open Scope nat_scope.

Module WS.

(** ** Data *)

Inductive mtype := TextMessage | BinaryMessage.

#[export] Instance mtype_eq_dec : EqDecision mtype.
Proof. solve_decision. Defined.

(** The errors of a connection: the close frame of the peer, or another. *)
Inductive wserr := CloseError (code : Z) | NetError (e : string).

Definition CloseNormalClosure : Z := 1000.
Definition CloseGoingAway : Z := 1001.

Definition IsCloseError (e : wserr) (codes : list Z) : bool :=
  match e with CloseError c => bool_decide (c ∈ codes) | NetError _ => false end.

Definition errClosed : wserr := NetError "use of closed network connection".

(** A [wsMsg] with data: its type, the length of its data and the pooled
    buffer the data is in. *)
Record dmsg := mkMsg { msgType : mtype; dlen : nat; bp : nat }.

(** A [wsMsg]: data, or an error. *)
Inductive wsMsg := Msg (m : dmsg) | ErrMsg (e : wserr).

(** What a peer sends: a message, which may break off, or the end. *)
Inductive event := Frame (mt : mtype) (r : reader) | Fault (e : wserr).

(** What a peer is sent. *)
Inductive frame := Data (mt : mtype) (bs : list Z) | CloseFrame (code : Z) (text : string).

(** The arrays behind the pooled pointers, and [wsMsgBufPool]. *)
Record heap := mkHeap { mem : gmap nat (list Z); pool : list nat }.

(** [wsReadPump]: reading, or at its select with a message, or returned (also:
    not started). *)
Inductive rstate := Reading | Holding (m : wsMsg) | RStopped.

(** [wsWritePump]: at its first select, in the drain loop, at [mu.Lock()], in
    the write loop (with [writeErr != nil]?), returned. *)
Inductive pstate := Idle | Draining | Locking | Writing (failed : bool) | PStopped.

(** The reading half of a connection: [rch] is the channel of capacity 8. *)
Record rside := mkR {
  inbox : list event;
  hist : list (mtype * list Z);
  rd : rstate;
  cancelled : bool;          (* ctx.Done() is closed *)
  rch : list wsMsg
}.

(** The writing half: [wch] is the channel of capacity 16, [werr] the one of
    capacity 1 for the error. *)
Record wside := mkW {
  wch : list dmsg;
  batch : list dmsg;
  pump : pstate;
  done : bool;               (* the done channel is closed *)
  werr : bool;
  sent : list frame
}.

Record leg := mkLeg { closed : bool; rs : rside; ws : wside }.

(** The calls of [run]'s deferred function and of [doSwap]. *)
Inductive instr :=
  | IClientCancel                (* clientCancel() *)
  | ICloseClientDone             (* close(b.clientWriteDone) *)
  | IStop                        (* b.stopBackendWritePump() *)
  | IDrain                       (* its loop *)
  | ICloseClient                 (* b.client.Close() *)
  | ICloseBackend                (* b.backend.Close() *)
  | IReaderCancel                (* b.readerCancel(), unless nil *)
  | IDial (u : string)           (* b.dialBackend(newURL) *)
  | IAttach                      (* b.backend = newConn; b.startBackendWritePump() *)
  | IForward.                    (* the loop over clientCh, b.startBackendReader() *)

#[export] Instance instr_eq_dec : EqDecision instr.
Proof. solve_decision. Defined.

(** Where the main goroutine is. *)
Inductive pc :=
  | Loop                         (* the select *)
  | HandC (m : dmsg)             (* the select that hands m to the backend's pump *)
  | HandB (m : dmsg)             (* the select that hands m to the client's pump *)
  | SendClose                    (* before the close frame to the client *)
  | WaitDrain (u : string)       (* <-backendCh *)
  | Seq (l : list instr).        (* straight-line code; [] is the end of run *)

Definition cleanup : list instr :=
  [IClientCancel; ICloseClientDone; IStop; ICloseClient; ICloseBackend; IReaderCancel].

(** [doSwap] up to the dial, and after it. *)
Definition swap_prog (u : string) : list instr := [IReaderCancel; IStop; IDial u].
Definition attach_prog : list instr := [ICloseBackend; IAttach; IForward].

(** The bridge.  [olds] are the backends swapped out, oldest first, whose
    goroutines may still run; [closers] and [cclosers] count the calls of
    SwapBackend and of Close that are about to close a connection; [foreign]
    are the buffers that other bridges hold. *)
Record st := mkSt {
  client : leg;
  olds : list leg;
  cur : leg;
  swapCh : option string;
  backendWriteDone : bool;       (* not nil *)
  readerCancel : bool;           (* not nil *)
  main : pc;
  closers : nat;
  cclosers : nat;
  hp : heap;
  foreign : list nat
}.

(** ** Buffers *)

(** Take one occurrence of [i] out of a collection. *)
Fixpoint take_out (i : nat) (l : list nat) : option (list nat) :=
  match l with
  | [] => None
  | j :: l => if decide (i = j) then Some l else cons j <$> take_out i l
  end.

(** [wsMsgBufPool.Get()]: a pooled buffer or a new one. *)
Definition get_buf (i : nat) (h : heap) : option (list Z * heap) :=
  match take_out i (pool h) with
  | Some p => Some (default [] (mem h !! i), mkHeap (mem h) p)
  | None => match mem h !! i with None => Some (replicate 4096 0%Z, h) | Some _ => None end
  end.

Definition put_buf (i : nat) (h : heap) : heap := mkHeap (mem h) (i :: pool h).

Definition release (m : dmsg) (h : heap) : heap := put_buf (bp m) h.

(** [msg.data]. *)
Definition data (h : heap) (m : dmsg) : list Z := take (dlen m) (default [] (mem h !! bp m)).

(** [wsReadPooled], after a NextReader that succeeded. *)
Definition wsReadPooled (i : nat) (mt : mtype) (r : reader) (h : heap) : option (wsMsg * heap) :=
  '(a, h) ← get_buf i h;
  '(b, err) ← readAllPooled r a;
  let h := mkHeap (<[i := arr b]> (mem h)) (pool h) in
  match err with
  | None => Some (Msg (mkMsg mt (len b) i), h)
  | Some (ReadError e) => Some (ErrMsg (NetError e), put_buf i h)
  | Some EOF => Some (ErrMsg (NetError "EOF"), put_buf i h)
  end.

(** ** Readers *)

Inductive ract :=
  | RRead (i : nat)      (* a message is read into buffer i *)
  | RFault               (* the connection fails or is closed *)
  | RSend                (* ch <- msg *)
  | RCancel.             (* <-ctx.Done() *)

Definition read_cap : nat := 8.

(** The message a frame carries, when it is whole. *)
Definition whole (mt : mtype) (r : reader) : list (mtype * list Z) :=
  match fin r with EOF => [(mt, concat (chunks r))] | _ => [] end.

Definition reader_step (isClosed : bool) (a : ract) (r : rside) (h : heap) : option (rside * heap) :=
  match a, rd r with
  | RRead i, Reading =>
      match inbox r with
      | Frame mt rdr :: evs =>
          '(m, h) ← wsReadPooled i mt rdr h;
          Some (mkR evs (hist r ++ whole mt rdr) (Holding m) (cancelled r) (rch r), h)
      | _ => None
      end
  | RFault, Reading =>
      match inbox r with
      | Fault e :: evs => Some (mkR evs (hist r) (Holding (ErrMsg e)) (cancelled r) (rch r), h)
      | _ => if isClosed then Some (mkR (inbox r) (hist r) (Holding (ErrMsg errClosed)) (cancelled r) (rch r), h)
             else None
      end
  | RSend, Holding m =>
      if decide (length (rch r) < read_cap) then
        Some (mkR (inbox r) (hist r) (match m with Msg _ => Reading | ErrMsg _ => RStopped end)
                (cancelled r) (rch r ++ [m]), h)
      else None
  | RCancel, Holding m =>
      if cancelled r then
        Some (mkR (inbox r) (hist r) RStopped (cancelled r) (rch r),
              match m with Msg m => release m h | ErrMsg _ => h end)
      else None
  | _, _ => None
  end.

(** ** Write pumps *)

Inductive pact :=
  | PTake                (* the first message of a batch *)
  | PDone                (* <-done *)
  | PDrain               (* one more message *)
  | PFlush               (* break drain *)
  | PLock                (* mu.Lock() *)
  | PWrite (ok : bool)   (* one message of the batch *)
  | PEnd.                (* the end of the batch *)

Definition write_cap : nat := 16.

Definition pump_step (isClosed mufree : bool) (a : pact) (w : wside) (h : heap) : option (wside * heap) :=
  match a, pump w with
  | PTake, Idle =>
      match wch w with
      | m :: ms => Some (mkW ms [m] Draining (done w) (werr w) (sent w), h)
      | [] => None
      end
  | PDone, Idle => if done w then Some (mkW (wch w) [] PStopped (done w) (werr w) (sent w), h) else None
  | PDrain, Draining =>
      match wch w with
      | m :: ms =>
          if decide (length (batch w) < write_cap) then
            Some (mkW ms (batch w ++ [m]) Draining (done w) (werr w) (sent w), h)
          else None
      | [] => None
      end
  | PFlush, Draining =>
      if decide (wch w = [] ∨ write_cap ≤ length (batch w)) then
        Some (mkW (wch w) (batch w) Locking (done w) (werr w) (sent w), h)
      else None
  | PLock, Locking =>
      if mufree : bool then Some (mkW (wch w) (batch w) (Writing false) (done w) (werr w) (sent w), h) else None
  | PWrite ok, Writing failed =>
      match batch w with
      | m :: ms =>
          if ok then
            if isClosed || failed then None
            else Some (mkW (wch w) ms (Writing false) (done w) (werr w)
                         (sent w ++ [Data (msgType m) (data h m)]), release m h)
          else Some (mkW (wch w) ms (Writing true) (done w) (werr w) (sent w), release m h)
      | [] => None
      end
  | PEnd, Writing failed =>
      match batch w with
      | [] => Some (mkW (wch w) [] (if failed then PStopped else Idle) (done w) (failed || werr w) (sent w), h)
      | _ => None
      end
  | _, _ => None
  end.

(** ** Connections *)

(** A connection whose goroutines have not been started, and the two calls
    that start them. *)
Definition new_leg : leg :=
  mkLeg false (mkR [] [] RStopped false []) (mkW [] [] PStopped false false []).

Definition start_pump (l : leg) : leg :=
  mkLeg (closed l) (rs l) (mkW [] [] Idle false false (sent (ws l))).

Definition start_reader (l : leg) : leg :=
  mkLeg (closed l) (mkR (inbox (rs l)) (hist (rs l)) Reading false []) (ws l).

Definition close_leg (l : leg) : leg := mkLeg true (rs l) (ws l).

Definition cancel_leg (l : leg) : leg :=
  mkLeg (closed l) (mkR (inbox (rs l)) (hist (rs l)) (rd (rs l)) true (rch (rs l))) (ws l).

Definition done_leg (l : leg) : leg :=
  mkLeg (closed l) (rs l) (mkW (wch (ws l)) (batch (ws l)) (pump (ws l)) true (werr (ws l)) (sent (ws l))).

Definition set_rch (c : list wsMsg) (l : leg) : leg :=
  mkLeg (closed l) (mkR (inbox (rs l)) (hist (rs l)) (rd (rs l)) (cancelled (rs l)) c) (ws l).

Definition set_wch (c : list dmsg) (l : leg) : leg :=
  mkLeg (closed l) (rs l) (mkW c (batch (ws l)) (pump (ws l)) (done (ws l)) (werr (ws l)) (sent (ws l))).

Definition clear_werr (l : leg) : leg :=
  mkLeg (closed l) (rs l) (mkW (wch (ws l)) (batch (ws l)) (pump (ws l)) (done (ws l)) false (sent (ws l))).

(** A close frame, which a closed connection does not send. *)
Definition send_close (ok : bool) (code : Z) (text : string) (l : leg) : leg :=
  mkLeg (closed l) (rs l) (mkW (wch (ws l)) (batch (ws l)) (pump (ws l)) (done (ws l)) (werr (ws l))
    (sent (ws l) ++ if ok && negb (closed l) then [CloseFrame code text] else [])).

Definition arrive (e : event) (l : leg) : leg :=
  mkLeg (closed l) (mkR (inbox (rs l) ++ [e]) (hist (rs l)) (rd (rs l)) (cancelled (rs l)) (rch (rs l))) (ws l).

(** Does the pump hold its mutex? *)
Definition writing (l : leg) : bool := match pump (ws l) with Writing _ => true | _ => false end.

(** ** The state *)

Definition set_client (l : leg) s :=
  mkSt l (olds s) (cur s) (swapCh s) (backendWriteDone s) (readerCancel s) (main s) (closers s) (cclosers s) (hp s) (foreign s).
Definition set_olds (l : list leg) s :=
  mkSt (client s) l (cur s) (swapCh s) (backendWriteDone s) (readerCancel s) (main s) (closers s) (cclosers s) (hp s) (foreign s).
Definition set_cur (l : leg) s :=
  mkSt (client s) (olds s) l (swapCh s) (backendWriteDone s) (readerCancel s) (main s) (closers s) (cclosers s) (hp s) (foreign s).
Definition set_swapCh (u : option string) s :=
  mkSt (client s) (olds s) (cur s) u (backendWriteDone s) (readerCancel s) (main s) (closers s) (cclosers s) (hp s) (foreign s).
Definition set_bwd (b : bool) s :=
  mkSt (client s) (olds s) (cur s) (swapCh s) b (readerCancel s) (main s) (closers s) (cclosers s) (hp s) (foreign s).
Definition set_rcancel (b : bool) s :=
  mkSt (client s) (olds s) (cur s) (swapCh s) (backendWriteDone s) b (main s) (closers s) (cclosers s) (hp s) (foreign s).
Definition set_main (p : pc) s :=
  mkSt (client s) (olds s) (cur s) (swapCh s) (backendWriteDone s) (readerCancel s) p (closers s) (cclosers s) (hp s) (foreign s).
Definition set_closers (n m : nat) s :=
  mkSt (client s) (olds s) (cur s) (swapCh s) (backendWriteDone s) (readerCancel s) (main s) n m (hp s) (foreign s).
Definition set_heap (h : heap) (f : list nat) s :=
  mkSt (client s) (olds s) (cur s) (swapCh s) (backendWriteDone s) (readerCancel s) (main s) (closers s) (cclosers s) h f.

(** [backendMu] is free. *)
Definition backendMu_free (s : st) : bool := forallb (λ l, negb (writing l)) (cur s :: olds s).

Definition clientMu_free (s : st) : bool := negb (writing (client s)).

(** ** The main goroutine *)

Inductive mact :=
  | MClient              (* <-clientCh *)
  | MBackend             (* <-backendCh *)
  | MBackendErr          (* <-b.backendWriteErr *)
  | MClientErr           (* <-b.clientWriteErr *)
  | MSwap                (* <-b.swapCh *)
  | MSend                (* the message is handed over *)
  | MSendErr             (* the pump has failed *)
  | MClose (ok : bool)   (* the close frame *)
  | MDrain               (* <-backendCh after the backend is closed *)
  | MInstr (ok : bool).  (* the next call; the dial may fail *)

(** [if newURL := b.pendingSwap(); newURL != ""], and what is done otherwise. *)
Definition pending_swap (otherwise : pc) (s : st) : st :=
  match swapCh s with
  | Some u => if decide (u = ""%string) then set_main otherwise (set_swapCh None s)
              else set_main (Seq (swap_prog u)) (set_swapCh None s)
  | None => set_main otherwise s
  end.

Definition do_instr (ok : bool) (i : instr) (rest : list instr) (s : st) : option st :=
  match i with
  | IClientCancel => Some (set_main (Seq rest) (set_client (cancel_leg (client s)) s))
  | ICloseClientDone => Some (set_main (Seq rest) (set_client (done_leg (client s)) s))
  | IStop =>
      Some (if backendWriteDone s then set_main (Seq (IDrain :: rest)) (set_cur (done_leg (cur s)) s)
            else set_main (Seq rest) s)
  | IDrain =>
      Some (match wch (ws (cur s)) with
            | m :: ms => set_heap (release m (hp s)) (foreign s) (set_cur (set_wch ms (cur s)) s)
            | [] => set_main (Seq rest) (set_bwd false s)
            end)
  | ICloseClient => Some (set_main (Seq rest) (set_client (close_leg (client s)) s))
  | ICloseBackend => Some (set_main (Seq rest) (set_cur (close_leg (cur s)) s))
  | IReaderCancel =>
      Some (if readerCancel s then set_main (Seq rest) (set_rcancel false (set_cur (cancel_leg (cur s)) s))
            else set_main (Seq rest) s)
  | IDial u => Some (set_main (Seq (if ok then attach_prog else cleanup)) s)
  | IAttach =>
      if backendMu_free s then
        Some (set_main (Seq rest) (set_bwd true (set_olds (olds s ++ [cur s]) (set_cur (start_pump new_leg) s))))
      else None
  | IForward =>
      Some (match rch (rs (client s)) with
            | ErrMsg e :: ms => set_main (Seq cleanup) (set_client (set_rch ms (client s)) s)
            | Msg m :: ms =>
                let s := set_client (set_rch ms (client s)) s in
                if decide (length (wch (ws (cur s))) < write_cap) then
                  set_cur (set_wch (wch (ws (cur s)) ++ [m]) (cur s)) s
                else set_main (Seq cleanup) (set_heap (release m (hp s)) (foreign s) s)
            | [] => set_main Loop (set_rcancel true (set_cur (start_reader (cur s)) s))
            end)
  end.

Definition main_step (a : mact) (s : st) : option st :=
  match a, main s with
  | MClient, Loop =>
      match rch (rs (client s)) with
      | ErrMsg e :: ms => Some (set_main (Seq cleanup) (set_client (set_rch ms (client s)) s))
      | Msg m :: ms => Some (set_main (HandC m) (set_client (set_rch ms (client s)) s))
      | [] => None
      end
  | MBackend, Loop =>
      match rch (rs (cur s)) with
      | ErrMsg e :: ms =>
          Some (pending_swap (if IsCloseError e [CloseNormalClosure; CloseGoingAway] then SendClose else Seq cleanup)
                  (set_cur (set_rch ms (cur s)) s))
      | Msg m :: ms => Some (set_main (HandB m) (set_cur (set_rch ms (cur s)) s))
      | [] => None
      end
  | MBackendErr, Loop =>
      if werr (ws (cur s)) then Some (pending_swap (Seq cleanup) (set_cur (clear_werr (cur s)) s)) else None
  | MClientErr, Loop =>
      if werr (ws (client s)) then Some (set_main (Seq cleanup) (set_client (clear_werr (client s)) s)) else None
  | MSwap, Loop =>
      match swapCh s with
      | Some u => Some (set_main (WaitDrain u) (set_swapCh None (set_cur (close_leg (cur s)) s)))
      | None => None
      end
  | MSend, HandC m =>
      if decide (length (wch (ws (cur s))) < write_cap) then
        Some (set_main Loop (set_cur (set_wch (wch (ws (cur s)) ++ [m]) (cur s)) s))
      else None
  | MSendErr, HandC m =>
      if werr (ws (cur s)) then
        Some (pending_swap (Seq cleanup) (set_heap (release m (hp s)) (foreign s) (set_cur (clear_werr (cur s)) s)))
      else None
  | MSend, HandB m =>
      if decide (length (wch (ws (client s))) < write_cap) then
        Some (set_main Loop (set_client (set_wch (wch (ws (client s)) ++ [m]) (client s)) s))
      else None
  | MSendErr, HandB m =>
      if werr (ws (client s)) then
        Some (set_main (Seq cleanup) (set_heap (release m (hp s)) (foreign s) (set_client (clear_werr (client s)) s)))
      else None
  | MClose ok, SendClose =>
      if clientMu_free s then
        Some (set_main (Seq cleanup) (set_client (send_close ok CloseNormalClosure "" (client s)) s))
      else None
  | MDrain, WaitDrain u =>
      match rch (rs (cur s)) with
      | _ :: ms => Some (set_main (Seq (swap_prog u)) (set_cur (set_rch ms (cur s)) s))
      | [] => None
      end
  | MInstr ok, Seq (i :: rest) => do_instr ok i rest s
  | _, _ => None
  end.

(** ** The whole *)

Inductive who := Client | Cur | Old (n : nat).

#[export] Instance who_eq_dec : EqDecision who.
Proof. solve_decision. Defined.

Definition leg_of (w : who) (s : st) : option leg :=
  match w with Client => Some (client s) | Cur => Some (cur s) | Old n => olds s !! n end.

Definition set_leg (w : who) (l : leg) (s : st) : st :=
  match w with Client => set_client l s | Cur => set_cur l s | Old n => set_olds (<[n := l]> (olds s)) s end.

Definition mutex_free (w : who) (s : st) : bool :=
  match w with Client => true | _ => backendMu_free s end.

(** The other callers: peers, SwapBackend, Close, other bridges, the garbage
    collector. *)
Inductive xact :=
  | XRecv (w : who) (e : event)
  | XSwap (u : string)          (* SwapBackend: the select *)
  | XSwapClose                  (* its b.backend.Close() *)
  | XClose (ok : bool)          (* Close: the close frame *)
  | XCloseConn                  (* its b.client.Close() *)
  | XGet (i : nat) | XPut (i : nat) | XWrite (i : nat) (a : list Z)
  | XCollect (i : nat).

Definition other_step (a : xact) (s : st) : option st :=
  match a with
  | XRecv w e => l ← leg_of w s; if closed l then None else Some (set_leg w (arrive e l) s)
  | XSwap u =>
      Some (set_closers (S (closers s)) (cclosers s)
              (match swapCh s with None => set_swapCh (Some u) s | Some _ => s end))
  | XSwapClose =>
      match closers s with
      | S n => Some (set_closers n (cclosers s) (set_cur (close_leg (cur s)) s))
      | O => None
      end
  | XClose ok =>
      if clientMu_free s then
        Some (set_closers (closers s) (S (cclosers s))
                (set_client (send_close ok CloseGoingAway "backend reassigned" (client s)) s))
      else None
  | XCloseConn =>
      match cclosers s with
      | S n => Some (set_closers (closers s) n (set_client (close_leg (client s)) s))
      | O => None
      end
  | XGet i => '(a, h) ← get_buf i (hp s); Some (set_heap (mkHeap (<[i := a]> (mem h)) (pool h)) (i :: foreign s) s)
  | XPut i => f ← take_out i (foreign s); Some (set_heap (put_buf i (hp s)) f s)
  | XWrite i a =>
      if decide (i ∈ foreign s) then Some (set_heap (mkHeap (<[i := a]> (mem (hp s))) (pool (hp s))) (foreign s) s)
      else None
  | XCollect i => p ← take_out i (pool (hp s)); Some (set_heap (mkHeap (mem (hp s)) p) (foreign s) s)
  end.

Inductive act := ARead (w : who) (a : ract) | APump (w : who) (a : pact) | AMain (a : mact) | AOther (a : xact).

Definition exec1 (a : act) (s : st) : option st :=
  match a with
  | ARead w a =>
      l ← leg_of w s;
      '(r, h) ← reader_step (closed l) a (rs l) (hp s);
      Some (set_leg w (mkLeg (closed l) r (ws l)) (set_heap h (foreign s) s))
  | APump w a =>
      l ← leg_of w s;
      '(p, h) ← pump_step (closed l) (mutex_free w s) a (ws l) (hp s);
      Some (set_leg w (mkLeg (closed l) (rs l) p) (set_heap h (foreign s) s))
  | AMain a => main_step a s
  | AOther a => other_step a s
  end.

Fixpoint exec (l : list act) (s : st) : option st :=
  match l with
  | [] => Some s
  | a :: l => s' ← exec1 a s; exec l s'
  end.

(** [newWSBridge] and the beginning of [run], in a process whose pool and other
    bridges hold the given buffers. *)
Definition start (h : heap) (f : list nat) : st :=
  mkSt (start_reader (start_pump new_leg)) [] (start_reader (start_pump new_leg)) None true true Loop 0 0 h f.

End WS.
