(* ===== verification/WsOrder.v ===== *)
(** * The bridge keeps messages whole and in order

    Invariants of the steps of WebSocket.v.  Every pooled buffer has one owner
    (the pool, another bridge, or one message in flight), so a message keeps
    its data until it is written; what is written to the backends, taken
    together, is a subsequence of what was read from the client, and
    conversely; and while the bridge relays, without a failure or a swap,
    nothing is lost. *)
From stdpp Require Import base gmap list strings relations.
From Stdlib Require Import ZArith Lia.
From S2P Require Import Prelude Go WsBuffer WebSocket.
Import WsBuffer WS.
Local Open Scope nat_scope.

Module WsOrder.

(** ** Owners of buffers *)

Fixpoint datas (l : list wsMsg) : list dmsg :=
  match l with
  | [] => []
  | Msg m :: l => m :: datas l
  | ErrMsg _ :: l => datas l
  end.

Definition held (r : rstate) : list dmsg := match r with Holding (Msg m) => [m] | _ => [] end.

(** The messages read from a connection and not yet taken by the main
    goroutine, and those waiting to be written to it. *)
Definition got (r : rside) : list dmsg := datas (rch r) ++ held (rd r).
Definition due (w : wside) : list dmsg := batch w ++ wch w.

Definition leg_msgs (l : leg) : list dmsg := due (ws l) ++ got (rs l).

Definition handC (s : st) : list dmsg := match main s with HandC m => [m] | _ => [] end.
Definition handB (s : st) : list dmsg := match main s with HandB m => [m] | _ => [] end.

(** All messages in flight. *)
Definition in_flight (s : st) : list dmsg :=
  leg_msgs (client s) ++ handC s ++ handB s ++ leg_msgs (cur s) ++ (olds s ≫= leg_msgs).

Fixpoint cnt (i : nat) (l : list nat) : nat :=
  match l with [] => 0 | j :: l => (if decide (i = j) then 1 else 0) + cnt i l end.

Lemma cnt_app i l k : cnt i (l ++ k) = cnt i l + cnt i k.
Proof. induction l as [|j l IH]; simpl; [done|]. rewrite IH. lia. Qed.

Lemma cnt_elem i l : i ∈ l ↔ 0 < cnt i l.
Proof.
  induction l as [|j l IH]; simpl; [split; [by intros ?%elem_of_nil|lia]|].
  rewrite elem_of_cons, IH. case_decide; naive_solver lia.
Qed.

Definition uses (i : nat) (l : list dmsg) : nat := cnt i (bp <$> l).

Lemma uses_app i l k : uses i (l ++ k) = uses i l + uses i k.
Proof. unfold uses. by rewrite fmap_app, cnt_app. Qed.

Lemma uses_cons i m l : uses i (m :: l) = (if decide (i = bp m) then 1 else 0) + uses i l.
Proof. done. Qed.

Lemma uses_nil i : uses i [] = 0.
Proof. done. Qed.

Lemma uses_elem i m l : m ∈ l → bp m = i → 0 < uses i l.
Proof. intros Hm <-. apply cnt_elem, list_elem_of_fmap. eauto. Qed.

(** A buffer that does not exist yet counts as owned by nobody else. *)
Definition unborn (i : nat) (h : heap) : nat := match mem h !! i with None => 1 | Some _ => 0 end.

(** The owners of buffer [i]. *)
Definition owners (i : nat) (s : st) : nat :=
  unborn i (hp s) + cnt i (pool (hp s)) + cnt i (foreign s) + uses i (in_flight s).

Lemma take_out_cnt i l l' j : take_out i l = Some l' → cnt j l = (if decide (j = i) then 1 else 0) + cnt j l'.
Proof.
  revert l'. induction l as [|k l IH]; intros l'; simpl; [done|].
  destruct (decide (i = k)) as [->|Hk]; [by intros [= ->]|]. intros (l0 & Hl & ->)%fmap_Some. simpl. rewrite (IH l0 Hl). lia.
Qed.

Lemma take_out_None i l : take_out i l = None → cnt i l = 0.
Proof.
  induction l as [|k l IH]; simpl; [done|]. case_decide; [done|]. rewrite fmap_None. intros H1. by rewrite IH.
Qed.

(** ** Readers and pumps, one step *)

(** A step of a goroutine with heaps [h] and [h'] moves the buffers it uses
    ([l] and [l']) from and to the pool, and writes only into buffers nobody
    owned. *)
Record heap_step (h h' : heap) (l l' : list dmsg) : Prop := {
  hs_owners i : unborn i h' + cnt i (pool h') + uses i l' ≤ unborn i h + cnt i (pool h) + uses i l;
  hs_frame i : unborn i h + cnt i (pool h) = 0 → mem h' !! i = mem h !! i
}.

Lemma heap_step_same h l l' : (∀ i, uses i l' ≤ uses i l) → heap_step h h l l'.
Proof. intros H. split; [|done]. intros i. specialize (H i). lia. Qed.

Lemma heap_step_release m h l l' :
  (∀ i, uses i l' + uses i [m] ≤ uses i l) → heap_step h (release m h) l l'.
Proof.
  intros H. split; [|done]. intros i. specialize (H i). unfold uses, release, put_buf, unborn in *. simpl in *. lia.
Qed.

Lemma data_frame h h' m : mem h' !! bp m = mem h !! bp m → data h' m = data h m.
Proof. unfold data. by intros ->. Qed.

(** The bytes of a message with its type. *)
Definition val (h : heap) (m : dmsg) : mtype * list Z := (msgType m, data h m).

Lemma val_frame h h' (l : list dmsg) :
  (∀ m, m ∈ l → mem h' !! bp m = mem h !! bp m) → val h' <$> l = val h <$> l.
Proof.
  intros H. apply list_fmap_ext. intros i m Hm. unfold val. f_equal. apply data_frame, H.
  by eapply list_elem_of_lookup_2.
Qed.

Lemma get_buf_spec i h a h' :
  get_buf i h = Some (a, h') →
  mem h' = mem h ∧
  (∀ j, cnt j (pool h') + (if decide (j = i) then 1 else unborn j h) ≤ unborn j h + cnt j (pool h)).
Proof.
  unfold get_buf. destruct (take_out i (pool h)) as [p|] eqn:Ht.
  - intros [= <- <-]. split; [done|]. intros j. rewrite (take_out_cnt _ _ _ j Ht). simpl. case_decide; lia.
  - destruct (mem h !! i) eqn:Hi; [done|]. intros [= <- <-]. split; [done|]. intros j.
    case_decide; [subst|lia]. unfold unborn. rewrite Hi. lia.
Qed.

(** The new array of a buffer taken from the pool. *)
Lemma heap_step_write i h a h' x l l' :
  get_buf i h = Some (a, h') →
  (∀ j, uses j l' ≤ uses j l + if decide (j = i) then 1 else 0) →
  heap_step h (mkHeap (<[i := x]> (mem h')) (pool h')) l l'.
Proof.
  intros (Hm & Hc)%get_buf_spec Hu. split; intros j; specialize (Hc j); specialize (Hu j).
  - unfold unborn in *. simpl. rewrite Hm, lookup_insert. repeat case_decide; naive_solver lia.
  - simpl. intros H0. rewrite Hm, lookup_insert_ne; [done|]. intros ->. rewrite decide_True in Hc by done. lia.
Qed.

(** Two steps in a row. *)
Lemma heap_step_trans h1 h2 h3 l1 l2 l3 :
  heap_step h1 h2 l1 l2 → (∀ i, unborn i h3 + cnt i (pool h3) + uses i l3 ≤ unborn i h2 + cnt i (pool h2) + uses i l2) →
  mem h3 = mem h2 → heap_step h1 h3 l1 l3.
Proof.
  intros [Ho Hf] H Hm. split; intros i; [specialize (Ho i); specialize (H i); lia|]. rewrite Hm. apply Hf.
Qed.

(** Reading a message: its bytes are those of the frame. *)
Lemma wsReadPooled_spec i mt r h m h' :
  wsReadPooled i mt r h = Some (m, h') →
  heap_step h h' [] (held (Holding m)) ∧
  match m with Msg m => whole mt r = [val h' m] | ErrMsg _ => whole mt r = [] end.
Proof.
  unfold wsReadPooled. destruct (get_buf i h) as [[a h1]|] eqn:Hg; [|done]. simpl.
  destruct (readAllPooled_spec r a) as (b & err & -> & Hb & Hl & He & _). simpl.
  set (h2 := mkHeap (<[i := arr b]> (mem h1)) (pool h1)).
  assert (Hs : heap_step h h2 [] [mkMsg mt (len b) i]).
  { eapply heap_step_write; [done|]. intros j. unfold uses. simpl. case_decide; lia. }
  assert (Hp : heap_step h (put_buf i h2) [] []).
  { eapply heap_step_trans; [apply Hs| |done]. intros j. unfold uses, put_buf, unborn. simpl. lia. }
  unfold whole. destruct (fin r) as [|e]; subst err; intros [= <- <-]; (split; [done|]); [|done].
  unfold val, data. simpl. rewrite lookup_insert_eq. simpl. unfold bytes in Hb. by rewrite Hb.
Qed.

Lemma datas_app l k : datas (l ++ k) = datas l ++ datas k.
Proof. induction l as [|[]]; simpl; congruence. Qed.

(** A reader appends what it reads to its channel; it drops a message only when
    it is cancelled. *)
Lemma reader_step_spec c a r h r' h' :
  reader_step c a r h = Some (r', h') →
  heap_step h h' (got r) (got r') ∧ cancelled r' = cancelled r ∧
  ∃ new, hist r' = hist r ++ (val h' <$> new) ∧
    (got r' = got r ++ new ∨ cancelled r = true ∧ got r' `sublist_of` got r ++ new).
Proof.
  unfold reader_step, got. intros H.
  destruct a as [i| | |]; destruct (rd r) as [|m|] eqn:Hr; try done.
  - destruct (inbox r) as [|[mt rdr|e] evs]; try done.
    destruct (wsReadPooled i mt rdr h) as [[m h1]|] eqn:Hw; simpl in H; [|done]. simplify_eq/=.
    apply wsReadPooled_spec in Hw as [Hs Hm]. rewrite app_nil_r. split_and!; [|done|].
    + destruct Hs as [Ho Hf]. split; [|done]. intros j. specialize (Ho j). rewrite uses_app. unfold uses in *. simpl in *. lia.
    + exists (held (Holding m)). split; [f_equal; by destruct m|by left].
  - assert (Hn : ∃ e evs, r' = mkR evs (hist r) (Holding (ErrMsg e)) (cancelled r) (rch r) ∧ h' = h).
    { destruct (inbox r) as [|[]]; [destruct c|destruct c|]; simplify_eq; eauto. }
    destruct Hn as (e & evs & -> & ->). simpl. split_and!; [|done|].
    + by apply heap_step_same.
    + exists []. by rewrite !app_nil_r; eauto.
  - case_decide; [|done]. simplify_eq/=. rewrite datas_app. split_and!; [|done|].
    + apply heap_step_same. intros j. destruct m; simpl; by rewrite app_nil_r.
    + exists []. rewrite !app_nil_r. split; [done|left]. destruct m; simpl; by rewrite ?app_nil_r.
  - destruct (cancelled r) eqn:Hc; [|done]. simplify_eq/=. rewrite ?Hc, app_nil_r. split_and!; [|done|].
    + destruct m as [m|e]; simpl.
      * apply heap_step_release. intros j. by rewrite uses_app.
      * apply heap_step_same. intros j. by rewrite app_nil_r.
    + exists []. rewrite !app_nil_r. split; [done|right]. split; [done|]. by apply sublist_inserts_r.
Qed.

(** The data messages among the frames of a connection. *)
Fixpoint delivered (l : list frame) : list (mtype * list Z) :=
  match l with
  | [] => []
  | Data mt bs :: l => (mt, bs) :: delivered l
  | CloseFrame _ _ :: l => delivered l
  end.

Lemma delivered_app l k : delivered (l ++ k) = delivered l ++ delivered k.
Proof. induction l as [|[]]; simpl; congruence. Qed.

(** A pump that works: it has not failed and has not returned. *)
Definition works (w : wside) : bool :=
  match pump w with Writing true | PStopped => false | _ => true end.

(** Every message of a pump's batch is the pump's, between its selects. *)
Definition batch_ok (w : wside) : Prop := pump w = Idle ∨ pump w = PStopped → batch w = [].

(** What is written and what waits to be. *)
Definition written (h : heap) (w : wside) : list (mtype * list Z) :=
  delivered (sent w) ++ (val h <$> due w).

(** A pump writes its messages in order; it drops messages only when a write
    fails. *)
Lemma pump_step_spec c mu a w h w' h' :
  pump_step c mu a w h = Some (w', h') → batch_ok w →
  heap_step h h' (due w) (due w') ∧ batch_ok w' ∧ mem h' = mem h ∧
  (written h w' = written h w ∨ written h w' `sublist_of` written h w ∧ works w' = false).
Proof.
  unfold pump_step, written, due, batch_ok. intros H Hb.
  destruct a as [| | | | |ok|]; destruct (pump w) as [| | |failed|] eqn:Hp; try done.
  - rewrite Hb in * by auto. destruct (wch w) as [|m ms] eqn:Hw; [done|]. simplify_eq/=.
    split_and!; [by apply heap_step_same|naive_solver|done|by left].
  - destruct (done w); [|done]. rewrite Hb in * by auto. simplify_eq/=. split_and!; [by apply heap_step_same|done|done|by left].
  - destruct (wch w) as [|m ms] eqn:Hw; [done|]. case_decide; [|done]. simplify_eq/=.
    rewrite <- app_assoc. split_and!; [by apply heap_step_same|naive_solver|done|by left].
  - case_decide; [|done]. simplify_eq/=. split_and!; [by apply heap_step_same|naive_solver|done|by left].
  - destruct mu; [|done]. simplify_eq/=. split_and!; [by apply heap_step_same|naive_solver|done|by left].
  - destruct (batch w) as [|m ms]; [done|].
    assert (Hr : heap_step h (release m h) ((m :: ms) ++ wch w) (ms ++ wch w)).
    { apply heap_step_release. intros j. rewrite !uses_app, !uses_cons. unfold uses. simpl. lia. }
    destruct ok; [destruct (c || failed); [done|]|]; simplify_eq/=; (split_and!; [done|naive_solver|done|]).
    + left. rewrite delivered_app. simpl. by rewrite <- app_assoc.
    + right. split; [|done]. apply sublist_app; [done|]. by apply sublist_cons.
  - destruct (batch w) as [|m ms]; [|done]. simplify_eq/=.
    split_and!; [by apply heap_step_same|by destruct failed|done|by left].
Qed.

(** ** Ownership *)

Lemma uses_bind_insert i n l l' (ls : list leg) :
  ls !! n = Some l →
  uses i (<[n := l']> ls ≫= leg_msgs) + uses i (leg_msgs l) = uses i (ls ≫= leg_msgs) + uses i (leg_msgs l').
Proof.
  revert n. induction ls as [|k ls IH]; intros [|n] Hl; simplify_eq/=; rewrite !uses_app; [lia|].
  specialize (IH n Hl). lia.
Qed.

Lemma uses_set_leg i w l l' s :
  leg_of w s = Some l →
  uses i (in_flight (set_leg w l' s)) + uses i (leg_msgs l) = uses i (in_flight s) + uses i (leg_msgs l').
Proof.
  unfold in_flight, handC, handB. destruct w; simpl; intros Hl; simplify_eq; rewrite !uses_app; try lia.
  pose proof (uses_bind_insert i n l l' (olds s) Hl). lia.
Qed.

Lemma in_flight_leg w l s m : leg_of w s = Some l → m ∈ leg_msgs l → m ∈ in_flight s.
Proof.
  unfold in_flight. intros Hl Hm. rewrite !elem_of_app. destruct w; simplify_eq/=; [by auto..|].
  do 4 right. apply list_elem_of_bind. exists l. split; [done|]. by eapply list_elem_of_lookup_2.
Qed.

(** Pumps hold messages only between their selects. *)
Definition pumps_ok (s : st) : Prop :=
  batch_ok (ws (client s)) ∧ batch_ok (ws (cur s)) ∧ Forall (λ l, batch_ok (ws l)) (olds s).

Lemma pumps_ok_leg w l s : pumps_ok s → leg_of w s = Some l → batch_ok (ws l).
Proof.
  intros (H1 & H2 & H3) Hl. destruct w; simplify_eq/=; [done..|]. by eapply Forall_lookup_1 in H3.
Qed.

Lemma pumps_ok_set w l s : pumps_ok s → batch_ok (ws l) → pumps_ok (set_leg w l s).
Proof.
  intros (H1 & H2 & H3) Hl. destruct w; split_and!; simpl; try done. by apply Forall_insert.
Qed.

(** Every buffer has at most one owner. *)
Definition owned_once (s : st) : Prop := ∀ i, owners i s ≤ 1.

Ltac count := unfold owners, in_flight, handC, handB, leg_msgs, due, got in *; simpl in *;
  rewrite ?uses_app, ?uses_cons, ?cnt_app in *; simpl in *; try lia.

Lemma owners_heap_step w l l' h s i :
  leg_of w s = Some l → heap_step (hp s) h (leg_msgs l) (leg_msgs l') →
  owners i (set_leg w l' (set_heap h (foreign s) s)) ≤ owners i s.
Proof.
  intros Hl [Ho _]. specialize (Ho i).
  assert (Hu := uses_set_leg i w l l' (set_heap h (foreign s) s)). specialize (Hu ltac:(by destruct w)).
  unfold owners. replace (hp (set_leg w l' (set_heap h (foreign s) s))) with h by (by destruct w).
  replace (foreign (set_leg w l' (set_heap h (foreign s) s))) with (foreign s) by (by destruct w).
  change (in_flight (set_heap h (foreign s) s)) with (in_flight s) in Hu. lia.
Qed.

(** A step of a leg's reader or pump, with the other half of the leg around
    it. *)
Lemma heap_step_app h h' l l' k : heap_step h h' l l' → heap_step h h' (l ++ k) (l' ++ k).
Proof. intros [Ho Hf]. split; [|done]. intros i. specialize (Ho i). rewrite !uses_app. lia. Qed.

Lemma heap_step_app_l h h' l l' k : heap_step h h' l l' → heap_step h h' (k ++ l) (k ++ l').
Proof. intros [Ho Hf]. split; [|done]. intros i. specialize (Ho i). rewrite !uses_app. lia. Qed.

Lemma owners_release i m s s0 :
  hp s = hp s0 → foreign s = foreign s0 →
  uses i (in_flight s) + uses i [m] ≤ uses i (in_flight s0) →
  owners i (set_heap (release m (hp s)) (foreign s) s) ≤ owners i s0.
Proof.
  intros Hh Hf. unfold owners. rewrite Hh, Hf. simpl. unfold uses, unborn. simpl.
  change (in_flight (set_heap _ _ s)) with (in_flight s). lia.
Qed.

(** The cases of a step of the main goroutine. *)
Ltac main_cases H :=
  match type of H with main_step ?a ?s = _ => destruct a; simpl in H; destruct (main s) eqn:?; try done end;
  unfold do_instr, pending_swap in H;
  repeat match type of H with context [match ?x with _ => _ end] => destruct x eqn:? end; simplify_eq.

Ltac all_uses :=
  unfold in_flight, handC, handB, leg_msgs, due, got; simpl;
  repeat match goal with
  | H : main _ = _ |- _ => rewrite !H
  | H : rch _ = _ |- _ => rewrite !H
  | H : wch _ = _ |- _ => rewrite !H
  end; simpl;
  rewrite ?bind_app; simpl; rewrite ?uses_app, ?uses_cons, ?uses_nil, ?uses_app, ?uses_nil.

Lemma main_step_own a s s' :
  main_step a s = Some s' → mem (hp s') = mem (hp s) ∧ foreign s' = foreign s ∧ ∀ i, owners i s' ≤ owners i s.
Proof.
  intros H. main_cases H; (split_and!; [done|done|]); intros j; unfold owners, unborn, release, put_buf; simpl; all_uses.
  all: try lia. destruct w; rewrite ?uses_cons; lia.
Qed.

Lemma get_buf_frame i h a h' : get_buf i h = Some (a, h') → mem h' = mem h.
Proof. by intros [? _]%get_buf_spec. Qed.

Lemma other_step_own a s s' :
  other_step a s = Some s' →
  (∀ i, owners i s' ≤ owners i s) ∧
  (∀ i, unborn i (hp s) + cnt i (pool (hp s)) + cnt i (foreign s) = 0 → mem (hp s') !! i = mem (hp s) !! i).
Proof.
  assert (Hsame : hp s' = hp s → foreign s' = foreign s → (∀ i, uses i (in_flight s') = uses i (in_flight s)) →
    (∀ i, owners i s' ≤ owners i s) ∧
    (∀ i, unborn i (hp s) + cnt i (pool (hp s)) + cnt i (foreign s) = 0 → mem (hp s') !! i = mem (hp s) !! i)).
  { intros Hh Hf Hu. unfold owners. rewrite Hh, Hf. split; [|done]. intros i. by rewrite Hu. }
  intros H. destruct a as [w e|u| |ok| |i|i|i a|i]; simpl in H.
  - destruct (leg_of w s) as [l|] eqn:Hl; simpl in H; [|done]. destruct (closed l); [done|]. simplify_eq.
    apply Hsame; [by destruct w..|]. intros i. pose proof (uses_set_leg i w l (arrive e l) s Hl) as Hu.
    change (leg_msgs (arrive e l)) with (leg_msgs l) in Hu. lia.
  - simplify_eq. by destruct (swapCh s); apply Hsame.
  - destruct (closers s); [done|]. simplify_eq. by apply Hsame.
  - destruct (clientMu_free s); [|done]. simplify_eq. by apply Hsame.
  - destruct (cclosers s); [done|]. simplify_eq. by apply Hsame.
  - destruct (get_buf i (hp s)) as [[b h]|] eqn:Hg; simpl in H; [|done]. simplify_eq.
    destruct (heap_step_write i (hp s) b h b [] [mkMsg TextMessage 0 i] Hg) as [Ho Hf].
    { intros j. unfold uses. simpl. case_decide; lia. }
    split; [|intros j Hj; apply Hf; lia]. intros j. specialize (Ho j). unfold owners, uses in *. simpl in *.
    change (in_flight (set_heap _ _ s)) with (in_flight s). lia.
  - destruct (take_out i (foreign s)) as [f|] eqn:Ht; simpl in H; [|done]. simplify_eq. split; [|done].
    intros j. unfold owners, unborn. simpl. rewrite (take_out_cnt _ _ _ j Ht).
    change (in_flight (set_heap _ _ s)) with (in_flight s). lia.
  - case_decide as Hi; [|done]. simplify_eq. apply cnt_elem in Hi. split; intros j; unfold owners, unborn; simpl.
    + change (in_flight (set_heap _ _ s)) with (in_flight s). rewrite lookup_insert. repeat case_match; simplify_eq; lia.
    + intros Hj. rewrite lookup_insert_ne; [done|]. intros ->. lia.
  - destruct (take_out i (pool (hp s))) as [f|] eqn:Ht; simpl in H; [|done]. simplify_eq. split; [|done].
    intros j. unfold owners, unborn. simpl. rewrite (take_out_cnt _ _ _ j Ht).
    change (in_flight (set_heap _ _ s)) with (in_flight s). lia.
Qed.

(** Every step leaves the messages in flight as they are. *)
Lemma exec1_own a s s' :
  exec1 a s = Some s' → pumps_ok s → owned_once s →
  owned_once s' ∧ ∀ m, m ∈ in_flight s → mem (hp s') !! bp m = mem (hp s) !! bp m.
Proof.
  intros H Hp Ho.
  assert (Hfree : ∀ m, m ∈ in_flight s → unborn (bp m) (hp s) + cnt (bp m) (pool (hp s)) + cnt (bp m) (foreign s) = 0).
  { intros m Hm. pose proof (uses_elem (bp m) m _ Hm eq_refl). specialize (Ho (bp m)). unfold owners in Ho. lia. }
  assert (Hleg : ∀ w l l' h, leg_of w s = Some l → heap_step (hp s) h (leg_msgs l) (leg_msgs l') →
    let s' := set_leg w l' (set_heap h (foreign s) s) in
    owned_once s' ∧ ∀ m, m ∈ in_flight s → mem (hp s') !! bp m = mem (hp s) !! bp m).
  { intros w l l' h Hl Hs. simpl. split.
    - intros i. etrans; [by eapply owners_heap_step|done].
    - intros m Hm. replace (hp _) with h by (by destruct w). apply Hs. specialize (Hfree m Hm). lia. }
  destruct a as [w a|w a|a|a]; simpl in H.
  - destruct (leg_of w s) as [l|] eqn:Hl; simpl in H; [|done].
    destruct (reader_step _ _ _ _) as [[r h]|] eqn:Hr; simpl in H; [|done]. simplify_eq.
    apply reader_step_spec in Hr as [Hr _]. eapply Hleg; [done|]. by apply heap_step_app_l.
  - destruct (leg_of w s) as [l|] eqn:Hl; simpl in H; [|done].
    destruct (pump_step _ _ _ _ _) as [[r h]|] eqn:Hr; simpl in H; [|done]. simplify_eq.
    apply pump_step_spec in Hr as [Hr _]; [|by apply (pumps_ok_leg w l s)]. eapply Hleg; [done|]. by apply heap_step_app.
  - apply main_step_own in H as (-> & _ & H). split; [|done]. intros i. etrans; [apply H|done].
  - apply other_step_own in H as (H & Hm). split; [|by auto]. intros i. etrans; [apply H|done].
Qed.

Lemma exec1_pumps a s s' : exec1 a s = Some s' → pumps_ok s → pumps_ok s'.
Proof.
  intros H Hp. destruct a as [w a|w a|a|a]; simpl in H.
  - destruct (leg_of w s) as [l|] eqn:Hl; simpl in H; [|done].
    destruct (reader_step _ _ _ _) as [[r h]|] eqn:Hr; simpl in H; [|done]. simplify_eq.
    apply pumps_ok_set; [done|]. by apply (pumps_ok_leg w l s).
  - destruct (leg_of w s) as [l|] eqn:Hl; simpl in H; [|done].
    destruct (pump_step _ _ _ _ _) as [[r h]|] eqn:Hr; simpl in H; [|done]. simplify_eq.
    apply pump_step_spec in Hr as (_ & Hr & _); [|by apply (pumps_ok_leg w l s)]. by apply pumps_ok_set.
  - destruct Hp as (Hc & Hb & Hall). main_cases H; split_and!; try done; simpl.
    apply Forall_app. by split; [|constructor].
  - destruct a as [w e|u| |ok| |i|i|i a|i]; simpl in H.
    { destruct (leg_of w s) as [l|] eqn:Hl; simpl in H; [|done]. destruct (closed l); [done|]. simplify_eq.
      apply pumps_ok_set; [done|]. by apply (pumps_ok_leg w l s). }
    all: repeat (case_match || (apply bind_Some in H as (? & ? & ?))); simplify_eq; done.
Qed.

(** ** Order *)

(** From the client: what is read from it; what is written to the backends,
    the oldest first, or still to be.  And the other way. *)
Definition upstream_at (h : heap) (s : st) : list (mtype * list Z) :=
  (olds s ≫= λ l, written h (ws l)) ++ written h (ws (cur s)) ++ (val h <$> handC s ++ got (rs (client s))).

Definition downstream_at (h : heap) (s : st) : list (mtype * list Z) :=
  written h (ws (client s)) ++ (val h <$> handB s ++ got (rs (cur s))).

Definition upstream (s : st) : list (mtype * list Z) := upstream_at (hp s) s.
Definition downstream (s : st) : list (mtype * list Z) := downstream_at (hp s) s.

Definition backend_hist (s : st) : list (mtype * list Z) :=
  (olds s ≫= λ l, hist (rs l)) ++ hist (rs (cur s)).

(** The bridge relays to its first backend. *)
Definition relaying (s : st) : Prop :=
  olds s = [] ∧ match main s with Loop | HandC _ | HandB _ => True | _ => False end.

Record ordered (s : st) : Prop := {
  od_up : upstream s `sublist_of` hist (rs (client s));
  od_down : downstream s `sublist_of` backend_hist s;
  od_up_eq : relaying s → works (ws (cur s)) = true → upstream s = hist (rs (client s));
  od_down_eq : relaying s → works (ws (client s)) = true → downstream s = backend_hist s
}.

(** The points of [run]'s deferred function and of [doSwap]. *)
Definition cleanup_points : list (list instr) :=
  [cleanup; drop 1 cleanup; drop 2 cleanup; IDrain :: drop 3 cleanup; drop 3 cleanup; drop 4 cleanup;
   drop 5 cleanup; []].

Definition swap_points (u : string) : list (list instr) :=
  [swap_prog u; drop 1 (swap_prog u); IDrain :: drop 2 (swap_prog u); drop 2 (swap_prog u);
   attach_prog; drop 1 attach_prog].

(** Where the main goroutine is and what it has cancelled. *)
Definition shape (s : st) : Prop :=
  match main s with
  | Seq l =>
      l ∈ cleanup_points ∨
      ((∃ u, l ∈ swap_points u) ∨ l = [IForward] ∧ olds s ≠ []) ∧ cancelled (rs (client s)) = false
  | _ => cancelled (rs (client s)) = false ∧ cancelled (rs (cur s)) = false
  end.

(** The messages in flight are read from the heap. *)
Lemma written_frame h h' w :
  (∀ m, m ∈ due w → mem h' !! bp m = mem h !! bp m) → written h' w = written h w.
Proof. intros H. unfold written. f_equal. by apply val_frame. Qed.

Lemma stream_frame h h' s :
  (∀ m, m ∈ in_flight s → mem h' !! bp m = mem h !! bp m) →
  upstream_at h' s = upstream_at h s ∧ downstream_at h' s = downstream_at h s.
Proof.
  intros H. unfold upstream_at, downstream_at.
  assert (Hin : ∀ l : list dmsg, (∀ m, m ∈ l → m ∈ in_flight s) → val h' <$> l = val h <$> l).
  { intros l Hl. apply val_frame. auto. }
  unfold in_flight, leg_msgs in Hin.
  split; [f_equal|].
  - assert (Ho : ∀ l, l ∈ olds s → written h' (ws l) = written h (ws l)).
    { intros l Hl. apply written_frame. intros m Hm. apply H. unfold in_flight. rewrite !elem_of_app.
      do 4 right. apply list_elem_of_bind. exists l. split; [|done]. unfold leg_msgs. rewrite elem_of_app. by left. }
    clear Hin H. induction (olds s) as [|l ls IH]; [done|]. rewrite !bind_cons.
    rewrite Ho, IH; [done|intros; apply Ho; by right|by left].
  - f_equal; [apply written_frame; intros m Hm; apply H; unfold in_flight, leg_msgs; set_solver|].
    apply Hin. set_solver.
  - f_equal; [apply written_frame; intros m Hm; apply H; unfold in_flight, leg_msgs; set_solver|].
    apply Hin. set_solver.
Qed.

(** Subsequences of concatenations. *)
Ltac solve_sublist :=
  rewrite ?delivered_app, ?fmap_app, ?bind_app; simpl; rewrite ?app_nil_r, ?fmap_app, <- ?app_assoc; simpl;
  repeat first
    [ apply sublist_nil_l
    | reflexivity
    | apply sublist_skip
    | apply sublist_app; [reflexivity|]
    | apply sublist_cons
    | apply sublist_inserts_l ].

Ltac streams :=
  unfold upstream_at, downstream_at, written, due, handC, handB, got; simpl;
  repeat match goal with
  | H : main _ = _ |- _ => rewrite !H
  | H : rch _ = _ |- _ => rewrite !H
  | H : wch _ = _ |- _ => rewrite !H
  end; simpl.

Lemma main_step_streams a s s' h :
  main_step a s = Some s' →
  upstream_at h s' `sublist_of` upstream_at h s ∧ downstream_at h s' `sublist_of` downstream_at h s ∧
  hist (rs (client s')) = hist (rs (client s)) ∧ backend_hist s' = backend_hist s.
Proof.
  intros H. main_cases H; split_and!; try done; unfold backend_hist; streams.
  all: try solve [solve_sublist].
  - destruct (ok && _); solve_sublist.
  - destruct w; solve_sublist.
  - apply sublist_app; [done|apply sublist_nil_l].
  - apply sublist_app; [done|apply sublist_nil_l].
Qed.

(** The code at a point of the deferred function or of [doSwap]. *)
Ltac points H :=
  unfold cleanup_points, swap_points, cleanup, swap_prog, attach_prog in H; simpl in H;
  repeat (apply elem_of_cons in H as [H|H]; [try discriminate H|]); [..|by apply elem_of_nil in H].

Ltac at_point := unfold cleanup_points, swap_points; rewrite !elem_of_cons; auto 20.

Lemma pending_swap_shape p s :
  cancelled (rs (client s)) = false → cancelled (rs (cur s)) = false → p = SendClose ∨ p = Seq cleanup →
  shape (pending_swap p s).
Proof.
  intros H1 H2 Hp.
  assert (Hok : ∀ s', client s' = client s → cur s' = cur s → main s' = p → shape s').
  { unfold shape. intros s' -> -> ->. destruct Hp as [->| ->]; [done|left; by left]. }
  unfold pending_swap. destruct (swapCh s) as [u|]; [case_decide|]; [by apply Hok| |by apply Hok].
  unfold shape. simpl. right. split; [|done]. left. exists u. by left.
Qed.

Lemma do_instr_shape ok i rest s s' :
  do_instr ok i rest s = Some s' → main s = Seq (i :: rest) → shape s → shape s'.
Proof.
  unfold shape at 1. intros H Hm Hsh. rewrite Hm in Hsh.
  destruct Hsh as [Hl|[[[u Hl]|[Hl Ho]] Hc]]; [points Hl|points Hl|]; injection Hl as -> ->; simpl in H.
  all: repeat match type of H with context [match ?x with _ => _ end] => destruct x eqn:? end; simplify_eq;
    unfold shape; simpl; rewrite ?Hm.
  all: try solve [left; at_point].
  all: try solve [right; split; [left; exists u; at_point|done]].
  - right. split; [right|done]. split; [done|]. by destruct (olds s).
  - done.
  - right. split; [by right|done].
Qed.

Lemma main_step_shape a s s' : main_step a s = Some s' → shape s → shape s'.
Proof.
  intros H Hsh. destruct (main s) as [|m|m| |u|[|i rest]] eqn:Hm; destruct a; simpl in H; rewrite Hm in H; try done.
  all: try (by apply (do_instr_shape ok i rest s)).
  all: unfold shape in Hsh; rewrite Hm in Hsh; destruct Hsh as [Hc Hb].
  all: repeat match type of H with context [match ?x with _ => _ end] =>
         lazymatch x with pending_swap _ _ => fail | _ => destruct x eqn:? end end; simplify_eq.
  all: try (apply pending_swap_shape; simpl; auto).
  all: unfold shape; simpl; try done; try solve [left; at_point].
  right. split; [left; exists u; at_point|done].
Qed.

(** While the bridge relays, the main goroutine loses nothing. *)
Lemma main_step_relays a s s' h :
  main_step a s = Some s' → shape s → relaying s' →
  relaying s ∧ upstream_at h s' = upstream_at h s ∧ downstream_at h s' = downstream_at h s ∧
  works (ws (cur s')) = works (ws (cur s)) ∧ works (ws (client s')) = works (ws (client s)).
Proof.
  intros H Hsh [Ho Hr].
  assert (Hf : ∀ l, main s = Seq (IForward :: l) → olds s ≠ []).
  { intros l Hm. unfold shape in Hsh. rewrite Hm in Hsh. destruct Hsh as [Hl|[[[u Hl]|[_ Hl]] _]]; [points Hl|points Hl|done]. }
  main_cases H; simpl in *; try done; try (by destruct (Hf _ eq_refl)).
  all: try (match goal with Hm : main _ = Seq _ |- _ => by rewrite Hm in Hr end).
  all: split_and!; try done; [split; [done|]; match goal with Hm : main _ = _ |- _ => by rewrite Hm end|..].
  all: streams; rewrite ?fmap_app, <- ?app_assoc; simpl; done.
Qed.

(** *** The other steps *)

Lemma insert_split (n : nat) (l : leg) (ls : list leg) :
  ls !! n = Some l → ∃ k1 k2, ls = k1 ++ l :: k2 ∧ ∀ x, <[n := x]> ls = k1 ++ x :: k2.
Proof.
  intros H. exists (take n ls), (drop (S n) ls). split; [by rewrite take_drop_middle|].
  intros x. apply insert_take_drop. by eapply lookup_lt_Some.
Qed.

Lemma sublist_fmap {A B} (f : A → B) (l k : list A) : l `sublist_of` k → f <$> l `sublist_of` f <$> k.
Proof. induction 1; simpl; by constructor. Qed.

(** A pump of a backend. *)
Lemma upstream_set_pump w l p h s :
  leg_of w s = Some l → w ≠ Client →
  let s' := set_leg w (mkLeg (closed l) (rs l) p) s in
  (written h p = written h (ws l) → upstream_at h s' = upstream_at h s) ∧
  (written h p `sublist_of` written h (ws l) → upstream_at h s' `sublist_of` upstream_at h s) ∧
  downstream_at h s' = downstream_at h s ∧ backend_hist s' = backend_hist s.
Proof.
  intros Hl Hw. unfold upstream_at, downstream_at, handC, handB, backend_hist.
  destruct w as [| |n]; [done|simplify_eq/=|simpl in *].
  - split_and!; [by intros ->| |done..]. intros H. apply sublist_app; [done|]. by apply sublist_app.
  - destruct (insert_split n l (olds s) Hl) as (k1 & k2 & Hk & Hi). rewrite Hi, Hk.
    rewrite !bind_app, !bind_cons. simpl. split_and!; [by intros ->| |done..].
    intros H. apply sublist_app; [|done]. apply sublist_app; [done|]. by apply sublist_app.
Qed.

(** A reader of a backend that is swapped out. *)
Lemma old_reader n l r new s :
  olds s !! n = Some l → hist r = hist (rs l) ++ new →
  let s' := set_leg (Old n) (mkLeg (closed l) r (ws l)) s in
  (∀ h, upstream_at h s' = upstream_at h s ∧ downstream_at h s' = downstream_at h s) ∧
  backend_hist s `sublist_of` backend_hist s'.
Proof.
  intros Hl Hh. unfold upstream_at, downstream_at, handC, handB, backend_hist. simpl.
  destruct (insert_split n l (olds s) Hl) as (k1 & k2 & Hk & Hi). rewrite Hi, Hk.
  split; [intros h|]; rewrite !bind_app, !bind_cons; simpl; [done|]. rewrite Hh.
  apply sublist_app; [|done]. apply sublist_app; [done|]. apply sublist_app; [|done]. by apply sublist_inserts_r.
Qed.

(** A step that reads [newc] from the client and [newb] from the backend. *)
Lemma ordered_step newc newb s s' :
  ordered s →
  hist (rs (client s')) = hist (rs (client s)) ++ newc → upstream s' `sublist_of` upstream s ++ newc →
  (relaying s' → works (ws (cur s')) = true →
    relaying s ∧ works (ws (cur s)) = true ∧ upstream s' = upstream s ++ newc) →
  (backend_hist s ++ newb) `sublist_of` backend_hist s' → downstream s' `sublist_of` downstream s ++ newb →
  (relaying s' → works (ws (client s')) = true →
    relaying s ∧ works (ws (client s)) = true ∧ downstream s' = downstream s ++ newb ∧
    backend_hist s' = backend_hist s ++ newb) →
  ordered s'.
Proof.
  intros [H1 H2 H3 H4] Hc Hu Hue Hb Hd Hde. split.
  - rewrite Hc. etrans; [apply Hu|]. by apply sublist_app.
  - etrans; [apply Hd|]. etrans; [|apply Hb]. by apply sublist_app.
  - intros Hr Hw. destruct (Hue Hr Hw) as (Hr0 & Hw0 & ->). rewrite Hc. by rewrite H3.
  - intros Hr Hw. destruct (Hde Hr Hw) as (Hr0 & Hw0 & -> & ->). by rewrite H4.
Qed.

(** The heap of the state after a step does not matter to the streams. *)
Lemma streams_now s s' :
  hp s' = hp s ∨ mem (hp s') = mem (hp s) →
  upstream s' = upstream_at (hp s) s' ∧ downstream s' = downstream_at (hp s) s'.
Proof. intros H. apply stream_frame. intros m _. by destruct H as [->| ->]. Qed.

Lemma pump_step_ordered w l a p h s :
  leg_of w s = Some l → pump_step (closed l) (mutex_free w s) a (ws l) (hp s) = Some (p, h) →
  batch_ok (ws l) → ordered s → ordered (set_leg w (mkLeg (closed l) (rs l) p) (set_heap h (foreign s) s)).
Proof.
  intros Hl H Hb Ho. assert (Hw : works p = true → works (ws l) = true).
  { unfold works. unfold pump_step in H. repeat case_match; simplify_eq/=; try done; by rewrite orb_true_r in *. }
  apply pump_step_spec in H as (_ & _ & Hm & Hp); [|done].
  set (s' := set_leg w _ _). destruct (streams_now s s') as [Hu Hd]; [right; by destruct w|].
  assert (Hsub : written (hp s) p `sublist_of` written (hp s) (ws l)) by (destruct Hp as [Hp|[Hp _]]; [by rewrite Hp|done]).
  assert (Heq : works p = true → written (hp s) p = written (hp s) (ws l)) by (intros; destruct Hp as [|[]]; congruence).
  assert (Hr : relaying s' → relaying s ∧ ∀ n, w ≠ Old n).
  { destruct w; subst s'; unfold relaying; simpl; [done..|].
    intros [Hn%(f_equal length) _]. rewrite length_insert in Hn. apply lookup_lt_Some in Hl. simpl in Hn. lia. }
  destruct (decide (w = Client)) as [->|Hc].
  - simplify_eq/=. apply (ordered_step [] [] s); rewrite ?app_nil_r, ?Hu, ?Hd; [done|done|done| |done| |].
    + intros [? _]%Hr. done.
    + unfold downstream, downstream_at. by apply sublist_app.
    + intros [? _]%Hr Hx. split_and!; [done|auto| |done]. unfold downstream, downstream_at, s'. simpl. by rewrite Heq.
  - destruct (upstream_set_pump w l p (hp s) (set_heap h (foreign s) s)) as (U1 & U2 & D & B); [by destruct w|done|].
    fold s' in U1, U2, D, B. change (upstream_at (hp s) (set_heap h (foreign s) s)) with (upstream s) in *.
    change (downstream_at (hp s) (set_heap h (foreign s) s)) with (downstream s) in *.
    change (backend_hist (set_heap h (foreign s) s)) with (backend_hist s) in *.
    assert (Hcl : client s' = client s) by (by destruct w).
    apply (ordered_step [] [] s); rewrite ?app_nil_r, ?Hu, ?Hd, ?Hcl; rewrite ?D, ?B; auto.
    + intros [Hs Hn]%Hr Hx. destruct w as [| |n]; [done| |by destruct (Hn n)]. simplify_eq/=. auto.
    + by intros [? _]%Hr.
Qed.

Lemma reader_step_ordered w l a r h s :
  leg_of w s = Some l → reader_step (closed l) a (rs l) (hp s) = Some (r, h) →
  (∀ m, m ∈ in_flight s → mem h !! bp m = mem (hp s) !! bp m) → shape s →
  ordered s → ordered (set_leg w (mkLeg (closed l) r (ws l)) (set_heap h (foreign s) s)).
Proof.
  intros Hl H Hfr Hsh Ho. apply reader_step_spec in H as (_ & _ & new & Hh & Hg).
  destruct (stream_frame (hp s) h s Hfr) as [Hu Hd]. fold (upstream s) in Hu. fold (downstream s) in Hd.
  set (s' := set_leg w _ _).
  assert (Hgs : got r `sublist_of` got (rs l) ++ new) by (destruct Hg as [->|[_ Hg]]; [done|apply Hg]).
  assert (Hnc : relaying s → cancelled (rs (client s)) = false ∧ cancelled (rs (cur s)) = false).
  { unfold relaying, shape in *. intros [_ Hm]. by destruct (main s). }
  destruct w as [| |n]; simplify_eq/=.
  - apply (ordered_step (val h <$> new) [] s); rewrite ?app_nil_r, <- ?Hu, <- ?Hd; try done.
    + unfold upstream, upstream_at. simpl. rewrite <- !app_assoc, <- fmap_app, <- app_assoc.
      do 2 (apply sublist_app; [done|]). rewrite !fmap_app. apply sublist_app; [done|].
      rewrite <- fmap_app. by apply sublist_fmap.
    + intros Hr Hx. change (relaying s) in Hr. split_and!; [done|done|].
      destruct Hg as [Hg|[Hg _]]; [|by destruct (Hnc Hr); congruence].
      unfold upstream, upstream_at. simpl. by rewrite Hg, <- !app_assoc, !fmap_app, <- !app_assoc.
  - apply (ordered_step [] (val h <$> new) s); rewrite ?app_nil_r, <- ?Hu, <- ?Hd; try done.
    + unfold backend_hist. simpl. by rewrite Hh, app_assoc.
    + unfold downstream, downstream_at. simpl. rewrite <- !app_assoc, <- fmap_app, <- app_assoc.
      apply sublist_app; [done|]. rewrite !fmap_app. apply sublist_app; [done|].
      rewrite <- fmap_app. by apply sublist_fmap.
    + intros Hr Hx. change (relaying s) in Hr. split_and!; [done|done| |].
      * destruct Hg as [Hg|[Hg _]]; [|by destruct (Hnc Hr); congruence].
        unfold downstream, downstream_at. simpl. by rewrite Hg, <- !app_assoc, !fmap_app, <- !app_assoc.
      * unfold backend_hist. simpl. by rewrite Hh, app_assoc.
  - destruct (old_reader n l r (val h <$> new) (set_heap h (foreign s) s) Hl Hh) as [Hst Hb].
    destruct (Hst h) as [Hu' Hd']. fold s' in Hu', Hd', Hb.
    assert (Hnr : relaying s' → False).
    { intros [Hn%(f_equal length) _]. simpl in Hn. rewrite length_insert in Hn. apply lookup_lt_Some in Hl. lia. }
    apply (ordered_step [] [] s); rewrite ?app_nil_r, <- ?Hu, <- ?Hd; try done.
    by replace (upstream s') with (upstream_at h s).
Qed.

Lemma main_step_ordered a s s' :
  main_step a s = Some s' → mem (hp s') = mem (hp s) → shape s → ordered s → ordered s'.
Proof.
  intros H Hm Hsh Ho. destruct (streams_now s s') as [Hu Hd]; [by right|].
  destruct (main_step_streams a s s' (hp s) H) as (U & D & Hh & Hb).
  pose proof (main_step_relays a s s' (hp s) H Hsh) as Hr.
  apply (ordered_step [] [] s); rewrite ?app_nil_r, ?Hu, ?Hd, ?Hb; try done.
  - intros (? & -> & _ & -> & _)%Hr. done.
  - intros (? & _ & -> & _ & ->)%Hr. done.
Qed.

Lemma arrive_streams w l e s :
  leg_of w s = Some l →
  let s' := set_leg w (arrive e l) s in
  (∀ h, upstream_at h s' = upstream_at h s ∧ downstream_at h s' = downstream_at h s) ∧
  hist (rs (client s')) = hist (rs (client s)) ∧ backend_hist s' = backend_hist s.
Proof.
  intros Hl. unfold upstream_at, downstream_at, handC, handB, backend_hist. destruct w as [| |n]; simplify_eq/=; try done.
  destruct (insert_split n l (olds s) Hl) as (k1 & k2 & Hk & Hi). rewrite Hi, Hk.
  split_and!; [intros h|done|]; by rewrite !bind_app, !bind_cons.
Qed.

Lemma other_step_ordered a s s' :
  other_step a s = Some s' → (∀ m, m ∈ in_flight s → mem (hp s') !! bp m = mem (hp s) !! bp m) →
  ordered s → ordered s'.
Proof.
  intros H Hfr Ho. destruct (stream_frame (hp s) (hp s') s Hfr) as [Hu Hd].
  assert (Hsame : (∀ h, upstream_at h s' = upstream_at h s ∧ downstream_at h s' = downstream_at h s) →
    hist (rs (client s')) = hist (rs (client s)) → backend_hist s' = backend_hist s →
    (relaying s' → relaying s ∧ works (ws (cur s')) = works (ws (cur s)) ∧ works (ws (client s')) = works (ws (client s))) →
    ordered s').
  { intros Hst Hh Hb Hr. destruct (Hst (hp s')) as [Hu' Hd'].
    assert (U : upstream s' = upstream s) by (unfold upstream at 1; by rewrite Hu', Hu).
    assert (D : downstream s' = downstream s) by (unfold downstream at 1; by rewrite Hd', Hd).
    apply (ordered_step [] [] s); rewrite ?app_nil_r, ?U, ?D, ?Hb; try done.
    - intros (? & -> & _)%Hr. done.
    - intros (? & _ & ->)%Hr. done. }
  destruct a as [w e|u| |ok| |i|i|i a|i]; simpl in H.
  { destruct (leg_of w s) as [l|] eqn:Hl; simpl in H; [|done]. destruct (closed l); [done|]. simplify_eq.
    destruct (arrive_streams w l e s Hl) as (Hst & Hh & Hb). apply Hsame; [done..|].
    unfold relaying. destruct w as [| |n]; simplify_eq/=; [done..|].
    intros [Hn%(f_equal length) _]. rewrite length_insert in Hn. apply lookup_lt_Some in Hl. simpl in Hn. lia. }
  all: repeat (case_match || (apply bind_Some in H as (? & ? & ?))); simplify_eq; apply Hsame; try done.
  intros h. unfold upstream_at, downstream_at, written. simpl. split; [done|]. rewrite delivered_app.
  destruct (ok && _); by rewrite app_nil_r.
Qed.

(** ** Every run *)

Record good (s : st) : Prop := {
  gd_pumps : pumps_ok s;
  gd_owned : owned_once s;
  gd_shape : shape s;
  gd_order : ordered s
}.

Lemma reader_step_cancelled c a r h r' h' : reader_step c a r h = Some (r', h') → cancelled r' = cancelled r.
Proof. by intros (_ & ? & _)%reader_step_spec. Qed.

(** The shape does not depend on what the other goroutines do. *)
Lemma shape_same s s' :
  main s' = main s → length (olds s') = length (olds s) → cancelled (rs (client s')) = cancelled (rs (client s)) →
  cancelled (rs (cur s')) = cancelled (rs (cur s)) → shape s → shape s'.
Proof.
  unfold shape. intros -> Ho -> ->. destruct (main s); try done.
  intros [H|[[H|[H Hne]] Hc]]; [by left|right; split; [by left|done]|right; split; [right|done]].
  split; [done|]. by destruct (olds s), (olds s').
Qed.

Lemma exec1_good a s s' : exec1 a s = Some s' → good s → good s'.
Proof.
  intros H [H1 H2 H3 H4]. destruct (exec1_own a s s' H H1 H2) as [Hown Hfr].
  split; [by eapply exec1_pumps|done|..]; destruct a as [w a|w a|a|a]; simpl in H.
  - destruct (leg_of w s) as [l|] eqn:Hl; simpl in H; [|done].
    destruct (reader_step _ _ _ _) as [[r h]|] eqn:Hr; simpl in H; [|done]. simplify_eq.
    apply reader_step_cancelled in Hr. apply (shape_same s); destruct w; simplify_eq/=; rewrite ?length_insert; done.
  - destruct (leg_of w s) as [l|] eqn:Hl; simpl in H; [|done].
    destruct (pump_step _ _ _ _ _) as [[r h]|] eqn:Hr; simpl in H; [|done]. simplify_eq.
    apply (shape_same s); destruct w; simplify_eq/=; rewrite ?length_insert; done.
  - by eapply main_step_shape.
  - destruct a as [w e|u| |ok| |i|i|i a|i]; simpl in H.
    { destruct (leg_of w s) as [l|] eqn:Hl; simpl in H; [|done]. destruct (closed l); [done|]. simplify_eq.
      apply (shape_same s); destruct w; simplify_eq/=; rewrite ?length_insert; done. }
    all: repeat (case_match || (apply bind_Some in H as (? & ? & ?))); simplify_eq; by apply (shape_same s).
  - destruct (leg_of w s) as [l|] eqn:Hl; simpl in H; [|done].
    destruct (reader_step _ _ _ _) as [[r h]|] eqn:Hr; simpl in H; [|done]. simplify_eq.
    eapply reader_step_ordered; eauto. by destruct w.
  - destruct (leg_of w s) as [l|] eqn:Hl; simpl in H; [|done].
    destruct (pump_step _ _ _ _ _) as [[r h]|] eqn:Hr; simpl in H; [|done]. simplify_eq.
    eapply pump_step_ordered; eauto. by apply (pumps_ok_leg w l s).
  - apply main_step_own in H as Hm. destruct Hm as (Hm & _ & _). by eapply main_step_ordered.
  - by eapply other_step_ordered.
Qed.

Lemma exec_good l s s' : exec l s = Some s' → good s → good s'.
Proof.
  revert s. induction l as [|a l IH]; intros s H Hg; [by simplify_eq/=|].
  apply bind_Some in H as (s1 & H1 & H). eapply IH; [done|]. by eapply exec1_good.
Qed.

(** The buffers at the start: those of the pool and of other bridges, each
    once. *)
Definition heap_ok (h : heap) (f : list nat) : Prop :=
  NoDup (pool h ++ f) ∧ ∀ i, i ∈ pool h ++ f → is_Some (mem h !! i).

Lemma cnt_NoDup i l : NoDup l → cnt i l ≤ 1.
Proof.
  induction 1 as [|j l Hj Hl IH]; simpl; [lia|]. case_decide; [|lia]. subst.
  rewrite cnt_elem in Hj. lia.
Qed.

Lemma start_good h f : heap_ok h f → good (start h f).
Proof.
  intros [Hnd Hin]. split.
  - by split_and!.
  - intros i. pose proof (cnt_NoDup i _ Hnd) as Hc. specialize (Hin i). rewrite cnt_elem in Hin.
    rewrite cnt_app in Hc, Hin. unfold owners, unborn. simpl. change (uses i _) with 0.
    destruct (mem h !! i); [lia|]. destruct (decide (0 < cnt i (pool h) + cnt i f)) as [Hp|Hp]; [|lia].
    by destruct (Hin Hp).
  - done.
  - by split.
Qed.

(** ** Theorems *)

Lemma delivered_upstream s :
  (olds s ≫= λ l, delivered (sent (ws l))) ++ delivered (sent (ws (cur s))) `sublist_of` upstream s.
Proof.
  unfold upstream, upstream_at, written. apply sublist_app.
  - induction (olds s) as [|l ls IH]; [done|]. rewrite !bind_cons. apply sublist_app; [|done]. by apply sublist_inserts_r.
  - by do 2 apply sublist_inserts_r.
Qed.

(** C16. Whatever the goroutines, the peers, SwapBackend, Close and the other
    bridges do, in any order: the messages written to the backends, one backend
    after the other, are a subsequence of the messages the client sent, and
    those written to the client one of the messages the backends sent.  Nothing
    is duplicated, reordered, torn or altered, across backend swaps and the
    reuse of pooled buffers. *)
Theorem bridge_keeps_order h f l s :
  heap_ok h f → exec l (start h f) = Some s →
  (olds s ≫= λ o, delivered (sent (ws o))) ++ delivered (sent (ws (cur s))) `sublist_of` hist (rs (client s)) ∧
  delivered (sent (ws (client s))) `sublist_of` backend_hist s.
Proof.
  intros Hh He. apply exec_good in He as [_ _ _ [Hu Hd _ _]]; [|by apply start_good].
  split; [by etrans; [apply delivered_upstream|]|]. etrans; [|apply Hd]. by do 2 apply sublist_inserts_r.
Qed.

(** While the bridge relays to its first backend and the pump that writes
    works, no message is lost: what was read from one side is what was written
    to the other, followed by what the pump, the main goroutine and the reader
    hold, in this order, with the bytes that were read. *)
Theorem relay_loses_nothing h f l s :
  heap_ok h f → exec l (start h f) = Some s → relaying s →
  (works (ws (cur s)) = true →
    hist (rs (client s)) = delivered (sent (ws (cur s))) ++
      (val (hp s) <$> due (ws (cur s)) ++ handC s ++ got (rs (client s)))) ∧
  (works (ws (client s)) = true →
    hist (rs (cur s)) = delivered (sent (ws (client s))) ++
      (val (hp s) <$> due (ws (client s)) ++ handB s ++ got (rs (cur s)))).
Proof.
  intros Hh He Hr. apply exec_good in He as [_ _ _ [_ _ Hu Hd]]; [|by apply start_good].
  unfold upstream, upstream_at, downstream, downstream_at, backend_hist, written in *.
  destruct Hr as [Ho Hm]. rewrite Ho in Hu, Hd. simpl in *.
  split; intros Hw; [rewrite <- Hu by done|rewrite <- Hd by done]; by rewrite !fmap_app, <- !app_assoc.
Qed.

Lemma NoDup_cnt l : (∀ i, cnt i l ≤ 1) → NoDup l.
Proof.
  induction l as [|j l IH]; intros H; constructor.
  - specialize (H j). simpl in H. rewrite decide_True in H by done. rewrite cnt_elem. lia.
  - apply IH. intros i. specialize (H i). simpl in H. lia.
Qed.

(** C18. Pooled buffers are never shared: in every state, the buffers of the
    pool, of the other bridges and of the messages in flight are distinct and
    allocated, so nobody can overwrite the data of a message before it is
    written. *)
Theorem buffers_have_one_owner h f l s :
  heap_ok h f → exec l (start h f) = Some s →
  NoDup (pool (hp s) ++ foreign s ++ (bp <$> in_flight s)) ∧
  ∀ m, m ∈ in_flight s → is_Some (mem (hp s) !! bp m).
Proof.
  intros Hh He. apply exec_good in He as [_ Ho _ _]; [|by apply start_good]. split.
  - apply NoDup_cnt. intros i. specialize (Ho i). unfold owners, uses in Ho. rewrite !cnt_app. lia.
  - intros m Hm. specialize (Ho (bp m)). apply (uses_elem (bp m)) in Hm; [|done].
    unfold owners, unborn in Ho. destruct (mem (hp s) !! bp m); [done|lia].
Qed.

End WsOrder.

(** ** Runs *)

Module WsRuns.
Import WsOrder.

Definition h0 : heap := mkHeap {[ 7 := [0; 0; 0; 0]%Z ]} [7].

Lemma h0_ok : heap_ok h0 [].
Proof.
  split; [apply NoDup_singleton|]. intros i. rewrite elem_of_app. intros [->%list_elem_of_singleton|[]%elem_of_nil]. by eexists.
Qed.

Definition text (bs : list Z) : event := Frame TextMessage (mkReader [bs] EOF false).

(** A reader passes a message on; a pump writes one. *)
Definition read_msg (w : who) (i : nat) : list act := [ARead w (RRead i); ARead w RSend].
Definition fail (w : who) : list act := [ARead w RFault; ARead w RSend].
Definition write_msg (w : who) : list act :=
  [APump w PTake; APump w PFlush; APump w PLock; APump w (PWrite true); APump w PEnd].
Definition instrs (n : nat) : list act := replicate n (AMain (MInstr true)).

(** The client sends two messages, the second while the first is being
    written; the pooled buffer 7 is used for the first and again for the third. *)
Definition relayed : list act :=
  [AOther (XRecv Client (text [1; 2]%Z)); AOther (XRecv Client (text [3]%Z))] ++ read_msg Client 7 ++
  [AMain MClient; AMain MSend] ++ read_msg Client 8 ++ write_msg Cur ++ [AMain MClient; AMain MSend] ++
  [AOther (XRecv Client (text [4; 5; 6]%Z))] ++ read_msg Client 7 ++ [AMain MClient] ++
  [AOther (XRecv Cur (text [9]%Z))] ++ read_msg Cur 10 ++ [AMain MSend; AMain MBackend; AMain MSend] ++ write_msg Client.

Definition relayed_state : option st := exec relayed (start h0 []).

Lemma bridge_keeps_order_witness :
  ∃ s, relayed_state = Some s ∧ delivered (sent (ws (client s))) = [(TextMessage, [9]%Z)] ∧
    (olds s ≫= λ o, delivered (sent (ws o))) ++ delivered (sent (ws (cur s))) `sublist_of` hist (rs (client s)).
Proof.
  destruct relayed_state as [s|] eqn:Hs; [|by vm_compute in Hs].
  exists s. split; [done|]. split; [by vm_compute in Hs; simplify_eq|].
  apply (bridge_keeps_order h0 [] relayed s); [apply h0_ok|exact Hs].
Defined.

Lemma relay_loses_nothing_witness :
  ∃ s, relayed_state = Some s ∧
    hist (rs (client s)) = [(TextMessage, [1; 2]); (TextMessage, [3]); (TextMessage, [4; 5; 6])]%Z ∧
    hist (rs (client s)) = delivered (sent (ws (cur s))) ++
      (val (hp s) <$> due (ws (cur s)) ++ handC s ++ got (rs (client s))).
Proof.
  destruct relayed_state as [s|] eqn:Hs; [|by vm_compute in Hs].
  exists s. split; [done|]. split; [by vm_compute in Hs; simplify_eq|].
  apply (relay_loses_nothing h0 [] relayed s); [apply h0_ok|exact Hs|..]; by vm_compute in Hs; simplify_eq.
Defined.

Lemma buffers_have_one_owner_witness :
  ∃ s, relayed_state = Some s ∧ (bp <$> in_flight s) = [8; 7] ∧
    NoDup (pool (hp s) ++ foreign s ++ (bp <$> in_flight s)).
Proof.
  destruct relayed_state as [s|] eqn:Hs; [|by vm_compute in Hs].
  exists s. split; [done|]. split; [by vm_compute in Hs; simplify_eq|].
  apply (buffers_have_one_owner h0 [] relayed s); [apply h0_ok|exact Hs].
Defined.

End WsRuns.
