(* ===== verification/WsLive.v ===== *)
(** * The bridge never wedges

    The steps of the readers, the pumps and the main goroutine of WebSocket.v
    ([internal]: not what the peers and the callers do) decrease a measure, so
    every run of them ends; and an invariant shows that it can end in two ways
    only: the bridge is idle, with every queue empty, or [run] has returned,
    both connections and all backends swapped out are closed, and every
    goroutine has returned. *)
From stdpp Require Import base gmap list strings.
From Stdlib Require Import ZArith Lia.
From S2P Require Import Prelude Go WsBuffer WebSocket WsOrder.
Import WsBuffer WS WsOrder.
Local Open Scope nat_scope.

Module WsLive.
#[local] Arguments Nat.mul : simpl never.

Definition internal (a : act) : bool := match a with AOther _ => false | _ => true end.

(** ** The measure *)

Definition rd_weight (r : rstate) : nat :=
  match r with Reading => 9 | Holding (Msg _) => 17 | Holding (ErrMsg _) => 8 | RStopped => 0 end.

Definition pump_weight (p : pstate) : nat :=
  match p with Idle => 1 | Draining => 4 | Locking => 3 | Writing _ => 2 | PStopped => 0 end.

Definition leg_weight (l : leg) : nat :=
  9 * length (inbox (rs l)) + rd_weight (rd (rs l)) + 7 * length (rch (rs l)) +
  5 * length (wch (ws l)) + length (batch (ws l)) + pump_weight (pump (ws l)) + (if werr (ws l) then 1 else 0).

Definition instr_weight (i : instr) : nat :=
  match i with IStop | IAttach => 2 | IForward => 17 | IDial _ => 28 | _ => 1 end.

Definition pc_weight (p : pc) : nat :=
  match p with
  | Loop => 7
  | HandC _ | HandB _ => 13
  | SendClose => 8
  | WaitDrain _ => 32
  | Seq l => sum_list_with instr_weight l
  end.

Definition measure (s : st) : nat :=
  leg_weight (client s) + leg_weight (cur s) + sum_list_with leg_weight (olds s) + pc_weight (main s) +
  (if swapCh s is Some _ then 33 else 0).

Lemma reader_decreases c a r h r' h' :
  reader_step c a r h = Some (r', h') →
  9 * length (inbox r') + rd_weight (rd r') + 7 * length (rch r') <
  9 * length (inbox r) + rd_weight (rd r) + 7 * length (rch r).
Proof.
  unfold reader_step. intros H. destruct a; destruct (rd r) as [|[m|e]|] eqn:Hr; try done.
  - destruct (inbox r) as [|[] evs]; try done. apply bind_Some in H as ([m h1] & _ & H). simplify_eq/=.
    destruct m; lia.
  - destruct (inbox r) as [|[] evs]; destruct c; simplify_eq/=; lia.
  - case_decide; simplify_eq/=. rewrite length_app. simpl. lia.
  - case_decide; simplify_eq/=. rewrite length_app. simpl. lia.
  - destruct (cancelled r); simplify_eq/=; lia.
  - destruct (cancelled r); simplify_eq/=; lia.
Qed.

Lemma pump_decreases c mu a w h w' h' :
  pump_step c mu a w h = Some (w', h') →
  5 * length (wch w') + length (batch w') + pump_weight (pump w') + (if werr w' then 1 else 0) <
  5 * length (wch w) + length (batch w) + pump_weight (pump w) + (if werr w then 1 else 0).
Proof.
  unfold pump_step. intros H. destruct a as [| | | | |ok|]; destruct (pump w) as [| | |failed|] eqn:Hp; try done.
  - destruct (wch w); simplify_eq/=; lia.
  - destruct (done w); simplify_eq/=; lia.
  - destruct (wch w); [done|]. case_decide; simplify_eq/=. rewrite length_app. simpl. lia.
  - case_decide; simplify_eq/=; lia.
  - destruct mu; simplify_eq/=; lia.
  - destruct (batch w); [done|]. destruct ok; [destruct (c || failed); [done|]|]; simplify_eq/=; lia.
  - destruct (batch w); [|done]. destruct failed; simplify_eq/=; destruct (werr w); lia.
Qed.

Lemma sum_insert n l l' (ls : list leg) :
  ls !! n = Some l →
  sum_list_with leg_weight (<[n := l']> ls) + leg_weight l = sum_list_with leg_weight ls + leg_weight l'.
Proof. revert n. induction ls as [|k ls IH]; intros [|n] H; simplify_eq/=; [lia|]. specialize (IH n H). lia. Qed.

Lemma measure_set_leg w l l' h s :
  leg_of w s = Some l → leg_weight l' < leg_weight l → measure (set_leg w l' (set_heap h (foreign s) s)) < measure s.
Proof.
  unfold measure. intros Hl Hw. destruct w as [| |n]; simplify_eq/=; [lia..|].
  pose proof (sum_insert n l l' (olds s) Hl). lia.
Qed.

Lemma main_decreases a s s' : main_step a s = Some s' → measure s' < measure s.
Proof.
  intros H. unfold measure. main_cases H; unfold leg_weight; simpl in *.
  all: repeat match goal with
    | H : main _ = _ |- _ => rewrite !H
    | H : rch _ = _ |- _ => rewrite !H
    | H : wch _ = _ |- _ => rewrite !H
    | H : werr _ = _ |- _ => rewrite !H
    | H : swapCh _ = _ |- _ => rewrite !H
    end; simpl; rewrite ?length_app; simpl.
  all: try (destruct (IsCloseError _ _); simpl; lia).
  all: try lia.
  rewrite sum_list_with_app. simpl. lia.
Qed.

Lemma exec1_decreases a s s' : exec1 a s = Some s' → internal a = true → measure s' < measure s.
Proof.
  intros H Hi. destruct a as [w a|w a|a|a]; simpl in H; try done.
  - apply bind_Some in H as (l & Hl & H). apply bind_Some in H as ([r h] & Hr & H). simplify_eq.
    eapply measure_set_leg; [done|]. apply reader_decreases in Hr. unfold leg_weight. simpl. lia.
  - apply bind_Some in H as (l & Hl & H). apply bind_Some in H as ([r h] & Hr & H). simplify_eq.
    eapply measure_set_leg; [done|]. apply pump_decreases in Hr. unfold leg_weight. simpl. lia.
  - by eapply main_decreases.
Qed.

(** ** The invariant *)

(** A reader whose end the main goroutine will learn: its error is the last
    message of its channel.  A pump likewise. *)
Definition live_reader (r : rside) : Prop :=
  cancelled r = false ∧ (rd r = RStopped → ∃ k e, rch r = k ++ [ErrMsg e]).
Definition live_pump (w : wside) : Prop := done w = false ∧ (pump w = PStopped → werr w = true).
Definition live (l : leg) : Prop := live_reader (rs l) ∧ live_pump (ws l).

(** A reader that has been cancelled, or is not there. *)
Definition quiet (r : rside) : Prop := cancelled r = true ∨ rd r = RStopped.

(** A connection whose goroutines have been told to return. *)
Definition gone (l : leg) : Prop := closed l = true ∧ quiet (rs l) ∧ done (ws l) = true.

(** What the deferred function has done, when [l] is left of it. *)
Definition cleaned (l : list instr) (s : st) : Prop :=
  (IClientCancel ∈ l ∨ cancelled (rs (client s)) = true) ∧
  (ICloseClientDone ∈ l ∨ done (ws (client s)) = true) ∧
  (IStop ∈ l ∨ done (ws (cur s)) = true) ∧
  (ICloseClient ∈ l ∨ closed (client s) = true) ∧
  (ICloseBackend ∈ l ∨ closed (cur s) = true) ∧
  (IReaderCancel ∈ l ∨ quiet (rs (cur s))).

(** What [doSwap] has done. *)
Inductive swapped (s : st) : list instr → Prop :=
  | sw_cancel u : swapped s (swap_prog u)
  | sw_stop u : readerCancel s = false → swapped s [IStop; IDial u]
  | sw_drain u : readerCancel s = false → done (ws (cur s)) = true → swapped s [IDrain; IDial u]
  | sw_dial u : readerCancel s = false → backendWriteDone s = false → swapped s [IDial u]
  | sw_close : readerCancel s = false → backendWriteDone s = false → swapped s attach_prog
  | sw_attach : readerCancel s = false → backendWriteDone s = false → closed (cur s) = true → swapped s [IAttach; IForward]
  | sw_forward : readerCancel s = false → rd (rs (cur s)) = RStopped → live_pump (ws (cur s)) → swapped s [IForward].

Record linv (s : st) : Prop := {
  li_olds : Forall gone (olds s);
  li_reader : readerCancel s = false → quiet (rs (cur s));
  li_pump : backendWriteDone s = false → done (ws (cur s)) = true;
  li_main :
    match main s with
    | Loop | HandC _ | HandB _ => live (client s) ∧ live (cur s)
    | WaitDrain _ => live (client s) ∧ live (cur s) ∧ closed (cur s) = true
    | SendClose => True
    | Seq l => l ∈ cleanup_points ∧ cleaned l s ∨ live (client s) ∧ swapped s l
    end
}.

Lemma start_linv h f : linv (start h f).
Proof. by split. Qed.

(** *** Readers and pumps preserve it *)

(** What a step of the other goroutines may do to a connection. *)
Record leg_evolves (l l' : leg) : Prop := {
  ev_closed : closed l = true → closed l' = true;
  ev_reader : live_reader (rs l) → live_reader (rs l');
  ev_quiet : quiet (rs l) → quiet (rs l');
  ev_stopped : rd (rs l) = RStopped → rd (rs l') = RStopped;
  ev_cancelled : cancelled (rs l) = true → cancelled (rs l') = true;
  ev_pump : live_pump (ws l) → live_pump (ws l');
  ev_done : done (ws l) = true → done (ws l') = true
}.

Lemma evolves_refl l : leg_evolves l l.
Proof. by split. Qed.

Lemma reader_evolves a l r h h' :
  reader_step (closed l) a (rs l) h = Some (r, h') → leg_evolves l (mkLeg (closed l) r (ws l)).
Proof.
  intros H. assert (Hr : rd (rs l) ≠ RStopped ∧ cancelled r = cancelled (rs l) ∧
    (cancelled r = false → rd r = RStopped → ∃ k e, rch r = k ++ [ErrMsg e])).
  { unfold reader_step in H. destruct a; destruct (rd (rs l)) as [|m|] eqn:Hr; try done.
    - destruct (inbox (rs l)) as [|[] evs]; try done. apply bind_Some in H as ([m h1] & _ & H). by simplify_eq/=.
    - destruct (inbox (rs l)) as [|[] evs]; destruct (closed l); by simplify_eq/=.
    - case_decide; [|done]. simplify_eq/=. split_and!; [done|done|]. destruct m; [done|]. eauto.
    - destruct (cancelled (rs l)) eqn:Hc; [|done]. by simplify_eq/=. }
  destruct Hr as (Hn & Hc & Hlast). split; simpl; try done.
  - intros [Hl _]. split; [by rewrite Hc|]. intros Hs. apply Hlast; [by rewrite Hc|done].
  - intros [Hq|Hq]; [left; by rewrite Hc|done].
  - by rewrite Hc.
Qed.

Lemma pump_evolves mu a l w h h' :
  pump_step (closed l) mu a (ws l) h = Some (w, h') → leg_evolves l (mkLeg (closed l) (rs l) w).
Proof.
  intros H. assert (Hw : done w = done (ws l) ∧ (done w = false → pump w = PStopped → werr w = true)).
  { unfold pump_step in H.
    destruct a as [| | | | |ok|]; destruct (pump (ws l)) as [| | |failed|] eqn:Hp; try done.
    all: repeat match type of H with context [match ?x with _ => _ end] => destruct x eqn:? end;
      simplify_eq/=; by split. }
  destruct Hw as [Hd Hs]. split; simpl; try done.
  - intros [H1 _]. split; [by rewrite Hd|]. intros Hst. apply Hs; [by rewrite Hd|done].
  - by rewrite Hd.
Qed.

Lemma evolves_live l l' : leg_evolves l l' → live l → live l'.
Proof. intros H [H1 H2]. split; by eapply H. Qed.

Lemma evolves_gone l l' : leg_evolves l l' → gone l → gone l'.
Proof. intros H (H1 & H2 & H3). split_and!; by eapply H. Qed.

(** The invariant depends on the connections only through what evolves. *)
Lemma linv_evolves s s' :
  linv s → leg_evolves (client s) (client s') → leg_evolves (cur s) (cur s') → Forall2 leg_evolves (olds s) (olds s') →
  main s' = main s → readerCancel s' = readerCancel s → backendWriteDone s' = backendWriteDone s → linv s'.
Proof.
  intros [H1 H2 H3 H4] Hc Hb Ho Hm Hr Hd. split.
  - revert H1. clear -Ho. induction Ho; intros Hf; inversion Hf; subst; constructor; eauto using evolves_gone.
  - rewrite Hr. intros Hx. apply Hb. auto.
  - rewrite Hd. intros Hx. apply Hb. auto.
  - rewrite Hm. destruct (main s) as [| | | | |l]; try done; try (by destruct H4 as [L1 L2]; split; eapply evolves_live); [|].
    + destruct H4 as (L1 & L2 & L3). split_and!; [by eapply evolves_live..|]. by apply Hb.
    + destruct H4 as [[Hl (C1 & C2 & C3 & C4 & C5 & C6)]|[Hl Hs]]; [left|right].
      * split; [done|]. split_and!; [destruct C1|destruct C2|destruct C3|destruct C4|destruct C5|destruct C6]; auto;
          right; (by apply Hc) || (by apply Hb).
      * split; [by eapply evolves_live|]. destruct Hs; constructor; rewrite ?Hr, ?Hd; auto; by apply Hb.
Qed.

Lemma Forall2_evolves_refl ls : Forall2 leg_evolves ls ls.
Proof. induction ls; constructor; [apply evolves_refl|done]. Qed.

Lemma set_leg_evolves w l l' s :
  leg_of w s = Some l → leg_evolves l l' →
  let s' := set_leg w l' s in
  leg_evolves (client s) (client s') ∧ leg_evolves (cur s) (cur s') ∧ Forall2 leg_evolves (olds s) (olds s').
Proof.
  intros Hl Hev. destruct w as [| |n]; simplify_eq/=; split_and!; auto using evolves_refl, Forall2_evolves_refl.
  rewrite <- (list_insert_id (olds s) n l Hl) at 1. apply Forall2_insert; [apply Forall2_evolves_refl|done].
Qed.

Lemma leg_step_linv w l l' h s :
  linv s → leg_of w s = Some l → leg_evolves l l' → linv (set_leg w l' (set_heap h (foreign s) s)).
Proof.
  intros Hs Hl He. destruct (set_leg_evolves w l l' (set_heap h (foreign s) s)) as (H1 & H2 & H3); [by destruct w|done|].
  apply (linv_evolves s); try done; by destruct w.
Qed.

Lemma other_step_linv a s s' : other_step a s = Some s' → linv s → linv s'.
Proof.
  intros H Hs. destruct a as [w e|u| |ok| |i|i|i a|i]; simpl in H.
  { destruct (leg_of w s) as [l|] eqn:Hl; simpl in H; [|done]. destruct (closed l); [done|]. simplify_eq.
    destruct (set_leg_evolves w l (arrive e l) s Hl) as (H1 & H2 & H3); [by split|].
    apply (linv_evolves s); try done; by destruct w. }
  all: repeat (case_match || (apply bind_Some in H as (? & ? & ?))); simplify_eq.
  all: apply (linv_evolves s); auto using evolves_refl, Forall2_evolves_refl; by split.
Qed.

(** *** The main goroutine preserves it *)

Lemma live_pop m ms l : rch (rs l) = Msg m :: ms → live l → live (set_rch ms l).
Proof.
  intros Hr [[Hc Hs] Hp]. split; [|done]. split; [done|]. intros (k & e & Hk)%Hs. rewrite Hr in Hk.
  destruct k as [|x k]; [done|]. simplify_eq/=. eauto.
Qed.

Lemma cleanup_linv s :
  Forall gone (olds s) → (readerCancel s = false → quiet (rs (cur s))) →
  (backendWriteDone s = false → done (ws (cur s)) = true) → linv (set_main (Seq cleanup) s).
Proof.
  intros H1 H2 H3. split; [done..|]. left. split; [at_point|]. unfold cleaned, cleanup. split_and!; left; set_solver.
Qed.

(** One more call of the deferred function: what was done, or is still to do,
    given what was before. *)
Ltac duty C :=
  first
    [ left; apply (bool_decide_unpack _); exact I
    | right; done
    | right; by left
    | destruct C as [C|C]; [by apply (bool_decide_pack _) in C|right; exact C]
    | right; by auto ].

Lemma cleanup_instr_linv ok i rest s s' :
  do_instr ok i rest s = Some s' → main s = Seq (i :: rest) → i :: rest ∈ cleanup_points → cleaned (i :: rest) s →
  linv s → linv s'.
Proof.
  intros H Hm Hl (C1 & C2 & C3 & C4 & C5 & C6) [H1 H2 H3 H4].
  assert (Hnext : ∀ s2, s' = s2 → Forall gone (olds s2) → (readerCancel s2 = false → quiet (rs (cur s2))) →
    (backendWriteDone s2 = false → done (ws (cur s2)) = true) →
    (∃ l, main s2 = Seq l ∧ l ∈ cleanup_points ∧ cleaned l s2) → linv s').
  { intros s2 -> ? ? ? (l & Hl2 & ? & ?). split; [done..|]. rewrite Hl2. by left. }
  points Hl; injection Hl as -> ->; simpl in H.
  all: repeat match type of H with context [match ?x with _ => _ end] => destruct x eqn:? end; simplify_eq.
  all: eapply Hnext; [reflexivity|by auto|first [exact H2|by (intros _; left)|by auto]|..]; simpl.
  all: try (by auto).
  all: try (intros _; destruct C3 as [C3|C3]; [by apply (bool_decide_pack _) in C3|done]).
  all: eexists; (split; [eassumption || reflexivity|]); split; [at_point|]; unfold cleaned; simpl.
  all: split_and!; [duty C1|duty C2|duty C3|duty C4|duty C5|duty C6].
Qed.

Lemma swap_instr_linv ok i rest s s' :
  do_instr ok i rest s = Some s' → main s = Seq (i :: rest) → live (client s) → swapped s (i :: rest) →
  linv s → linv s'.
Proof.
  intros H Hm Hc Hsw [H1 H2 H3 _]. inversion Hsw; subst; simplify_eq/=.
  - destruct (readerCancel s) eqn:Hr; simplify_eq; (split; simpl; [done|first [by auto|by (intros _; left)]|done|]);
      right; (split; [done|]); by constructor.
  - destruct (backendWriteDone s) eqn:Hr; simplify_eq; (split; simpl; [done|done|auto|]);
      right; (split; [done|]); by constructor.
  - destruct (wch (ws (cur s))) as [|m ms]; simplify_eq; (split; simpl; [done|done|auto|]); rewrite ?Hm;
      right; (split; [done|]); by constructor.
  - destruct ok; [|by apply cleanup_linv]. split; simpl; [done..|]. right. split; [done|]. by constructor.
  - split; simpl; [done..|]. right. split; [done|]. by constructor.
  - destruct (backendMu_free s); [|done]. simplify_eq. split; simpl; [|by right|done|].
    + apply Forall_app. split; [done|]. constructor; [|done]. split_and!; auto.
    + right. split; [done|]. by constructor.
  - destruct (rch (rs (client s))) as [|[m|e] ms] eqn:Hr; simplify_eq.
    + split; simpl; [done|done|auto|]. split; [done|]. by split.
    + case_decide; simplify_eq; [|by apply cleanup_linv].
      split; simpl; [done|done|auto|]. rewrite Hm. right. split; [by eapply live_pop|]. by constructor.
    + by apply cleanup_linv.
Qed.

Lemma pending_swap_linv p s :
  Forall gone (olds s) → (readerCancel s = false → quiet (rs (cur s))) →
  (backendWriteDone s = false → done (ws (cur s)) = true) → live (client s) → p = SendClose ∨ p = Seq cleanup →
  linv (pending_swap p s).
Proof.
  intros H1 H2 H3 H4 Hp. unfold pending_swap.
  assert (Hok : ∀ s', olds s' = olds s → readerCancel s' = readerCancel s → backendWriteDone s' = backendWriteDone s →
    cur s' = cur s → linv (set_main p s')).
  { intros s' Ho Hr Hb Hc. destruct Hp as [->| ->]; [|apply cleanup_linv; by rewrite ?Ho, ?Hr, ?Hb, ?Hc].
    split; simpl; by rewrite ?Ho, ?Hr, ?Hb, ?Hc. }
  destruct (swapCh s) as [u|]; [case_decide|]; [by apply Hok| |by apply Hok].
  split; simpl; [done..|]. right. split; [done|constructor].
Qed.

Lemma main_step_linv a s s' : main_step a s = Some s' → linv s → linv s'.
Proof.
  intros H Hs. destruct (main s) as [|m|m| |u|[|i rest]] eqn:Hm; destruct a; simpl in H; rewrite Hm in H; try done.
  all: destruct Hs as [H1 H2 H3 H4]; rewrite Hm in H4.
  - destruct H4 as [Lc Lb]. destruct (rch (rs (client s))) as [|[m|e] ms] eqn:Hr; simplify_eq; [|by apply cleanup_linv].
    split; simpl; [done..|]. split; [by eapply live_pop|done].
  - destruct H4 as [Lc Lb]. destruct (rch (rs (cur s))) as [|[m|e] ms] eqn:Hr; simplify_eq.
    + split; simpl; [done..|]. split; [done|by eapply live_pop].
    + apply pending_swap_linv; simpl; try done. destruct (IsCloseError _ _); auto.
  - destruct (werr (ws (cur s))); simplify_eq. apply pending_swap_linv; simpl; try done; [apply H4|by right].
  - destruct (werr (ws (client s))); simplify_eq. by apply cleanup_linv.
  - destruct (swapCh s) as [u|]; simplify_eq. destruct H4 as [Lc Lb]. by split.
  - case_decide; simplify_eq. destruct H4 as [Lc Lb]. by split.
  - destruct (werr (ws (cur s))); simplify_eq. apply pending_swap_linv; simpl; try done; [apply H4|by right].
  - case_decide; simplify_eq. destruct H4 as [Lc Lb]. by split.
  - destruct (werr (ws (client s))); simplify_eq. by apply cleanup_linv.
  - destruct (clientMu_free s); simplify_eq. by apply cleanup_linv.
  - destruct (rch (rs (cur s))) as [|x ms]; simplify_eq. destruct H4 as (Lc & _ & _).
    split; simpl; [done..|]. right. split; [done|constructor].
  - destruct H4 as [[Hl Hc]|[Lc Hsw]]; [eapply cleanup_instr_linv|eapply swap_instr_linv]; eauto; (split; [done..|]); rewrite Hm; auto.
Qed.

Lemma exec1_linv a s s' : exec1 a s = Some s' → linv s → linv s'.
Proof.
  intros H Hs. destruct a as [w a|w a|a|a]; simpl in H.
  - apply bind_Some in H as (l & Hl & H). apply bind_Some in H as ([r h] & Hr & H). simplify_eq.
    eapply leg_step_linv; [done..|]. by eapply reader_evolves.
  - apply bind_Some in H as (l & Hl & H). apply bind_Some in H as ([r h] & Hr & H). simplify_eq.
    eapply leg_step_linv; [done..|]. by eapply pump_evolves.
  - by eapply main_step_linv.
  - by eapply other_step_linv.
Qed.

Lemma exec_linv l s s' : exec l s = Some s' → linv s → linv s'.
Proof.
  revert s. induction l as [|a l IH]; intros s H Hs; [by simplify_eq/=|].
  apply bind_Some in H as (s1 & H1 & H). eapply IH; [done|]. by eapply exec1_linv.
Qed.

(** ** Progress *)

(** The reader and the pump of a connection have nothing to do. *)
Definition reader_idle (l : leg) : Prop :=
  rd (rs l) = Reading ∧ closed l = false ∧ inbox (rs l) = [].
Definition pump_idle (l : leg) : Prop :=
  pump (ws l) = Idle ∧ wch (ws l) = [] ∧ done (ws l) = false.
Definition stopped (l : leg) : Prop := closed l = true ∧ rd (rs l) = RStopped ∧ pump (ws l) = PStopped.

(** The bridge waits for its peers: nothing is in flight. *)
Definition idle (s : st) : Prop :=
  main s = Loop ∧ swapCh s = None ∧
  reader_idle (client s) ∧ rch (rs (client s)) = [] ∧ pump_idle (client s) ∧
  reader_idle (cur s) ∧ rch (rs (cur s)) = [] ∧ pump_idle (cur s) ∧ Forall stopped (olds s).

(** [run] has returned, and so has every goroutine. *)
Definition finished (s : st) : Prop :=
  main s = Seq [] ∧ stopped (client s) ∧ stopped (cur s) ∧ Forall stopped (olds s).

Definition can_step (s : st) : Prop := ∃ a s', internal a = true ∧ exec1 a s = Some s'.

Lemma can_read w l a s r h :
  leg_of w s = Some l → reader_step (closed l) a (rs l) (hp s) = Some (r, h) → can_step s.
Proof. intros Hl Hr. exists (ARead w a). eexists. split; [done|]. simpl. rewrite Hl. simpl. by rewrite Hr. Qed.

Lemma can_pump w l a s p h :
  leg_of w s = Some l → pump_step (closed l) (mutex_free w s) a (ws l) (hp s) = Some (p, h) → can_step s.
Proof. intros Hl Hr. exists (APump w a). eexists. split; [done|]. simpl. rewrite Hl. simpl. by rewrite Hr. Qed.

Lemma can_main a s s' : main_step a s = Some s' → can_step s.
Proof. intros H. by exists (AMain a), s'. Qed.

(** There is always a buffer to read into. *)
Lemma wsReadPooled_fresh mt r h : ∃ i x, wsReadPooled i mt r h = Some x.
Proof.
  set (i := fresh (dom (mem h) ∪ list_to_set (pool h) : gset nat)). exists i.
  assert (Hi : i ∉ (dom (mem h) ∪ list_to_set (pool h) : gset nat)) by apply is_fresh.
  rewrite not_elem_of_union, elem_of_list_to_set in Hi. destruct Hi as [Hm Hp].
  unfold wsReadPooled, get_buf. destruct (take_out i (pool h)) as [p|] eqn:Ht.
  { apply (take_out_cnt _ _ _ i) in Ht. rewrite decide_True in Ht by done. rewrite cnt_elem in Hp. lia. }
  apply not_elem_of_dom in Hm. rewrite Hm.
  destruct (readAllPooled_spec r (replicate 4096 0%Z)) as (b & err & Hrd & _).
  unfold mbind, option_bind. rewrite Hrd. destruct err as [[]|]; eauto.
Qed.

Lemma reader_progress w l s :
  leg_of w s = Some l →
  can_step s ∨ reader_idle l ∨ rd (rs l) = RStopped ∨ read_cap ≤ length (rch (rs l)) ∧ cancelled (rs l) = false.
Proof.
  intros Hl. destruct (rd (rs l)) as [|m|] eqn:Hr; [|..|by auto].
  - destruct (inbox (rs l)) as [|[mt r|e] evs] eqn:Hi.
    + destruct (closed l) eqn:Hc; [left|by right; left].
      eapply (can_read w l RFault); [done|]. unfold reader_step. by rewrite Hr, Hi, Hc.
    + left. destruct (wsReadPooled_fresh mt r (hp s)) as (i & [m h] & Hx).
      eapply (can_read w l (RRead i)); [done|]. unfold reader_step. rewrite Hr, Hi, Hx. done.
    + left. eapply (can_read w l RFault); [done|]. unfold reader_step. by rewrite Hr, Hi.
  - destruct (cancelled (rs l)) eqn:Hc.
    { left. eapply (can_read w l RCancel); [done|]. unfold reader_step. by rewrite Hr, Hc. }
    destruct (decide (length (rch (rs l)) < read_cap)) as [Hlt|Hge]; [left|right; right; right; split; [lia|done]].
    eapply (can_read w l RSend); [done|]. unfold reader_step. by rewrite Hr, decide_True.
Qed.

Lemma pump_progress w l s :
  leg_of w s = Some l → mutex_free w s = true ∨ writing l = true →
  can_step s ∨ pump_idle l ∨ pump (ws l) = PStopped.
Proof.
  intros Hl Hmu. destruct (pump (ws l)) as [| | |failed|] eqn:Hp; [|left..|by auto].
  - destruct (done (ws l)) eqn:Hd.
    { left. eapply (can_pump w l PDone); [done|]. unfold pump_step. by rewrite Hp, Hd. }
    destruct (wch (ws l)) as [|m ms] eqn:Hw; [by right; left|]. left.
    eapply (can_pump w l PTake); [done|]. unfold pump_step. by rewrite Hp, Hw.
  - destruct (decide (wch (ws l) = [] ∨ write_cap ≤ length (batch (ws l)))) as [Hf|Hf].
    { eapply (can_pump w l PFlush); [done|]. unfold pump_step. by rewrite Hp, decide_True. }
    destruct (wch (ws l)) as [|m ms] eqn:Hw; [naive_solver|].
    eapply (can_pump w l PDrain); [done|]. unfold pump_step. rewrite Hp, Hw, decide_True by lia. done.
  - eapply (can_pump w l PLock); [done|]. unfold pump_step. rewrite Hp.
    destruct Hmu as [->|Hx]; [done|]. unfold writing in Hx. by rewrite Hp in Hx.
  - destruct (batch (ws l)) as [|m ms] eqn:Hb.
    + eapply (can_pump w l PEnd); [done|]. unfold pump_step. by rewrite Hp, Hb.
    + eapply (can_pump w l (PWrite false)); [done|]. unfold pump_step. by rewrite Hp, Hb.
Qed.

(** A goroutine that holds a mutex can go on, so mutexes do not block. *)
Lemma mutexes_progress s : can_step s ∨ backendMu_free s = true ∧ clientMu_free s = true.
Proof.
  assert (Hw : ∀ w l, leg_of w s = Some l → writing l = true → can_step s).
  { intros w l Hl Hwr. destruct (pump_progress w l s Hl) as [H|[H|H]]; [by right|done|..]; exfalso;
      unfold writing in Hwr; [destruct H as [H _]|]; by rewrite H in Hwr. }
  destruct (writing (client s)) eqn:Hc; [left; by apply (Hw Client (client s))|].
  destruct (writing (cur s)) eqn:Hb; [left; by apply (Hw Cur (cur s))|].
  destruct (forallb (λ l, negb (writing l)) (olds s)) eqn:Ho.
  - right. unfold backendMu_free, clientMu_free. simpl. by rewrite Hc, Hb, Ho.
  - left. assert (Hex : Exists (λ l, writing l = true) (olds s)).
    { clear -Ho. induction (olds s) as [|l ls IH]; [done|]. simpl in Ho.
      destruct (writing l) eqn:Hl; [by left|right; auto]. }
    apply Exists_exists in Hex as (l & [n Hn]%list_elem_of_lookup_1 & Hl). by apply (Hw (Old n) l).
Qed.

Lemma gone_progress w l s :
  leg_of w s = Some l → gone l → mutex_free w s = true → can_step s ∨ stopped l.
Proof.
  intros Hl (Hc & Hq & Hd) Hmu.
  destruct (reader_progress w l s Hl) as [?|[(_ & Ho & _)|[Hr|[_ Hn]]]]; [by left|congruence| |].
  - destruct (pump_progress w l s Hl) as [?|[(_ & _ & Hx)|Hp]]; [by left|by left|congruence|]. by right.
  - destruct Hq as [Hq|Hq]; [congruence|].
    destruct (pump_progress w l s Hl) as [?|[(_ & _ & Hx)|Hp]]; [by left|by left|congruence|]. by right.
Qed.

Lemma olds_progress s : Forall gone (olds s) → backendMu_free s = true → can_step s ∨ Forall stopped (olds s).
Proof.
  intros Hg Hmu. assert (Hall : ∀ n, n ≤ length (olds s) → can_step s ∨ Forall stopped (take n (olds s))).
  { intros n. induction n as [|n IH]; intros Hn; [by right; rewrite take_0|].
    destruct (IH ltac:(lia)) as [?|Hs]; [by left|].
    destruct (lookup_lt_is_Some_2 (olds s) n ltac:(lia)) as [l Hl].
    destruct (gone_progress (Old n) l s Hl) as [?|Hst]; [by eapply Forall_lookup_1|done|by left|right].
    rewrite (take_S_r _ _ l Hl). apply Forall_app. by split; [|constructor]. }
  destruct (Hall (length (olds s)) ltac:(done)) as [?|H]; [by left|right]. by rewrite firstn_all in H.
Qed.

(** A connection the main goroutine listens to. *)
Lemma live_progress w l s :
  leg_of w s = Some l → live l → mutex_free w s = true → rch (rs l) = [] → werr (ws l) = false →
  can_step s ∨ reader_idle l ∧ pump_idle l.
Proof.
  intros Hl [[Hc Hr] [Hd Hp]] Hmu Hrch Hw.
  destruct (reader_progress w l s Hl) as [?|[Hi|[Hs|[Hn _]]]]; [by left|..].
  - destruct (pump_progress w l s Hl) as [?|[Hx|Hx]]; [by left|by left|by right|]. apply Hp in Hx. congruence.
  - destruct (Hr Hs) as (k & e & Hk). rewrite Hrch in Hk. by destruct k.
  - rewrite Hrch in Hn. unfold read_cap in Hn. simpl in Hn. lia.
Qed.

(** Handing a message to a pump that listens. *)
Lemma hand_progress w l s :
  leg_of w s = Some l → live l → mutex_free w s = true →
  can_step s ∨ werr (ws l) = true ∨ length (wch (ws l)) < write_cap.
Proof.
  intros Hl [_ [Hd Hp]] Hmu. destruct (pump_progress w l s Hl) as [?|[(_ & Hx & _)|Hx]]; [by left|by left|..].
  - right. right. rewrite Hx. unfold write_cap. simpl. lia.
  - right. left. auto.
Qed.

Lemma loop_progress s : linv s → main s = Loop → backendMu_free s = true → can_step s ∨ idle s.
Proof.
  intros [H1 H2 H3 H4] Hm Hmu. rewrite Hm in H4. destruct H4 as [Lc Lb].
  destruct (rch (rs (client s))) as [|x ms] eqn:Hrc; [|left; destruct x; eapply (can_main MClient); simpl; by rewrite Hm, Hrc].
  destruct (rch (rs (cur s))) as [|x ms] eqn:Hrb; [|left; destruct x; eapply (can_main MBackend); simpl; by rewrite Hm, Hrb].
  destruct (werr (ws (cur s))) eqn:Hwb; [left; eapply (can_main MBackendErr); simpl; by rewrite Hm, Hwb|].
  destruct (werr (ws (client s))) eqn:Hwc; [left; eapply (can_main MClientErr); simpl; by rewrite Hm, Hwc|].
  destruct (swapCh s) eqn:Hsw; [left; eapply (can_main MSwap); simpl; by rewrite Hm, Hsw|].
  destruct (live_progress Client (client s) s) as [?|[? ?]]; [done..|by left|].
  destruct (live_progress Cur (cur s) s) as [?|[? ?]]; [done..|by left|].
  destruct (olds_progress s) as [?|?]; [done..|by left|]. by right.
Qed.

Lemma wait_progress u s : linv s → main s = WaitDrain u → can_step s.
Proof.
  intros [_ _ _ H4] Hm. rewrite Hm in H4. destruct H4 as (Lc & [[Hn Hr] Lp] & Hcl).
  destruct (rch (rs (cur s))) as [|x ms] eqn:Hrb; [|eapply (can_main MDrain); simpl; by rewrite Hm, Hrb].
  destruct (reader_progress Cur (cur s) s) as [?|[(_ & Hx & _)|[Hs|[Hx _]]]]; [done|done|congruence|..].
  - destruct (Hr Hs) as (k & e & Hk). rewrite ?Hrb in Hk. by destruct k.
  - rewrite Hrb in Hx. unfold read_cap in Hx. simpl in Hx. lia.
Qed.

Lemma done_progress s : linv s → main s = Seq [] → backendMu_free s = true → can_step s ∨ finished s.
Proof.
  intros [H1 H2 H3 H4] Hm Hmu. rewrite Hm in H4. destruct H4 as [[_ (C1 & C2 & C3 & C4 & C5 & C6)]|[_ H4]]; [|inversion H4].
  assert (Hnil : ∀ (i : instr) (P : Prop), i ∈ [] ∨ P → P) by (by intros i P [[]%elem_of_nil|]).
  apply Hnil in C1, C2, C3, C4, C5, C6.
  destruct (gone_progress Client (client s) s) as [?|?]; [done| |done|by left|].
  { split_and!; [done|by left|done]. }
  destruct (gone_progress Cur (cur s) s) as [?|?]; [done| |done|by left|].
  { by split_and!. }
  destruct (olds_progress s) as [?|?]; [done..|by left|]. by right.
Qed.

Lemma instr_progress i rest s : main s = Seq (i :: rest) → backendMu_free s = true → can_step s.
Proof.
  intros Hm Hmu. assert (Hi : ∃ s', do_instr true i rest s = Some s').
  { destruct i; simpl; rewrite ?Hmu; eauto. }
  destruct Hi as [s' Hi]. apply (can_main (MInstr true) s s'). simpl. by rewrite Hm.
Qed.

Lemma progress s : linv s → can_step s ∨ idle s ∨ finished s.
Proof.
  intros Hs. destruct (mutexes_progress s) as [?|[Hb Hc]]; [by left|].
  destruct (main s) as [|m|m| |u|[|i rest]] eqn:Hm.
  - destruct (loop_progress s); auto.
  - left. destruct Hs as [_ _ _ H4]. rewrite Hm in H4. destruct H4 as [Lc Lb].
    destruct (hand_progress Cur (cur s) s) as [?|[Hw|Hw]]; [done..| |].
    + eapply (can_main MSendErr). simpl. by rewrite Hm, Hw.
    + eapply (can_main MSend). simpl. by rewrite Hm, decide_True.
  - left. destruct Hs as [_ _ _ H4]. rewrite Hm in H4. destruct H4 as [Lc Lb].
    destruct (hand_progress Client (client s) s) as [?|[Hw|Hw]]; [done..| |].
    + eapply (can_main MSendErr). simpl. by rewrite Hm, Hw.
    + eapply (can_main MSend). simpl. by rewrite Hm, decide_True.
  - left. eapply (can_main (MClose true)). simpl. by rewrite Hm, Hc.
  - left. by eapply wait_progress.
  - destruct (done_progress s); auto.
  - left. by eapply instr_progress.
Qed.

Lemma exec_bounded k s s' : forallb internal k = true → exec k s = Some s' → length k + measure s' ≤ measure s.
Proof.
  revert s. induction k as [|a k IH]; intros s Hi H; [by simplify_eq/=|].
  apply andb_prop in Hi as [Ha Hk]. apply bind_Some in H as (s1 & H1 & H).
  apply exec1_decreases in H1; [|done]. specialize (IH s1 Hk H). simpl. lia.
Qed.

(** Internal steps lead to the end. *)
Lemma exec_settles s :
  linv s → ∃ k s', forallb internal k = true ∧ exec k s = Some s' ∧ (idle s' ∨ finished s').
Proof.
  remember (measure s) as n eqn:Hn. revert s Hn. induction n as [n IH] using lt_wf_ind. intros s -> Hs.
  destruct (progress s Hs) as [(a & s1 & Ha & H1)|H]; [|by exists [], s].
  destruct (IH (measure s1)) with (s := s1) as (k & s' & Hk & H & Hd);
    [by eapply exec1_decreases|done|by eapply exec1_linv|].
  exists (a :: k), s'. split_and!; [simpl; by rewrite Ha, Hk| |done]. simpl. by rewrite H1.
Qed.

Lemma exec_app k1 k2 s : exec (k1 ++ k2) s = s1 ← exec k1 s; exec k2 s1.
Proof. revert s. induction k1 as [|a k1 IH]; intros s; simpl; [done|]. destruct (exec1 a s); simpl; auto. Qed.

(** C17. The bridge never wedges: from every state it reaches, the steps of its
    goroutines end after at most [measure s] of them, and as long as none can
    be taken the bridge is idle, both connections open and every queue empty,
    or it has returned, every connection closed and every goroutine gone.  No
    goroutine is left behind by a swap or by the end. *)
Theorem bridge_never_wedges h f l s k s' :
  exec l (start h f) = Some s → forallb internal k = true → exec k s = Some s' →
  length k ≤ measure s ∧ (can_step s' ∨ idle s' ∨ finished s').
Proof.
  intros He Hk Hs. split; [pose proof (exec_bounded k s s' Hk Hs); lia|].
  apply progress. eapply exec_linv; [apply Hs|]. eapply exec_linv; [apply He|]. apply start_linv.
Qed.

(** *** When the client goes *)

Lemma closed_client_kept a s s' : exec1 a s = Some s' → closed (client s) = true → closed (client s') = true.
Proof.
  intros H Hc. destruct a as [w a|w a|a|a]; simpl in H.
  - apply bind_Some in H as (l & Hl & H). apply bind_Some in H as ([r h] & Hr & H). by destruct w; simplify_eq/=.
  - apply bind_Some in H as (l & Hl & H). apply bind_Some in H as ([r h] & Hr & H). by destruct w; simplify_eq/=.
  - by main_cases H.
  - destruct a as [w e|u| |ok| |i|i|i a|i]; simpl in H.
    { apply bind_Some in H as (l & Hl & H). destruct w; simplify_eq/=; destruct (closed _); by simplify_eq/=. }
    all: repeat (case_match || (apply bind_Some in H as (? & ? & ?))); by simplify_eq.
Qed.

Lemma closed_client_exec k s s' : exec k s = Some s' → closed (client s) = true → closed (client s') = true.
Proof.
  revert s. induction k as [|a k IH]; intros s H Hc; [by simplify_eq/=|].
  apply bind_Some in H as (s1 & H1 & H). eapply IH; [done|]. by eapply closed_client_kept.
Qed.

(** Once the client's connection is closed (by Close, in a drain, or by the
    end of [run]), the bridge ends: its goroutines reach, whatever they do
    before, a state in which [run] has returned and none of them is left. *)
Theorem closed_bridge_ends h f l s k s1 :
  exec l (start h f) = Some s → closed (client s) = true → exec k s = Some s1 →
  ∃ k' s', forallb internal k' = true ∧ exec k' s1 = Some s' ∧ finished s'.
Proof.
  intros He Hc Hk.
  assert (Hl : linv s1) by (eapply exec_linv; [apply Hk|]; eapply exec_linv; [apply He|]; apply start_linv).
  destruct (exec_settles s1 Hl) as (k' & s' & Hk' & Hs' & [Hi|Hf]); [|by exists k', s'].
  destruct Hi as (_ & _ & (_ & Ho & _) & _).
  assert (Hx : closed (client s') = true) by (eapply closed_client_exec; [apply Hs'|]; by eapply closed_client_exec).
  congruence.
Qed.

(** C19. A bridge that has come to rest with its first backend has delivered
    everything: what each side sent is what the other was sent. *)
Theorem idle_bridge_delivered h f l s :
  heap_ok h f → exec l (start h f) = Some s → idle s → olds s = [] →
  delivered (sent (ws (cur s))) = hist (rs (client s)) ∧ delivered (sent (ws (client s))) = hist (rs (cur s)).
Proof.
  intros Hh He Hi Ho. apply exec_good in He as [(Hp1 & Hp2 & _) _ _ [_ _ Hu Hd]]; [|by apply start_good].
  destruct Hi as (Hm & _ & [Hr1 _] & Hc1 & (P1 & W1 & _) & [Hr2 _] & Hc2 & (P2 & W2 & _) & _).
  assert (Hr : relaying s) by (split; [done|by rewrite Hm]).
  unfold upstream, upstream_at, downstream, downstream_at, backend_hist, written, works, due, got, handC, handB in *.
  rewrite Ho, Hm, P1, P2, W1, W2, Hc1, Hc2, Hr1, Hr2, Hp1, Hp2 in * by auto. simpl in *.
  rewrite !app_nil_r in *. rewrite <- Hu, <- Hd by done. done.
Qed.

End WsLive.

(** ** Runs *)

Module WsEnds.
Import WsRuns WsLive.

(** The client sends a message, which is written, and the bridge rests. *)
Definition rested : list act :=
  [AOther (XRecv Client (text [1; 2]%Z))] ++ read_msg Client 7 ++ [AMain MClient; AMain MSend] ++ write_msg Cur.

Lemma idle_bridge_delivered_witness :
  ∃ s, exec rested (start h0 []) = Some s ∧ idle s ∧
    hist (rs (client s)) = [(TextMessage, [1; 2]%Z)] ∧ delivered (sent (ws (cur s))) = hist (rs (client s)).
Proof.
  destruct (exec rested (start h0 [])) as [s|] eqn:Hs; [|by vm_compute in Hs]. exists s.
  assert (Hi : idle s ∧ olds s = [] ∧ hist (rs (client s)) = [(TextMessage, [1; 2]%Z)]).
  { vm_compute in Hs. simplify_eq. by repeat split. }
  destruct Hi as (Hi & Ho & Hh). split_and!; [done|done|done|].
  apply (idle_bridge_delivered h0 [] rested s h0_ok Hs Hi Ho).
Defined.

Lemma bridge_never_wedges_witness :
  ∃ s s', exec (take 1 rested) (start h0 []) = Some s ∧ exec (drop 1 rested) s = Some s' ∧
    length (drop 1 rested) ≤ measure s ∧ (can_step s' ∨ idle s' ∨ finished s').
Proof.
  destruct (exec rested (start h0 [])) as [s'|] eqn:Hs; [|by vm_compute in Hs].
  rewrite <- (take_drop 1 rested), exec_app in Hs. apply bind_Some in Hs as (s & H1 & H2).
  exists s, s'. split; [done|split; [done|]].
  by apply (bridge_never_wedges h0 [] (take 1 rested) s (drop 1 rested) s').
Defined.

(** The client's connection is closed while a message is on its way. *)
Definition closing : list act :=
  [AOther (XRecv Client (text [1; 2]%Z)); AOther (XClose true); AOther XCloseConn].

Lemma closed_bridge_ends_witness :
  ∃ s k' s', exec closing (start h0 []) = Some s ∧ exec k' s = Some s' ∧ finished s'.
Proof.
  destruct (exec closing (start h0 [])) as [s|] eqn:Hs; [|by vm_compute in Hs].
  destruct (closed_bridge_ends h0 [] closing s [] s Hs) as (k' & s' & _ & H1 & H2);
    [by vm_compute in Hs; simplify_eq|done|].
  by exists s, k', s'.
Defined.

(** The backend answers and closes the connection in order; the answer waits in
    the queue of the client's pump when the main goroutine sends the close frame
    and ends. *)
Definition lost_tail : list act :=
  [AOther (XRecv Cur (text [9]%Z)); AOther (XRecv Cur (Fault (CloseError CloseNormalClosure)))] ++
  read_msg Cur 7 ++ fail Cur ++ [AMain MBackend; AMain MSend; AMain MBackend; AMain (MClose true)] ++ instrs 7 ++
  [APump Client PDone; ARead Client RFault; ARead Client RSend; APump Cur PDone].

(** When a backend answers and then closes the connection, the client may
    get the close frame and never the answer: the main goroutine writes the
    close frame without waiting for the queue of the client's pump, and its
    deferred function stops that pump.  Every step of the run is one the
    scheduler may take; no write fails. *)
Theorem closing_backend_loses_messages :
  ∃ s, exec lost_tail (start h0 []) = Some s ∧ finished s ∧
    hist (rs (cur s)) = [(TextMessage, [9]%Z)] ∧ sent (ws (client s)) = [CloseFrame CloseNormalClosure ""].
Proof.
  destruct (exec lost_tail (start h0 [])) as [s|] eqn:Hs; [|by vm_compute in Hs]. exists s.
  vm_compute in Hs. simplify_eq. by repeat split.
Qed.

(** SwapBackend is preempted between its select and its Close; the main
    goroutine swaps in the meantime. *)
Definition swap_race : list act :=
  [AOther (XSwap "b2"); AMain MSwap] ++ fail Cur ++ [AMain MDrain] ++ instrs 7 ++
  [AOther XSwapClose] ++ fail Cur ++ [AMain MBackend] ++ instrs 7.

(** A rebalance can disconnect the client it is meant to move silently:
    SwapBackend closes [b.backend] after it has queued the new address, and
    when the main goroutine has completed the swap in between, the connection
    it closes is the new one; the bridge takes this for the end of the backend
    and closes the client's connection. *)
Theorem late_close_disconnects_client :
  ∃ s, exec swap_race (start h0 []) = Some s ∧ length (olds s) = 1 ∧ main s = Seq [] ∧
    closed (cur s) = true ∧ closed (client s) = true ∧ inbox (rs (client s)) = [].
Proof.
  destruct (exec swap_race (start h0 [])) as [s|] eqn:Hs; [|by vm_compute in Hs]. exists s.
  vm_compute in Hs. simplify_eq. by repeat split.
Qed.

(** A message of the client is queued for the old backend when the swap stops
    its pump. *)
Definition swap_loses : list act :=
  [AOther (XRecv Client (text [5]%Z))] ++ read_msg Client 7 ++ [AMain MClient; AMain MSend; AOther (XSwap "b2"); AMain MSwap] ++
  fail Cur ++ [AMain MDrain] ++ instrs 8.

(** A swap is not transparent to the messages under way: those queued for the
    old backend are dropped, and the new one never gets them. *)
Example swap_drops_queued :
  ∃ s, exec swap_loses (start h0 []) = Some s ∧ main s = Loop ∧ length (olds s) = 1 ∧
    hist (rs (client s)) = [(TextMessage, [5]%Z)] ∧ sent (ws (cur s)) = [] ∧ in_flight s = [] ∧
    (olds s ≫= λ o, sent (ws o)) = [].
Proof.
  destruct (exec swap_loses (start h0 [])) as [s|] eqn:Hs; [|by vm_compute in Hs]. exists s.
  vm_compute in Hs. simplify_eq. by repeat split.
Qed.

End WsEnds.
