(* ===== verification/Deployment.v ===== *)
(** * The proxy on the Redis store

    The operations verified against the store contract, run on a RedisStore over
    the in-memory server: each theorem about them is applied to a concrete
    state, with every hypothesis discharged by evaluation. *)
From stdpp Require Import base gmap strings list sorting fin_maps relations.
From Stdlib Require Import ZArith Lia.
From S2P Require Import Prelude Go Hashing Assignment Store RebalanceStrategy UserCache Poison Hold ConnTracker World Rebalancer Drain.
From S2P Require Import GoFloat Discovery Backends HealthChecker RedisBreaker RateLimiter JWT Proxy Session Failover System Metrics ProxyMetrics SampleBackend Login RedisClient Redis RedisOps StoreRedis RedisSticky.
Import RC StoreRedis StoreRedis.RedisExamples.
Local Open Scope Z_scope.

Module Deployment.
#[local] Existing Instance map_iter_canonical.
#[local] Existing Instance RedisSticky.redis_sticky.

Definition all_on : config := mkConfig true true true true.

(** [u1] is cached on [b1] until 60 s, with an open WebSocket. *)
Definition ex_world : world (RedisStore mem) :=
  mkWorld ex_store (UC.Set_ 0 "u1" "b1" (UC.NewUserCache (60 * Second)))
    (Hold.NewHoldManager (5 * Second)) (CT.Add "u1" "ws1" CT.NewConnTracker) [].

Lemma ex_world_live : live (w_store ex_world).
Proof. apply ex_live. Qed.

(** ** Rebalance: [b2] and [b4] are active, [b1] has to go. *)

Lemma rebalance_carries_out_witness :
  ∃ moves w', ComputeMoves (RebalanceStrategy := ConsistentHashStrategy) (tbl (w_store ex_world))
      (sort_Strings ["b4"; "b2"]) = Some moves ∧
    Rebalancer.rebalance ConsistentHashStrategy all_on true true 7 ["b4"; "b2"] ex_world = Some w' ∧
    live (w_store w') ∧
    ∀ b, load (tbl (w_store w')) b = load (apply_moves moves (tbl (w_store ex_world))) b.
Proof.
  destruct (Rebalancer.rebalance_carries_out ConsistentHashStrategy all_on true 7 ["b4"; "b2"] ex_world)
    as (moves & w' & Hc & Hr & Hl & _ & Hload & _).
  - apply ex_world_live.
  - done.
  - done.
  - done.
  - by vm_compute.
  - by apply (bool_decide_unpack _); vm_compute.
  - by vm_compute.
  - exists moves, w'. split; [exact Hc|]. split; [exact Hr|]. split; [exact Hl|exact Hload].
Defined.

Lemma rebalance_hook_protocol_witness :
  ∃ moves w' before after,
    ComputeMoves (RebalanceStrategy := ConsistentHashStrategy) (tbl (w_store ex_world))
      (sort_Strings ["b4"; "b2"]) = Some moves ∧
    Rebalancer.rebalance ConsistentHashStrategy all_on true true 7 ["b4"; "b2"] ex_world = Some w' ∧
    w_trace w' = before ++ after.
Proof.
  destruct (Rebalancer.rebalance_hook_protocol ConsistentHashStrategy all_on true 7 ["b4"; "b2"] ex_world)
    as (moves & w' & before & after & Hc & Hr & Ht & _).
  - apply ex_world_live.
  - done.
  - done.
  - done.
  - by vm_compute.
  - by apply (bool_decide_unpack _); vm_compute.
  - by vm_compute.
  - exists moves, w', before, after. split; [exact Hc|]. split; [exact Hr|exact Ht].
Defined.

(** ** Drain *)

Lemma one_drain_per_backend_witness :
  let d := Drain.finish "b1" (Drain.CancelDrain "b1" (Drain.StartDrain "b2" (Drain.StartDrain "b1"
             (Drain.StartDrain "b1" Drain.NewDrainManager)))) in
  Drain.running d = ["b2"] ∧ NoDup (Drain.running d).
Proof.
  split; [by vm_compute|]. apply Drain.one_drain_per_backend.
  eapply rtc_l; [apply (Drain.step_start "b1")|]. eapply rtc_l; [apply (Drain.step_start "b1")|].
  eapply rtc_l; [apply (Drain.step_start "b2")|]. eapply rtc_l; [apply (Drain.step_cancel "b1")|].
  eapply rtc_l; [apply (Drain.step_finish "b1")|].
  - by apply (bool_decide_unpack _); vm_compute.
  - apply rtc_refl.
Defined.

(** [b1] is drained after two failed attempts to lock. *)
Lemma drain_evacuates_witness :
  ∃ w', Drain.drain all_on Drain.Assignment_ [Drain.Busy false; Drain.Busy false; Drain.Got] 7 "b1" ex_world
        = Some w' ∧
    act (w_store w') = act (w_store ex_world) ∖ {["b1"]} ∧ load (tbl (w_store w')) "b1" = 0 ∧ closed "ws1" w'.
Proof.
  destruct (Drain.drain_evacuates all_on [Drain.Busy false; Drain.Busy false; Drain.Got] 7 "b1" ex_world)
    as (w' & Hd & _ & Ha & Hload & Hx & _).
  - apply ex_world_live.
  - done.
  - by vm_compute.
  - done.
  - by apply (bool_decide_unpack _); vm_compute.
  - exists w'. split; [exact Hd|]. split; [exact Ha|]. split; [exact Hload|].
    apply Hx. right. split; [done|]. exists "u1", (mkAssignment "b1" 0 "assignment" 3).
    split; [by vm_compute|]. split; [done|]. by apply (bool_decide_unpack _); vm_compute.
Defined.

(** ** Discovery: [u3] is on the inactive [b3], [u9] is new. *)

Definition ex_accounts : list Discovery.DiscoveredAccount :=
  [Discovery.mkAccount "u1" 9; Discovery.mkAccount "u3" 4; Discovery.mkAccount "u9" 0].

Lemma reconcile_places_witness :
  ∃ w', Discovery.reconcile all_on 7 (ex_accounts, None) ex_world = Some w' ∧ live (w_store w') ∧
    ∀ k, k ∉ Discovery.ID <$> ex_accounts → tbl (w_store w') !! k = tbl (w_store ex_world) !! k.
Proof.
  destruct (Discovery.reconcile_places all_on 7 ex_accounts ex_world) as (w' & Hr & Hl & _ & _ & Hk).
  - apply ex_world_live.
  - done.
  - by vm_compute.
  - by apply (bool_decide_unpack _); vm_compute.
  - apply Forall_forall. repeat constructor; by vm_compute.
  - done.
  - by vm_compute.
  - exists w'. split; [exact Hr|]. split; [exact Hl|exact Hk].
Defined.

(** ** Eviction *)

Lemma eviction_clears_mappings_witness :
  let w' := Backends.invalidateStickyMappings all_on Drain.Assignment_
              (λ b, via (RedisSticky.InvalidateBackend b)) 7 "b1" ex_world in
  live (w_store w') ∧ act (w_store w') = act (w_store ex_world) ∧
  tbl (w_store w') !! "u1" = None ∧ UC.data (w_cache w') !! "u1" = None.
Proof.
  destruct (Backends.eviction_clears_mappings all_on (λ b, via (RedisSticky.InvalidateBackend b)) 7 "b1" ex_world)
    as (Hl & Ha & Ht & Hc).
  - apply ex_world_live.
  - done.
  - by vm_compute.
  - by apply (bool_decide_unpack _); vm_compute.
  - split; [exact Hl|]. split; [exact Ha|]. split; [rewrite Ht|rewrite Hc]; by vm_compute.
Defined.

(** ** Health checks *)

Definition ex_checker : HC.HealthChecker (RedisStore mem) :=
  HC.set_states {["b1" := HC.fresh_health; "b2" := HC.fresh_health]} (HC.NewHealthChecker ex_store).

(** Five passes, with a backend added by someone else after the third: [b2]
    fails three times and answers again, [b1] fails twice only. *)
Definition ex_pass (b1 b2 : bool) : HC.event (S := RedisStore mem) :=
  HC.Check id 10 (λ b, if bool_decide (b = "b1") then b1 else b2).

Definition ex_passes : list (HC.event (S := RedisStore mem)) :=
  [ex_pass false true; ex_pass false false; ex_pass true false;
   HC.Others (λ s, (AddBackend "b9" s).2); ex_pass true false; ex_pass false true].

Lemma ex_undisturbed b : b ≠ "b9" → HC.undisturbed HC.defaults b ex_passes ex_checker.
Proof.
  intros Hb. do 3 (split; [split; [done|by apply (bool_decide_unpack _); vm_compute]|]).
  split; [|do 2 (split; [split; [done|by apply (bool_decide_unpack _); vm_compute]|]); done].
  intros s Hs. destruct (AddBackend_spec "b9" s Hs) as (s' & -> & Hl & Hact & _). cbn [snd]. rewrite Hact. set_solver.
Qed.

Lemma passes_evict_at_threshold_witness :
  let hc' := foldl (HC.step HC.defaults) ex_checker ex_passes in
  act (HC.store hc') = {["b1"; "b9"]} ∧
  ("b2" ∈ act (HC.store hc') ↔
    ¬ ∃ before after, HC.results "b2" ex_passes = before ++ replicate 3 false ++ after).
Proof.
  split; [by vm_compute|]. apply (HC.passes_evict_at_threshold HC.defaults).
  - done.
  - done.
  - apply ex_live.
  - by apply (bool_decide_unpack _); vm_compute.
  - right. by vm_compute.
  - by apply ex_undisturbed.
Defined.

(** ** Requests *)

Definition ex_params (mode : Proxy.routing_mode) : Proxy.params :=
  Proxy.mkParams mode "sub" ["/public/"] all_on.

Definition ex_proxy : Proxy.Proxy (RedisStore mem) :=
  Proxy.mkProxy ex_world (Backends.NewBackendManager 3 (30 * Second)) (Some Drain.NewDrainManager)
    (Some (Poison.NewPoisonPillDetector 3 Minute)) (Some (CB.NewBreaker 5 (10 * Second)))
    RL.proxy_limiter (JWT.NewJWTCache 100).

Definition ex_request (auth : string) : Proxy.request := Proxy.mkReq "/api" "10.0.0.1:999" auth false.

(** The answer and the state of a run. *)
Definition outcome {A} (o : option (A * Proxy.Proxy (RedisStore mem))) : option A := fst <$> o.

Lemma outcome_some {A} (o : option (A * Proxy.Proxy (RedisStore mem))) a :
  outcome o = Some a → ∃ p, o = Some (a, p).
Proof. destruct o as [[a' p]|]; [|done]. intros [= ->]. by exists p. Qed.

Definition serve (auth : string) : option (Proxy.answer * Proxy.Proxy (RedisStore mem)) :=
  Proxy.ServeHTTP (ex_params Proxy.ModeAssignment) (λ _, true) JWT.JWTExamples.parse 1 2 3 true "" id
    (ex_request auth) ex_proxy.

Lemma authenticated_only_witness :
  outcome (serve "Bearer tok") = Some (Proxy.ToBackend "b2" "alice" Backends.Forwarded) ∧
  outcome (serve "Bearer forged") = Some Proxy.Unauthorized ∧
  ∃ j, (JWT.extractUserIDFromJWT JWT.JWTExamples.parse "sub" 1 "Bearer tok" (Proxy.p_jwt ex_proxy)).1 = Some j ∧
    JWT.RoutingKey j = "alice".
Proof.
  assert (Hok : outcome (serve "Bearer tok") = Some (Proxy.ToBackend "b2" "alice" Backends.Forwarded))
    by by vm_compute.
  split; [exact Hok|]. split; [by vm_compute|].
  destruct (outcome_some _ _ Hok) as [p' Hs].
  destruct (Proxy.authenticated_only (ex_params Proxy.ModeAssignment) (λ _, true) JWT.JWTExamples.parse
    1 2 3 true "" id (ex_request "Bearer tok") ex_proxy (Proxy.ToBackend "b2" "alice" Backends.Forwarded) p') as [Ht _].
  - by vm_compute.
  - exact Hs.
  - apply (Ht "b2" "alice"). done.
Defined.

Definition first_visit : option (Proxy.answer * Proxy.Proxy (RedisStore mem)) :=
  Proxy.route (ex_params Proxy.ModeAssignment) (λ _, true) 1 2 true (ex_request "") "alice" ex_proxy.

(** Half a minute in which [bob] arrives, [alice] comes back, a public response
    binds [carol], the cache is swept, [b3] is dropped and [b1] starts draining. *)
Definition half_minute : list (Session.event (S := RedisStore mem)) :=
  [Session.Pass (10 * Second); Session.Authorize (ex_request "Bearer tok"); Session.Request 3 true (ex_request "") "bob";
   Session.Request 3 true (ex_request "") "alice"; Session.Public 3 true "carol" (ex_request "");
   Session.Pass (20 * Second); Session.Sweep; Session.Forget "bob"; Session.ForgetBackend "b3";
   Session.Elsewhere (λ p, Proxy.mkProxy (Proxy.p_world p) (Proxy.p_backends p)
     (Drain.StartDrain "b1" <$> Proxy.p_drain p) (Proxy.p_poison p) (Proxy.p_redis p) (Proxy.p_limiter p) (Proxy.p_jwt p));
   Session.Request 3 true (ex_request "") "u1"; Session.Request 3 true (ex_request "") "alice"].

Definition half_minute_run (p : Proxy.Proxy (RedisStore mem)) :=
  Session.run (ex_params Proxy.ModeAssignment) (λ _, true) JWT.JWTExamples.parse half_minute 1 p.

Definition half_minute_spared (p : Proxy.Proxy (RedisStore mem)) : bool :=
  Session.spared_run (ex_params Proxy.ModeAssignment) (λ _, true) JWT.JWTExamples.parse "alice" "b2" half_minute 1 p.

Definition half_minute_log : option (list (string * option (string * string)) * Z) :=
  match first_visit with
  | Some (_, p) =>
      match half_minute_run p with
      | Some (qs, (t, _)) => Some ((λ x, (Session.q_key x, Proxy.target (Session.q_answer x))) <$> qs, t)
      | None => None
      end
  | None => None
  end.

Lemma sticky_session_witness :
  ∃ p1 qs t2 p2 e,
    first_visit = Some (Proxy.ToBackend "b2" "alice" Backends.Forwarded, p1) ∧ half_minute_run p1 = Some (qs, (t2, p2)) ∧
    ((λ x, (Session.q_key x, Proxy.target (Session.q_answer x))) <$> qs)
      = [("bob", Some ("b1", "bob")); ("alice", Some ("b2", "alice")); ("u1", Some ("b1", "u1")); ("alice", Some ("b2", "alice"))] ∧
    Session.entry "alice" p2 = Some e ∧ UC.backend e = "b2" ∧
    Forall (λ x, Session.q_key x = "alice" →
      Proxy.target (Session.q_answer x) = Some ("b2", "alice") ∧ Session.q_after x = Session.q_before x) qs.
Proof.
  assert (Hok : outcome first_visit = Some (Proxy.ToBackend "b2" "alice" Backends.Forwarded)) by by vm_compute.
  destruct (outcome_some _ _ Hok) as [p1 Hs].
  assert (Hrun : half_minute_log = Some ([("bob", Some ("b1", "bob")); ("alice", Some ("b2", "alice")); ("u1", Some ("b1", "u1")); ("alice", Some ("b2", "alice"))],
            1 + 30 * Second)) by by vm_compute.
  unfold half_minute_log in Hrun. rewrite Hs in Hrun.
  destruct (half_minute_run p1) as [[qs [t2 p2]]|] eqn:Hr; [|done]. injection Hrun as Hlog Ht2.
  destruct (Session.sticky_session (ex_params Proxy.ModeAssignment) (λ _, true) JWT.JWTExamples.parse 1 2 true (ex_request "") "alice"
    ex_proxy (Proxy.ToBackend "b2" "alice" Backends.Forwarded) p1 "b2" "alice" half_minute qs t2 p2 Hs)
    as (e & He & Hb & Hexp & Hall).
  - done.
  - exact Hr.
  - apply Session.spared_run_ok. assert (Hsp : half_minute_spared <$> (snd <$> first_visit) = Some true) by by vm_compute.
    rewrite Hs in Hsp. by injection Hsp.
  - destruct Hexp as [[Hold _]|Hexp]; [by vm_compute in Hold|].
    destruct Hall as [He2 Hq]; [by rewrite Hexp, Ht2; vm_compute|].
    exists p1, qs, t2, p2, e. split; [exact Hs|]. split; [exact Hr|]. split; [exact Hlog|]. split; [exact He2|].
    split; [exact Hb|exact Hq].
Defined.

Lemma request_follows_table_witness :
  ∃ a ans p1, first_visit = Some (ans, p1) ∧ Proxy.target ans = Some (Backend a, "alice") ∧
    tbl (w_store (Proxy.p_world p1)) = <["alice" := a]> (tbl (w_store ex_world)).
Proof.
  destruct (Proxy.request_follows_table (ex_params Proxy.ModeAssignment) (λ _, true) 1 2 true (ex_request "")
    "alice" ex_proxy) as (a & ans & p1 & Hr & Ht & _ & _ & Htb & _).
  - done.
  - by vm_compute.
  - by vm_compute.
  - apply ex_world_live.
  - by vm_compute.
  - by vm_compute.
  - exists a, ans, p1. split; [exact Hr|]. split; [exact Ht|exact Htb].
Defined.

Lemma hash_mode_agrees_witness :
  ∃ b ans p1,
    Proxy.route (ex_params Proxy.ModeHash) (λ _, true) 1 2 true (ex_request "") "alice" ex_proxy
      = Some (ans, p1) ∧
    Proxy.target ans = Some (b, "alice") ∧
    index_mod (sort_Strings ["b2"; "b1"]) (HashUser "alice") = Some b.
Proof.
  destruct (Proxy.hash_mode_agrees (ex_params Proxy.ModeHash) (λ _, true) 1 2 true (ex_request "") "alice" ex_proxy)
    as (b & ans & p1 & Hr & Ht & _ & Hi).
  - done.
  - by vm_compute.
  - apply ex_world_live.
  - by vm_compute.
  - by vm_compute.
  - exists b, ans, p1. split; [exact Hr|]. split; [exact Ht|]. rewrite <- Hi. by vm_compute.
Defined.

(** [u1] is assigned to [b1]; a response of [b2] asks for [u1]. *)
Lemma sticky_binding_splits_user_witness :
  let p' := Proxy.bindStickyKey (ex_params Proxy.ModeAssignment) 7 "u1" "b2" ex_proxy in
  tbl (w_store (Proxy.p_world p')) !! "u1" = Some (mkAssignment "b1" 0 "assignment" 3) ∧
  UC.live 7 (UC.data (w_cache (Proxy.p_world p'))) "u1" = Some "b2".
Proof.
  apply (Proxy.sticky_binding_splits_user (ex_params Proxy.ModeAssignment) 7 "u1" "b2" ex_proxy
    (mkAssignment "b1" 0 "assignment" 3)).
  - done.
  - apply ex_world_live.
  - done.
  - done.
  - by vm_compute.
  - by vm_compute.
  - by vm_compute.
  - by vm_compute.
Defined.


(** ** An outage: three requests to [b1] failed at once *)

Definition failed (b : string) (bm : Backends.BackendManager) : Backends.BackendManager :=
  Nat.iter 3 (λ bm, (Backends.recordFailure 0 b bm).2) bm.

Definition ex_outage : Proxy.Proxy (RedisStore mem) := Proxy.set_backends (failed "b1" (Proxy.p_backends ex_proxy)) ex_proxy.

Lemma outage_quarantines_user_witness :
  ∃ p', Failover.requests (ex_params Proxy.ModeAssignment) (λ _, true) "u1" [1; 2; 3; 4] (ex_request "")
      (Proxy.set_world (Backends.invalidateStickyMappings all_on Drain.Assignment_ (λ b, via (RedisSticky.InvalidateBackend b))
         1 "b1" ex_world) ex_outage)
    = Some ([Proxy.ToBackend "b1" "u1" Backends.Unavailable; Proxy.ToBackend "b1" "u1" Backends.Unavailable;
             Proxy.ToBackend "b1" "u1" Backends.Unavailable; Proxy.Quarantined], p').
Proof.
  apply (Failover.outage_quarantines_user (ex_params Proxy.ModeAssignment) (λ _, true)
    (λ b, via (RedisSticky.InvalidateBackend b)) "u1" "b1" (30 * Second) 1 [2; 3; 4] (ex_request "") ex_outage
    (Poison.NewPoisonPillDetector 3 Minute) (Backends.mkFailure 3 (30 * Second)) (mkAssignment "b1" 0 "assignment" 3)).
  - done.
  - by intros.
  - apply ex_world_live.
  - done.
  - by vm_compute.
  - by apply (bool_decide_unpack _); vm_compute.
  - by apply (bool_decide_unpack _); vm_compute.
  - by vm_compute.
  - done.
  - intros b' Hb' _. assert (Hb : b' ∈ ["b1"; "b2"]).
    { apply elem_of_elements in Hb'. by vm_compute in Hb'. }
    repeat (apply elem_of_cons in Hb as [->|Hb]; [by vm_compute|]). by apply elem_of_nil in Hb.
  - intros e He. vm_compute in He. by injection He as <-.
  - by vm_compute.
  - done.
  - done.
  - done.
  - by apply (bool_decide_unpack _); vm_compute.
  - done.
  - done.
  - by vm_compute.
  - done.
  - done.
  - repeat constructor; by vm_compute.
Defined.

(** ** A schedule: a backend joins, users come, a backend is drained and evicted *)

Definition ex_schedule : list System.event :=
  [System.Register "b4"; System.Request 1 2 true (ex_request "") "alice";
   System.DrainBackend [Drain.Busy false; Drain.Got] 3 "b1"; System.Rebalance true true 4 ["b2"; "b4"];
   System.PublicRequest 5 6 true "bob" (ex_request ""); System.Evict 7 "b2"; System.Reconcile 8 ex_accounts].

Definition run_event : System.event → Proxy.Proxy (RedisStore mem) → option (Proxy.Proxy (RedisStore mem)) :=
  System.exec (ex_params Proxy.ModeAssignment) (λ _, true) ConsistentHashStrategy (λ b, via (RedisSticky.InvalidateBackend b)).

Definition schedule_ok : list System.event → Proxy.Proxy (RedisStore mem) → Prop :=
  System.admissible_all (ex_params Proxy.ModeAssignment) (λ _, true) ConsistentHashStrategy
    (λ b, via (RedisSticky.InvalidateBackend b)).

(** One event of a schedule, with the state it leads to. *)
Lemma schedule_ok_cons ev evs p :
  System.admissible (ex_params Proxy.ModeAssignment) ev p →
  schedule_ok evs (default ex_proxy (run_event ev p)) → schedule_ok (ev :: evs) p.
Proof.
  intros Ha Hr. split; [exact Ha|]. intros p' Hp. change (run_event ev p = Some p') in Hp. by rewrite Hp in Hr.
Qed.

Lemma schedule_keeps_store_witness :
  ∃ p', System.exec_all (ex_params Proxy.ModeAssignment) (λ _, true) ConsistentHashStrategy
      (λ b, via (RedisSticky.InvalidateBackend b)) ex_schedule ex_proxy = Some p' ∧
    live (System.store_of p') ∧ act (System.store_of p') = {["b2"; "b4"]} ∧ total (tbl (System.store_of p')) ≤ 22.
Proof.
  destruct (System.schedule_keeps_store (ex_params Proxy.ModeAssignment) (λ _, true) ConsistentHashStrategy
    (λ b, via (RedisSticky.InvalidateBackend b)) ex_schedule ex_proxy) as (p' & He & Hl & Ha & Ht).
  - apply ex_world_live.
  - by vm_compute.
  - apply schedule_ok_cons; [done|].
    apply schedule_ok_cons; [by vm_compute|].
    apply schedule_ok_cons; [split; [done|]; split; [done|]; by apply (bool_decide_unpack _); vm_compute|].
    apply schedule_ok_cons.
    { split; [done|]. split; [done|]. split; [done|]. split; [by apply (bool_decide_unpack _); vm_compute|done]. }
    apply schedule_ok_cons; [split; by vm_compute|].
    apply schedule_ok_cons; [split; [done|]; by apply (bool_decide_unpack _); vm_compute|].
    apply schedule_ok_cons; [|exact I].
    split; [done|]. split; [by apply (bool_decide_unpack _); vm_compute|]. split; [|done].
    apply Forall_forall. repeat constructor; by vm_compute.
  - exists p'. split; [exact He|]. split; [exact Hl|]. split; [rewrite Ha; by vm_compute|]. etrans; [exact Ht|]. by vm_compute.
Defined.

(** ** A login *)

Lemma login_sticks_witness :
  let response := (SampleBackend.login_handler true (SampleBackend.login_body_of (SampleBackend.mkLogin "carol" 0))
                     SampleBackend.sample_backend).1 in
  Login.sticky_header response = Some "carol" ∧
  ∃ p' a, Proxy.servePublic (ex_params Proxy.ModeAssignment) (λ _, true) 1 2
      (bool_decide (is_Some (Login.sticky_header response))) (default "" (Login.sticky_header response)) (ex_request "") ex_proxy
      = Some (Proxy.ToPublic "b2" Backends.Forwarded, p') ∧
    tbl (w_store (Proxy.p_world p')) !! "carol" = Some a ∧ Backend a = "b2".
Proof.
  intros response. split; [by vm_compute|].
  destruct (Login.login_sticks (S := RedisStore mem) (ex_params Proxy.ModeAssignment) (λ _, true) ltac:(done) ltac:(by intros) 1 2 (ex_request "") ex_proxy
    (SampleBackend.mkLogin "carol" 0) SampleBackend.sample_backend ∅ "b2" "carol") as (_ & p' & a & Hs & Ht & Hb & _).
  - apply ex_world_live.
  - by vm_compute.
  - by vm_compute.
  - by vm_compute.
  - by vm_compute.
  - by vm_compute.
  - done.
  - by vm_compute.
  - done.
  - done.
  - done.
  - done.
  - by vm_compute.
  - done.
  - by vm_compute.
  - exists p', a. split; [exact Hs|]. split; [exact Ht|exact Hb].
Defined.

(** ** The books: a forged token, a user whose backend fails, a public path *)

Definition bookkept (ok : bool) (path auth : string) : option ((Proxy.answer * Proxy.Proxy (RedisStore mem)) * list ProxyMetrics.call) :=
  ProxyMetrics.ServeHTTP (ex_params Proxy.ModeAssignment) (λ _, true) JWT.JWTExamples.parse 1 2 3 ok "" id
    (Some Hold.TimedOut) (of_int 1) (Proxy.mkReq path "10.0.0.1:999" auth false) ex_proxy.

Definition closing : list ProxyMetrics.call :=
  [ProxyMetrics.DecActiveConnections; ProxyMetrics.RecordRequestDuration (of_int 1)].

Definition books : list ProxyMetrics.served :=
  [ProxyMetrics.mkServed false Proxy.Unauthorized
     ([ProxyMetrics.IncRequests; ProxyMetrics.IncActiveConnections; ProxyMetrics.IncAuthFailures] ++ closing);
   ProxyMetrics.mkServed false (Proxy.ToBackend "b2" "alice" Backends.BackendError)
     ([ProxyMetrics.IncRequests; ProxyMetrics.IncActiveConnections; ProxyMetrics.IncHoldRequests; ProxyMetrics.IncHoldTimeouts;
       ProxyMetrics.IncCacheHitsStore; ProxyMetrics.IncBackendRequests "b2"] ++ closing);
   ProxyMetrics.mkServed true (Proxy.ToPublic "b2" Backends.Forwarded)
     ([ProxyMetrics.IncRequests; ProxyMetrics.IncActiveConnections; ProxyMetrics.IncBackendRequests "b2"] ++ closing)].

Lemma bookkept_served ok path auth x :
  (λ res, (res.1.1, res.2)) <$> bookkept ok path auth = Some (ProxyMetrics.s_answer x, ProxyMetrics.s_calls x) →
  ProxyMetrics.s_public x = Proxy.isPublicPath (ex_params Proxy.ModeAssignment) path →
  ProxyMetrics.is_served (S := RedisStore mem) (ex_params Proxy.ModeAssignment) (λ _, true) JWT.JWTExamples.parse x.
Proof.
  unfold bookkept. destruct (ProxyMetrics.ServeHTTP _ _ _ _ _ _ _ _ _ _ _ _ _) as [[[a p'] ks]|] eqn:Hs; [|done].
  intros [= Ha Hk] Hp. simpl in Ha, Hk. subst. do 9 eexists. exists ex_proxy, p'. split; [exact Hs|done].
Qed.

Lemma books_balance_witness :
  let m := ProxyMetrics.run_calls (ProxyMetrics.IncHookFailures :: concat (ProxyMetrics.s_calls <$> books)) ProxyMetrics.zero in
  Metrics.count_of m Metrics.totalRequests = 3 ∧ Metrics.count_of m Metrics.authFailures = 1 ∧
  ProxyMetrics.tally ProxyMetrics.failed books = 1 ∧ Metrics.count_of m Metrics.backendErrors = 0 ∧
  default 0 (Metrics.backendRequests m !! "b2") = ProxyMetrics.tally (ProxyMetrics.sent_to "b2") books ∧
  ProxyMetrics.tally (ProxyMetrics.sent_to "b2") books = 2.
Proof.
  destruct (ProxyMetrics.books_balance (S := RedisStore mem) (ex_params Proxy.ModeAssignment) (λ _, true) JWT.JWTExamples.parse
    books [ProxyMetrics.IncHookFailures]
    (ProxyMetrics.IncHookFailures :: concat (ProxyMetrics.s_calls <$> books)))
    as (Ht & _ & _ & Ha & _ & _ & Hm & He & _ & _ & _ & Hb).
  - repeat apply Forall_cons_2; [apply (bookkept_served true "/api" "Bearer forged")|apply (bookkept_served false "/api" "Bearer tok")
      |apply (bookkept_served true "/public/x" "")|apply Forall_nil_2]; by vm_compute.
  - by repeat constructor.
  - apply Permutation_cons_append.
  - done.
  - split; [exact Ht|]. split; [exact Ha|]. split; [by vm_compute|].
    split; [etrans; [exact He|]; etrans; [exact Hm|]; by vm_compute|].
    split; [|by vm_compute]. etrans; [apply Hb|]. by vm_compute.
Defined.
End Deployment.
