(* ===== verification/DeploymentReplicas.v ===== *)
(** * Replicas on the Redis store

    Schedules of two replicas over the in-memory server: the theorems on
    staleness applied to one that ends well, and one in which a request that was
    between the store and its cache brings a drained backend back. *)
From stdpp Require Import base gmap strings list fin_maps.
From Stdlib Require Import ZArith Lia.
From S2P Require Import Prelude Go Assignment Store UserCache World Drain Backends RedisBreaker Proxy Replicas.
From S2P Require Import RedisClient Redis RedisOps StoreRedis RedisSticky Deployment.
Import RC StoreRedis StoreRedis.RedisExamples Deployment Replicas.
Local Open Scope Z_scope.

Module DeploymentReplicas.
#[local] Existing Instance map_iter_canonical.
#[local] Existing Instance RedisSticky.redis_sticky.

Definition ttl : Z := 60 * Second.
Definition latency : Z := 1 * Second.
Definition mode : Proxy.params := ex_params Proxy.ModeAssignment.

Definition init : sys (RedisStore mem) := mkSys 0 ex_store ∅ ∅ [] [].
Definition schedule (evs : list event) : option (list (sys (RedisStore mem)) * sys (RedisStore mem)) :=
  exec_all mode ttl latency evs [init] init.

Lemma schedule_run evs l s : schedule evs = Some (l, s) → run mode ttl latency l s.
Proof. apply exec_all_run. constructor. Qed.

(** Two replicas ask for [u1], which the table has on [b1]; the second one
    later than [ttl + latency]. *)
Definition calm : list event :=
  [Join 0 ex_proxy; Join 1 ex_proxy; Lookup 0 0 "u1"; Ask 0; Finish 0; Tick (70 * Second);
   Lookup 0 1 "u1"; Ask 0; Tick Second; Finish 0; Lookup 0 1 "u1"].

(** The outcome of a schedule that ran to its end. *)
Lemma schedule_some {A} (f : list (sys (RedisStore mem)) * sys (RedisStore mem) → A) evs a :
  f <$> schedule evs = Some a → ∃ l s, schedule evs = Some (l, s) ∧ f (l, s) = a.
Proof. destruct (schedule evs) as [[l s]|]; [|done]. intros [= <-]. by exists l, s. Qed.

#[local] Instance breaker_closed_dec now (p : Proxy.Proxy (RedisStore mem)) : Decision (Proxy.breaker_closed now p).
Proof. unfold Proxy.breaker_closed. destruct (Proxy.p_redis p); apply _. Defined.

(** No replica takes Redis for down. *)
Definition breakers_closed (s : sys (RedisStore mem)) : Prop :=
  map_Forall (λ _ p, Proxy.breaker_closed (clock s) p) (reps s).

Definition late : fwd := mkFwd (71 * Second) 1 "u1" "b1".

Lemma bounded_staleness_witness :
  ∃ l s s0 s1 p, schedule calm = Some (l, s) ∧ late ∈ fwds s ∧ adjacent l s0 s1 ∧
    71 * Second - ttl - latency ≤ clock s0 ≤ 71 * Second ∧ reps s0 !! 1%nat = Some p.
Proof.
  destruct (schedule_some (λ r, (fwds r.2, strays r.2)) calm ([mkFwd 0 0 "u1" "b1"; late; late], []))
    as (l & s & Hrun & [= Hf Hst]); [by vm_compute|]. simpl in Hf, Hst.
  assert (Hin : late ∈ fwds s) by (rewrite Hf; right; left).
  destruct (bounded_staleness mode ttl latency ltac:(done) ltac:(done) l s late (schedule_run _ _ _ Hrun) Hin)
    as [(s0 & s1 & p & Ha & _ & Ht & Hp & _)|(x & Hx & _)].
  2: { clear - Hst Hx. rewrite Hst in Hx. destruct (not_elem_of_nil x Hx). }
  exists l, s, s0, s1, p. split; [exact Hrun|]. split; [exact Hin|]. split; [exact Ha|]. split; [exact Ht|exact Hp].
Defined.

(** What the schedule [calm] did: the requests forwarded, the stores, whether a
    breaker was open. *)
Definition report (res : list (sys (RedisStore mem)) * sys (RedisStore mem)) :=
  (fwds res.2, strays res.2, shared <$> res.1, bool_decide (Forall breakers_closed res.1)).

Lemma replicas_converge_witness :
  ∃ l s, schedule calm = Some (l, s) ∧ late ∈ fwds s ∧ f_backend late = "b1".
Proof.
  destruct (schedule_some report calm ([mkFwd 0 0 "u1" "b1"; late; late], [], replicate 12 ex_store, true))
    as (l & s & Hrun & [= Hf Hno Hst Hb]);
    [vm_cast_no_check (eq_refl (Some ([mkFwd 0 0 "u1" "b1"; late; late], @nil fwd, replicate 12 ex_store, true)))|].
  assert (Hin : late ∈ fwds s) by (rewrite Hf; right; left).
  apply bool_decide_eq_true in Hb. rewrite Forall_forall in Hb.
  exists l, s. split; [exact Hrun|]. split; [exact Hin|].
  apply (replicas_converge mode ttl latency ltac:(done) ltac:(done) l s late 0 "b1" (schedule_run _ _ _ Hrun)).
  - intros s0 Hs0 _.
    assert (shared s0 = ex_store) as ->.
    { assert (shared s0 ∈ shared <$> l) as Hel by by apply list_elem_of_fmap_2.
      rewrite Hst in Hel. by apply (elem_of_replicate 12) in Hel as [? _]. }
    split.
    + intros r p Hp. split; [apply ex_live|]. split; [by vm_compute|]. split; [by vm_compute|]. by apply (Hb s0 Hs0 r).
    + intros b' (a & Ha & <-). vm_compute in Ha. by injection Ha as <-.
  - rewrite Hno. intros x Hx. destruct (not_elem_of_nil x Hx).
  - exact Hin.
  - done.
Defined.

(** ** After an invalidation

    Both replicas have served [u2] from [b2].  [b2] is taken out of the active
    set and [u2] off the table, and each replica drops its entries of [b2]. *)

Definition without_b2 : RedisStore mem :=
  NewRedisStore (mkMem (put_set (add empty_db "u1" "b1" 3) Redis.k_active {["b1"]}) []).

Lemma without_b2_live : live without_b2.
Proof. split; [apply ex_reliable|]. apply RedisOps.inv_put_set, add_inv; [apply table_inv_empty|done..]. Qed.

Lemma without_b2_silent key : ¬ says mode without_b2 key "b2".
Proof.
  intros (a & Ha & Hb). assert (tbl without_b2 = {["u1" := mkAssignment "b1" 0 "assignment" 3]}) as Ht by by vm_compute.
  rewrite Ht in Ha. apply lookup_singleton_Some in Ha as [_ <-]. done.
Qed.

Definition invalidation : list event :=
  [Join 0 ex_proxy; Join 1 ex_proxy; Lookup 0 0 "u2"; Ask 0; Finish 0; Lookup 0 1 "u2"; Ask 0; Finish 0;
   Change without_b2; DropBackend 0 "b2"; DropBackend 1 "b2"].

(** In the end a response of [b2] names [u1], whom the table has on [b1]. *)
Definition aftermath : list (event (S := RedisStore mem)) :=
  [Lookup 0 0 "u1"; Ask 0; Lookup 1 1 "u1"; Tick Second; Finish 0; Lookup 0 0 "u1"; Bind 1 "u1" "b2"; Tick Second; Lookup 2 1 "u1"].

Definition stray_u1 : fwd := mkFwd Second 1 "u1" "b2".

(** No entry of [b2], no request under way. *)
Definition drops_b2 (s : sys (RedisStore mem)) : Prop :=
  map_Forall (λ _ p, UC.ttl (cache p) = ttl ∧ map_Forall (λ _ e, UC.backend e ≠ "b2") (UC.data (cache p))) (reps s) ∧ reqs s = ∅.

Lemma drops_b2_clean s : drops_b2 s → clean ttl "b2" s.
Proof.
  intros [Hc Hq]. split.
  - intros r p Hp. by destruct (Hc r p Hp).
  - intros r p key e Hp He. destruct (Hc r p Hp) as [_ Hd]. by apply (Hd key e).
  - intros g r key b' t. by rewrite Hq, lookup_empty.
Qed.

Definition calm_without (s : sys (RedisStore mem)) : Prop := shared s = without_b2 ∧ breakers_closed s.

Lemma exec_all_without evs l s l' s' :
  exec_all mode ttl latency evs l s = Some (l', s') → s ∈ l →
  (∀ s0, s0 ∈ l' → calm_without s0) → rtc (step_without mode ttl latency "b2") s s'.
Proof.
  intros He Hs Hl. assert (Hsub : l ⊆ l' ∧ (calm_without s → rtc (step_without mode ttl latency "b2") s s')); [|by apply Hsub, Hl, Hsub].
  revert l s He Hs. induction evs as [|ev evs IH]; intros l s He Hs; simpl in He; [by simplify_eq|].
  apply bind_Some in He as (s1 & H1 & He). destruct (IH _ _ He) as [Hsub Hrtc]; [set_solver|].
  assert (Hc1 : calm_without s1) by (apply Hl, Hsub; set_solver). split; [set_solver|].
  intros [Hst Hb]. apply rtc_l with s1; [|by apply Hrtc]. split; [by apply (exec_step mode ttl latency ev)|]. split.
  - intros r p Hp. rewrite Hst. split; [apply without_b2_live|]. split; [by vm_compute|].
    split; [by vm_compute|by apply (Hb r)].
  - intros key. rewrite (proj1 Hc1). apply without_b2_silent.
Qed.

Lemma invalidation_is_final_witness :
  ∃ l s l' s', schedule invalidation = Some (l, s) ∧ exec_all mode ttl latency aftermath [s] s = Some (l', s') ∧
    fwds s = [mkFwd 0 0 "u2" "b2"; mkFwd 0 1 "u2" "b2"] ∧ strays s' = [stray_u1] ∧
    ∃ new since, fwds s' = fwds s ++ new ∧ strays s' = strays s ++ since ∧
      Forall (λ f, f_backend f = "b2" → ∃ x, x ∈ since ∧ bound_by x f ∧ f_at x ≤ f_at f ≤ f_at x + ttl) new.
Proof.
  destruct (schedule_some (λ r, (fwds r.2, bool_decide (drops_b2 r.2),
      (λ r', (strays r'.2, shared <$> r'.1, bool_decide (Forall breakers_closed r'.1))) <$>
        exec_all mode ttl latency aftermath [r.2] r.2))
    invalidation ([mkFwd 0 0 "u2" "b2"; mkFwd 0 1 "u2" "b2"], true, Some ([stray_u1], replicate 10 without_b2, true)))
    as (l & s & Hrun & [= Hf Hd Ha]); [by vm_compute|].
  apply fmap_Some in Ha as ([l' s'] & Ha & [= Hsy Hst Hb]). apply eq_sym, bool_decide_eq_true in Hb. apply bool_decide_eq_true in Hd.
  exists l, s, l', s'. split; [exact Hrun|]. split; [exact Ha|]. split; [exact Hf|]. split; [symmetry; exact Hsy|].
  apply (invalidation_is_final mode ttl latency "b2" s s' (drops_b2_clean s Hd)).
  apply (exec_all_without aftermath [s] s l' s' Ha); [by left|].
  intros s0 Hs0. split; [|rewrite Forall_forall in Hb; by apply Hb].
  assert (shared s0 ∈ shared <$> l') as Hel by by apply list_elem_of_fmap_2.
  simpl in Hst. rewrite <- Hst in Hel. by apply (elem_of_replicate 10) in Hel as [? _].
Defined.

(** ** A request brings a drained backend back

    Replica 0 has asked for [alice] and got [b2]; before it writes its cache,
    another replica drains [b2], which unassigns its users, takes [b2] out of
    the active set, and has every replica drop its entries of [b2].  Then
    replica 0 writes its entry: for its lifetime the replica routes [alice] to the
    drained [b2], while the table and replica 1 have her on [b1]. *)

Definition alice_store : RedisStore mem := (AssignLeastLoaded 0 "alice" ex_store).2.

Definition drained : RedisStore mem :=
  w_store (default ex_world (Drain.drain all_on Drain.Assignment_ [Drain.Got] 0 "b2" (set_store alice_store ex_world))).

Definition race : list event :=
  [Join 0 ex_proxy; Join 1 ex_proxy; Lookup 0 0 "alice"; Ask 0; Change drained;
   DropBackend 0 "b2"; DropBackend 1 "b2"; Finish 0; Lookup 1 1 "alice"; Ask 1; Finish 1;
   Tick (59 * Second); Lookup 0 0 "alice"; Lookup 1 1 "alice"].

Lemma drained_backend_returns :
  ∃ l s, schedule race = Some (l, s) ∧ run mode ttl latency l s ∧
    fwds s = [mkFwd 0 0 "alice" "b2"; mkFwd 0 1 "alice" "b1";
              mkFwd (59 * Second) 0 "alice" "b2"; mkFwd (59 * Second) 1 "alice" "b1"] ∧
    says mode (shared s) "alice" "b1" ∧ act (shared s) = {["b1"]}.
Proof.
  destruct (schedule_some (λ res, (fwds res.2, Backend <$> tbl (shared res.2) !! "alice", act (shared res.2))) race
    ([mkFwd 0 0 "alice" "b2"; mkFwd 0 1 "alice" "b1"; mkFwd (59 * Second) 0 "alice" "b2";
      mkFwd (59 * Second) 1 "alice" "b1"], Some "b1", {["b1"]})) as (l & s & Hrun & [= Hf Hsays Hact]); [by vm_compute|].
  exists l, s. split; [done|]. split; [by apply schedule_run in Hrun|]. split; [done|]. split; [|done].
  apply fmap_Some in Hsays as (a & Ha & Hb). exists a. split; [exact Ha|by rewrite Hb].
Qed.
End DeploymentReplicas.
