(* ===== verification/DeploymentPg.v ===== *)
(** * The proxy on the Postgres store

    The theorems about the whole process, applied to a process over the
    in-memory PostgreSQL server. *)
From stdpp Require Import base gmap strings list fin_maps.
From Stdlib Require Import ZArith Lia.
From S2P Require Import Prelude Go Assignment Store UserCache Hold ConnTracker World Drain Discovery BackendDiscovery Backends Rebalancer RebalanceStrategy.
From S2P Require Import RateLimiter JWT Config Proxy Wiring PgClient Postgres PgTable StorePostgres Accounts Lifecycle Executables.
Import PG StorePostgres StorePostgres.PostgresExamples.
Local Open Scope Z_scope.

Module DeploymentPg.
#[local] Existing Instance map_iter_canonical.

(** A source with one answer. *)
#[local] Instance answered : Accounts.AccountSource (result (list Discovery.DiscoveredAccount)) := λ r, (r, r).

Definition everything : config := mkConfig true true true true.

Definition pg_world {S} (s : S) : world S :=
  mkWorld s (UC.NewUserCache Minute) (Hold.NewHoldManager (5 * Second)) CT.NewConnTracker [].

(** The name resolves to one new address; of the accounts [u1] was on a backend
    that is gone and [u9] is new. *)
Lemma startup_places_accounts_witness :
  let accounts := [Discovery.mkAccount "u1" 2; Discovery.mkAccount "u9" 0] in
  ∃ w' gs, Lifecycle.StartDiscovery everything (Some (Lifecycle.Dns "80" (["10.0.0.1"], None))) None
      (Some (accounts, None)) 7000 (pg_world (ex_pg [])) = Some (w', Some (accounts, None), gs) ∧
    act (w_store w') = {["http://10.0.0.1:80"]} ∧
    ∃ a, tbl (w_store w') !! "u9" = Some a ∧ Backend a ∈ BD.DNS.discovered "80" ["10.0.0.1"].
Proof.
  intros accounts.
  destruct (Lifecycle.startup_places_accounts everything "80" ["10.0.0.1"] (accounts, None) None 7000 accounts (accounts, None)
    (pg_world (ex_pg []))) as (w' & gs & Hs & _ & Ha & Hp).
  - apply ex_pg_live.
  - done.
  - done.
  - by vm_compute.
  - by apply (bool_decide_unpack _); vm_compute.
  - apply Forall_forall. repeat constructor; by vm_compute.
  - by vm_compute.
  - by vm_compute.
  - exists w', gs. split; [exact Hs|]. split; [rewrite Ha; by apply (bool_decide_unpack _); vm_compute|].
    destruct (Hp (Discovery.mkAccount "u9" 0)) as (a & Hlk & Hin & _); [apply list_elem_of_further, list_elem_of_here|].
    exists a. split; [exact Hlk|exact Hin].
Defined.

(** ** The whole start: the environment of a deployment with accounts *)

Definition env (k : string) : string :=
  default "" ((list_to_map
    [("JWT_SECRET", "s3cret"); ("ROUTING_MODE", "assignment"); ("ASSIGNMENT_STORE", "postgres"); ("POSTGRES_DSN", "postgres://db");
     ("ACCOUNTS_DISCOVERY", "postgres"); ("ACCOUNTS_QUERY", "SELECT id, weight FROM accounts");
     ("BACKEND_DISCOVERY", "dns"); ("BACKEND_DISCOVERY_HOST", "backends"); ("BACKEND_DISCOVERY_PORT", "80")] : gmap string string) !! k).

Definition ex_accounts : list Discovery.DiscoveredAccount := [Discovery.mkAccount "u1" 2; Discovery.mkAccount "u9" 0].

Definition net : ProxyMain.network (result (list Discovery.DiscoveredAccount)) :=
  ProxyMain.mkNetwork (Wiring.mkOutside None None None) (λ _, (["10.0.0.1"], None)) ([], None) (λ _, (ex_accounts, None)).

Lemma main_places_accounts_witness :
  ∃ p loops, ProxyMain.main env net 7000 (ex_pg []) = ProxyMain.Serving ":8080" p (loops ++ [ProxyMain.HealthChecks; ProxyMain.Listener]) ∧
    act (w_store (Proxy.p_world p)) = {["http://10.0.0.1:80"]} ∧
    ∃ a, tbl (w_store (Proxy.p_world p)) !! "u9" = Some a ∧ Backend a ∈ BD.DNS.discovered "80" ["10.0.0.1"].
Proof.
  destruct (Config.Load env) as [e|c] eqn:Hc; [by vm_compute in Hc|].
  destruct (Wiring.New (ProxyMain.clients net) c) as [| |w] eqn:Hw; [vm_compute in Hc; simplify_eq; by vm_compute in Hw..|].
  assert (Hport : Config.ProxyPort (Config.limits c) = ":8080") by (vm_compute in Hc; by simplify_eq).
  assert (Hd : Wiring.backendDiscovery w = Some (Wiring.ByDNS "backends" "80") ∧ Wiring.source w = Some Wiring.SrcPostgres)
    by (vm_compute in Hc; simplify_eq; vm_compute in Hw; by simplify_eq).
  destruct (ProxyMain.main_places_accounts env net 7000 (ex_pg []) c w "backends" "80" ["10.0.0.1"] Wiring.SrcPostgres
    ex_accounts (ex_accounts, None)) as (p & loops & Hm & Hl & Ha & Hp).
  - exact Hc.
  - exact Hw.
  - apply Hd.
  - done.
  - done.
  - apply Hd.
  - done.
  - apply ex_pg_live.
  - by vm_compute.
  - by apply (bool_decide_unpack _); vm_compute.
  - apply Forall_forall. repeat constructor; by vm_compute.
  - by vm_compute.
  - by vm_compute.
  - exists p, loops. rewrite Hm, Hport. split; [done|]. split; [rewrite Ha; by apply (bool_decide_unpack _); vm_compute|].
    destruct (Hp (Discovery.mkAccount "u9" 0)) as (a & Hlk & Hin & _); [apply list_elem_of_further, list_elem_of_here|].
    exists a. split; [exact Hlk|exact Hin].
Defined.

(** ** A signal *)

Definition params : Proxy.params := Proxy.mkParams Proxy.ModeAssignment "sub" [] everything.

Definition running : Lifecycle.process (PostgresStore mem) :=
  Lifecycle.mkProcess
    (Proxy.mkProxy (pg_world (Lifecycle.mkHandle (ex_pg []) true)) (Backends.NewBackendManager 3 (30 * Second))
       (Some Drain.NewDrainManager) None None RL.proxy_limiter (JWT.NewJWTCache 100))
    (Lifecycle.mkChannels (Some false) (Some (false, false)) (Some false) false false false) false true.

Definition request : Proxy.request := Proxy.mkReq "/api" "10.0.0.1:999" "" false.

(** Before the signal the request is forwarded, after it it is not. *)
Lemma shutdown_rejects_in_flight_witness :
  fst <$> Lifecycle.decides params (λ _, true) 1 2 true request "u1" running = Some (Proxy.ToBackend "b1" "u1" Backends.Forwarded) ∧
  ∃ pr' pr2, Lifecycle.on_signal running = Some pr' ∧
    Lifecycle.decides params (λ _, true) 1 2 true request "u1" pr' = Some (Proxy.NoBackend, pr2).
Proof.
  split; [by vm_compute|]. destruct (Lifecycle.on_signal running) as [pr'|] eqn:Hs; [|by vm_compute in Hs].
  destruct (Lifecycle.shutdown_rejects_in_flight params (λ _, true) 1 2 true request "u1" running pr') as [pr2 H2].
  - exact Hs.
  - done.
  - vm_compute in Hs. simplify_eq. by vm_compute.
  - done.
  - exists pr', pr2. split; [done|exact H2].
Defined.

End DeploymentPg.
